(* ===== verification/_CoqProject ===== *)
-Q . S2P
Prelude.v
GoStrings.v
GoTime.v
GoFlag.v
GoJson.v
Common.v
Types.v
DeepCopy.v
AwsProvider.v
KubeProvider.v
Metrics.v
Registry.v
Logging.v
Env.v
SampleEnv.v
Events.v
AwsClient.v
KubeClient.v
Cloud.v
Steps.v
Drift.v
Uniform.v
Targets.v
Balloon.v
Cordon.v
Drain.v
Replace.v
Rotate.v
Progress.v
Fleet.v
Converge.v
Reconciler.v
Admission.v
Lifecycle.v
Restart.v
Completion.v
Startup.v
