(* ===== verification/Prelude.v ===== *)
(** * Verification of keikoproj/upgrade-manager

    upgrade-manager is a Kubernetes controller.  A RollingUpgrade resource names
    an AWS scaling group; the controller replaces the group's instances whose
    launch configuration or template is outdated ("drifted"), batch by
    batch: tag, put to standby and wait for replacements (eager mode), drain the
    nodes in goroutines, terminate the instances.

    ** The program and the files that model it

    - GoStrings, GoTime: what the code uses of Go's strings, strconv, time, math and
      float64.  Strings are byte strings, EqualFold decodes UTF-8; int is 64 bits wide,
      with its wrap-around where the code computes with unbounded data; float64 is
      computed with the Standard Library's IEEE 754 operations.
    - GoFlag: Go's flag package and the parts of strconv it parses values with.  GoJson: encoding/json's
      Marshal of a map of strings, and a reader of JSON objects to specify it with.
    - Common: controllers/common/utils.go, errors, Go maps and sync.Map (a gmap;
      Range and len are functions of the code's own callbacks; a Range that others
      interfere with is a walk in Admission).
    - Types: api/v1alpha1/rollingupgrade_types.go, all of it: the resource,
      its constants, accessors, setters and Validate.
    - DeepCopy: api/v1alpha1/zz_generated.deepcopy.go on a heap of typed cells, with the
      pointers, maps and slices of the structs as references.
    - AwsProvider, KubeProvider: the data of the AWS SDK and of nodes, and the pure
      functions of controllers/providers/aws/utils.go and kubernetes/utils.go.
    - Metrics: controllers/common/metrics.go, the gauges and observations as data; Registry: the same
      package with its collectors on a heap, its maps of pointers and the registry they are registered
      with, each call a thread of atomic steps.
    - Logging: controllers/common/log/log.go and retry.go, the logger as its level, formatter
      and the calls made to it.
    - Env: the class [Env] of everything the controller calls that is not in the
      repository (the AWS SDK, the API server, kubectl's drain package, the clock, the
      shell, the orders in which Go ranges over maps and runs goroutines), as functions on
      an abstract world; the state [St] of a RollingUpgradeContext (the resource, the
      discovered cloud, the heap of cached nodes with the pointers that
      alias it, the drain manager, the trace of outside calls); a Hoare-style triple and
      frame relations for it.
    - SampleEnv: a concrete environment, in which the witnesses run.
    - Events: controllers/providers/kubernetes/events.go.
    - AwsClient, KubeClient, Cloud: controllers/providers/aws/autoscaling.go and ec2.go,
      controllers/providers/kubernetes/nodes.go, controllers/script_runner.go and
      controllers/cloud.go, each method with the outside call it makes.
    - Steps: controllers/metrics.go, the step durations and statistics of nodes.
    - Drift, Uniform, Targets, Balloon, Cordon: controllers/upgrade.go by concern:
      drift, progress and readiness; the round-robin over zones; the choice of the batch; the
      limit on replacement nodes and standby; early cordon with its retries.
    - Drain: the drain goroutines of ReplaceNodeBatch as a machine.  Each has a program counter;
      a schedule, chosen by the environment, says which one runs next, when the select
      receives an error, sees the group done or times out; goroutines outlive
      the call that started them, and the next call lets those left over run at four points: at its start,
      before and after the switch on the mode (also when that returns), and after the interval checks.
    - Replace: ReplaceNodeBatch and RotateNodes, whole; Rotate: their theorems; Progress: what
      a batch achieves when everything works.
    - Fleet: what the cloud keeps and how it reacts, and how each operation changes what is left to do;
      Converge: a rotation finishes or leaves less to do.
    - Reconciler: controllers/rollingupgrade_controller.go: Reconcile with its deferred
      Update, the admission map, the lock, the node cache and the node events.
    - Admission: several workers.  The operations of concurrent handlers on the two
      sync.Maps, interleaved; a Range is a walk that visits one key at a time and need not see a snapshot.
    - Lifecycle: the status as a typed record, and that every operation keeps it typed.
    - Restart: the API server as a store of resources, and the controller restarted between handlers.
    - Completion: the reconciles of one upgrade, one after the other, until it is complete.
    - Startup: main.go, DeriveRegion and the Kubernetes configuration.

    The operations live in a state monad with panics, [M] below: a Go function of
    type (A, error) is an operation that returns a pair or an option, a nil dereference
    or a slice out of range is [Panic].  The operations keep the names of the source;
    helpers in lower case are pieces of one Go function, cut at its comments.

    ** What the theorems show (C1 to C39)

    - Rotation: only live, tagged or drifted instances of the resource's own group are
      terminated (C1), each after the drain of its node was called for (C2), under every schedule; only the batch is
      touched (C17); eager mode waits for standby and readiness (C10, C22) and
      the intervals hold (C18), also while goroutines of earlier calls run on; the status says what happened (C6); the wait group counts the
      running goroutines (C9).
    - Progress: when the outside cooperates and the scheduler is fair, a batch that its mode lets through is
      terminated in one call (C16), and a lazy upgrade is complete after at most one reconcile
      for each instance and one more (C12): [Completion.on_course] is what has to hold from one
      reconcile to the next, and the number of pending instances of the fleet decreases.
    - Choice of the batch: C3, C19, C20, C23; drift: C21.
    - Admission: [admission_step] is the abstract controller, Reconcile refines it (C5), so one
      worker keeps one upgrade per group and the limit (C4, in Restart: whichever writes fail, as long as the
      controller is not restarted), also across restarts when writes can be relied on (C11); what a
      reconcile may do and reports (C7, C8), the handover (C27); with several workers
      the limit is exceeded by at most the workers less one, besides the resources that List reported as running
      (C25), and a handler that is not interleaved with others is the sequential one (C26).
    - Data: the written status is well formed and its phase never goes back (C13); deep
      copies share nothing with their originals (C14); validation (C29).
    - Metrics and events: what a scrape shows is what the model records, for calls that do not
      overlap (C15); an event says what it was given (C32).
    - Limits, cordon, statistics, paging: C24, C28, C33, C34; start of the program: the flags
      (C30), the order of the start (C31).
    - Where the code does not do what it means to, the theorem says what it does: C35 to C39, and
      outside the list [Rotate.late_target_undrained], [Rotate.mode_letter_case], [Cordon.early_cordon_not_undone],
      [Startup.refused_limit_admits_nothing], [Restart.lost_label_forgets].

    ** Bounds and fuel

    The loops of the code are structural here, on the list or the page they range
    over, except: GetChunks (fuel is the number of items, enough by [GetChunks_total]), the
    round-robin over zones (fuel is the number of targets, enough by C20), and the retry loops of
    the early cordon (the constant 3 of the code).  [await] is structural on
    the schedule of one select: an exhausted schedule is the timeout of five seconds.
    [Drift.complete_percentage_nearest] is for groups of at most 100 nodes, by computation.
    The four runs of a goroutine in [Progress.fair] are its four parts; the bound on goroutines in
    [Completion.drained] is what the schedule of the environment has room for.  The six steps of
    [Registry.run] are enough by [Registry.run_ready]; the fuel of GoJson's reader is the length of its input.

    ** Assumptions

    Named classes state documented behaviour of outside code where a theorem needs it:
    [IntOrStringLaws] (intstr: GetScaledValueFromIntOrPercent), [CordonLaws] (kubectl's cordon changes only the
    schedulability), [NodeApiLaws] (the API answers about the node asked for), [StoreLaws] (the API
    server keeps resources under their names, reads return what is stored, a status
    update that succeeds writes the status only and a label patch that succeeds the label, and one that fails does that
    or nothing), [MetaLaws] (the metadata's own deep
    copies are deep copies), [Cooperative] (requests succeed), [CloudLaws] (descriptions return what is
    there, a terminated instance leaves its group and what replaces it runs the group's
    configuration), [ApiCooperates] (the API server answers), [RegistryLaws] (the Prometheus registry accepts a new
    consistent descriptor with valid names and UTF-8 labels, and refuses a known one).  Beyond these, C4 and C11 restrict what users do to the
    status of resources, C11 assumes [reliable_writes] (label patches succeed, a refused status update writes nothing;
    [Restart.lost_label_forgets] shows that it is needed), and C12 that no node event arrives
    in between, since each evicts a node from the cache (C39).  Each class has a concrete instance in
    which a witness runs.  Everything else the outside may answer is arbitrary.

    ** What is not modelled

    The text of log messages, the registration of the types with
    the API machinery, the sleeps between retries, the text of script output, and the buckets and quantiles
    of collectors.  The interleaving
    of two rotations inside AWS and Kubernetes calls is not modelled: in Reconciler a handler runs as a
    whole, in Admission the rotation is one step.  The goroutines left over from earlier calls run between the
    parts of ReplaceNodeBatch named above, not between any two of its requests.  The controller-runtime client is read as if it had
    no cache: what it returns is what is stored.

    ** Plan

    Next: the interleaving of whole rotations of two resources over the shared replacement
    counter and node heap; completion in eager mode, where the replacements have to become ready; the percentage for every
    group size; the completeness of the node cache. *)

From stdpp Require Export prelude gmap strings list sorting pretty.
From Stdlib Require Export ZArith Lia.

#[export] Set Warnings "-clear-no-such-hyp".

(** ** Outcomes: Go code either returns a value or panics

    Go errors are ordinary values (see [Common.error]); a panic (nil dereference,
    slice bounds) is the only thing that leaves a function sideways. *)
Inductive outcome (A : Type) : Type :=
| Val (a : A)
| Panic.
Arguments Val {A} a.
Arguments Panic {A}.

#[export] Instance outcome_ret : MRet outcome := @Val.

#[export] Instance outcome_bind : MBind outcome := fun A B f o =>
  match o with Val a => f a | Panic => Panic end.

(** A dereference of a pointer: [None] is the nil pointer. *)
Definition deref {A} (p : option A) : outcome A :=
  match p with Some a => Val a | None => Panic end.

Definition is_val {A} (o : outcome A) : bool :=
  match o with Val _ => true | Panic => false end.

(** ** The state monad of the model: explicit state, and a panic keeps the
    state it happened in (Go does not roll anything back). *)
Definition M (S A : Type) : Type := S -> outcome A * S.

#[export] Instance M_ret {S} : MRet (M S) := fun A a s => (Val a, s).

#[export] Instance M_bind {S} : MBind (M S) := fun A B f m s =>
  match m s with
  | (Val a, s') => f a s'
  | (Panic, s') => (Panic, s')
  end.

Definition get {S} : M S S := fun s => (Val s, s).
Definition gets {S A} (f : S -> A) : M S A := fun s => (Val (f s), s).
Definition modify {S} (f : S -> S) : M S unit := fun s => (Val tt, f s).
Definition lift {S A} (o : outcome A) : M S A := fun s => (o, s).

Notation "m ;;; k" := (m ≫= (fun _ : unit => k))
  (at level 100, k at level 200, right associativity) : stdpp_scope.

(** A Go [for _, x := range l { body }] whose body only falls through or
    [continue]s. *)
Fixpoint for_each {S A} (l : list A) (body : A -> M S unit) : M S unit :=
  match l with
  | [] => mret tt
  | x :: l' => body x ;;; for_each l' body
  end.

(** The same loop when the body can [return] from the enclosing function:
    [Some r] is that return. *)
Fixpoint for_return {S A R} (l : list A) (body : A -> M S (option R)) : M S (option R) :=
  match l with
  | [] => mret None
  | x :: l' => r ← body x;
      match r with Some _ => mret r | None => for_return l' body end
  end.

(** A loop that carries local variables [b]. *)
Fixpoint fold_m {S A B} (body : B -> A -> M S B) (b : B) (l : list A) : M S B :=
  match l with
  | [] => mret b
  | x :: l' => b' ← body b x; fold_m body b' l'
  end.

(** ** Relational framing

    [preserves R m]: whatever [m] does, panics included, the state it leaves is
    related to the state it started in.  With a preorder [R] the property is
    compositional, and the tactic [frame] below proves it by following the
    program text. *)
Definition preserves {S A} (R : relation S) (m : M S A) : Prop :=
  forall s, R s (m s).2.

(** A projection of the state that does not change. *)
Definition keeps {S A} (f : S -> A) (s s' : S) : Prop := f s' = f s.

(** [returns m P]: every value [m] returns satisfies [P]. *)
Definition returns {S A} (m : M S A) (P : A -> Prop) : Prop :=
  forall s a s', m s = (Val a, s') -> P a.

(** ** Machine integers *)
Definition wrap (w : Z) (z : Z) : Z :=
  let m := (z `mod` 2 ^ w)%Z in
  if (m <? 2 ^ (w - 1))%Z then m else (m - 2 ^ w)%Z.

(** Go's [int] and [int64] on the 64-bit platforms the controller is built for. *)
Definition int64 (z : Z) : Z := wrap 64 z.
Definition int32 (z : Z) : Z := wrap 32 z.
Definition max_int64 : Z := (2 ^ 63 - 1)%Z.
Definition min_int64 : Z := (- 2 ^ 63)%Z.
Definition in_int64 (z : Z) : Prop := (min_int64 <= z <= max_int64)%Z.
Definition in_int32 (z : Z) : Prop := (- 2 ^ 31 <= z <= 2 ^ 31 - 1)%Z.

(** [len(s)] of a slice. *)
Definition zlen {A} (l : list A) : Z := Z.of_nat (length l).

(** Go's slice expression [l[:n]]: panics outside [0..len]. *)
Definition slice_to {A} (l : list A) (n : Z) : outcome (list A) :=
  if (0 <=? n)%Z && (n <=? zlen l)%Z then Val (take (Z.to_nat n) l) else Panic.

(** ** Hint databases and tactics *)
Create HintDb frame.
Create HintDb golist.

(** Splits the first [match] or [if] of the goal. *)
Ltac split_match :=
  match goal with
  | |- context [ match ?x with _ => _ end ] =>
      lazymatch x with
      | context [ match _ with _ => _ end ] => fail
      | _ => let E := fresh "E" in destruct x eqn:E
      end
  end.

Ltac split_match_in H :=
  match type of H with
  | context [ match ?x with _ => _ end ] =>
      lazymatch x with
      | context [ match _ with _ => _ end ] => fail
      | _ => let E := fresh "E" in destruct x eqn:E
      end
  end.

(** Case analysis on a boolean test together with its meaning. *)
Ltac zbool :=
  repeat match goal with
  | H : (_ && _)%bool = true |- _ => apply andb_true_iff in H as [? ?]
  | H : (_ && _)%bool = false |- _ => apply andb_false_iff in H
  | H : negb _ = true |- _ => apply negb_true_iff in H
  | H : negb _ = false |- _ => apply negb_false_iff in H
  | H : (_ <=? _)%Z = true |- _ => apply Z.leb_le in H
  | H : (_ <=? _)%Z = false |- _ => apply Z.leb_gt in H
  | H : (_ <? _)%Z = true |- _ => apply Z.ltb_lt in H
  | H : (_ <? _)%Z = false |- _ => apply Z.ltb_ge in H
  | H : (_ =? _)%Z = true |- _ => apply Z.eqb_eq in H
  | H : (_ =? _)%Z = false |- _ => apply Z.eqb_neq in H
  end.

(** *** Monad laws, in the pointwise form the proofs rewrite with *)
Section monad_laws.
Context {S : Type}.

Lemma bind_ret_l {A B} (a : A) (f : A -> M S B) (s : S) :
  (mret a ≫= f) s = f a s.
Proof. reflexivity. Qed.

Lemma bind_val {A B} (m : M S A) (f : A -> M S B) (s s' : S) (a : A) :
  m s = (Val a, s') -> (m ≫= f) s = f a s'.
Proof. intros H. unfold mbind, M_bind. by rewrite H. Qed.

Lemma bind_panic {A B} (m : M S A) (f : A -> M S B) (s s' : S) :
  m s = (Panic, s') -> (m ≫= f) s = (Panic, s').
Proof. intros H. unfold mbind, M_bind. by rewrite H. Qed.

Lemma bind_assoc {A B C} (m : M S A) (f : A -> M S B) (g : B -> M S C) (s : S) :
  ((m ≫= f) ≫= g) s = (m ≫= (fun a => f a ≫= g)) s.
Proof. unfold mbind, M_bind. by destruct (m s) as [[a|] s']. Qed.

(** A run is known from the value it returns. *)
Lemma run_val {A} (m : M S A) (s : S) (a : A) : (m s).1 = Val a -> m s = (Val a, (m s).2).
Proof. destruct (m s). cbn. by intros ->. Qed.

Lemma bind_inv {A B} (m : M S A) (f : A -> M S B) (s s'' : S) (b : B) :
  (m ≫= f) s = (Val b, s'') ->
  exists a s', m s = (Val a, s') /\ f a s' = (Val b, s'').
Proof.
  unfold mbind, M_bind. destruct (m s) as [[a|] s'] eqn:E; [|done].
  intros H. eauto.
Qed.
End monad_laws.

#[export] Instance keeps_preorder {S A} (f : S -> A) : PreOrder (keeps f).
Proof. split; unfold keeps; [done|congruence]. Qed.

(** Two relations at once. *)
#[export] Instance both_preorder {S} (R1 R2 : relation S) `{!PreOrder R1, !PreOrder R2} :
  PreOrder (fun s s' => R1 s s' /\ R2 s s').
Proof.
  split; [done|]. intros x y z [? ?] [? ?]. split; by transitivity y.
Qed.

(** *** Framing rules *)
Section framing.
Context {S : Type} (R : relation S) `{!PreOrder R}.

Lemma preserves_ret {A} (a : A) : preserves R (mret a).
Proof. intros s. cbn. reflexivity. Qed.

Lemma preserves_bind {A B} (m : M S A) (f : A -> M S B) :
  preserves R m -> (forall a, preserves R (f a)) -> preserves R (m ≫= f).
Proof.
  intros Hm Hf s. specialize (Hm s). unfold mbind, M_bind.
  destruct (m s) as [[a|] s']; [|done].
  transitivity s'; [done|apply Hf].
Qed.

(** The same for one run, where the second part may use how it was reached. *)
Lemma run_bind {A B} (m : M S A) (f : A -> M S B) (s : S) :
  R s (m s).2 -> (forall a s', m s = (Val a, s') -> R s' (f a s').2) -> R s ((m ≫= f) s).2.
Proof.
  intros Hm Hf. unfold mbind, M_bind. destruct (m s) as [[a|] s'] eqn:Em; [|done].
  transitivity s'; [done|by apply Hf].
Qed.

(** Either the first part of a bind returns, or the whole ends where it ended. *)
Lemma bind_cases {A B} (m : M S A) (f : A -> M S B) (s0 s : S) :
  R s0 s -> preserves R m ->
  (exists a s1, R s0 s1 /\ m s = (Val a, s1) /\ (m ≫= f) s = f a s1) \/
  (R s0 (m s).2 /\ (m ≫= f) s = (Panic, (m s).2)).
Proof.
  intros H Hm. specialize (Hm s). unfold mbind, M_bind.
  destruct (m s) as [[a|] s1]; cbn in Hm; [left; exists a, s1|right];
    (assert (R s0 s1) by (by transitivity s)); done.
Qed.

Lemma preserves_get : preserves R get.
Proof. intros s. cbn. reflexivity. Qed.

Lemma preserves_gets {A} (f : S -> A) : preserves R (gets f).
Proof. intros s. cbn. reflexivity. Qed.

Lemma preserves_lift {A} (o : outcome A) : preserves R (lift o).
Proof. intros s. cbn. reflexivity. Qed.

(** After a lifted outcome, the rest is reached with its value only. *)
Lemma preserves_lift_bind {A B} (o : outcome A) (f : A -> M S B) :
  (forall a, o = Val a -> preserves R (f a)) -> preserves R (lift o ≫= f).
Proof.
  intros H s. unfold mbind, M_bind, lift. destruct o as [a|]; cbn; [by apply H|reflexivity].
Qed.

Lemma preserves_modify (f : S -> S) :
  (forall s, R s (f s)) -> preserves R (modify f).
Proof. intros H s. apply H. Qed.

Lemma preserves_for_each {A} (l : list A) (body : A -> M S unit) :
  (forall x, x ∈ l -> preserves R (body x)) -> preserves R (for_each l body).
Proof.
  induction l as [|x l IH]; intros H; cbn.
  - apply preserves_ret.
  - apply preserves_bind; [apply H; left|]. intros _. apply IH.
    intros y Hy. apply H. by right.
Qed.

Lemma preserves_for_return {A T} (l : list A) (body : A -> M S (option T)) :
  (forall x, x ∈ l -> preserves R (body x)) -> preserves R (for_return l body).
Proof.
  induction l as [|x l IH]; intros H; cbn.
  - apply preserves_ret.
  - apply preserves_bind; [apply H; left|]. intros [r|].
    + apply preserves_ret.
    + apply IH. intros y Hy. apply H. by right.
Qed.

Lemma preserves_fold_m {A B} (l : list A) (body : B -> A -> M S B) :
  (forall b x, x ∈ l -> preserves R (body b x)) ->
  forall b, preserves R (fold_m body b l).
Proof.
  induction l as [|x l IH]; intros H b; cbn.
  - apply preserves_ret.
  - apply preserves_bind; [apply H; left|]. intros b'. apply IH.
    intros b'' y Hy. apply H. by right.
Qed.
End framing.

(** Proves [preserves R m] by following the text of [m]; calls to other
    operations are closed with the [frame] hints. *)
Ltac frame_step :=
  lazymatch goal with
  | |- preserves _ (mret _) => apply preserves_ret; typeclasses eauto
  | |- preserves _ get => apply preserves_get; typeclasses eauto
  | |- preserves _ (gets _) => apply preserves_gets; typeclasses eauto
  | |- preserves _ (lift _) => apply preserves_lift; typeclasses eauto
  | |- preserves _ (mbind _ (lift _)) =>
      apply preserves_lift_bind; [typeclasses eauto|intros ? ?]
  | |- preserves _ (mbind _ _) => apply preserves_bind; [typeclasses eauto| |intro]
  | |- preserves _ (for_each _ _) =>
      apply preserves_for_each; [typeclasses eauto|intros ? ?]
  | |- preserves _ (for_return _ _) =>
      apply preserves_for_return; [typeclasses eauto|intros ? ?]
  | |- preserves _ (fold_m _ _ _) =>
      apply preserves_fold_m; [typeclasses eauto|intros ? ? ?]
  | |- preserves _ (match ?x with _ => _ end) => destruct x eqn:?
  | |- preserves _ (let _ := _ in _) => cbv zeta
  end.

Ltac frame :=
  intros; repeat (first [ frame_step | solve [eauto 4 with frame] ]).

(** *** Integers *)
Lemma int64_id (z : Z) : in_int64 z -> int64 z = z.
Proof.
  unfold in_int64, min_int64, max_int64, int64, wrap. intros H.
  change (64 - 1)%Z with 63%Z.
  destruct (Z.ltb_spec (z `mod` 2 ^ 64) (2 ^ 63)) as [Hm|Hm];
    pose proof (Z.mod_pos_bound z (2 ^ 64) eq_refl) as Hb.
  - destruct (decide (0 <= z)%Z).
    + by rewrite Z.mod_small by lia.
    + rewrite (Z.mod_eq z (2 ^ 64)) in Hm by lia.
      assert (z / 2 ^ 64 = -1)%Z as Hd.
      { symmetry. apply (Z.div_unique z (2^64) (-1) (z + 2^64)); lia. }
      rewrite Hd in Hm. lia.
  - destruct (decide (0 <= z)%Z).
    + rewrite Z.mod_small in Hm by lia. lia.
    + assert (z / 2 ^ 64 = -1)%Z as Hd.
      { symmetry. apply (Z.div_unique z (2^64) (-1) (z + 2^64)); lia. }
      rewrite (Z.mod_eq z (2 ^ 64)) by lia. rewrite Hd. lia.
Qed.

Lemma wrap_range (w z : Z) : (0 < w)%Z -> (- 2 ^ (w - 1) <= wrap w z < 2 ^ (w - 1))%Z.
Proof.
  intros Hw. unfold wrap.
  assert (2 ^ w = 2 * 2 ^ (w - 1))%Z as E.
  { rewrite <- Z.pow_succ_r by lia. f_equal. lia. }
  pose proof (Z.pow_pos_nonneg 2 (w - 1) ltac:(lia) ltac:(lia)) as Hp.
  pose proof (Z.mod_pos_bound z (2 ^ w) ltac:(lia)) as Hb.
  destruct (Z.ltb_spec (z `mod` 2 ^ w) (2 ^ (w - 1))); lia.
Qed.

Lemma wrap_add_l (w a b : Z) : (0 < w)%Z -> wrap w (wrap w a + b) = wrap w (a + b).
Proof.
  intros Hw. unfold wrap.
  assert (0 < 2 ^ w)%Z as Hp by (apply Z.pow_pos_nonneg; lia).
  assert (((if (a `mod` 2 ^ w <? 2 ^ (w - 1))%Z then a `mod` 2 ^ w else a `mod` 2 ^ w - 2 ^ w) + b)
            `mod` 2 ^ w = (a + b) `mod` 2 ^ w)%Z as ->; [|done].
  destruct (_ <? _)%Z.
  - by rewrite Z.add_mod_idemp_l by lia.
  - replace (a `mod` 2 ^ w - 2 ^ w + b)%Z with (a `mod` 2 ^ w + b + (-1) * 2 ^ w)%Z by lia.
    rewrite Z.mod_add by lia. by rewrite Z.add_mod_idemp_l by lia.
Qed.

Lemma wrap_idem (w a : Z) : (0 < w)%Z -> wrap w (wrap w a) = wrap w a.
Proof.
  intros Hw. pose proof (wrap_add_l w a 0 Hw) as H. by rewrite !Z.add_0_r in H.
Qed.

(** *** Slices *)
Lemma zlen_nonneg {A} (l : list A) : (0 <= zlen l)%Z.
Proof. unfold zlen. lia. Qed.

Lemma slice_to_val {A} (l l' : list A) (n : Z) :
  slice_to l n = Val l' ->
  (0 <= n <= zlen l)%Z /\ l' = take (Z.to_nat n) l /\ zlen l' = n.
Proof.
  unfold slice_to. destruct (_ && _)%bool eqn:E; intros [= <-]. zbool.
  split; [lia|]. split; [done|].
  unfold zlen in *. rewrite length_take. lia.
Qed.

Lemma slice_to_in_range {A} (l : list A) (n : Z) :
  (0 <= n <= zlen l)%Z -> slice_to l n = Val (take (Z.to_nat n) l).
Proof.
  intros H. unfold slice_to.
  by rewrite (proj2 (Z.leb_le 0 n)), (proj2 (Z.leb_le n (zlen l))) by lia.
Qed.

#[export] Hint Resolve zlen_nonneg : golist.
