(* ===== verification/GoStrings.v ===== *)
(** * Go strings: the parts of package [strings] and [strconv] the controller uses

    A Go string is a sequence of bytes, which is what Rocq's [string] is.
    [EqualFold] is modelled on its real domain: the strings are decoded from
    UTF-8 (an ill-formed byte decodes to U+FFFD, as Go's range loop does) and two
    runes match when they are in the same orbit of [unicode.SimpleFold].  The
    orbits of the ASCII letters are written out; the Unicode table for the runes
    from U+0080 on is the class [UnicodeCase]. *)
From S2P Require Import Prelude.
From Stdlib Require Export Ascii.

(** The Unicode case table: a representative of the [SimpleFold] orbit of a rune
    that is not ASCII (for instance [k] for the Kelvin sign U+212A).  It returns
    the rune itself when the rune folds to nothing else. *)
Class UnicodeCase := nonascii_fold : N -> N.

Definition bytes (s : string) : list N := map N_of_ascii (String.list_ascii_of_string s).

(** ** UTF-8 decoding, with Go's table of first bytes *)
Definition rune_error : N := 65533%N.

Definition in_range (lo hi b : N) : bool := (lo <=? b)%N && (b <=? hi)%N.

(** The number of bytes a first byte announces and the range of the second. *)
Definition utf8_first (b : N) : option (nat * N * N) :=
  if in_range 194 223 b then Some (2, 128%N, 191%N)
  else if (b =? 224)%N then Some (3, 160%N, 191%N)
  else if in_range 225 236 b then Some (3, 128%N, 191%N)
  else if (b =? 237)%N then Some (3, 128%N, 159%N)
  else if in_range 238 239 b then Some (3, 128%N, 191%N)
  else if (b =? 240)%N then Some (4, 144%N, 191%N)
  else if in_range 241 243 b then Some (4, 128%N, 191%N)
  else if (b =? 244)%N then Some (4, 128%N, 143%N)
  else None.

Definition low6 (b : N) : N := N.land b 63.

(** The string cut into its runes, each with the bytes it was read from; a byte that starts
    no well-formed sequence is [rune_error] by itself. *)
Fixpoint utf8_chunks (l : list N) : list (N * list N) :=
  match l with
  | [] => []
  | b0 :: r0 =>
      if (b0 <? 128)%N then (b0, [b0]) :: utf8_chunks r0
      else match utf8_first b0, r0 with
      | Some (n, lo, hi), b1 :: r1 =>
          if negb (in_range lo hi b1) then (rune_error, [b0]) :: utf8_chunks r0
          else if Nat.eqb n 2 then
            ((N.land b0 31 * 64 + low6 b1)%N, [b0; b1]) :: utf8_chunks r1
          else match r1 with
          | b2 :: r2 =>
              if negb (in_range 128 191 b2) then (rune_error, [b0]) :: utf8_chunks r0
              else if Nat.eqb n 3 then
                ((N.land b0 15 * 4096 + low6 b1 * 64 + low6 b2)%N, [b0; b1; b2]) :: utf8_chunks r2
              else match r2 with
              | b3 :: r3 =>
                  if negb (in_range 128 191 b3) then (rune_error, [b0]) :: utf8_chunks r0
                  else ((N.land b0 7 * 262144 + low6 b1 * 4096 + low6 b2 * 64 + low6 b3)%N,
                        [b0; b1; b2; b3]) :: utf8_chunks r3
              | [] => (rune_error, [b0]) :: utf8_chunks r0
              end
          | [] => (rune_error, [b0]) :: utf8_chunks r0
          end
      | _, _ => (rune_error, [b0]) :: utf8_chunks r0
      end
  end.

(** Go's range loop over a string. *)
Definition decode_runes (l : list N) : list N := map fst (utf8_chunks l).

Section fold.
Context {UC : UnicodeCase}.

Definition fold_rune (r : N) : N :=
  if (r <? 128)%N then (if in_range 65 90 r then r + 32 else r)%N else nonascii_fold r.

Definition fold_string (s : string) : list N := map fold_rune (decode_runes (bytes s)).

(** [strings.EqualFold]. *)
Definition EqualFold (s t : string) : bool := bool_decide (fold_string s = fold_string t).
End fold.

(** ** Searching, splitting and trimming *)

(** [strings.Contains]. *)
Fixpoint Contains (s sub : string) : bool :=
  String.prefix sub s ||
  match s with
  | EmptyString => false
  | String _ s' => Contains s' sub
  end.

(** [strings.Split(s, sep)] for a one-byte separator. *)
Fixpoint Split (s : string) (sep : ascii) : list string :=
  match s with
  | EmptyString => [EmptyString]
  | String c s' =>
      if Ascii.eqb c sep then EmptyString :: Split s' sep
      else match Split s' sep with
           | tok :: toks => String c tok :: toks
           | [] => [String c EmptyString]
           end
  end.

Fixpoint join (sep : ascii) (l : list string) : string :=
  match l with
  | [] => EmptyString
  | [t] => t
  | t :: l' => (t +:+ String sep (join sep l'))
  end.

Fixpoint trim_left (c : ascii) (s : string) : string :=
  match s with
  | String c' s' => if Ascii.eqb c' c then trim_left c s' else s
  | EmptyString => EmptyString
  end.

Fixpoint trim_right (c : ascii) (s : string) : string :=
  match s with
  | EmptyString => EmptyString
  | String c' s' =>
      match trim_right c s' with
      | EmptyString => if Ascii.eqb c' c then EmptyString else String c' EmptyString
      | s'' => String c' s''
      end
  end.

(** [strings.Trim(s, cutset)] for a one-byte cutset. *)
Definition Trim (s : string) (c : ascii) : string := trim_right c (trim_left c s).

(** Does the byte occur in the string? *)
Fixpoint has_char (c : ascii) (s : string) : bool :=
  match s with EmptyString => false | String c' s' => Ascii.eqb c' c || has_char c s' end.

(** ** Decimal conversion *)
Definition digit_value (c : ascii) : option Z :=
  let n := N_of_ascii c in
  if in_range 48 57 n then Some (Z.of_N n - 48)%Z else None.

Fixpoint digits_value (acc : Z) (s : string) : option Z :=
  match s with
  | EmptyString => Some acc
  | String c s' =>
      match digit_value c with
      | Some d => digits_value (acc * 10 + d)%Z s'
      | None => None
      end
  end.

Definition clamp_int64 (z : Z) : Z := Z.max min_int64 (Z.min max_int64 z).

(** The value [strconv.Atoi] returns when its error is dropped: 0 on a syntax
    error, the nearest [int64] on a range error.  The second component says
    whether the error was nil. *)
Definition Atoi (s : string) : Z * bool :=
  let unsigned t := match t with EmptyString => None | _ => digits_value 0 t end in
  let of_value o :=
    match o with
    | None => (0, false)%Z
    | Some z => (clamp_int64 z, Z.eqb (clamp_int64 z) z)
    end in
  match s with
  | String c t =>
      if Ascii.eqb c "+" then of_value (unsigned t)
      else if Ascii.eqb c "-" then of_value (Z.opp <$> unsigned t)
      else of_value (unsigned s)
  | EmptyString => of_value None
  end.

(** [strconv.Itoa] and [strconv.FormatInt(_, 10)]. *)
Definition Itoa (z : Z) : string := pretty z.

(** ** Sorting: [sort.Strings] orders strings by bytes. *)
Definition string_leb (s t : string) : bool :=
  match String.compare s t with Gt => false | _ => true end.

#[export] Instance string_leb_dec (s t : string) : Decision (string_leb s t = true) :=
  bool_eq_dec _ _.

Definition sort_strings (l : list string) : list string :=
  merge_sort (fun s t => string_leb s t = true) l.

(** ** Lemmas *)
Section fold_lemmas.
Context {UC : UnicodeCase}.

Lemma EqualFold_spec (s t : string) : EqualFold s t = true <-> fold_string s = fold_string t.
Proof. unfold EqualFold. by rewrite bool_decide_eq_true. Qed.

Lemma EqualFold_false (s t : string) : EqualFold s t = false <-> fold_string s <> fold_string t.
Proof. unfold EqualFold. by rewrite bool_decide_eq_false. Qed.

Lemma EqualFold_refl (s : string) : EqualFold s s = true.
Proof. by apply EqualFold_spec. Qed.

Lemma EqualFold_sym (s t : string) : EqualFold s t = EqualFold t s.
Proof. unfold EqualFold. apply bool_decide_ext. split; congruence. Qed.

Lemma EqualFold_trans (s t u : string) :
  EqualFold s t = true -> EqualFold t u = true -> EqualFold s u = true.
Proof. rewrite !EqualFold_spec. congruence. Qed.

(** Comparing with either of two equal-fold strings gives the same answer. *)
Lemma EqualFold_congr (s t u : string) :
  EqualFold s t = true -> EqualFold s u = EqualFold t u.
Proof.
  rewrite EqualFold_spec. intros E. unfold EqualFold. by rewrite E.
Qed.
End fold_lemmas.

Lemma Split_nonempty (s : string) (sep : ascii) : Split s sep <> [].
Proof. destruct s; cbn; [done|]. repeat split_match; done. Qed.

(** Joining the tokens of a split gives the string back. *)
Lemma join_Split (s : string) (sep : ascii) : join sep (Split s sep) = s.
Proof.
  induction s as [|c s IH]; [done|]. cbn.
  pose proof (Split_nonempty s sep) as Hne.
  destruct (Ascii.eqb_spec c sep) as [->|Hc]; destruct (Split s sep) as [|t ts]; try done.
  - cbn in *. by rewrite IH.
  - rewrite <- IH. by destruct ts.
Qed.

Lemma Split_tokens (s : string) (sep : ascii) :
  Forall (fun t => has_char sep t = false) (Split s sep).
Proof.
  induction s as [|c s IH]; cbn; [by repeat constructor|].
  destruct (Ascii.eqb_spec c sep) as [->|Hc]; [by constructor|].
  destruct (Split s sep) as [|t ts] eqn:E; [by destruct (Split_nonempty s sep)|].
  inversion_clear IH. constructor; [|done]. cbn.
  by rewrite (proj2 (Ascii.eqb_neq c sep) Hc).
Qed.

Lemma sort_strings_perm (l : list string) : sort_strings l ≡ₚ l.
Proof. apply merge_sort_Permutation. Qed.

#[export] Hint Resolve EqualFold_refl : golist.
