(* ===== verification/GoTime.v ===== *)
(** * Go numbers and time: [float64], [math.Round], [time.Duration], [time.Time]

    Floating point is computed exactly, with the IEEE 754 binary64 operations of
    the Standard Library's [SpecFloat] (no primitive floats, no axioms).
    A [time.Time] is the number of nanoseconds since the zero time of Go
    (January 1, year 1, UTC), so [IsZero] is equality with 0; a [time.Duration]
    is its [int64] count of nanoseconds.  Formatting and parsing of RFC 3339
    timestamps are the class [TimeFormat]. *)
From S2P Require Import Prelude.
From Stdlib Require Import SpecFloat.

(** ** float64 *)
Definition float64 (z : Z) : spec_float := binary_normalize 53 1024 z 0 false.
Definition fdiv : spec_float -> spec_float -> spec_float := SFdiv 53 1024.
Definition fmul : spec_float -> spec_float -> spec_float := SFmul 53 1024.
Definition fadd : spec_float -> spec_float -> spec_float := SFadd 53 1024.

(** [int(math.Round(x))]: half away from zero.  The controller only rounds
    finite values; the other cases are given 0. *)
Definition round_half_away (x : spec_float) : Z :=
  match x with
  | S754_finite s m e =>
      let mag :=
        if (0 <=? e)%Z then (Z.pos m * 2 ^ e)%Z
        else ((Z.pos m + 2 ^ (- e - 1)) / 2 ^ (- e))%Z in
      if s then (- mag)%Z else mag
  | _ => 0%Z
  end.

(** ** Durations *)
Abbreviation Duration := Z (only parsing).
Definition Second : Duration := 1000000000%Z.
Definition Millisecond : Duration := 1000000%Z.

(** [time.Duration(n) * time.Second]. *)
Definition seconds (n : Z) : Duration := int64 (n * Second).

(** [Duration.Seconds()]. *)
Definition Seconds (d : Duration) : spec_float :=
  fadd (float64 (Z.quot d Second)) (fdiv (float64 (Z.rem d Second)) (float64 Second)).

(** ** Times *)
Abbreviation Time := Z (only parsing).
Definition zero_time : Time := 0%Z.
Definition IsZero (t : Time) : bool := (t =? zero_time)%Z.
Definition Before (t u : Time) : bool := (t <? u)%Z.

(** [t.Sub(u)], which saturates. *)
Definition TimeSub (t u : Time) : Duration := Z.max min_int64 (Z.min max_int64 (t - u)).
Definition TimeAdd (t : Time) (d : Duration) : Time := (t + d)%Z.

(** [time.Since(t).Seconds() < float64(n)] at the instant [now]. *)
Definition since_less_than (now t : Time) (n : Z) : bool :=
  SFltb (Seconds (TimeSub now t)) (float64 n).

(** [Time.Format(time.RFC3339)], [time.Parse(time.RFC3339, s)] (None on an
    error) and [Duration.String()]. *)
Class TimeFormat := {
  FormatRFC3339 : Time -> string;
  ParseRFC3339 : string -> option Time;
  DurationString : Duration -> string;
}.

(** ** Lemmas *)
Lemma TimeSub_exact (t u : Time) : in_int64 (t - u) -> TimeSub t u = (t - u)%Z.
Proof. unfold TimeSub, in_int64. lia. Qed.

Lemma TimeSub_self (t : Time) : TimeSub t t = 0%Z.
Proof. rewrite TimeSub_exact; [lia|]. unfold in_int64, min_int64, max_int64. lia. Qed.

Lemma seconds_small (n : Z) :
  (0 <= n <= 9223372036)%Z -> seconds n = (n * Second)%Z.
Proof.
  intros H. unfold seconds. apply int64_id.
  unfold in_int64, min_int64, max_int64, Second. lia.
Qed.

(** *** Signs *)
(** Not below zero: the sign is plus, or there is no number. *)
Definition not_negative (x : spec_float) : Prop :=
  match x with
  | S754_finite s _ _ | S754_infinity s => s = false
  | S754_zero _ | S754_nan => True
  end.

Lemma round_aux_not_negative (m e : Z) (l : location) : not_negative (binary_round_aux 53 1024 false m e l).
Proof.
  unfold binary_round_aux. destruct (shr_fexp _ _ _ _ _) as [mrs e']. destruct (shr_fexp _ _ _ _ _) as [mrs' e'']. 
  destruct (shr_m mrs'); cbn; try done. by destruct (Z.leb _ _).
Qed.

Lemma normalize_not_negative (m e : Z) (b : bool) : (0 <= m)%Z -> not_negative (binary_normalize 53 1024 m e b).
Proof.
  intros Hm. destruct m as [|m|m]; [done| |lia]. cbn. unfold binary_round. destruct (shl_align _ _ _) as [mz ez]. apply round_aux_not_negative.
Qed.

Lemma fdiv_not_negative (x : spec_float) (m : positive) (e : Z) :
  not_negative x -> not_negative (fdiv x (S754_finite false m e)).
Proof.
  unfold fdiv, SFdiv. destruct x as [s|s| |s m' e']; cbn [not_negative]; intros H; try done; [by subst|].
  destruct (SFdiv_core_binary _ _ _ _ _ _) as [[q e0] l]. subst. apply round_aux_not_negative.
Qed.

Lemma fadd_not_negative (x y : spec_float) : not_negative x -> not_negative y -> not_negative (fadd x y).
Proof.
  unfold fadd, SFadd.
  destruct x as [s|s| |s m e], y as [s'|s'| |s' m' e']; cbn [not_negative]; intros; subst; try done; [by destruct s, s'|].
  apply normalize_not_negative. cbn [cond_Zopp]. lia.
Qed.

(** An interval of zero seconds is over at once. *)
Lemma since_zero (now t : Time) : (t <= now)%Z -> since_less_than now t 0 = false.
Proof.
  intros H. unfold since_less_than. set (d := TimeSub now t).
  assert (0 <= d)%Z as Hd by (unfold d, TimeSub, min_int64, max_int64; lia).
  assert (not_negative (Seconds d)) as HN.
  { apply fadd_not_negative; [apply normalize_not_negative, Z.quot_pos; [done|unfold Second; lia]|].
    assert (exists m e, float64 Second = S754_finite false m e) as (m & e & ->) by (vm_compute; eauto).
    apply fdiv_not_negative, normalize_not_negative, Z.rem_nonneg; [done|done]. }
  change (float64 0) with (S754_zero false). unfold SFltb, SFcompare. destruct (Seconds d) as [s|s| |s m e]; cbn in HN; by subst.
Qed.
