(* ===== verification/GoFlag.v ===== *)
(** * Go command lines: package [flag], [strconv.ParseBool] and [strconv.ParseInt] with base 0

    A flag set is a map from names to the current values; the constructor of the
    value is the type of the flag.  [parse] is the loop of [FlagSet.Parse]
    over [parseOne]; flags that other packages define are given by a function. *)
From S2P Require Import Prelude GoStrings.

(** ** Numbers *)

(** [lower(c)]: c | ('x' - 'X'). *)
Definition lower (c : ascii) : N := N.lor (N_of_ascii c) 32.

Definition base_digit (c : ascii) : option Z :=
  let n := N_of_ascii c in
  if in_range 48 57 n then Some (Z.of_N n - 48)%Z
  else if in_range 97 122 (lower c) then Some (Z.of_N (lower c) - 97 + 10)%Z
  else None.

(** The loop of [ParseUint]: the value, and whether an underscore was seen. *)
Fixpoint base_digits (base acc : Z) (underscores : bool) (s : string) : option (Z * bool) :=
  match s with
  | EmptyString => Some (acc, underscores)
  | String c s' =>
      if Ascii.eqb c "_" then base_digits base acc true s'
      else match base_digit c with
           | Some d => if (d <? base)%Z then base_digits base (acc * base + d)%Z underscores s' else None
           | None => None
           end
  end.

(** [underscoreOK]: underscores only between digits, or after the base prefix. *)
Inductive Saw := SawBegin | SawDigit | SawUnderscore | SawOther.

Fixpoint underscore_scan (hex : bool) (saw : Saw) (s : string) : bool :=
  match s with
  | EmptyString => match saw with SawUnderscore => false | _ => true end
  | String c s' =>
      if in_range 48 57 (N_of_ascii c) || hex && in_range 97 102 (lower c)
      then underscore_scan hex SawDigit s'
      else if Ascii.eqb c "_"
      then match saw with SawDigit => underscore_scan hex SawUnderscore s' | _ => false end
      else match saw with SawUnderscore => false | _ => underscore_scan hex SawOther s' end
  end.

Definition base_prefix (s : string) : option Z :=
  match s with
  | String "0" (String c _) =>
      if (lower c =? 98)%N then Some 2%Z
      else if (lower c =? 111)%N then Some 8%Z
      else if (lower c =? 120)%N then Some 16%Z
      else None
  | _ => None
  end.

Definition underscoreOK (s : string) : bool :=
  match base_prefix s with
  | Some b => underscore_scan (b =? 16)%Z SawDigit (String.substring 2 (String.length s) s)
  | None => underscore_scan false SawBegin s
  end.

(** [ParseUint(s, 0, 64)]; None on an error, of the syntax or the range. *)
Definition ParseUint (s : string) : option Z :=
  if String.eqb s "" then None
  else
    let '(base, digits) :=
      match s with
      | String "0" s' =>
          match base_prefix s with
          | Some b => if (2 <? Z.of_nat (String.length s))%Z
                      then (b, String.substring 2 (String.length s) s) else (8%Z, s')
          | None => (8%Z, s')
          end
      | _ => (10%Z, s)
      end in
    match base_digits base 0 false digits with
    | None => None
    | Some (n, underscores) =>
        if (2 ^ 64 <=? n)%Z then None
        else if underscores && negb (underscoreOK s) then None
        else Some n
    end.

(** [ParseInt(s, 0, 64)]. *)
Definition ParseInt (s : string) : option Z :=
  let '(neg, t) :=
    match s with
    | String "+" t => (false, t)
    | String "-" t => (true, t)
    | _ => (false, s)
    end in
  un ← ParseUint t;
  if (neg : bool) then (if (2 ^ 63 <? un)%Z then None else Some (- un)%Z)
  else (if (2 ^ 63 <=? un)%Z then None else Some un).

Definition ParseBool (s : string) : option bool :=
  if bool_decide (s ∈ ["1"; "t"; "T"; "true"; "TRUE"; "True"]) then Some true
  else if bool_decide (s ∈ ["0"; "f"; "F"; "false"; "FALSE"; "False"]) then Some false
  else None.

(** ** Flags *)
Inductive FlagValue :=
| VBool (b : bool)
| VInt (z : Z)
| VString (s : string).

#[export] Instance FlagValue_eq_dec : EqDecision FlagValue.
Proof. solve_decision. Defined.

Definition is_bool (v : FlagValue) : bool := match v with VBool _ => true | _ => false end.

(** [Value.Set]. *)
Definition set_value (v : FlagValue) (s : string) : option FlagValue :=
  match v with
  | VBool _ => VBool <$> ParseBool s
  | VInt _ => VInt <$> ParseInt s
  | VString _ => Some (VString s)
  end.

Abbreviation Formal := (gmap string FlagValue) (only parsing).

Inductive Parsed :=
| ParsedOk (formal : Formal) (args : list string)
| ParseFailed (msg : string)
| HelpRequested.

(** Splits [name=value] at the first "=" after the first byte. *)
Fixpoint cut_eq (s : string) : string * option string :=
  match s with
  | EmptyString => (EmptyString, None)
  | String c s' =>
      if Ascii.eqb c "=" then (EmptyString, Some s')
      else let '(n, v) := cut_eq s' in (String c n, v)
  end.

Definition name_value (s : string) : string * option string :=
  match s with
  | EmptyString => (EmptyString, None)
  | String c s' => let '(n, v) := cut_eq s' in (String c n, v)
  end.

(** The part of an argument after its minus signs; what is not a flag ends
    the flags. *)
Inductive ArgShape := NotAFlag | Terminator | BadSyntax | FlagText (s : string).

Definition arg_shape (s : string) : ArgShape :=
  match s with
  | String "-" (String c t) =>
      let name := if Ascii.eqb c "-" then t else String c t in
      if Ascii.eqb c "-" && String.eqb t "" then Terminator
      else match name with
           | EmptyString => BadSyntax
           | String d _ => if Ascii.eqb d "-" || Ascii.eqb d "=" then BadSyntax else FlagText name
           end
  | _ => NotAFlag
  end.

Section parse.
(** A flag of another package: is it boolean, and does it accept this value? *)
Context (foreign : string -> option (bool * (string -> bool))).

Fixpoint parse (args : list string) (formal : Formal) : Parsed :=
  match args with
  | [] => ParsedOk formal []
  | s :: rest =>
      match arg_shape s with
      | NotAFlag => ParsedOk formal args
      | Terminator => ParsedOk formal rest
      | BadSyntax => ParseFailed ("bad flag syntax: " +:+ s)
      | FlagText text =>
          let '(name, value) := name_value text in
          let invalid v := ParseFailed ("invalid value " +:+ v +:+ " for flag -" +:+ name) in
          let missing := ParseFailed ("flag needs an argument: -" +:+ name) in
          match formal !! name, foreign name with
          | Some old, _ =>
              let set v rest' := match set_value old v with
                                 | Some new => parse rest' (<[name := new]> formal)
                                 | None => invalid v
                                 end in
              match value with
              | Some v => set v rest
              | None =>
                  if is_bool old then set "true" rest
                  else match rest with v :: rest' => set v rest' | [] => missing end
              end
          | None, Some (boolean, accepts) =>
              match value with
              | Some v => if (accepts v : bool) then parse rest formal else invalid v
              | None =>
                  if (boolean : bool) then parse rest formal
                  else match rest with
                       | v :: rest' => if (accepts v : bool) then parse rest' formal else invalid v
                       | [] => missing
                       end
              end
          | None, None =>
              if String.eqb name "help" || String.eqb name "h" then HelpRequested
              else ParseFailed ("flag provided but not defined: -" +:+ name)
          end
      end
  end.
End parse.

(** ** Specification *)

(** The argument that sets a flag. *)
Definition show_value (v : FlagValue) : string :=
  match v with
  | VBool b => if b then "true" else "false"
  | VInt z => Itoa z
  | VString s => s
  end.

Definition render (nv : string * FlagValue) : string := "--" +:+ nv.1 +:+ "=" +:+ show_value nv.2.

(** A name that can be written on the command line. *)
Definition flag_name (s : string) : Prop :=
  match s with
  | EmptyString => False
  | String c _ => c <> "-"%char /\ has_char "=" s = false
  end.

Definition same_type (v w : FlagValue) : Prop :=
  match v, w with
  | VBool _, VBool _ | VInt _, VInt _ | VString _, VString _ => True
  | _, _ => False
  end.

Definition in_range_value (v : FlagValue) : Prop :=
  match v with VInt z => in_int64 z | _ => True end.

(** ** Lemmas *)

(** *** Decimal numbers are read back *)
Lemma digit_char (d : N) : (d < 10)%N ->
  base_digit (pretty_N_char d) = Some (Z.of_N d) /\ Ascii.eqb (pretty_N_char d) "_" = false /\
  digit_value (pretty_N_char d) = Some (Z.of_N d).
Proof.
  intros H. assert (d = 0 \/ d = 1 \/ d = 2 \/ d = 3 \/ d = 4 \/ d = 5 \/ d = 6 \/ d = 7 \/ d = 8 \/ d = 9)%N
    as Hd by lia. destruct_or! Hd; subst d; done.
Qed.

Lemma decimal_step (x : N) : (Z.of_N (x / 10) * 10 + Z.of_N (x mod 10))%Z = Z.of_N x.
Proof. rewrite (N.div_mod' x 10) at 3. lia. Qed.

Lemma pretty_digits (x : N) (s : string) :
  base_digits 10 0 false (pretty_N_go x s) = base_digits 10 (Z.of_N x) false s /\
  digits_value 0 (pretty_N_go x s) = digits_value (Z.of_N x) s.
Proof.
  revert s. induction (N.lt_wf_0 x) as [x _ IH]; intros s.
  assert (x = 0 \/ 0 < x)%N as [->|Hx] by lia; [by rewrite pretty_N_go_0|].
  rewrite pretty_N_go_step by done.
  destruct (IH (x `div` 10)%N (N.div_lt x 10 Hx eq_refl) (String (pretty_N_char (x `mod` 10)) s)) as [-> ->].
  assert (x `mod` 10 < 10)%N as Hm by (by apply N.mod_lt).
  destruct (digit_char _ Hm) as (H1 & H2 & H3). cbn [base_digits digits_value]. rewrite H1, H2, H3.
  rewrite (proj2 (Z.ltb_lt _ _)) by lia. by rewrite decimal_step.
Qed.

(** A positive number does not start with a zero. *)
Lemma pretty_head (x : N) (s : string) : (0 < x)%N ->
  exists d t, pretty_N_go x s = String (pretty_N_char d) t /\ (0 < d < 10)%N.
Proof.
  revert s. induction (N.lt_wf_0 x) as [x _ IH]; intros s Hx. rewrite pretty_N_go_step by done.
  destruct (decide (x < 10)%N) as [Hlt|Hge].
  - rewrite N.div_small, pretty_N_go_0, N.mod_small by done. by exists x, s.
  - apply IH; [by apply N.div_lt|]. apply N.div_str_pos. lia.
Qed.

Lemma pretty_pos (p : positive) :
  exists d t, pretty (N.pos p) = String (pretty_N_char d) t /\ (0 < d < 10)%N /\
    base_digits 10 0 false (pretty (N.pos p)) = Some (Z.pos p, false) /\
    digits_value 0 (pretty (N.pos p)) = Some (Z.pos p).
Proof.
  assert (pretty (N.pos p) = pretty_N_go (N.pos p) "") as -> by (unfold pretty, pretty_N; by case_decide).
  destruct (pretty_head (N.pos p) "" eq_refl) as (d & t & Hd & Hr). exists d, t.
  destruct (pretty_digits (N.pos p) "") as [H1 H2]. rewrite H1, H2. by split.
Qed.

(** A digit is no sign and, when it is not zero, no prefix of a base. *)
Lemma ParseUint_pretty (p : positive) :
  (Z.pos p < 2 ^ 64)%Z -> ParseUint (pretty (N.pos p)) = Some (Z.pos p).
Proof.
  intros Hp. destruct (pretty_pos p) as (d & t & Hd & Hr & HB & _). rewrite Hd in HB |- *.
  unfold ParseUint. cbn [String.eqb].
  assert (d = 1 \/ d = 2 \/ d = 3 \/ d = 4 \/ d = 5 \/ d = 6 \/ d = 7 \/ d = 8 \/ d = 9)%N as Hc by lia.
  destruct_or! Hc; subst d; cbn [pretty_N_char] in HB |- *; rewrite HB; rewrite (proj2 (Z.leb_gt _ _)) by done; done.
Qed.

Lemma ParseInt_Itoa (z : Z) : in_int64 z -> ParseInt (Itoa z) = Some z.
Proof.
  intros Hz. unfold in_int64, min_int64, max_int64 in Hz. unfold Itoa. destruct z as [|p|p]; [done| |].
  - assert (ParseInt (pretty (N.pos p))
            = (un ← ParseUint (pretty (N.pos p)); if (2 ^ 63 <=? un)%Z then None else Some un)) as HP.
    { destruct (pretty_pos p) as (d & t & -> & Hr & _). unfold ParseInt.
      assert (d = 1 \/ d = 2 \/ d = 3 \/ d = 4 \/ d = 5 \/ d = 6 \/ d = 7 \/ d = 8 \/ d = 9)%N as Hc by lia.
      destruct_or! Hc; by subst d. }
    change (pretty (Z.pos p)) with (pretty (N.pos p)). rewrite HP, ParseUint_pretty by lia. cbn.
    by rewrite (proj2 (Z.leb_gt _ _)) by lia.
  - change (pretty (Z.neg p)) with (String "-" (pretty (N.pos p))). unfold ParseInt.
    rewrite ParseUint_pretty by lia. cbn. by rewrite (proj2 (Z.ltb_ge _ _)) by lia.
Qed.

Lemma Atoi_Itoa (z : Z) : in_int64 z -> Atoi (Itoa z) = (z, true).
Proof.
  intros Hz. assert (clamp_int64 z = z) as Hcl.
  { unfold in_int64, clamp_int64 in *. lia. }
  unfold Itoa. destruct z as [|p|p]; [done| |].
  - change (pretty (Z.pos p)) with (pretty (N.pos p)).
    destruct (pretty_pos p) as (d & t & Hd & Hr & _ & HV). rewrite Hd in HV |- *. unfold Atoi.
    assert (d = 1 \/ d = 2 \/ d = 3 \/ d = 4 \/ d = 5 \/ d = 6 \/ d = 7 \/ d = 8 \/ d = 9)%N as Hc by lia.
    destruct_or! Hc; subst d; cbn [pretty_N_char] in HV |- *; cbn [Ascii.eqb Bool.eqb];
      rewrite HV; cbn; by rewrite Hcl, Z.eqb_refl.
  - change (pretty (Z.neg p)) with (String "-" (pretty (N.pos p))).
    destruct (pretty_pos p) as (d & t & Hd & Hr & _ & HV). rewrite Hd in HV |- *. unfold Atoi.
    cbn [Ascii.eqb Bool.eqb]. rewrite HV. cbn [fmap option_fmap option_map].
    change (- Z.pos p)%Z with (Z.neg p). by rewrite Hcl, Z.eqb_refl.
Qed.

(** *** Flags are read back *)
Lemma set_value_show (old v : FlagValue) :
  same_type old v -> in_range_value v -> set_value old (show_value v) = Some v.
Proof.
  destruct old as [b0|z0|s0], v as [b|z|s]; cbn; try done.
  - intros _ _. by destruct b.
  - intros _ Hz. by rewrite ParseInt_Itoa.
Qed.

Lemma append_cons (c : ascii) (s t : string) : String c s +:+ t = String c (s +:+ t).
Proof. reflexivity. Qed.

Lemma cut_eq_app (n v : string) :
  has_char "=" n = false -> cut_eq (n +:+ String "=" v) = (n, Some v).
Proof.
  induction n as [|c n IH]; [done|]. cbn [has_char]. intros [Hc Hn]%orb_false_iff.
  rewrite append_cons. cbn [cut_eq]. by rewrite Hc, IH.
Qed.

Lemma arg_shape_dashes (c : ascii) (t : string) :
  arg_shape (String "-" (String "-" (String c t)))
  = if Ascii.eqb c "-" || Ascii.eqb c "=" then BadSyntax else FlagText (String c t).
Proof. reflexivity. Qed.

Lemma parse_render (foreign : string -> option (bool * (string -> bool))) (n : string) (old v : FlagValue)
    (rest : list string) (formal : Formal) :
  flag_name n -> formal !! n = Some old -> same_type old v -> in_range_value v ->
  parse foreign (render (n, v) :: rest) formal = parse foreign rest (<[n := v]> formal).
Proof.
  intros HN Ho Ht Hr. destruct n as [|c n]; [done|]. destruct HN as [Hc HN].
  cbn [has_char] in HN. apply orb_false_iff in HN as [Heq HN].
  assert (arg_shape (render (String c n, v)) = FlagText (String c n +:+ String "=" (show_value v))) as HA.
  { change (render (String c n, v)) with (String "-" (String "-" (String c (n +:+ String "=" (show_value v))))).
    by rewrite arg_shape_dashes, (proj2 (Ascii.eqb_neq _ _) Hc), Heq. }
  cbn [parse]. rewrite HA. unfold name_value. rewrite append_cons, cut_eq_app by done.
  rewrite Ho, set_value_show by done. done.
Qed.
