(* ===== verification/GoJson.v ===== *)
(** * Go's encoding/json for maps of strings

    [Marshal] is json.Marshal on a map[string]string: the entries in the order of their keys, each
    string written by [appendString] with HTML escaping on (the default): quotes, backslashes and control
    characters escaped, [<], [>] and [&] as \u00XX, the line separators U+2028 and U+2029 as \u202X, and every
    byte that is not UTF-8 as \ufffd.  [parse_object] is a reader of compact JSON objects of
    strings, written from RFC 8259; the theorem of the file is that it reads back what [Marshal]
    wrote, up to the bytes that were not UTF-8. *)
From S2P Require Import Prelude GoStrings.

(** ** Bytes and strings *)
Definition of_bytes (l : list N) : string := String.string_of_list_ascii (map ascii_of_N l).

(** [hex[n]] *)
Definition hex (n : N) : N := if (n <? 10)%N then (48 + n)%N else (87 + n)%N.

(** ** The encoder *)

(** The switch on a byte below [utf8.RuneSelf]. *)
Definition escape_ascii (b : N) : list N :=
  if (b =? 34)%N || (b =? 92)%N then [92; b]%N
  else if (b =? 8)%N then [92; 98]%N
  else if (b =? 12)%N then [92; 102]%N
  else if (b =? 10)%N then [92; 110]%N
  else if (b =? 13)%N then [92; 114]%N
  else if (b =? 9)%N then [92; 116]%N
  else if (b <? 32)%N || (b =? 38)%N || (b =? 60)%N || (b =? 62)%N
       then [92; 117; 48; 48; hex (b / 16); hex (b mod 16)]%N
  else [b].

(** A rune that was read from no well-formed sequence. *)
Definition ill_formed (chunk : N * list N) : bool :=
  (chunk.1 =? rune_error)%N && Nat.eqb (length chunk.2) 1.

(** The body of the loop of [appendString]. *)
Definition escape_chunk (chunk : N * list N) : list N :=
  let '(c, bs) := chunk in
  if (hd 0%N bs <? 128)%N then escape_ascii (hd 0%N bs)
  else if ill_formed chunk then [92; 117; 102; 102; 102; 100]%N
  else if (c =? 8232)%N || (c =? 8233)%N then [92; 117; 50; 48; 50; hex (N.land c 15)]%N
  else bs.

Definition appendString (l : list N) : list N :=
  [34%N] ++ flat_map escape_chunk (utf8_chunks l) ++ [34%N].

(** The order of the keys. *)
Definition key_le {V} (x y : string * V) : Prop := string_leb x.1 y.1 = true.

#[export] Instance key_le_dec {V} (x y : string * V) : Decision (key_le x y) := bool_eq_dec _ _.

Definition sort_entries {V} (entries : list (string * V)) : list (string * V) :=
  merge_sort key_le entries.

Definition encode_entry (kv : string * string) : list N :=
  appendString (bytes kv.1) ++ [58%N] ++ appendString (bytes kv.2).

Fixpoint encode_entries (l : list (string * string)) : list N :=
  match l with
  | [] => []
  | [kv] => encode_entry kv
  | kv :: l' => encode_entry kv ++ [44%N] ++ encode_entries l'
  end.

(** json.Marshal on a map, given its entries in the order Go ranges over them; a nil map is
    [None].  It has no error for maps of strings. *)
Definition Marshal (fields : option (list (string * string))) : string :=
  match fields with
  | None => "null"
  | Some entries => of_bytes ([123%N] ++ encode_entries (sort_entries entries) ++ [125%N])
  end.

(** ** The reader *)

(** The UTF-8 encoding of a code point of the basic plane. *)
Definition utf8_encode (c : N) : list N :=
  if (c <? 128)%N then [c]
  else if (c <? 2048)%N then [192 + c / 64; 128 + c mod 64]%N
  else [224 + c / 4096; 128 + (c / 64) mod 64; 128 + c mod 64]%N.

Definition hex_value (b : N) : option N :=
  if in_range 48 57 b then Some (b - 48)%N
  else if in_range 97 102 b then Some (b - 87)%N
  else if in_range 65 70 b then Some (b - 55)%N
  else None.

(** The value of four hexadecimal digits that is not half of a surrogate pair. *)
Definition hex4 (h1 h2 h3 h4 : N) : option N :=
  a ← hex_value h1; b ← hex_value h2; c ← hex_value h3; d ← hex_value h4;
  let u := (a * 4096 + b * 256 + c * 16 + d)%N in
  if in_range 55296 57343 u then None else Some u.

Definition simple_escape (e : N) : option N :=
  if (e =? 34)%N || (e =? 92)%N || (e =? 47)%N then Some e
  else if (e =? 98)%N then Some 8%N
  else if (e =? 102)%N then Some 12%N
  else if (e =? 110)%N then Some 10%N
  else if (e =? 114)%N then Some 13%N
  else if (e =? 116)%N then Some 9%N
  else None.

(** Put [bs] in front of what was read. *)
Definition prepend (bs : list N) (r : option (list N * list N)) : option (list N * list N) :=
  '(s, rest) ← r; Some (bs ++ s, rest).

(** The characters of a string up to its closing quote, and what follows it. *)
Fixpoint parse_chars (l : list N) : option (list N * list N) :=
  match l with
  | [] => None
  | b :: r =>
      if (b =? 34)%N then Some ([], r)
      else if (b =? 92)%N then
        match r with
        | e :: r1 =>
            if (e =? 117)%N then
              match r1 with
              | h1 :: h2 :: h3 :: h4 :: r2 =>
                  match hex4 h1 h2 h3 h4 with
                  | Some u => prepend (utf8_encode u) (parse_chars r2)
                  | None => None
                  end
              | _ => None
              end
            else match simple_escape e with
                 | Some c => prepend [c] (parse_chars r1)
                 | None => None
                 end
        | [] => None
        end
      else if (b <? 32)%N then None
      else prepend [b] (parse_chars r)
  end.

Definition expect (b : N) (l : list N) : option (list N) :=
  match l with c :: r => if (c =? b)%N then Some r else None | [] => None end.

Definition parse_string (l : list N) : option (list N * list N) := expect 34 l ≫= parse_chars.

Definition parse_entry (l : list N) : option ((list N * list N) * list N) :=
  '(k, r) ← parse_string l; r ← expect 58 r; '(v, r) ← parse_string r; Some ((k, v), r).

(** Entries up to the closing brace. *)
Fixpoint parse_entries (fuel : nat) (l : list N) : option (list (list N * list N) * list N) :=
  match fuel with
  | O => None
  | S fuel' =>
      '(kv, r) ← parse_entry l;
      match r with
      | b :: r' =>
          if (b =? 125)%N then Some ([kv], r')
          else if (b =? 44)%N then '(kvs, r'') ← parse_entries fuel' r'; Some (kv :: kvs, r'')
          else None
      | [] => None
      end
  end.

(** A whole text that is one object; the fuel is its length, and every entry has bytes of its own. *)
Definition parse_object (l : list N) : option (list (list N * list N)) :=
  r ← expect 123 l;
  match r with
  | [b] => if (b =? 125)%N then Some [] else None
  | _ => '(kvs, rest) ← parse_entries (length l) r;
         match rest with [] => Some kvs | _ => None end
  end.

(** ** What survives: the bytes with every ill-formed one replaced by U+FFFD *)
Definition clean_chunk (chunk : N * list N) : list N :=
  if ill_formed chunk then [239; 191; 189]%N else chunk.2.

Definition to_valid (l : list N) : list N := flat_map clean_chunk (utf8_chunks l).

Definition valid_utf8 (s : string) : bool := forallb (fun c => negb (ill_formed c)) (utf8_chunks (bytes s)).

Definition read_entry (kv : string * string) : list N * list N :=
  (to_valid (bytes kv.1), to_valid (bytes kv.2)).

(** ** Lemmas *)

(** *** Chunks of UTF-8 *)

(** What the cutting of a string into runes produces. *)
Inductive chunk_ok : N * list N -> Prop :=
| chunk_ascii b : (b < 128)%N -> chunk_ok (b, [b])
| chunk_bad b : (128 <= b)%N -> chunk_ok (rune_error, [b])
| chunk_two b0 b1 : (194 <= b0 <= 223)%N -> (128 <= b1 <= 191)%N ->
    chunk_ok ((N.land b0 31 * 64 + low6 b1)%N, [b0; b1])
| chunk_three b0 b1 b2 : (224 <= b0 <= 239)%N -> (128 <= b1 <= 191)%N -> (128 <= b2 <= 191)%N ->
    chunk_ok ((N.land b0 15 * 4096 + low6 b1 * 64 + low6 b2)%N, [b0; b1; b2])
| chunk_four b0 b1 b2 b3 : (240 <= b0 <= 244)%N -> (N.land b0 7 * 64 + low6 b1 >= 16)%N ->
    (128 <= b1 <= 191)%N -> (128 <= b2 <= 191)%N -> (128 <= b3 <= 191)%N ->
    chunk_ok ((N.land b0 7 * 262144 + low6 b1 * 4096 + low6 b2 * 64 + low6 b3)%N, [b0; b1; b2; b3]).

Lemma in_range_true (lo hi b : N) : in_range lo hi b = true <-> (lo <= b <= hi)%N.
Proof. unfold in_range. rewrite andb_true_iff, !N.leb_le. done. Qed.

Lemma low6_mod (b : N) : low6 b = (b mod 64)%N.
Proof. unfold low6. change 63%N with (N.ones 6). by rewrite N.land_ones. Qed.

Lemma land_mod (b k : N) : N.land b (N.ones k) = (b mod 2 ^ k)%N.
Proof. apply N.land_ones. Qed.

Lemma mod_sub (b m q r : N) : (b = m * q + r)%N -> (r < m)%N -> (b mod m = r)%N.
Proof. intros -> H. symmetry. by apply (N.mod_unique _ _ q). Qed.

Lemma utf8_first_spec (b : N) (n : nat) (lo hi : N) :
  utf8_first b = Some (n, lo, hi) -> (128 <= lo)%N /\ (hi <= 191)%N /\
    ((n = 2%nat /\ (194 <= b <= 223)%N) \/ (n = 3%nat /\ (224 <= b <= 239)%N) \/
     (n = 4%nat /\ (240 <= b <= 244)%N /\ (b = 240 -> 144 <= lo)%N)).
Proof.
  unfold utf8_first. intros H.
  repeat match type of H with
  | (if in_range ?a ?c b then _ else _) = _ => destruct (in_range a c b) eqn:?
  | (if (b =? ?a)%N then _ else _) = _ => destruct (N.eqb_spec b a)
  end; simplify_eq; rewrite ?in_range_true in *; repeat split; try lia.
Qed.

(** The first rune, the bytes it takes, and the rest. *)
Lemma utf8_chunks_cons (b : N) (r : list N) :
  exists c bs rest, utf8_chunks (b :: r) = (c, bs) :: utf8_chunks rest /\ b :: r = bs ++ rest /\
    bs <> [] /\ chunk_ok (c, bs).
Proof.
  assert ((b <? 128)%N = false -> exists c bs rest,
    (rune_error, [b]) :: utf8_chunks r = (c, bs) :: utf8_chunks rest /\ b :: r = bs ++ rest /\
    bs <> [] /\ chunk_ok (c, bs)) as Hbad.
  { intros Hb. apply N.ltb_ge in Hb. exists rune_error, [b], r. repeat split; [done|]. by constructor. }
  cbn [utf8_chunks]. destruct (b <? 128)%N eqn:Hb.
  { apply N.ltb_lt in Hb. exists b, [b], r. repeat split; [done|]. by constructor. }
  specialize (Hbad eq_refl).
  destruct (utf8_first b) as [[[n lo] hi]|] eqn:Ef; [|done].
  apply utf8_first_spec in Ef as (Hlo & Hhi & Hn).
  destruct r as [|b1 r1]; [done|]. destruct (in_range lo hi b1) eqn:E1; [|done]. cbn [negb].
  apply in_range_true in E1.
  destruct Hn as [[-> Hr]|[[-> Hr]|[-> [Hr H240]]]]; cbn [Nat.eqb].
  { eexists _, [b; b1], r1. repeat split; [done|]. constructor; lia. }
  all: destruct r1 as [|b2 r2]; [done|]; destruct (in_range 128 191 b2) eqn:E2; [|done]; cbn [negb];
    apply in_range_true in E2.
  { eexists _, [b; b1; b2], r2. repeat split; [done|]. constructor; lia. }
  destruct r2 as [|b3 r3]; [done|]. destruct (in_range 128 191 b3) eqn:E3; [|done]. cbn [negb].
  apply in_range_true in E3. eexists _, [b; b1; b2; b3], r3. repeat split; [done|]. constructor; try lia.
  rewrite low6_mod. change 7%N with (N.ones 3). rewrite land_mod. change (2 ^ 3)%N with 8%N.
  destruct (decide (b = 240)%N) as [->|].
  - specialize (H240 eq_refl). rewrite (mod_sub b1 64 2 (b1 - 128)) by lia. change (240 mod 8)%N with 0%N. lia.
  - rewrite (mod_sub b 8 30 (b - 240)) by lia. generalize (b1 mod 64)%N. intros x. lia.
Qed.

(** Induction over the runes of a string. *)
Lemma chunks_ind (P : list N -> list (N * list N) -> Prop) :
  P [] [] ->
  (forall c bs rest, chunk_ok (c, bs) -> P rest (utf8_chunks rest) ->
     P (bs ++ rest) ((c, bs) :: utf8_chunks rest)) ->
  forall l, P l (utf8_chunks l).
Proof.
  intros H0 HS l. induction l as [l IH] using (induction_ltof1 _ (@length N)).
  destruct l as [|b r]; [done|].
  destruct (utf8_chunks_cons b r) as (c & bs & rest & -> & Hl & Hne & Hok). rewrite Hl in *.
  apply HS; [done|]. apply IH. unfold ltof. rewrite length_app. destruct bs; [done|cbn; lia].
Qed.

Lemma chunks_concat (l : list N) : flat_map snd (utf8_chunks l) = l.
Proof. apply (chunks_ind (fun l cs => flat_map snd cs = l)); [done|]. intros c bs rest _ H. cbn. by rewrite H. Qed.

(** Well-formed strings are unchanged. *)
Lemma to_valid_id (s : string) : valid_utf8 s = true -> to_valid (bytes s) = bytes s.
Proof.
  unfold valid_utf8, to_valid. rewrite <- (chunks_concat (bytes s)) at 3.
  induction (utf8_chunks (bytes s)) as [|[c bs] cs IH]; [done|]. cbn [forallb flat_map].
  rewrite andb_true_iff, negb_true_iff. intros [H1 H2]. rewrite IH by done. unfold clean_chunk. by rewrite H1.
Qed.

(** *** Strings *)

(** The reader takes back one escaped rune. *)
Lemma parse_ascii (b : N) (rest : list N) :
  (b < 128)%N -> parse_chars (escape_ascii b ++ rest) = prepend [b] (parse_chars rest).
Proof.
  intros H. destruct b as [|p]; [reflexivity|].
  do 7 (destruct p as [p|p|]; [| |reflexivity]); try reflexivity; lia.
Qed.

Lemma parse_high (bs rest : list N) :
  Forall (fun b => 128 <= b)%N bs -> parse_chars (bs ++ rest) = prepend bs (parse_chars rest).
Proof.
  induction 1 as [|b bs Hb _ IH]; cbn [app].
  { unfold prepend. by destruct (parse_chars rest) as [[? ?]|]. }
  cbn [parse_chars]. rewrite (proj2 (N.eqb_neq b 34)), (proj2 (N.eqb_neq b 92)), (proj2 (N.ltb_ge b 32)) by lia.
  rewrite IH. unfold prepend. by destruct (parse_chars rest) as [[? ?]|].
Qed.

(** The two line separators have one encoding. *)
Lemma separator_bytes (c : N) (bs : list N) :
  chunk_ok (c, bs) -> c = 8232%N \/ c = 8233%N -> bs = utf8_encode c.
Proof.
  change 8232%N with (128 * 64 + 40)%N. change 8233%N with (128 * 64 + 41)%N.
  inversion 1; subst; intros Hc; rewrite ?low6_mod in *;
    change 31%N with (N.ones 5) in *; change 15%N with (N.ones 4) in *; change 7%N with (N.ones 3) in *;
    rewrite ?land_mod in *; change (2 ^ 5)%N with 32%N in *; change (2 ^ 4)%N with 16%N in *;
    change (2 ^ 3)%N with 8%N in *; unfold rune_error in *; try lia.
  - pose proof (N.mod_lt b0 32). pose proof (N.mod_lt b1 64). lia.
  - rewrite (mod_sub b0 16 14 (b0 - 224)), (mod_sub b1 64 2 (b1 - 128)), (mod_sub b2 64 2 (b2 - 128)) in Hc by lia.
    assert (b0 = 226 /\ b1 = 128)%N as [-> ->] by lia.
    destruct Hc as [Hc|Hc]; [assert (b2 = 168)%N as -> by lia|assert (b2 = 169)%N as -> by lia]; reflexivity.
  - revert Hc. generalize dependent (b1 mod 64)%N. generalize dependent (b0 mod 8)%N.
    generalize (b2 mod 64)%N (b3 mod 64)%N. intros. exfalso. lia.
Qed.

Lemma parse_chunk (chunk : N * list N) (rest : list N) :
  chunk_ok chunk -> parse_chars (escape_chunk chunk ++ rest) = prepend (clean_chunk chunk) (parse_chars rest).
Proof.
  intros Hok. destruct chunk as [c bs]. unfold escape_chunk, clean_chunk.
  destruct (hd 0%N bs <? 128)%N eqn:Hh.
  { apply N.ltb_lt in Hh. inversion Hok; subst; cbn [hd] in *; try lia. unfold ill_formed. cbn [fst].
    rewrite (proj2 (N.eqb_neq c rune_error)) by (unfold rune_error; lia). by apply parse_ascii. }
  destruct (ill_formed (c, bs)) eqn:Hi; [reflexivity|].
  destruct ((c =? 8232)%N || (c =? 8233)%N) eqn:Hs.
  - apply orb_true_iff in Hs as Hs'. rewrite !N.eqb_eq in Hs'.
    cbn [snd]. rewrite (separator_bytes c bs Hok Hs'). by destruct Hs' as [-> | ->].
  - cbn [snd]. apply parse_high. inversion Hok; subst; cbn [hd] in Hh; rewrite ?N.ltb_ge in Hh;
      repeat constructor; lia.
Qed.

Lemma parse_chunks (cs : list (N * list N)) (rest : list N) :
  Forall chunk_ok cs ->
  parse_chars (flat_map escape_chunk cs ++ [34%N] ++ rest) = Some (flat_map clean_chunk cs, rest).
Proof.
  induction 1 as [|c cs Hc _ IH]; [done|]. cbn [flat_map]. rewrite <- app_assoc, parse_chunk by done.
  by rewrite IH.
Qed.

Lemma chunks_ok (l : list N) : Forall chunk_ok (utf8_chunks l).
Proof. apply (chunks_ind (fun _ cs => Forall chunk_ok cs)); [done|]. by constructor. Qed.

(** A string that was written is read, up to its ill-formed bytes. *)
Lemma parse_appendString (l rest : list N) :
  parse_string (appendString l ++ rest) = Some (to_valid l, rest).
Proof.
  unfold parse_string, appendString. rewrite <- !app_assoc. cbn.
  apply (parse_chunks _ rest), chunks_ok.
Qed.

(** *** Objects *)
Lemma parse_encode_entry (kv : string * string) (rest : list N) :
  parse_entry (encode_entry kv ++ rest) = Some (read_entry kv, rest).
Proof.
  unfold parse_entry, encode_entry. rewrite <- !app_assoc, parse_appendString. cbn [mbind option_bind app].
  unfold expect. rewrite N.eqb_refl. cbn [mbind option_bind]. by rewrite parse_appendString.
Qed.

Lemma parse_encode_entries (l : list (string * string)) (fuel : nat) (rest : list N) :
  l <> [] -> (length l <= fuel)%nat ->
  parse_entries fuel (encode_entries l ++ [125%N] ++ rest) = Some (map read_entry l, rest).
Proof.
  induction l as [|kv l IH] in fuel |- *; [done|]. intros _ Hf. destruct fuel as [|fuel]; [cbn in Hf; lia|].
  cbn [length] in Hf. destruct l as [|kv' l].
  - cbn [encode_entries parse_entries]. rewrite parse_encode_entry. done.
  - cbn [encode_entries parse_entries]. fold encode_entries. rewrite <- !app_assoc, parse_encode_entry.
    cbn [mbind option_bind app]. change (44 =? 125)%N with false. rewrite N.eqb_refl. cbn [negb].
    specialize (IH fuel ltac:(done) ltac:(cbn in *; lia)). cbn [app] in IH.
    change (match l with [] => _ | _ => _ end) with (encode_entries (kv' :: l)). by rewrite IH.
Qed.

(** Every entry has a byte of its own, so the length of the text is fuel enough. *)
Lemma encode_entries_length (l : list (string * string)) : (length l <= length (encode_entries l))%nat.
Proof.
  assert (forall kv, (0 < length (encode_entry kv))%nat) as HE by (intros kv; cbn; lia).
  induction l as [|kv l IH]; [done|]. pose proof (HE kv). destruct l as [|kv' l]; [cbn in *; lia|].
  change (encode_entries (kv :: kv' :: l)) with (encode_entry kv ++ [44%N] ++ encode_entries (kv' :: l)).
  rewrite !length_app. cbn [length] in *. lia.
Qed.

Lemma parse_encode_object (l : list (string * string)) :
  parse_object ([123%N] ++ encode_entries l ++ [125%N]) = Some (map read_entry l).
Proof.
  unfold parse_object. cbn [app expect]. rewrite N.eqb_refl. cbn [mbind option_bind].
  destruct l as [|kv l]; [done|].
  pose proof (parse_encode_entries (kv :: l) (length (123%N :: encode_entries (kv :: l) ++ [125%N])) []) as HP.
  rewrite app_nil_r in HP. rewrite HP; [|done|cbn [length]; rewrite length_app; pose proof (encode_entries_length (kv :: l)); cbn [length] in *; lia].
  pose proof (encode_entries_length (kv :: l)) as HL.
  destruct (encode_entries (kv :: l)) as [|b r]; [cbn in HL; lia|]. cbn [app]. by destruct (r ++ [125%N]) eqn:E; [destruct r|].
Qed.

(** *** The order of the keys *)
Lemma ascii_compare_lt_trans (a b c : ascii) :
  Ascii.compare a b = Lt -> Ascii.compare b c = Lt -> Ascii.compare a c = Lt.
Proof. unfold Ascii.compare. rewrite !N.compare_lt_iff. lia. Qed.

Lemma ascii_compare_refl (a : ascii) : Ascii.compare a a = Eq.
Proof. apply N.compare_refl. Qed.

#[export] Instance string_leb_trans : Transitive (fun s t => string_leb s t = true).
Proof.
  unfold string_leb. intros s t u. revert t u.
  induction s as [|a s IH]; intros [|b t] [|c u]; cbn; try done. intros H1 H2. specialize (IH t u).
  destruct (Ascii.compare a b) eqn:Eab; [|clear H1|done]; destruct (Ascii.compare b c) eqn:Ebc; try done.
  - apply Ascii.compare_eq_iff in Eab as ->. apply Ascii.compare_eq_iff in Ebc as ->. rewrite ascii_compare_refl. auto.
  - apply Ascii.compare_eq_iff in Eab as ->. by rewrite Ebc.
  - apply Ascii.compare_eq_iff in Ebc as ->. by rewrite Eab.
  - by rewrite (ascii_compare_lt_trans a b c).
Qed.

#[export] Instance string_leb_total : Total (fun s t => string_leb s t = true).
Proof.
  intros s t. unfold string_leb. rewrite (String.compare_antisym t s). destruct (String.compare s t); cbn; auto.
Qed.

Lemma string_leb_antisym (s t : string) : string_leb s t = true -> string_leb t s = true -> s = t.
Proof.
  unfold string_leb. rewrite (String.compare_antisym t s). destruct (String.compare s t) eqn:E; cbn; try done.
  intros _ _. by apply String.compare_eq_iff.
Qed.

#[export] Instance key_le_trans {V} : Transitive (@key_le V).
Proof. intros x y z. unfold key_le. apply string_leb_trans. Qed.

#[export] Instance key_le_total {V} : Total (@key_le V).
Proof. intros x y. apply string_leb_total. Qed.

(** The order in which Go ranges over the map does not matter. *)
Lemma sort_entries_perm {V} (l l' : list (string * V)) :
  NoDup (map fst l) -> l ≡ₚ l' -> sort_entries l = sort_entries l'.
Proof.
  intros HN HP. unfold sort_entries. apply (StronglySorted_unique_strong key_le).
  - intros x y. rewrite !merge_sort_Permutation, <- HP. intros Hx Hy H1 H2.
    pose proof (string_leb_antisym _ _ H1 H2) as Heq. destruct x as [k v], y as [k' v']. cbn in Heq. subst k'.
    apply list_elem_of_lookup in Hx as [i Hi]. apply list_elem_of_lookup in Hy as [j Hj].
    assert (i = j) as ->; [|congruence].
    apply (NoDup_lookup (map fst l) i j k); [done| |]; by rewrite list_lookup_fmap, ?Hi, ?Hj.
  - apply StronglySorted_merge_sort; apply _.
  - apply StronglySorted_merge_sort; apply _.
  - by rewrite !merge_sort_Permutation.
Qed.

(** *** Bytes of strings *)
Lemma bytes_small (s : string) : Forall (fun b => b < 256)%N (bytes s).
Proof. unfold bytes. apply Forall_fmap, Forall_forall. intros c _. apply N_ascii_bounded. Qed.

Lemma bytes_of_bytes (l : list N) : Forall (fun b => b < 256)%N l -> bytes (of_bytes l) = l.
Proof.
  intros H. unfold bytes, of_bytes. rewrite String.list_ascii_of_string_of_list_ascii, map_map.
  induction H as [|b l Hb _ IH]; [done|]. cbn. by rewrite IH, N_ascii_embedding.
Qed.

Lemma of_bytes_bytes (s : string) : of_bytes (bytes s) = s.
Proof.
  unfold bytes, of_bytes. rewrite map_map.
  transitivity (String.string_of_list_ascii (String.list_ascii_of_string s));
    [f_equal|apply String.string_of_list_ascii_of_string].
  induction (String.list_ascii_of_string s) as [|c l IH]; [done|]. cbn. by rewrite IH, ascii_N_embedding.
Qed.

Lemma hex_small (n : N) : (n < 16)%N -> (hex n < 256)%N.
Proof. unfold hex. destruct (n <? 10)%N; lia. Qed.

Lemma escape_chunk_small (c : N * list N) :
  chunk_ok c -> Forall (fun b => b < 256)%N c.2 -> Forall (fun b => b < 256)%N (escape_chunk c).
Proof.
  intros Hok Hs. unfold escape_chunk. destruct c as [c bs]. cbn [snd] in Hs.
  destruct (hd 0%N bs <? 128)%N eqn:Hh.
  - apply N.ltb_lt in Hh. assert (hd 0 bs / 16 < 16)%N by (apply N.Div0.div_lt_upper_bound; lia).
    pose proof (N.mod_lt (hd 0%N bs) 16 ltac:(lia)). pose proof (hex_small (hd 0 bs / 16)%N). pose proof (hex_small (hd 0 bs mod 16)%N).
    unfold escape_ascii. repeat split_match; repeat constructor; auto; lia.
  - repeat split_match; [by repeat constructor| |done].
    repeat constructor. apply hex_small. change 15%N with (N.ones 4). rewrite land_mod. by apply N.mod_lt.
Qed.

Lemma appendString_small (l : list N) :
  Forall (fun b => b < 256)%N l -> Forall (fun b => b < 256)%N (appendString l).
Proof.
  intros H. unfold appendString. rewrite !Forall_app. repeat split; [by repeat constructor| |by repeat constructor].
  revert H. apply (chunks_ind (fun l cs => Forall (fun b => b < 256)%N l -> Forall (fun b => b < 256)%N (flat_map escape_chunk cs)));
    [done|]. intros c bs rest Hok IH [H1 H2]%Forall_app. cbn [flat_map]. apply Forall_app. split; [|by apply IH].
  by apply (escape_chunk_small (c, bs)).
Qed.

Lemma encode_entries_small (l : list (string * string)) : Forall (fun b => b < 256)%N (encode_entries l).
Proof.
  assert (forall kv, Forall (fun b => b < 256)%N (encode_entry kv)) as HE.
  { intros kv. unfold encode_entry. rewrite !Forall_app. repeat split; [apply appendString_small, bytes_small|by repeat constructor
      |apply appendString_small, bytes_small]. }
  induction l as [|kv l IH]; [constructor|]. destruct l as [|kv' l]; [apply HE|].
  change (encode_entries (kv :: kv' :: l)) with (encode_entry kv ++ [44%N] ++ encode_entries (kv' :: l)).
  rewrite !Forall_app. repeat split; [apply HE|by repeat constructor|done].
Qed.

(** What [Marshal] writes of a map is read back, in the order of the keys. *)
Lemma Marshal_parse (entries : list (string * string)) :
  parse_object (bytes (Marshal (Some entries))) = Some (map read_entry (sort_entries entries)).
Proof.
  unfold Marshal. rewrite bytes_of_bytes; [apply parse_encode_object|].
  rewrite !Forall_app. repeat split; [by repeat constructor|apply encode_entries_small|by repeat constructor].
Qed.

(** The object with a tab and a less-than sign, its keys out of order. *)
Example Marshal_sample :
  bytes (Marshal (Some [("b", "x<y"); ("a", String "009" "")])) =
  [123; 34; 97; 34; 58; 34; 92; 116; 34; 44; 34; 98; 34; 58; 34; 120; 92; 117; 48; 48; 51; 99; 121; 34; 125]%N.
Proof. reflexivity. Qed.
