(* ===== verification/Common.v ===== *)
(** * Package [common]: controllers/common/utils.go, Go maps and [sync.Map]

    A Go map and a [sync.Map] with string keys are stdpp's [gmap string].
    Ranging over either visits every key once in an order Go does not fix; where
    the order can be observed, the operation takes it as an argument.  The [error] values
    of the program carry their message and whether the API machinery's [IsNotFound]
    recognises them. *)
From S2P Require Import Prelude GoStrings.

(** ** Errors *)
Record error := mkError {
  Error : string;            (* err.Error() *)
  err_not_found : bool;      (* kerrors.IsNotFound(err) *)
}.

(** [fmt.Errorf]/[errors.Errorf] with the message already formatted. *)
Definition Errorf (msg : string) : error := mkError msg false.

(** [errors.Wrap(err, msg)] keeps the cause, so [IsNotFound] still sees it. *)
Definition Wrap (err : error) (msg : string) : error :=
  mkError (msg +:+ ": " +:+ Error err) (err_not_found err).

#[export] Instance error_eq_dec : EqDecision error.
Proof. solve_decision. Defined.

(** ** [sync.Map] *)
Section sync_map.
Context {V : Type}.

Definition Load (m : gmap string V) (k : string) : option V := m !! k.
Definition Store (m : gmap string V) (k : string) (v : V) : gmap string V := <[k := v]> m.
Definition Delete (m : gmap string V) (k : string) : gmap string V := delete k m.

(** The value now stored, whether it was there before, and the map. *)
Definition LoadOrStore (m : gmap string V) (k : string) (v : V) : V * bool * gmap string V :=
  match m !! k with
  | Some v' => (v', true, m)
  | None => (v, false, <[k := v]> m)
  end.

(** [m.Range(f)] with a callback that updates a local [b] and says whether to go on. *)
Fixpoint range_list {B} (f : string -> V -> B -> B * bool) (l : list (string * V)) (b : B) : B :=
  match l with
  | [] => b
  | (k, v) :: l' =>
      let '(b', continue) := f k v b in
      if continue then range_list f l' b' else b'
  end.

Definition Range {B} (m : gmap string V) (f : string -> V -> B -> B * bool) (b : B) : B :=
  range_list f (map_to_list m) b.

(** [common.GetSyncMapLen]. *)
Definition GetSyncMapLen (m : gmap string V) : Z :=
  Range m (fun _ _ count => ((count + 1)%Z, true)) 0%Z.
End sync_map.

(** ** utils.go *)
Section utils.
Context {UC : UnicodeCase}.

Fixpoint ContainsEqualFold (slice : list string) (s : string) : bool :=
  match slice with
  | [] => false
  | item :: slice' => if EqualFold item s then true else ContainsEqualFold slice' s
  end.
End utils.

Definition IntMax (a b : Z) : Z := if (b <? a)%Z then a else b.
Definition IntMin (a b : Z) : Z := if (a <? b)%Z then a else b.

(** The loop of [GetChunks]: [i] is the loop variable, and [None] means the fuel
    ran out before the loop condition failed. *)
Fixpoint chunks_loop {A} (fuel : nat) (items : list A) (chunkSize i : Z) : option (list (list A)) :=
  if (i <? zlen items)%Z then
    match fuel with
    | O => None
    | S fuel' =>
        let end_ := IntMin (i + chunkSize) (zlen items) in
        let chunk := take (Z.to_nat (end_ - i)) (drop (Z.to_nat i) items) in
        chunks ← chunks_loop fuel' items chunkSize (i + chunkSize);
        Some (chunk :: chunks)
    end
  else Some [].

(** [common.GetChunks]; the fuel is the number of items, which is enough for
    every positive chunk size ([GetChunks_total] below). *)
Definition GetChunks {A} (items : list A) (chunkSize : Z) : option (list (list A)) :=
  chunks_loop (length items) items chunkSize 0.

(** ** Lemmas *)
Section utils_lemmas.
Context {UC : UnicodeCase}.

Lemma ContainsEqualFold_spec (slice : list string) (s : string) :
  ContainsEqualFold slice s = true <-> exists item, item ∈ slice /\ EqualFold item s = true.
Proof.
  induction slice as [|x l IH]; cbn.
  - split; [done|]. intros (? & H & _). by apply not_elem_of_nil in H.
  - destruct (EqualFold x s) eqn:E.
    + split; [|done]. intros _. exists x. split; [by left|done].
    + rewrite IH. split.
      * intros (i & Hi & Hs). exists i. split; [by right|done].
      * intros (i & Hi & Hs). apply elem_of_cons in Hi as [->|Hi]; [congruence|eauto].
Qed.

Lemma ContainsEqualFold_false (slice : list string) (s : string) :
  ContainsEqualFold slice s = false <-> forall item, item ∈ slice -> EqualFold item s = false.
Proof.
  split.
  - intros H i Hi. destruct (EqualFold i s) eqn:E; [|done].
    assert (ContainsEqualFold slice s = true); [|congruence].
    apply ContainsEqualFold_spec. eauto.
  - intros H. destruct (ContainsEqualFold slice s) eqn:E; [|done].
    apply ContainsEqualFold_spec in E as (i & Hi & Hs). by rewrite H in Hs.
Qed.

Lemma ContainsEqualFold_congr (slice : list string) (s t : string) :
  EqualFold s t = true -> ContainsEqualFold slice s = ContainsEqualFold slice t.
Proof.
  intros E. induction slice as [|x l IH]; [done|]. cbn.
  rewrite (EqualFold_sym x s), (EqualFold_sym x t), (EqualFold_congr s t x E).
  by rewrite IH.
Qed.

Lemma ContainsEqualFold_perm (l l' : list string) (s : string) :
  l ≡ₚ l' -> ContainsEqualFold l s = ContainsEqualFold l' s.
Proof.
  intros P. apply eq_true_iff_eq. rewrite !ContainsEqualFold_spec.
  by setoid_rewrite P.
Qed.

Lemma ContainsEqualFold_app (l l' : list string) (s : string) :
  ContainsEqualFold (l ++ l') s = ContainsEqualFold l s || ContainsEqualFold l' s.
Proof. induction l as [|x l IH]; cbn; [done|]. by destruct (EqualFold x s). Qed.
End utils_lemmas.

Lemma IntMin_min (a b : Z) : IntMin a b = Z.min a b.
Proof. unfold IntMin. destruct (Z.ltb_spec a b); lia. Qed.

Lemma IntMax_max (a b : Z) : IntMax a b = Z.max a b.
Proof. unfold IntMax. destruct (Z.ltb_spec b a); lia. Qed.

Lemma range_count {V} (l : list (string * V)) (n : Z) :
  range_list (fun _ _ count => ((count + 1)%Z, true)) l n = (n + zlen l)%Z.
Proof.
  revert n. induction l as [|[k v] l IH]; intros n; cbn; unfold zlen in *; cbn; [lia|].
  rewrite IH. lia.
Qed.

Lemma GetSyncMapLen_size {V} (m : gmap string V) : GetSyncMapLen m = Z.of_nat (size m).
Proof.
  unfold GetSyncMapLen, Range. rewrite range_count.
  unfold zlen. by rewrite length_map_to_list.
Qed.

(** A chunk loop with enough fuel returns chunks that rebuild the rest of the
    slice, none of them longer than the chunk size or empty. *)
Lemma chunks_loop_total {A} (items : list A) (n : Z) (fuel : nat) (i : Z) :
  (0 < n)%Z -> (0 <= i)%Z -> (zlen items <= i + Z.of_nat fuel)%Z ->
  exists chunks, chunks_loop fuel items n i = Some chunks /\
    concat chunks = drop (Z.to_nat i) items /\
    Forall (fun c => (0 < zlen c <= n)%Z) chunks.
Proof.
  intros Hn. revert i. induction fuel as [|fuel IH]; intros i Hi Hf; cbn [chunks_loop].
  - rewrite (proj2 (Z.ltb_ge i (zlen items))) by lia.
    exists []. split; [done|]. split; [|done]. symmetry. apply drop_ge.
    unfold zlen in *. lia.
  - destruct (Z.ltb_spec i (zlen items)) as [Hlt|Hge].
    + destruct (IH (i + n)%Z) as (chunks & E & Hc & HF); [lia|lia|].
      rewrite E. cbn [mbind option_bind]. rewrite IntMin_min.
      eexists. split; [done|]. cbn [concat]. rewrite Hc. unfold zlen in *. split.
      * destruct (Z.min_spec (i + n) (Z.of_nat (length items))) as [[? ->]|[? ->]].
        -- replace (Z.to_nat (i + n)) with (Z.to_nat (i + n - i) + Z.to_nat i)%nat by lia.
           rewrite Nat.add_comm, <- drop_drop. apply take_drop.
        -- rewrite take_ge by (rewrite length_drop; lia).
           rewrite (drop_ge items (Z.to_nat (i + n))) by lia. apply app_nil_r.
      * constructor; [|done]. rewrite length_take, length_drop. lia.
    + exists []. split; [done|]. split; [|done]. symmetry. apply drop_ge.
      unfold zlen in *. lia.
Qed.

Lemma GetChunks_total {A} (items : list A) (n : Z) :
  (0 < n)%Z ->
  exists chunks, GetChunks items n = Some chunks /\ concat chunks = items /\
    Forall (fun c => (0 < zlen c <= n)%Z) chunks.
Proof.
  intros Hn. unfold GetChunks.
  destruct (chunks_loop_total items n (length items) 0) as (c & H & Hc & HF);
    [lia|lia|unfold zlen; lia|].
  exists c. by rewrite drop_0 in Hc.
Qed.

#[export] Hint Resolve ContainsEqualFold_perm : golist.
