(* ===== verification/Types.v ===== *)
(** * The API types: api/v1alpha1/rollingupgrade_types.go

    The RollingUpgrade resource, its accessors and setters, and [Validate].
    Strategy type and mode stay strings, as in the source, because nothing but
    [Validate] restricts what the CRD lets in.  A pointer is an [option]; a map
    that can be nil is an [option] of a [gmap]. *)
From S2P Require Import Prelude GoStrings GoTime Common.

(** ** intstr.IntOrString (k8s.io/apimachinery) *)
Inductive IntOrStringType := IntType | StringType.

Record IntOrString := mkIntOrString {
  ios_Type : IntOrStringType;
  ios_IntVal : Z;
  ios_StrVal : string;
}.

#[export] Instance IntOrStringType_eq_dec : EqDecision IntOrStringType.
Proof. solve_decision. Defined.
#[export] Instance IntOrString_eq_dec : EqDecision IntOrString.
Proof. solve_decision. Defined.

(** The library functions on it that the controller calls. *)
Class IntOrStringOps := {
  (* intstr.GetValueFromIntOrPercent(&x, total, roundUp), error dropped *)
  GetValueFromIntOrPercent : IntOrString -> Z -> bool -> Z;
  (* x.IntValue() *)
  IntValue : IntOrString -> Z;
}.

(** What the library documents of them: a percentage is scaled against the total
    and rounded up when asked to; another string is refused, with 0 for a value, or, if it
    is a number among percent signs, at most read as that percentage; an integer is returned as it is. *)
Class IntOrStringLaws (ops : IntOrStringOps) : Prop := {
  scaled_percent : forall (x : IntOrString) (p total : Z),
    ios_Type x = StringType ->
    Trim (ios_StrVal x) "%"%char +:+ "%" = ios_StrVal x ->
    Atoi (Trim (ios_StrVal x) "%"%char) = (p, true) ->
    (0 <= p)%Z -> (0 <= total)%Z ->
    GetValueFromIntOrPercent x total true = ((p * total + 99) / 100)%Z;
  scaled_other : forall (x : IntOrString) (p total : Z),
    ios_Type x = StringType ->
    Atoi (Trim (ios_StrVal x) "%"%char) = (p, true) ->
    (0 <= p)%Z -> (0 <= total)%Z ->
    GetValueFromIntOrPercent x total true = ((p * total + 99) / 100)%Z \/
    GetValueFromIntOrPercent x total true = 0%Z;
  int_value : forall x, ios_Type x = IntType -> IntValue x = ios_IntVal x;
}.

(** ** Steps, statistics and per-node progress *)
Abbreviation RollingUpgradeStep := string (only parsing).

Record RollingUpgradeStatistics := mkStatistics {
  stat_StepName : RollingUpgradeStep;
  stat_DurationSum : Duration;
  stat_DurationCount : Z;      (* int32 *)
}.

Record NodeStepDuration := mkNodeStepDuration {
  nsd_GroupName : string;
  nsd_NodeName : string;
  nsd_StepName : RollingUpgradeStep;
  nsd_Duration : Duration;
}.

Record NodeInProcessing := mkNodeInProcessing {
  nip_NodeName : string;
  nip_StepName : RollingUpgradeStep;
  nip_UpgradeStartTime : Time;
  nip_StepStartTime : Time;
  nip_StepEndTime : Time;
}.

Record RollingUpgradeCondition := mkCondition {
  cond_Type : string;
  cond_Status : string;
}.

(** ** Specification *)
Record UpdateStrategy := mkStrategy {
  us_Type : string;
  us_Mode : string;
  us_MaxUnavailable : IntOrString;
  us_DrainTimeout : option Z;
}.

Record PostDrainSpec := mkPostDrain {
  pd_Script : string;
  pd_WaitSeconds : Z;
  pd_PostWaitScript : string;
}.

(** A readiness gate is its [MatchLabels] map. *)
Abbreviation NodeReadinessGate := (gmap string string) (only parsing).

Record RollingUpgradeSpec := mkSpec {
  spec_PostDrainDelaySeconds : Z;
  spec_NodeIntervalSeconds : Z;
  spec_AsgName : string;
  spec_PreDrainScript : string;        (* PreDrain.Script *)
  spec_PostDrain : PostDrainSpec;
  spec_PostTerminateScript : string;   (* PostTerminate.Script *)
  spec_Strategy : UpdateStrategy;
  spec_IgnoreDrainFailures : option bool;
  spec_ForceRefresh : bool;
  spec_ReadinessGates : list NodeReadinessGate;
}.

(** ** Status *)
Record RollingUpgradeStatus := mkStatus {
  st_CurrentStatus : string;
  st_StartTime : string;
  st_EndTime : string;
  st_TotalProcessingTime : string;
  st_NodesProcessed : Z;
  st_TotalNodes : Z;
  st_CompletePercentage : string;
  st_Conditions : list RollingUpgradeCondition;
  st_LastNodeTerminationTime : option Time;
  st_LastNodeDrainTime : option Time;
  st_Statistics : list RollingUpgradeStatistics;
  st_LastBatchNodes : list string;
  st_NodeInProcessing : option (gmap string NodeInProcessing);
}.

(** ** The resource: the object metadata the controller reads, spec and status *)
Record RollingUpgrade := mkRollingUpgrade {
  ru_Name : string;
  ru_Namespace : string;
  ru_Labels : option (gmap string string);
  ru_CreationTimestamp : Time;
  ru_DeletionTimestamp : option Time;
  ru_Spec : RollingUpgradeSpec;
  ru_Status : RollingUpgradeStatus;
}.

(** ** Constants *)
Definition StatusInit : string := "init".
Definition StatusRunning : string := "running".
Definition StatusComplete : string := "completed".
Definition StatusError : string := "error".

Definition NodeRotationTotal : RollingUpgradeStep := "total".
Definition NodeRotationKickoff : RollingUpgradeStep := "kickoff".
Definition NodeRotationDesiredNodeReady : RollingUpgradeStep := "desired_node_ready".
Definition NodeRotationPredrainScript : RollingUpgradeStep := "predrain_script".
Definition NodeRotationDrain : RollingUpgradeStep := "drain".
Definition NodeRotationPostdrainScript : RollingUpgradeStep := "postdrain_script".
Definition NodeRotationPostWait : RollingUpgradeStep := "post_wait".
Definition NodeRotationTerminate : RollingUpgradeStep := "terminate".
Definition NodeRotationPostTerminate : RollingUpgradeStep := "post_terminate".
Definition NodeRotationTerminated : RollingUpgradeStep := "terminated".
Definition NodeRotationCompleted : RollingUpgradeStep := "completed".

Definition LabelKeyRollingUpgradeCurrentStatus : string :=
  "rollingupgrade.keikoproj.io/current-status".

(** [NodeRotationStepOrders]; a missing key reads as 0. *)
Definition NodeRotationStepOrders : gmap string Z :=
  list_to_map [
    (NodeRotationKickoff, 10%Z);
    (NodeRotationDesiredNodeReady, 20%Z);
    (NodeRotationPredrainScript, 30%Z);
    (NodeRotationDrain, 40%Z);
    (NodeRotationPostdrainScript, 50%Z);
    (NodeRotationPostWait, 60%Z);
    (NodeRotationTerminate, 70%Z);
    (NodeRotationPostTerminate, 80%Z);
    (NodeRotationTerminated, 90%Z);
    (NodeRotationCompleted, 1000%Z)
  ].

Definition RandomUpdateStrategy : string := "randomUpdate".
Definition UniformAcrossAzUpdateStrategy : string := "uniformAcrossAzUpdate".
Definition UpdateStrategyModeLazy : string := "lazy".
Definition UpdateStrategyModeEager : string := "eager".

Definition FiniteStates : list string := [StatusComplete; StatusError].
Definition AllowedStrategyType : list string :=
  [RandomUpdateStrategy; UniformAcrossAzUpdateStrategy].
Definition AllowedStrategyMode : list string :=
  [UpdateStrategyModeLazy; UpdateStrategyModeEager].
Definition DefaultRequeueTime : Duration := (30 * Second)%Z.

(** ** Field updates of the status, one per field *)
Definition with_CurrentStatus (v : string) (s : RollingUpgradeStatus) : RollingUpgradeStatus :=
  mkStatus v (st_StartTime s) (st_EndTime s) (st_TotalProcessingTime s) (st_NodesProcessed
    s) (st_TotalNodes s) (st_CompletePercentage s) (st_Conditions s)
    (st_LastNodeTerminationTime s) (st_LastNodeDrainTime s) (st_Statistics s)
    (st_LastBatchNodes s) (st_NodeInProcessing s).
Definition with_StartTime (v : string) (s : RollingUpgradeStatus) : RollingUpgradeStatus :=
  mkStatus (st_CurrentStatus s) v (st_EndTime s) (st_TotalProcessingTime s)
    (st_NodesProcessed s) (st_TotalNodes s) (st_CompletePercentage s) (st_Conditions s)
    (st_LastNodeTerminationTime s) (st_LastNodeDrainTime s) (st_Statistics s)
    (st_LastBatchNodes s) (st_NodeInProcessing s).
Definition with_EndTime (v : string) (s : RollingUpgradeStatus) : RollingUpgradeStatus :=
  mkStatus (st_CurrentStatus s) (st_StartTime s) v (st_TotalProcessingTime s)
    (st_NodesProcessed s) (st_TotalNodes s) (st_CompletePercentage s) (st_Conditions s)
    (st_LastNodeTerminationTime s) (st_LastNodeDrainTime s) (st_Statistics s)
    (st_LastBatchNodes s) (st_NodeInProcessing s).
Definition with_TotalProcessingTime (v : string) (s : RollingUpgradeStatus) : RollingUpgradeStatus :=
  mkStatus (st_CurrentStatus s) (st_StartTime s) (st_EndTime s) v (st_NodesProcessed s)
    (st_TotalNodes s) (st_CompletePercentage s) (st_Conditions s)
    (st_LastNodeTerminationTime s) (st_LastNodeDrainTime s) (st_Statistics s)
    (st_LastBatchNodes s) (st_NodeInProcessing s).
Definition with_NodesProcessed (v : Z) (s : RollingUpgradeStatus) : RollingUpgradeStatus :=
  mkStatus (st_CurrentStatus s) (st_StartTime s) (st_EndTime s) (st_TotalProcessingTime s) v
    (st_TotalNodes s) (st_CompletePercentage s) (st_Conditions s)
    (st_LastNodeTerminationTime s) (st_LastNodeDrainTime s) (st_Statistics s)
    (st_LastBatchNodes s) (st_NodeInProcessing s).
Definition with_TotalNodes (v : Z) (s : RollingUpgradeStatus) : RollingUpgradeStatus :=
  mkStatus (st_CurrentStatus s) (st_StartTime s) (st_EndTime s) (st_TotalProcessingTime s)
    (st_NodesProcessed s) v (st_CompletePercentage s) (st_Conditions s)
    (st_LastNodeTerminationTime s) (st_LastNodeDrainTime s) (st_Statistics s)
    (st_LastBatchNodes s) (st_NodeInProcessing s).
Definition with_CompletePercentage (v : string) (s : RollingUpgradeStatus) : RollingUpgradeStatus :=
  mkStatus (st_CurrentStatus s) (st_StartTime s) (st_EndTime s) (st_TotalProcessingTime s)
    (st_NodesProcessed s) (st_TotalNodes s) v (st_Conditions s) (st_LastNodeTerminationTime
    s) (st_LastNodeDrainTime s) (st_Statistics s) (st_LastBatchNodes s) (st_NodeInProcessing
    s).
Definition with_Conditions (v : list RollingUpgradeCondition) (s : RollingUpgradeStatus) : RollingUpgradeStatus :=
  mkStatus (st_CurrentStatus s) (st_StartTime s) (st_EndTime s) (st_TotalProcessingTime s)
    (st_NodesProcessed s) (st_TotalNodes s) (st_CompletePercentage s) v
    (st_LastNodeTerminationTime s) (st_LastNodeDrainTime s) (st_Statistics s)
    (st_LastBatchNodes s) (st_NodeInProcessing s).
Definition with_LastNodeTerminationTime (v : option Time) (s : RollingUpgradeStatus) : RollingUpgradeStatus :=
  mkStatus (st_CurrentStatus s) (st_StartTime s) (st_EndTime s) (st_TotalProcessingTime s)
    (st_NodesProcessed s) (st_TotalNodes s) (st_CompletePercentage s) (st_Conditions s) v
    (st_LastNodeDrainTime s) (st_Statistics s) (st_LastBatchNodes s) (st_NodeInProcessing
    s).
Definition with_LastNodeDrainTime (v : option Time) (s : RollingUpgradeStatus) : RollingUpgradeStatus :=
  mkStatus (st_CurrentStatus s) (st_StartTime s) (st_EndTime s) (st_TotalProcessingTime s)
    (st_NodesProcessed s) (st_TotalNodes s) (st_CompletePercentage s) (st_Conditions s)
    (st_LastNodeTerminationTime s) v (st_Statistics s) (st_LastBatchNodes s)
    (st_NodeInProcessing s).
Definition with_Statistics (v : list RollingUpgradeStatistics) (s : RollingUpgradeStatus) : RollingUpgradeStatus :=
  mkStatus (st_CurrentStatus s) (st_StartTime s) (st_EndTime s) (st_TotalProcessingTime s)
    (st_NodesProcessed s) (st_TotalNodes s) (st_CompletePercentage s) (st_Conditions s)
    (st_LastNodeTerminationTime s) (st_LastNodeDrainTime s) v (st_LastBatchNodes s)
    (st_NodeInProcessing s).
Definition with_LastBatchNodes (v : list string) (s : RollingUpgradeStatus) : RollingUpgradeStatus :=
  mkStatus (st_CurrentStatus s) (st_StartTime s) (st_EndTime s) (st_TotalProcessingTime s)
    (st_NodesProcessed s) (st_TotalNodes s) (st_CompletePercentage s) (st_Conditions s)
    (st_LastNodeTerminationTime s) (st_LastNodeDrainTime s) (st_Statistics s) v
    (st_NodeInProcessing s).
Definition with_NodeInProcessing (v : option (gmap string NodeInProcessing)) (s : RollingUpgradeStatus) : RollingUpgradeStatus :=
  mkStatus (st_CurrentStatus s) (st_StartTime s) (st_EndTime s) (st_TotalProcessingTime s)
    (st_NodesProcessed s) (st_TotalNodes s) (st_CompletePercentage s) (st_Conditions s)
    (st_LastNodeTerminationTime s) (st_LastNodeDrainTime s) (st_Statistics s)
    (st_LastBatchNodes s) v.

Definition with_Status (f : RollingUpgradeStatus -> RollingUpgradeStatus) (r : RollingUpgrade)
  : RollingUpgrade :=
  mkRollingUpgrade (ru_Name r) (ru_Namespace r) (ru_Labels r) (ru_CreationTimestamp r)
    (ru_DeletionTimestamp r) (ru_Spec r) (f (ru_Status r)).

Definition with_Labels (l : option (gmap string string)) (r : RollingUpgrade) : RollingUpgrade :=
  mkRollingUpgrade (ru_Name r) (ru_Namespace r) l (ru_CreationTimestamp r)
    (ru_DeletionTimestamp r) (ru_Spec r) (ru_Status r).

Definition with_Strategy (f : UpdateStrategy -> UpdateStrategy) (r : RollingUpgrade)
  : RollingUpgrade :=
  let sp := ru_Spec r in
  mkRollingUpgrade (ru_Name r) (ru_Namespace r) (ru_Labels r) (ru_CreationTimestamp r)
    (ru_DeletionTimestamp r)
    (mkSpec (spec_PostDrainDelaySeconds sp) (spec_NodeIntervalSeconds sp) (spec_AsgName sp)
       (spec_PreDrainScript sp) (spec_PostDrain sp) (spec_PostTerminateScript sp)
       (f (spec_Strategy sp))
       (spec_IgnoreDrainFailures sp) (spec_ForceRefresh sp) (spec_ReadinessGates sp))
    (ru_Status r).

Definition with_us_Type (v : string) (s : UpdateStrategy) : UpdateStrategy :=
  mkStrategy v (us_Mode s) (us_MaxUnavailable s) (us_DrainTimeout s).
Definition with_us_Mode (v : string) (s : UpdateStrategy) : UpdateStrategy :=
  mkStrategy (us_Type s) v (us_MaxUnavailable s) (us_DrainTimeout s).
Definition with_us_IntVal (v : Z) (s : UpdateStrategy) : UpdateStrategy :=
  let mu := us_MaxUnavailable s in
  mkStrategy (us_Type s) (us_Mode s) (mkIntOrString (ios_Type mu) v (ios_StrVal mu))
    (us_DrainTimeout s).
Definition with_us_DrainTimeout (v : option Z) (s : UpdateStrategy) : UpdateStrategy :=
  mkStrategy (us_Type s) (us_Mode s) (us_MaxUnavailable s) v.

(** ** Accessors *)
Definition NamespacedName (r : RollingUpgrade) : string :=
  ru_Namespace r +:+ "/" +:+ ru_Name r.
Definition ScalingGroupName (r : RollingUpgrade) : string := spec_AsgName (ru_Spec r).
Definition DrainTimeout (r : RollingUpgrade) : option Z :=
  us_DrainTimeout (spec_Strategy (ru_Spec r)).
Definition PostTerminateScript (r : RollingUpgrade) : string :=
  spec_PostTerminateScript (ru_Spec r).
Definition PostWaitScript (r : RollingUpgrade) : string :=
  pd_PostWaitScript (spec_PostDrain (ru_Spec r)).
Definition PreDrainScript (r : RollingUpgrade) : string := spec_PreDrainScript (ru_Spec r).
Definition PostDrainScript (r : RollingUpgrade) : string :=
  pd_Script (spec_PostDrain (ru_Spec r)).
Definition CurrentStatus (r : RollingUpgrade) : string := st_CurrentStatus (ru_Status r).
Definition UpdateStrategyType (r : RollingUpgrade) : string := us_Type (spec_Strategy (ru_Spec r)).
Definition MaxUnavailable (r : RollingUpgrade) : IntOrString :=
  us_MaxUnavailable (spec_Strategy (ru_Spec r)).
Definition LastNodeTerminationTime (r : RollingUpgrade) : option Time :=
  st_LastNodeTerminationTime (ru_Status r).
Definition LastNodeDrainTime (r : RollingUpgrade) : option Time :=
  st_LastNodeDrainTime (ru_Status r).
Definition NodeIntervalSeconds (r : RollingUpgrade) : Z := spec_NodeIntervalSeconds (ru_Spec r).
Definition PostDrainDelaySeconds (r : RollingUpgrade) : Z :=
  spec_PostDrainDelaySeconds (ru_Spec r).
Definition StartTime (r : RollingUpgrade) : string := st_StartTime (ru_Status r).
Definition EndTime (r : RollingUpgrade) : string := st_EndTime (ru_Status r).
Definition IsForceRefresh (r : RollingUpgrade) : bool := spec_ForceRefresh (ru_Spec r).
Definition IsIgnoreDrainFailures (r : RollingUpgrade) : option bool :=
  spec_IgnoreDrainFailures (ru_Spec r).
Definition StrategyMode (r : RollingUpgrade) : string := us_Mode (spec_Strategy (ru_Spec r)).

(** ** Setters *)
Definition SetCurrentStatus (v : string) : RollingUpgrade -> RollingUpgrade :=
  with_Status (with_CurrentStatus v).
Definition SetLabel (key value : string) (r : RollingUpgrade) : RollingUpgrade :=
  let labels := default ∅ (ru_Labels r) in
  with_Labels (Some (<[key := value]> labels)) r.
Definition SetStartTime (v : string) : RollingUpgrade -> RollingUpgrade :=
  with_Status (with_StartTime v).
Definition SetEndTime (v : string) : RollingUpgrade -> RollingUpgrade :=
  with_Status (with_EndTime v).
Definition SetTotalProcessingTime (v : string) : RollingUpgrade -> RollingUpgrade :=
  with_Status (with_TotalProcessingTime v).
Definition SetTotalNodes (n : Z) : RollingUpgrade -> RollingUpgrade :=
  with_Status (with_TotalNodes n).
Definition SetNodesProcessed (n : Z) : RollingUpgrade -> RollingUpgrade :=
  with_Status (with_NodesProcessed n).
Definition SetCompletePercentage (n : Z) : RollingUpgrade -> RollingUpgrade :=
  with_Status (with_CompletePercentage (Itoa n +:+ "%")).
Definition SetLastNodeTerminationTime (t : option Time) : RollingUpgrade -> RollingUpgrade :=
  with_Status (with_LastNodeTerminationTime t).
Definition SetLastNodeDrainTime (t : option Time) : RollingUpgrade -> RollingUpgrade :=
  with_Status (with_LastNodeDrainTime t).

(** [RollingUpgradeStatus.SetCondition]: overwrite the first condition of that
    type, or append. *)
Fixpoint set_condition (cond : RollingUpgradeCondition) (l : list RollingUpgradeCondition)
  : list RollingUpgradeCondition :=
  match l with
  | [] => [cond]
  | c :: l' => if String.eqb (cond_Type c) (cond_Type cond) then cond :: l'
               else c :: set_condition cond l'
  end.

Definition SetCondition (cond : RollingUpgradeCondition) (s : RollingUpgradeStatus)
  : RollingUpgradeStatus :=
  with_Conditions (set_condition cond (st_Conditions s)) s.

(** ** Validate

    [strategy] is the copy of the strategy the source takes on entry: the checks
    and the messages read the copy, the defaults are written into the resource,
    and a later error leaves the defaults written so far. *)
Section validate.
Context {UC : UnicodeCase}.

Definition validate_type (strategy : UpdateStrategy) (r : RollingUpgrade)
  : RollingUpgrade * option error :=
  if String.eqb (us_Type strategy) "" then
    (with_Strategy (with_us_Type RandomUpdateStrategy) r, None)
  else if negb (ContainsEqualFold AllowedStrategyType (us_Type strategy)) then
    (r, Some (Errorf (ru_Name r +:+ ": Invalid value for startegy Type - "
                      +:+ Itoa (ios_IntVal (us_MaxUnavailable strategy)))))
  else (r, None).

Definition validate_mode (strategy : UpdateStrategy) (r : RollingUpgrade)
  : RollingUpgrade * option error :=
  if String.eqb (us_Mode strategy) "" then
    (with_Strategy (with_us_Mode UpdateStrategyModeLazy) r, None)
  else if negb (ContainsEqualFold AllowedStrategyMode (us_Mode strategy)) then
    (r, Some (Errorf (ru_Name r +:+ ": Invalid value for startegy Mode - "
                      +:+ Itoa (ios_IntVal (us_MaxUnavailable strategy)))))
  else (r, None).

Definition validate_max_unavailable (strategy : UpdateStrategy) (r : RollingUpgrade)
  : RollingUpgrade * option error :=
  let mu := us_MaxUnavailable strategy in
  let invalid v := Some (Errorf (ru_Name r +:+ ": Invalid value for startegy maxUnavailable - "
                                 +:+ v)) in
  match ios_Type mu with
  | IntType =>
      if (ios_IntVal mu =? 0)%Z then (with_Strategy (with_us_IntVal 1) r, None)
      else if (ios_IntVal mu <? 0)%Z then (r, invalid (Itoa (ios_IntVal mu)))
      else (r, None)
  | StringType =>
      let intValue := (Atoi (Trim (ios_StrVal mu) "%"%char)).1 in
      if (intValue <=? 0)%Z || (100 <? intValue)%Z then (r, invalid (ios_StrVal mu))
      else (r, None)
  end.

Definition validate_drain_timeout (strategy : UpdateStrategy) (r : RollingUpgrade)
  : RollingUpgrade * option error :=
  match us_DrainTimeout strategy with
  | None => (r, None)
  | Some t =>
      if (t =? 0)%Z then (with_Strategy (with_us_DrainTimeout (Some (-1)%Z)) r, None)
      else if (t <? -1)%Z then
        (r, Some (Errorf (ru_Name r +:+ ": Invalid value for startegy DrainTimeout - "
                          +:+ Itoa (ios_IntVal (us_MaxUnavailable strategy)))))
      else (r, None)
  end.

(** One check after the other; the first error returns. *)
Definition check_then (f g : RollingUpgrade -> RollingUpgrade * option error)
  (r : RollingUpgrade) : RollingUpgrade * option error :=
  match f r with
  | (r', Some err) => (r', Some err)
  | (r', None) => g r'
  end.

Definition Validate (r : RollingUpgrade) : RollingUpgrade * option error :=
  let strategy := spec_Strategy (ru_Spec r) in
  check_then (validate_type strategy)
    (check_then (validate_mode strategy)
       (check_then (validate_max_unavailable strategy) (validate_drain_timeout strategy))) r.
End validate.

(** ** Specification of [Validate] *)
Section validated.
Context {UC : UnicodeCase}.

(** The strategies [Validate] accepts. *)
Definition acceptable_type (s : UpdateStrategy) : Prop :=
  us_Type s = "" \/ ContainsEqualFold AllowedStrategyType (us_Type s) = true.
Definition acceptable_mode (s : UpdateStrategy) : Prop :=
  us_Mode s = "" \/ ContainsEqualFold AllowedStrategyMode (us_Mode s) = true.
Definition acceptable_max_unavailable (s : UpdateStrategy) : Prop :=
  match ios_Type (us_MaxUnavailable s) with
  | IntType => (0 <= ios_IntVal (us_MaxUnavailable s))%Z
  | StringType => (0 < (Atoi (Trim (ios_StrVal (us_MaxUnavailable s)) "%"%char)).1 <= 100)%Z
  end.
Definition acceptable_drain_timeout (s : UpdateStrategy) : Prop :=
  match us_DrainTimeout s with None => True | Some t => (-1 <= t)%Z end.
Definition acceptable_strategy (s : UpdateStrategy) : Prop :=
  acceptable_type s /\ acceptable_mode s /\ acceptable_max_unavailable s /\
  acceptable_drain_timeout s.

(** What the rest of the controller can rely on after validation: no field is
    left at its default. *)
Definition valid_strategy (s : UpdateStrategy) : Prop :=
  acceptable_strategy s /\ us_Type s <> "" /\ us_Mode s <> "" /\
  (ios_Type (us_MaxUnavailable s) = IntType -> ios_IntVal (us_MaxUnavailable s) <> 0%Z) /\
  us_DrainTimeout s <> Some 0%Z.

(** The defaults, field by field. *)
Definition default_type (s : UpdateStrategy) : UpdateStrategy -> UpdateStrategy :=
  if String.eqb (us_Type s) "" then with_us_Type RandomUpdateStrategy else id.
Definition default_mode (s : UpdateStrategy) : UpdateStrategy -> UpdateStrategy :=
  if String.eqb (us_Mode s) "" then with_us_Mode UpdateStrategyModeLazy else id.
Definition default_max_unavailable (s : UpdateStrategy) : UpdateStrategy -> UpdateStrategy :=
  if bool_decide (ios_Type (us_MaxUnavailable s) = IntType
                  /\ ios_IntVal (us_MaxUnavailable s) = 0%Z)
  then with_us_IntVal 1 else id.
Definition default_drain_timeout (s : UpdateStrategy) : UpdateStrategy -> UpdateStrategy :=
  if bool_decide (us_DrainTimeout s = Some 0%Z) then with_us_DrainTimeout (Some (-1)%Z) else id.
Definition default_strategy (s : UpdateStrategy) : UpdateStrategy :=
  default_drain_timeout s (default_max_unavailable s (default_mode s (default_type s s))).
End validated.

(** ** Lemmas *)
Section validate_lemmas.
Context {UC : UnicodeCase}.

Lemma with_Strategy_id (r : RollingUpgrade) : with_Strategy id r = r.
Proof. by destruct r as [? ? ? ? ? [] ?]. Qed.

Lemma with_Strategy_compose (f g : UpdateStrategy -> UpdateStrategy) (r : RollingUpgrade) :
  with_Strategy f (with_Strategy g r) = with_Strategy (f ∘ g) r.
Proof. done. Qed.

Lemma check_then_ok f g (r r' : RollingUpgrade) :
  check_then f g r = (r', None) <-> exists r1, f r = (r1, None) /\ g r1 = (r', None).
Proof.
  unfold check_then. destruct (f r) as [r1 [e|]]; split.
  - done.
  - intros (? & ? & ?). done.
  - eauto.
  - by intros (? & [= <-] & ?).
Qed.

Lemma validate_type_ok (s : UpdateStrategy) (r r' : RollingUpgrade) :
  validate_type s r = (r', None) <->
  acceptable_type s /\ r' = with_Strategy (default_type s) r.
Proof.
  unfold validate_type, acceptable_type, default_type.
  destruct (String.eqb_spec (us_Type s) "") as [E|E]; [naive_solver|].
  rewrite with_Strategy_id.
  destruct (ContainsEqualFold _ _); cbn; naive_solver.
Qed.

Lemma validate_mode_ok (s : UpdateStrategy) (r r' : RollingUpgrade) :
  validate_mode s r = (r', None) <->
  acceptable_mode s /\ r' = with_Strategy (default_mode s) r.
Proof.
  unfold validate_mode, acceptable_mode, default_mode.
  destruct (String.eqb_spec (us_Mode s) "") as [E|E]; [naive_solver|].
  rewrite with_Strategy_id.
  destruct (ContainsEqualFold _ _); cbn; naive_solver.
Qed.

Lemma validate_max_unavailable_ok (s : UpdateStrategy) (r r' : RollingUpgrade) :
  validate_max_unavailable s r = (r', None) <->
  acceptable_max_unavailable s /\ r' = with_Strategy (default_max_unavailable s) r.
Proof.
  unfold validate_max_unavailable, acceptable_max_unavailable, default_max_unavailable.
  destruct (ios_Type (us_MaxUnavailable s)) eqn:T.
  - destruct (Z.eqb_spec (ios_IntVal (us_MaxUnavailable s)) 0) as [E|E].
    + rewrite bool_decide_true by done. rewrite E. naive_solver.
    + rewrite bool_decide_false by naive_solver. rewrite with_Strategy_id.
      destruct (Z.ltb_spec (ios_IntVal (us_MaxUnavailable s)) 0);
        split; intros; naive_solver lia.
  - rewrite bool_decide_false by naive_solver. rewrite with_Strategy_id.
    destruct (Z.leb_spec (Atoi (Trim (ios_StrVal (us_MaxUnavailable s)) "%"%char)).1 0);
    destruct (Z.ltb_spec 100 (Atoi (Trim (ios_StrVal (us_MaxUnavailable s)) "%"%char)).1);
      cbn; split; intros; naive_solver lia.
Qed.

Lemma validate_drain_timeout_ok (s : UpdateStrategy) (r r' : RollingUpgrade) :
  validate_drain_timeout s r = (r', None) <->
  acceptable_drain_timeout s /\ r' = with_Strategy (default_drain_timeout s) r.
Proof.
  unfold validate_drain_timeout, acceptable_drain_timeout, default_drain_timeout.
  destruct (us_DrainTimeout s) as [t|].
  - destruct (Z.eqb_spec t 0) as [->|E].
    + rewrite bool_decide_true by done. naive_solver lia.
    + rewrite bool_decide_false by congruence. rewrite with_Strategy_id.
      destruct (Z.ltb_spec t (-1)); split; intros; naive_solver lia.
  - rewrite bool_decide_false by done. rewrite with_Strategy_id. naive_solver.
Qed.

(** [Validate] accepts exactly the acceptable strategies, and then only fills
    in the defaults. *)
Lemma Validate_ok (r r' : RollingUpgrade) :
  Validate r = (r', None) <->
  acceptable_strategy (spec_Strategy (ru_Spec r)) /\
  r' = with_Strategy (fun _ => default_strategy (spec_Strategy (ru_Spec r))) r.
Proof.
  unfold Validate, acceptable_strategy.
  rewrite check_then_ok. setoid_rewrite check_then_ok. setoid_rewrite check_then_ok.
  setoid_rewrite validate_type_ok. setoid_rewrite validate_mode_ok.
  setoid_rewrite validate_max_unavailable_ok. setoid_rewrite validate_drain_timeout_ok.
  split.
  - intros (? & (? & ->) & ? & (? & ->) & ? & (? & ->) & ? & ->). by repeat split.
  - intros ((? & ? & ? & ?) & ->). eexists. split; [by split|].
    eexists. split; [by split|]. eexists. split; [by split|]. by split.
Qed.

Lemma random_allowed : ContainsEqualFold AllowedStrategyType RandomUpdateStrategy = true.
Proof. apply ContainsEqualFold_spec. eexists. split; [left|apply EqualFold_refl]. Qed.

Lemma lazy_allowed : ContainsEqualFold AllowedStrategyMode UpdateStrategyModeLazy = true.
Proof. apply ContainsEqualFold_spec. eexists. split; [left|apply EqualFold_refl]. Qed.

(** The defaults field by field: each field of the result depends only on the
    same field of the input. *)
Lemma default_strategy_fields (s : UpdateStrategy) :
  default_strategy s =
  mkStrategy (if String.eqb (us_Type s) "" then RandomUpdateStrategy else us_Type s)
    (if String.eqb (us_Mode s) "" then UpdateStrategyModeLazy else us_Mode s)
    (if bool_decide (ios_Type (us_MaxUnavailable s) = IntType
                     /\ ios_IntVal (us_MaxUnavailable s) = 0%Z)
     then mkIntOrString (ios_Type (us_MaxUnavailable s)) 1 (ios_StrVal (us_MaxUnavailable s))
     else us_MaxUnavailable s)
    (if bool_decide (us_DrainTimeout s = Some 0%Z) then Some (-1)%Z else us_DrainTimeout s).
Proof.
  unfold default_strategy, default_type, default_mode, default_max_unavailable,
    default_drain_timeout.
  destruct s as [ty mo mu dt]; cbn [us_Type us_Mode us_MaxUnavailable us_DrainTimeout].
  by destruct (String.eqb ty ""), (String.eqb mo ""), (bool_decide (_ /\ _)),
    (bool_decide (dt = _)).
Qed.

Lemma default_strategy_valid (s : UpdateStrategy) :
  acceptable_strategy s -> valid_strategy (default_strategy s).
Proof.
  intros (Ht & Hm & Hu & Hd). rewrite default_strategy_fields.
  pose proof random_allowed as HR. pose proof lazy_allowed as HL.
  unfold valid_strategy, acceptable_strategy, acceptable_type, acceptable_mode,
    acceptable_max_unavailable, acceptable_drain_timeout in *.
  cbn [us_Type us_Mode us_MaxUnavailable us_DrainTimeout].
  split; [split; [|split; [|split]]|split; [|split; [|split]]].
  - destruct (String.eqb_spec (us_Type s) ""); tauto.
  - destruct (String.eqb_spec (us_Mode s) ""); tauto.
  - case_bool_decide as U; [|done]. destruct U as [E _]. rewrite E in *. cbn. lia.
  - case_bool_decide; [lia|done].
  - by destruct (String.eqb_spec (us_Type s) "").
  - by destruct (String.eqb_spec (us_Mode s) "").
  - case_bool_decide as U; cbn; [lia|naive_solver].
  - by case_bool_decide.
Qed.

Lemma default_strategy_fixed (s : UpdateStrategy) :
  valid_strategy s -> default_strategy s = s.
Proof.
  intros (_ & Ht & Hm & Hu & Hd). rewrite default_strategy_fields.
  rewrite (proj2 (String.eqb_neq _ _) Ht), (proj2 (String.eqb_neq _ _) Hm).
  rewrite (bool_decide_false (_ /\ _)) by (intros [? ?]; by apply Hu).
  rewrite bool_decide_false by done. by destruct s.
Qed.
End validate_lemmas.

(** ** Theorems *)
Section validate_theorems.
Context {UC : UnicodeCase}.

(** C29: [Validate] returns no error exactly when the strategy
    is acceptable (type and mode empty or in the allowed lists up to letter
    case, maxUnavailable an integer of at least 0 or a string whose number is
    in 1..100, drainTimeout absent or at least -1), and then it changes nothing
    but the strategy, whose empty fields get their defaults. *)
Theorem Validate_spec (r : RollingUpgrade) :
  ((Validate r).2 = None <-> acceptable_strategy (spec_Strategy (ru_Spec r))) /\
  ((Validate r).2 = None ->
   (Validate r).1 = with_Strategy default_strategy r /\
   valid_strategy (spec_Strategy (ru_Spec (Validate r).1))).
Proof.
  destruct (Validate r) as [r' [e|]] eqn:E; cbn.
  - split; [|done]. split; [done|]. intros Ha.
    assert (Validate r = (_, None)) as H by (apply Validate_ok; split; [exact Ha|reflexivity]).
    congruence.
  - apply Validate_ok in E as [Ha ->]. split; [by split|]. intros _.
    split; [done|]. by apply default_strategy_valid.
Qed.

(** Validating an accepted resource a second time,
    as every later reconcile does, accepts it again and changes nothing. *)
Theorem Validate_idempotent (r r' : RollingUpgrade) :
  Validate r = (r', None) -> Validate r' = (r', None).
Proof.
  rewrite !Validate_ok. intros [Ha ->].
  pose proof (default_strategy_valid _ Ha) as Hv. split; [apply Hv|]. cbn.
  unfold with_Strategy. cbn. by rewrite (default_strategy_fixed _ Hv).
Qed.
End validate_theorems.

Lemma Validate_idempotent_witness :
  let r := mkRollingUpgrade "ru" "default" None 0 None
    (mkSpec 0 0 "asg" "" (mkPostDrain "" 0 "") "" (mkStrategy "" "" (mkIntOrString IntType 0 "")
       (Some 0%Z)) None false [])
    (mkStatus "" "" "" "" 0 0 "" [] None None [] [] None) in
  exists r', Validate (UC := fun c => c) r = (r', None) /\ r' <> r /\
    Validate (UC := fun c => c) r' = (r', None).
Proof.
  intros r. eexists. split; [reflexivity|]. split; [discriminate|].
  apply (Validate_idempotent (UC := fun c => c) r). reflexivity.
Defined.
