(* ===== verification/DeepCopy.v ===== *)
(** * Deep copies: api/v1alpha1/zz_generated.deepcopy.go

    The structs as Go lays them out: pointers, maps and slices are references into a heap of
    typed cells, nil is None.  The structs are written once, over the way [R] in which they
    refer to a value: [Loc] for the structs of a running program, [Val_] for their
    snapshots, in which every reference is replaced by what it points to.  Maps
    are copied in the order of [map_to_list]; the order only decides which of the fresh addresses an
    entry gets.  A fresh cell is written once, with its final content, where the generated code
    creates it empty and fills it before anything else can see it.  ObjectMeta and ListMeta
    belong to another module: their copies are parameters. *)
From S2P Require Import Prelude GoStrings GoTime Common Types.

Definition loc := positive.
Definition Loc (A : Type) : Type := loc.
Definition Val_ (A : Type) : Type := A.

(** ** The structs *)
Record PreDrainSpec := mkPreDrain { pre_Script : string }.
Record PostTerminateSpec := mkPostTerminate { pt_Script : string }.

Record GateF (R : Type -> Type) := mkGateF {
  gf_MatchLabels : option (R (gmap string string));
}.

Record StrategyF (R : Type -> Type) := mkStrategyF {
  sf_Type : string;
  sf_Mode : string;
  sf_MaxUnavailable : IntOrString;
  sf_DrainTimeout : option (R Z);
}.

Record SpecF (R : Type -> Type) := mkSpecF {
  pf_PostDrainDelaySeconds : Z;
  pf_NodeIntervalSeconds : Z;
  pf_AsgName : string;
  pf_PreDrain : PreDrainSpec;
  pf_PostDrain : PostDrainSpec;
  pf_PostTerminate : PostTerminateSpec;
  pf_Strategy : StrategyF R;
  pf_IgnoreDrainFailures : option (R bool);
  pf_ForceRefresh : bool;
  pf_ReadinessGates : option (R (list (GateF R)));
}.

(** The fields of the status that hold no reference. *)
Record StatusValues := mkStatusValues {
  sv_CurrentStatus : string;
  sv_StartTime : string;
  sv_EndTime : string;
  sv_TotalProcessingTime : string;
  sv_NodesProcessed : Z;
  sv_TotalNodes : Z;
  sv_CompletePercentage : string;
}.

Record StatusF (R : Type -> Type) := mkStatusF {
  tf_Values : StatusValues;
  tf_Conditions : option (R (list RollingUpgradeCondition));
  tf_LastNodeTerminationTime : option (R Time);
  tf_LastNodeDrainTime : option (R Time);
  tf_Statistics : option (R (list (option (R RollingUpgradeStatistics))));
  tf_LastBatchNodes : option (R (list string));
  tf_NodeInProcessing : option (R (gmap string (option (R NodeInProcessing))));
}.

(** Kind and APIVersion are the TypeMeta. *)
Record UpgradeF (R : Type -> Type) (Meta : Type) := mkUpgradeF {
  uf_Kind : string;
  uf_APIVersion : string;
  uf_ObjectMeta : Meta;
  uf_Spec : SpecF R;
  uf_Status : StatusF R;
}.

Record ListF (R : Type -> Type) (Meta ListMeta : Type) := mkListF {
  lf_Kind : string;
  lf_APIVersion : string;
  lf_ListMeta : ListMeta;
  lf_Items : option (R (list (UpgradeF R Meta)));
}.

Arguments mkGateF {R}. Arguments gf_MatchLabels {R}.
Arguments mkStrategyF {R}. Arguments sf_Type {R}. Arguments sf_Mode {R}.
Arguments sf_MaxUnavailable {R}. Arguments sf_DrainTimeout {R}.
Arguments mkSpecF {R}. Arguments pf_PostDrainDelaySeconds {R}. Arguments pf_NodeIntervalSeconds {R}.
Arguments pf_AsgName {R}. Arguments pf_PreDrain {R}. Arguments pf_PostDrain {R}.
Arguments pf_PostTerminate {R}. Arguments pf_Strategy {R}. Arguments pf_IgnoreDrainFailures {R}.
Arguments pf_ForceRefresh {R}. Arguments pf_ReadinessGates {R}.
Arguments mkStatusF {R}. Arguments tf_Values {R}. Arguments tf_Conditions {R}.
Arguments tf_LastNodeTerminationTime {R}. Arguments tf_LastNodeDrainTime {R}.
Arguments tf_Statistics {R}. Arguments tf_LastBatchNodes {R}. Arguments tf_NodeInProcessing {R}.
Arguments mkUpgradeF {R Meta}. Arguments uf_Kind {R Meta}. Arguments uf_APIVersion {R Meta}.
Arguments uf_ObjectMeta {R Meta}. Arguments uf_Spec {R Meta}. Arguments uf_Status {R Meta}.
Arguments mkListF {R Meta ListMeta}. Arguments lf_Kind {R Meta ListMeta}.
Arguments lf_APIVersion {R Meta ListMeta}. Arguments lf_ListMeta {R Meta ListMeta}.
Arguments lf_Items {R Meta ListMeta}.

(** ** The heap *)
Inductive cell (Meta ListMeta : Type) :=
| CLabels (m : gmap string string)
| CInt (z : Z)
| CBool (b : bool)
| CTime (t : Time)
| CStrings (l : list string)
| CGates (l : list (GateF Loc))
| CConditions (l : list RollingUpgradeCondition)
| CStatistics (l : list (option loc))
| CNodes (m : gmap string (option loc))
| CItems (l : list (UpgradeF Loc Meta))
| CNodeInProcessing (x : NodeInProcessing)
| CNodeReadinessGate (x : GateF Loc)
| CNodeStepDuration (x : NodeStepDuration)
| CPostDrainSpec (x : PostDrainSpec)
| CPostTerminateSpec (x : PostTerminateSpec)
| CPreDrainSpec (x : PreDrainSpec)
| CRollingUpgrade (x : UpgradeF Loc Meta)
| CRollingUpgradeCondition (x : RollingUpgradeCondition)
| CRollingUpgradeList (x : ListF Loc Meta ListMeta)
| CRollingUpgradeSpec (x : SpecF Loc)
| CRollingUpgradeStatistics (x : RollingUpgradeStatistics)
| CRollingUpgradeStatus (x : StatusF Loc)
| CUpdateStrategy (x : StrategyF Loc).
Arguments CLabels {Meta ListMeta}. Arguments CInt {Meta ListMeta}.
Arguments CBool {Meta ListMeta}. Arguments CTime {Meta ListMeta}.
Arguments CStrings {Meta ListMeta}. Arguments CGates {Meta ListMeta}.
Arguments CConditions {Meta ListMeta}. Arguments CStatistics {Meta ListMeta}.
Arguments CNodes {Meta ListMeta}. Arguments CItems {Meta ListMeta}.
Arguments CNodeInProcessing {Meta ListMeta}. Arguments CNodeReadinessGate {Meta ListMeta}.
Arguments CNodeStepDuration {Meta ListMeta}. Arguments CPostDrainSpec {Meta ListMeta}.
Arguments CPostTerminateSpec {Meta ListMeta}. Arguments CPreDrainSpec {Meta ListMeta}.
Arguments CRollingUpgrade {Meta ListMeta}. Arguments CRollingUpgradeCondition {Meta ListMeta}.
Arguments CRollingUpgradeList {Meta ListMeta}. Arguments CRollingUpgradeSpec {Meta ListMeta}.
Arguments CRollingUpgradeStatistics {Meta ListMeta}.
Arguments CRollingUpgradeStatus {Meta ListMeta}. Arguments CUpdateStrategy {Meta ListMeta}.

Section deepcopy.
Context {Meta ListMeta MetaV ListMetaV : Type}.
Abbreviation heap := (gmap loc (cell Meta ListMeta)).
Abbreviation HM := (M heap).
Implicit Types h d D : heap.

(** How the values of one type are kept in a cell. *)
Record slot (A : Type) := mkSlot {
  put : A -> cell Meta ListMeta;
  read : cell Meta ListMeta -> option A;
  read_put : forall a, read (put a) = Some a;
}.
Arguments put {A}. Arguments read {A}. Arguments read_put {A}.

Definition sLabels := mkSlot _ CLabels (fun c => match c with CLabels x => Some x | _ => None end)
  (fun _ => eq_refl).
Definition sInt := mkSlot _ CInt (fun c => match c with CInt x => Some x | _ => None end)
  (fun _ => eq_refl).
Definition sBool := mkSlot _ CBool (fun c => match c with CBool x => Some x | _ => None end)
  (fun _ => eq_refl).
Definition sTime := mkSlot _ CTime (fun c => match c with CTime x => Some x | _ => None end)
  (fun _ => eq_refl).
Definition sStrings := mkSlot _ CStrings (fun c => match c with CStrings x => Some x | _ => None end)
  (fun _ => eq_refl).
Definition sGates := mkSlot _ CGates (fun c => match c with CGates x => Some x | _ => None end)
  (fun _ => eq_refl).
Definition sConditions := mkSlot _ CConditions (fun c => match c with CConditions x => Some x | _ => None end)
  (fun _ => eq_refl).
Definition sStatistics := mkSlot _ CStatistics (fun c => match c with CStatistics x => Some x | _ => None end)
  (fun _ => eq_refl).
Definition sNodes := mkSlot _ CNodes (fun c => match c with CNodes x => Some x | _ => None end)
  (fun _ => eq_refl).
Definition sItems := mkSlot _ CItems (fun c => match c with CItems x => Some x | _ => None end)
  (fun _ => eq_refl).
Definition sNodeInProcessing := mkSlot _ CNodeInProcessing (fun c => match c with CNodeInProcessing x => Some x | _ => None end)
  (fun _ => eq_refl).
Definition sNodeReadinessGate := mkSlot _ CNodeReadinessGate (fun c => match c with CNodeReadinessGate x => Some x | _ => None end)
  (fun _ => eq_refl).
Definition sNodeStepDuration := mkSlot _ CNodeStepDuration (fun c => match c with CNodeStepDuration x => Some x | _ => None end)
  (fun _ => eq_refl).
Definition sPostDrainSpec := mkSlot _ CPostDrainSpec (fun c => match c with CPostDrainSpec x => Some x | _ => None end)
  (fun _ => eq_refl).
Definition sPostTerminateSpec := mkSlot _ CPostTerminateSpec (fun c => match c with CPostTerminateSpec x => Some x | _ => None end)
  (fun _ => eq_refl).
Definition sPreDrainSpec := mkSlot _ CPreDrainSpec (fun c => match c with CPreDrainSpec x => Some x | _ => None end)
  (fun _ => eq_refl).
Definition sRollingUpgrade := mkSlot _ CRollingUpgrade (fun c => match c with CRollingUpgrade x => Some x | _ => None end)
  (fun _ => eq_refl).
Definition sRollingUpgradeCondition := mkSlot _ CRollingUpgradeCondition (fun c => match c with CRollingUpgradeCondition x => Some x | _ => None end)
  (fun _ => eq_refl).
Definition sRollingUpgradeList := mkSlot _ CRollingUpgradeList (fun c => match c with CRollingUpgradeList x => Some x | _ => None end)
  (fun _ => eq_refl).
Definition sRollingUpgradeSpec := mkSlot _ CRollingUpgradeSpec (fun c => match c with CRollingUpgradeSpec x => Some x | _ => None end)
  (fun _ => eq_refl).
Definition sRollingUpgradeStatistics := mkSlot _ CRollingUpgradeStatistics (fun c => match c with CRollingUpgradeStatistics x => Some x | _ => None end)
  (fun _ => eq_refl).
Definition sRollingUpgradeStatus := mkSlot _ CRollingUpgradeStatus (fun c => match c with CRollingUpgradeStatus x => Some x | _ => None end)
  (fun _ => eq_refl).
Definition sUpdateStrategy := mkSlot _ CUpdateStrategy (fun c => match c with CUpdateStrategy x => Some x | _ => None end)
  (fun _ => eq_refl).

(** [new]: the next free address. *)
Definition new_cell (c : cell Meta ListMeta) : HM loc := fun h =>
  let l := fresh (dom h) in (Val l, <[l := c]> h).

(** A dereference; the typed memory of Go has a value of the pointer's type there. *)
Definition load {A} (s : slot A) (l : loc) : HM A := fun h => (deref (h !! l ≫= read s), h).

(** A reference field: nil stays nil, anything else gets a new cell with a copy made by [body]. *)
Definition copy_ref {A} (s : slot A) (body : A -> HM A) (p : option loc) : HM (option loc) :=
  match p with
  | None => mret None
  | Some l => x ← load s l; y ← body x; l' ← new_cell (put s y); mret (Some l')
  end.

(** The loop over a map: the new map gets, under each key, a copy of the value. *)
Definition copy_entries {A} (body : A -> HM A) (m : gmap string A) : HM (gmap string A) :=
  fold_m (fun out '(k, x) => y ← body x; mret (<[k := y]> out)) ∅ (map_to_list m).

(** The metadata of k8s.io/apimachinery: how ObjectMeta and ListMeta are copied, and
    what they hold. *)
Class MetaOps := {
  ObjectMeta_DeepCopyInto : Meta -> HM Meta;
  ListMeta_DeepCopyInto : ListMeta -> HM ListMeta;
  snap_ObjectMeta : heap -> Meta -> option MetaV;
  snap_ListMeta : heap -> ListMeta -> option ListMetaV;
}.
Context {MO : MetaOps}.

(** ** The generated functions: DeepCopyInto *)
Definition NodeInProcessing_DeepCopyInto (in_ : NodeInProcessing) : HM NodeInProcessing :=
  mret (mkNodeInProcessing (nip_NodeName in_) (nip_StepName in_) (nip_UpgradeStartTime in_)
          (nip_StepStartTime in_) (nip_StepEndTime in_)).

Definition NodeReadinessGate_DeepCopyInto (in_ : GateF Loc) : HM (GateF Loc) :=
  labels ← copy_ref sLabels (copy_entries mret) (gf_MatchLabels in_);
  mret (mkGateF labels).

Definition NodeStepDuration_DeepCopyInto (in_ : NodeStepDuration) : HM NodeStepDuration :=
  mret (mkNodeStepDuration (nsd_GroupName in_) (nsd_NodeName in_) (nsd_StepName in_) (nsd_Duration in_)).

Definition PostDrainSpec_DeepCopyInto (in_ : PostDrainSpec) : HM PostDrainSpec := mret in_.
Definition PostTerminateSpec_DeepCopyInto (in_ : PostTerminateSpec) : HM PostTerminateSpec := mret in_.
Definition PreDrainSpec_DeepCopyInto (in_ : PreDrainSpec) : HM PreDrainSpec := mret in_.
Definition RollingUpgradeCondition_DeepCopyInto (in_ : RollingUpgradeCondition) :
  HM RollingUpgradeCondition := mret in_.

Definition RollingUpgradeStatistics_DeepCopyInto (in_ : RollingUpgradeStatistics) :
  HM RollingUpgradeStatistics :=
  mret (mkStatistics (stat_StepName in_) (stat_DurationSum in_) (stat_DurationCount in_)).

Definition UpdateStrategy_DeepCopyInto (in_ : StrategyF Loc) : HM (StrategyF Loc) :=
  timeout ← copy_ref sInt mret (sf_DrainTimeout in_);
  mret (mkStrategyF (sf_Type in_) (sf_Mode in_) (sf_MaxUnavailable in_) timeout).

Definition RollingUpgradeSpec_DeepCopyInto (in_ : SpecF Loc) : HM (SpecF Loc) :=
  strategy ← UpdateStrategy_DeepCopyInto (pf_Strategy in_);
  ignore ← copy_ref sBool mret (pf_IgnoreDrainFailures in_);
  gates ← copy_ref sGates (mapM NodeReadinessGate_DeepCopyInto) (pf_ReadinessGates in_);
  mret (mkSpecF (pf_PostDrainDelaySeconds in_) (pf_NodeIntervalSeconds in_) (pf_AsgName in_)
          (pf_PreDrain in_) (pf_PostDrain in_) (pf_PostTerminate in_) strategy ignore
          (pf_ForceRefresh in_) gates).

Definition RollingUpgradeStatus_DeepCopyInto (in_ : StatusF Loc) : HM (StatusF Loc) :=
  conditions ← copy_ref sConditions mret (tf_Conditions in_);
  terminated ← copy_ref sTime mret (tf_LastNodeTerminationTime in_);
  drained ← copy_ref sTime mret (tf_LastNodeDrainTime in_);
  statistics ← copy_ref sStatistics (mapM (copy_ref sRollingUpgradeStatistics mret)) (tf_Statistics in_);
  batch ← copy_ref sStrings mret (tf_LastBatchNodes in_);
  nodes ← copy_ref sNodes (copy_entries (copy_ref sNodeInProcessing NodeInProcessing_DeepCopyInto))
            (tf_NodeInProcessing in_);
  mret (mkStatusF (tf_Values in_) conditions terminated drained statistics batch nodes).

Definition RollingUpgrade_DeepCopyInto (in_ : UpgradeF Loc Meta) : HM (UpgradeF Loc Meta) :=
  meta ← ObjectMeta_DeepCopyInto (uf_ObjectMeta in_);
  spec ← RollingUpgradeSpec_DeepCopyInto (uf_Spec in_);
  status ← RollingUpgradeStatus_DeepCopyInto (uf_Status in_);
  mret (mkUpgradeF (uf_Kind in_) (uf_APIVersion in_) meta spec status).

Definition RollingUpgradeList_DeepCopyInto (in_ : ListF Loc Meta ListMeta) :
  HM (ListF Loc Meta ListMeta) :=
  meta ← ListMeta_DeepCopyInto (lf_ListMeta in_);
  items ← copy_ref sItems (mapM RollingUpgrade_DeepCopyInto) (lf_Items in_);
  mret (mkListF (lf_Kind in_) (lf_APIVersion in_) meta items).

(** *** DeepCopy: a nil receiver gives nil, otherwise a new object is filled in *)
Definition NodeInProcessing_DeepCopy := copy_ref sNodeInProcessing NodeInProcessing_DeepCopyInto.
Definition NodeReadinessGate_DeepCopy := copy_ref sNodeReadinessGate NodeReadinessGate_DeepCopyInto.
Definition NodeStepDuration_DeepCopy := copy_ref sNodeStepDuration NodeStepDuration_DeepCopyInto.
Definition PostDrainSpec_DeepCopy := copy_ref sPostDrainSpec PostDrainSpec_DeepCopyInto.
Definition PostTerminateSpec_DeepCopy := copy_ref sPostTerminateSpec PostTerminateSpec_DeepCopyInto.
Definition PreDrainSpec_DeepCopy := copy_ref sPreDrainSpec PreDrainSpec_DeepCopyInto.
Definition RollingUpgrade_DeepCopy := copy_ref sRollingUpgrade RollingUpgrade_DeepCopyInto.
Definition RollingUpgradeCondition_DeepCopy :=
  copy_ref sRollingUpgradeCondition RollingUpgradeCondition_DeepCopyInto.
Definition RollingUpgradeList_DeepCopy := copy_ref sRollingUpgradeList RollingUpgradeList_DeepCopyInto.
Definition RollingUpgradeSpec_DeepCopy := copy_ref sRollingUpgradeSpec RollingUpgradeSpec_DeepCopyInto.
Definition RollingUpgradeStatistics_DeepCopy :=
  copy_ref sRollingUpgradeStatistics RollingUpgradeStatistics_DeepCopyInto.
Definition RollingUpgradeStatus_DeepCopy :=
  copy_ref sRollingUpgradeStatus RollingUpgradeStatus_DeepCopyInto.
Definition UpdateStrategy_DeepCopy := copy_ref sUpdateStrategy UpdateStrategy_DeepCopyInto.

(** A [runtime.Object] is nil or one of the two kinds the package registers. *)
Inductive Object := ObjRollingUpgrade (l : loc) | ObjRollingUpgradeList (l : loc).

Definition RollingUpgrade_DeepCopyObject (in_ : option loc) : HM (option Object) :=
  c ← RollingUpgrade_DeepCopy in_;
  match c with Some l => mret (Some (ObjRollingUpgrade l)) | None => mret None end.

Definition RollingUpgradeList_DeepCopyObject (in_ : option loc) : HM (option Object) :=
  c ← RollingUpgradeList_DeepCopy in_;
  match c with Some l => mret (Some (ObjRollingUpgradeList l)) | None => mret None end.

(** ** Snapshots: what a reference stands for in a heap; None where the heap does not have it *)
Definition snap_ref {A V} (s : slot A) (body : heap -> A -> option V) h (p : option loc) :
  option (option V) :=
  match p with
  | None => Some None
  | Some l => c ← h !! l; x ← read s c; v ← body h x; Some (Some v)
  end.

Definition snap_map {A V} (body : heap -> A -> option V) h (m : gmap string A) :
  option (gmap string V) :=
  if decide (map_Forall (fun _ x => is_Some (body h x)) m) then Some (omap (body h) m) else None.

Definition snap_list {A V} (body : heap -> A -> option V) h (l : list A) : option (list V) :=
  mapM (body h) l.

Definition snap_val {A} h (x : A) : option A := Some x.

Definition snap_gate h (g : GateF Loc) : option (GateF Val_) :=
  labels ← snap_ref sLabels snap_val h (gf_MatchLabels g);
  Some (mkGateF (R:=Val_) labels).

Definition snap_strategy h (s : StrategyF Loc) : option (StrategyF Val_) :=
  timeout ← snap_ref sInt snap_val h (sf_DrainTimeout s);
  Some (mkStrategyF (R:=Val_) (sf_Type s) (sf_Mode s) (sf_MaxUnavailable s) timeout).

Definition snap_spec h (s : SpecF Loc) : option (SpecF Val_) :=
  strategy ← snap_strategy h (pf_Strategy s);
  ignore ← snap_ref sBool snap_val h (pf_IgnoreDrainFailures s);
  gates ← snap_ref sGates (snap_list snap_gate) h (pf_ReadinessGates s);
  Some (mkSpecF (R:=Val_) (pf_PostDrainDelaySeconds s) (pf_NodeIntervalSeconds s) (pf_AsgName s)
          (pf_PreDrain s) (pf_PostDrain s) (pf_PostTerminate s) strategy ignore
          (pf_ForceRefresh s) gates).

Definition snap_status h (s : StatusF Loc) : option (StatusF Val_) :=
  conditions ← snap_ref sConditions snap_val h (tf_Conditions s);
  terminated ← snap_ref sTime snap_val h (tf_LastNodeTerminationTime s);
  drained ← snap_ref sTime snap_val h (tf_LastNodeDrainTime s);
  statistics ← snap_ref sStatistics (snap_list (snap_ref sRollingUpgradeStatistics snap_val)) h
                 (tf_Statistics s);
  batch ← snap_ref sStrings snap_val h (tf_LastBatchNodes s);
  nodes ← snap_ref sNodes (snap_map (snap_ref sNodeInProcessing snap_val)) h (tf_NodeInProcessing s);
  Some (mkStatusF (R:=Val_) (tf_Values s) conditions terminated drained statistics batch nodes).

Definition snap_upgrade h (u : UpgradeF Loc Meta) : option (UpgradeF Val_ MetaV) :=
  meta ← snap_ObjectMeta h (uf_ObjectMeta u);
  spec ← snap_spec h (uf_Spec u);
  status ← snap_status h (uf_Status u);
  Some (mkUpgradeF (uf_Kind u) (uf_APIVersion u) meta spec status).

Definition snap_upgrade_list h (u : ListF Loc Meta ListMeta) : option (ListF Val_ MetaV ListMetaV) :=
  meta ← snap_ListMeta h (lf_ListMeta u);
  items ← snap_ref sItems (snap_list snap_upgrade) h (lf_Items u);
  Some (mkListF (R:=Val_) (lf_Kind u) (lf_APIVersion u) meta items).

(** ** What a copy must do

    [allocates h m Q]: from the heap [h], [m] returns a value without touching any cell of [h];
    [d] are the cells it allocated, and [Q] relates them to the value. *)
Definition allocates {A} h (m : HM A) (Q : heap -> A -> Prop) : Prop :=
  exists y d, m h = (Val y, h ∪ d) /\ h ##ₘ d /\ Q d y.

(** A snapshot only looks at cells: more cells do not change it. *)
Definition monotone {A V} (sn : heap -> A -> option V) : Prop :=
  forall h h' x v, h ⊆ h' -> sn h x = Some v -> sn h' x = Some v.

(** [body] copies whatever [sn] can read: the copy has the same snapshot, already in the new
    cells alone. *)
Definition copier {A V} (sn : heap -> A -> option V) (body : A -> HM A) : Prop :=
  forall h x v, sn h x = Some v -> allocates h (body x) (fun d y => sn d y = Some v).

(** The contract of the metadata's DeepCopyInto functions: they are deep copies. *)
Class MetaLaws : Prop := {
  ObjectMeta_mono : monotone snap_ObjectMeta;
  ObjectMeta_copier : copier snap_ObjectMeta ObjectMeta_DeepCopyInto;
  ListMeta_mono : monotone snap_ListMeta;
  ListMeta_copier : copier snap_ListMeta ListMeta_DeepCopyInto;
}.

(** *** Rules *)
Lemma allocates_ret {A} h (y : A) (Q : heap -> A -> Prop) : Q ∅ y -> allocates h (mret y) Q.
Proof.
  intros H. exists y, ∅. split; [by rewrite (right_id_L ∅ (∪))|].
  split; [apply map_disjoint_empty_r|done].
Qed.

(** After a first part with the cells [d], the rest runs in a larger heap and its result holds in
    every heap that has both parts' cells. *)
Lemma allocates_bind {A B} h (m : HM A) (f : A -> HM B) (Q : heap -> A -> Prop) (R : heap -> B -> Prop) :
  allocates h m Q ->
  (forall h' d y, h ⊆ h' -> Q d y ->
     allocates h' (f y) (fun d' z => forall D, d ⊆ D -> d' ⊆ D -> R D z)) ->
  allocates h (m ≫= f) R.
Proof.
  intros (y & d & Em & Hd & HQ) Hf.
  destruct (Hf (h ∪ d) d y) as (z & d' & Ef & Hd' & HR); [by apply map_union_subseteq_l|done|].
  exists z, (d ∪ d'). apply map_disjoint_union_l in Hd' as [H1 H2].
  split; [|split].
  - unfold mbind, M_bind. by rewrite Em, Ef, (assoc_L (∪)).
  - by apply map_disjoint_union_r.
  - apply HR; [apply map_union_subseteq_l|by apply map_union_subseteq_r].
Qed.

Lemma allocates_mono {A} h (m : HM A) (Q R : heap -> A -> Prop) :
  allocates h m Q -> (forall d y, Q d y -> R d y) -> allocates h m R.
Proof. intros (y & d & E1 & H1 & HQ) HR. exists y, d. auto. Qed.

Lemma allocates_new h (c : cell Meta ListMeta) : allocates h (new_cell c) (fun d l => d !! l = Some c).
Proof.
  assert (h !! fresh (dom h) = None) as Hn by apply not_elem_of_dom, is_fresh.
  exists (fresh (dom h)), {[ fresh (dom h) := c ]}. split; [|split].
  - unfold new_cell. cbv zeta. by rewrite (insert_union_singleton_r h).
  - by apply map_disjoint_singleton_r.
  - apply lookup_singleton_eq.
Qed.

Lemma load_val {A} (s : slot A) h l c x : h !! l = Some c -> read s c = Some x -> load s l h = (Val x, h).
Proof. intros H1 H2. unfold load. rewrite H1. cbn. by rewrite H2. Qed.

(** *** Reference fields, slices and maps *)
Lemma snap_val_mono {A} : monotone (@snap_val A).
Proof. by intros h h' x v _. Qed.

Lemma ret_copier {A} : copier (@snap_val A) mret.
Proof. intros h x v H. by apply allocates_ret. Qed.

Lemma snap_ref_mono {A V} (s : slot A) (sn : heap -> A -> option V) :
  monotone sn -> monotone (snap_ref s sn).
Proof.
  intros Hsn h h' [l|] v Hh; [|done]. cbn. intros H.
  apply bind_Some in H as (c & Hc & H). apply bind_Some in H as (x & Hx & H).
  apply bind_Some in H as (v' & Hv & [= <-]).
  rewrite (lookup_weaken _ _ _ _ Hc Hh). cbn. rewrite Hx. cbn. by rewrite (Hsn _ _ _ _ Hh Hv).
Qed.

Lemma copy_ref_copier {A V} (s : slot A) (sn : heap -> A -> option V) (body : A -> HM A) :
  monotone sn -> copier sn body -> copier (snap_ref s sn) (copy_ref s body).
Proof.
  intros Hm Hb h [l|] v; cbn; [|by intros [= <-]; apply allocates_ret].
  intros H. apply bind_Some in H as (c & Hc & H). apply bind_Some in H as (x & Hx & H).
  apply bind_Some in H as (v' & Hv & [= <-]).
  apply (allocates_bind _ _ _ (fun d y => d = ∅ /\ y = x)).
  { exists x, ∅. rewrite (load_val s h l c x Hc Hx), (right_id_L ∅ (∪)).
    split_and!; [done|apply map_disjoint_empty_r|done|done]. }
  intros h1 d1 y Hh1 [_ ->].
  eapply allocates_bind; [apply Hb; by eapply Hm|]. intros h2 d2 y Hh2 Hy.
  eapply allocates_bind; [apply allocates_new|]. intros h3 d3 l' Hh3 Hl'.
  apply allocates_ret. intros D HD _ D2 H2 HD2 D1 _ HD1. cbn.
  assert (d3 ⊆ D1) as H31 by (by transitivity D2; [transitivity D|]).
  rewrite (lookup_weaken _ _ _ _ Hl' H31). cbn. rewrite read_put. cbn.
  rewrite (Hm d2 D1 y v'); [done| |done]. by transitivity D2.
Qed.

Lemma snap_list_mono {A V} (sn : heap -> A -> option V) : monotone sn -> monotone (snap_list sn).
Proof.
  intros Hsn h h' l v Hh. unfold snap_list. rewrite !mapM_Some.
  intros H. apply (Forall2_impl _ _ _ _ H). eauto.
Qed.

Lemma mapM_copier {A V} (sn : heap -> A -> option V) (body : A -> HM A) :
  monotone sn -> copier sn body -> copier (snap_list sn) (mapM body).
Proof.
  intros Hm Hb h l v H. unfold snap_list in H. rewrite mapM_Some in H.
  revert h H. induction l as [|x l IH] in v |- *; intros h H.
  - inversion H; subst. by apply allocates_ret.
  - apply Forall2_cons_inv_l in H as (v0 & vs & Hx & Hl & ->).
    eapply allocates_bind; [by apply Hb|]. intros h1 d1 y Hh1 Hy.
    eapply allocates_bind; [apply (IH vs h1), (Forall2_impl _ _ _ _ Hl); eauto|].
    intros h2 d2 ys Hh2 Hys. apply allocates_ret. intros D HD _ D1 H1 HD1.
    unfold snap_list in *. rewrite mapM_Some in *. constructor; [eauto|].
    assert (d2 ⊆ D1) by (by transitivity D). apply (Forall2_impl _ _ _ _ Hys); eauto.
Qed.

Lemma snap_map_Some {A V} (sn : heap -> A -> option V) h (m : gmap string A) v :
  snap_map sn h m = Some v <->
  forall k, option_Forall2 (fun x w => sn h x = Some w) (m !! k) (v !! k).
Proof.
  unfold snap_map. split.
  - destruct (decide _) as [Hd|]; [|done]. intros [= <-] k. rewrite lookup_omap.
    destruct (m !! k) as [x|] eqn:Ek; cbn; [|constructor].
    destruct (Hd k x Ek) as [w Hw]. rewrite Hw. by constructor.
  - intros H. rewrite decide_True.
    + f_equal. apply map_eq. intros k. rewrite lookup_omap. specialize (H k).
      by destruct H as [x w Hw|].
    + intros k x Ek. specialize (H k). rewrite Ek in H. inversion H; subst. by eexists.
Qed.

Lemma snap_map_mono {A V} (sn : heap -> A -> option V) : monotone sn -> monotone (snap_map sn).
Proof.
  intros Hsn h h' m v Hh. rewrite !snap_map_Some. intros H k.
  destruct (H k); constructor. eauto.
Qed.

(** Filling a map entry by entry with different keys. *)
Lemma foldl_insert {A} (l : list (string * A)) (acc : gmap string A) :
  NoDup l.*1 -> foldl (fun m '(k, x) => <[k := x]> m) acc l = list_to_map l ∪ acc.
Proof.
  induction l as [|[k x] l IH] in acc |- *; cbn; intros Hn; [by rewrite (left_id_L ∅ (∪))|].
  apply NoDup_cons in Hn as [Hk Hn]. rewrite IH by done.
  rewrite <- insert_union_l. symmetry. apply insert_union_r. by apply not_elem_of_list_to_map_1.
Qed.

Lemma entries_allocates {A V} (sn : heap -> A -> option V) (body : A -> HM A)
    (l : list (string * A)) (vs : list (string * V)) (acc : gmap string A) h :
  monotone sn -> copier sn body ->
  Forall2 (fun '(k, x) '(k', v) => k = k' /\ sn h x = Some v) l vs ->
  allocates h (fold_m (fun out '(k, x) => y ← body x; mret (<[k := y]> out)) acc l)
    (fun d r => exists ys, r = foldl (fun m '(k, x) => <[k := x]> m) acc ys /\
       Forall2 (fun '(k, y) '(k', v) => k = k' /\ sn d y = Some v) ys vs).
Proof.
  intros Hm Hb. induction l as [|[k x] l IH] in vs, acc, h |- *; intros H; cbn [fold_m].
  { inversion H; subst. apply allocates_ret. exists []. split; [done|constructor]. }
  apply Forall2_cons_inv_l in H as ([k' v] & vs' & [<- Hx] & Hl & ->).
  eapply allocates_bind.
  { eapply allocates_bind; [by apply Hb|]. intros h1 d1 y Hh1 Hy. apply allocates_ret.
    intros D HD _. instantiate (1 := fun d r => exists y, r = <[k := y]> acc /\ sn d y = Some v).
    exists y. eauto. }
  intros h1 d1 r Hh1 (y & -> & Hy).
  eapply allocates_mono; [apply (IH vs'), (Forall2_impl _ _ _ _ Hl)|].
  { intros [? ?] [? ?] [-> ?]. eauto. }
  intros d2 r (ys & -> & Hys) D H1 H2. exists ((k, y) :: ys). split; [done|].
  constructor; [by eauto|]. apply (Forall2_impl _ _ _ _ Hys). intros [? ?] [? ?] [-> ?]. eauto.
Qed.

(** The maps of two lists that agree key by key agree key by key. *)
Lemma list_to_map_Forall2 {A B} (R : A -> B -> Prop) (l : list (string * A)) (l' : list (string * B)) k :
  Forall2 (fun '(k, x) '(k', y) => k = k' /\ R x y) l l' ->
  option_Forall2 R ((list_to_map l : gmap string A) !! k) ((list_to_map l' : gmap string B) !! k).
Proof.
  induction 1 as [|[k1 x] [k2 y] l l' [-> Hxy] Hl IH]; cbn; [constructor|].
  destruct (decide (k2 = k)) as [->|Hk].
  - rewrite !lookup_insert_eq. by constructor.
  - by rewrite !lookup_insert_ne.
Qed.

Lemma entries_keys {A B} (R : A -> B -> Prop) (l : list (string * A)) (l' : list (string * B)) :
  Forall2 (fun '(k, x) '(k', y) => k = k' /\ R x y) l l' -> l.*1 = l'.*1.
Proof. induction 1 as [|[? ?] [? ?] ? ? [-> _] ? IH]; cbn; congruence. Qed.

(** A map all of whose entries have snapshots, as a list of entries with theirs. *)
Lemma snap_map_entries {A V} (sn : heap -> A -> option V) h (l : list (string * A)) :
  Forall (fun '(_, x) => is_Some (sn h x)) l ->
  exists vs, Forall2 (fun '(k, x) '(k', v) => k = k' /\ sn h x = Some v) l vs.
Proof.
  induction 1 as [|[k x] l [v Hv] Hl [vs IH]]; [by exists []|].
  exists ((k, v) :: vs). by constructor.
Qed.

Lemma copy_entries_copier {A V} (sn : heap -> A -> option V) (body : A -> HM A) :
  monotone sn -> copier sn body -> copier (snap_map sn) (copy_entries body).
Proof.
  intros Hm Hb h m v H. rewrite snap_map_Some in H.
  destruct (snap_map_entries sn h (map_to_list m)) as [vs Hvs].
  { apply Forall_forall. intros [k x] Hin%elem_of_map_to_list. specialize (H k).
    rewrite Hin in H. inversion H; subst. by eexists. }
  unfold copy_entries. eapply allocates_mono; [by apply (entries_allocates sn body _ vs)|].
  intros d r (ys & -> & Hys). apply snap_map_Some. intros k.
  rewrite foldl_insert, (right_id_L ∅ (∪)).
  2:{ rewrite (entries_keys _ _ _ Hys), <- (entries_keys _ _ _ Hvs). apply NoDup_fst_map_to_list. }
  pose proof (list_to_map_Forall2 _ _ _ k Hys) as H1.
  pose proof (list_to_map_Forall2 _ _ _ k Hvs) as H2. rewrite list_to_map_to_list in H2.
  specialize (H k). destruct H2 as [x w Hw|]; inversion H; subst.
  - inversion H1; subst. constructor. congruence.
  - inversion H1; subst. constructor.
Qed.

(** *** The structs *)
Create HintDb deepcopy.
#[local] Hint Resolve snap_val_mono snap_ref_mono snap_list_mono snap_map_mono ret_copier
  copy_ref_copier mapM_copier copy_entries_copier : deepcopy.

Lemma monotone_use {A V} (sn : heap -> A -> option V) h h' x v :
  monotone sn -> h ⊆ h' -> sn h x = Some v -> sn h' x = Some v.
Proof. intros H. apply H. Qed.

Lemma copier_use {A V} (sn : heap -> A -> option V) (body : A -> HM A) h x v :
  copier sn body -> sn h x = Some v -> allocates h (body x) (fun d y => sn d y = Some v).
Proof. intros H. apply H. Qed.

Ltac solve_subheap :=
  match goal with
  | |- ?a ⊆ ?a => reflexivity
  | H : ?a ⊆ ?b |- ?a ⊆ ?c => first [exact H | transitivity b; [exact H|solve_subheap]]
  end.
(* The snapshots of the fields, from that of the struct. *)
Ltac fields :=
  repeat match goal with
  | H : (_ ≫= _) = Some _ |- _ => apply bind_Some in H as (? & ? & ?)
  end; simplify_eq.
Ltac field := eapply monotone_use; [eauto 10 with deepcopy|..|eassumption]; solve_subheap.
Ltac fields_mono :=
  fields; repeat (apply bind_Some; eexists; split; [field|]); done.
Ltac fields_copy :=
  repeat (eapply allocates_bind;
    [eapply copier_use; [eauto 10 with deepcopy|field]|intros ? ? ? ? ?]);
  apply allocates_ret; intros; cbv beta in *; cbn [gf_MatchLabels] in *; fields_mono.

Lemma snap_gate_mono : monotone snap_gate.
Proof. intros h h' x v Hh H. unfold snap_gate in *. fields_mono. Qed.

(** A map of strings is copied to a map with the same entries. *)
Lemma snap_map_val {A} h (m : gmap string A) : snap_map snap_val h m = Some m.
Proof. apply snap_map_Some. intros k. destruct (m !! k); by constructor. Qed.

Lemma labels_copier : copier snap_val (copy_entries (A:=string) mret).
Proof.
  intros h m v [= <-]. eapply allocates_mono.
  - apply (copy_entries_copier snap_val mret snap_val_mono ret_copier h m m), snap_map_val.
  - intros d y. cbn. rewrite snap_map_val. by intros [= ->].
Qed.

Lemma node_copier : copier snap_val NodeInProcessing_DeepCopyInto.
Proof. intros h [] v [= <-]. by apply allocates_ret. Qed.
#[local] Hint Resolve snap_gate_mono labels_copier node_copier : deepcopy.

Lemma gate_copier : copier snap_gate NodeReadinessGate_DeepCopyInto.
Proof. intros h x v H. unfold snap_gate in *. fields.
  unfold NodeReadinessGate_DeepCopyInto. fields_copy. Qed.

Lemma snap_strategy_mono : monotone snap_strategy.
Proof. intros h h' x v Hh H. unfold snap_strategy in *. fields_mono. Qed.

Lemma strategy_copier : copier snap_strategy UpdateStrategy_DeepCopyInto.
Proof. intros h x v H. unfold snap_strategy in *. fields.
  unfold UpdateStrategy_DeepCopyInto. fields_copy. Qed.
#[local] Hint Resolve gate_copier snap_strategy_mono strategy_copier : deepcopy.

Lemma snap_spec_mono : monotone snap_spec.
Proof. intros h h' x v Hh H. unfold snap_spec in *. fields_mono. Qed.

Lemma spec_copier : copier snap_spec RollingUpgradeSpec_DeepCopyInto.
Proof. intros h x v H. unfold snap_spec in *. fields.
  unfold RollingUpgradeSpec_DeepCopyInto. fields_copy. Qed.

Lemma snap_status_mono : monotone snap_status.
Proof. intros h h' x v Hh H. unfold snap_status in *. fields_mono. Qed.

Lemma status_copier : copier snap_status RollingUpgradeStatus_DeepCopyInto.
Proof. intros h x v H. unfold snap_status in *. fields.
  unfold RollingUpgradeStatus_DeepCopyInto. fields_copy. Qed.
#[local] Hint Resolve snap_spec_mono spec_copier snap_status_mono status_copier : deepcopy.

Context {ML : MetaLaws}.
#[local] Hint Resolve ObjectMeta_mono ObjectMeta_copier ListMeta_mono ListMeta_copier : deepcopy.

Lemma snap_upgrade_mono : monotone snap_upgrade.
Proof. intros h h' x v Hh H. unfold snap_upgrade in *. fields_mono. Qed.

Lemma upgrade_copier : copier snap_upgrade RollingUpgrade_DeepCopyInto.
Proof.
  intros h x v H. unfold snap_upgrade in *. fields.
  unfold RollingUpgrade_DeepCopyInto. fields_copy.
Qed.
#[local] Hint Resolve snap_upgrade_mono upgrade_copier : deepcopy.

Lemma snap_upgrade_list_mono : monotone snap_upgrade_list.
Proof. intros h h' x v Hh H. unfold snap_upgrade_list in *. fields_mono. Qed.

Lemma upgrade_list_copier : copier snap_upgrade_list RollingUpgradeList_DeepCopyInto.
Proof.
  intros h x v H. unfold snap_upgrade_list in *. fields.
  unfold RollingUpgradeList_DeepCopyInto. fields_copy.
Qed.
#[local] Hint Resolve snap_upgrade_list_mono upgrade_list_copier : deepcopy.

(** ** Independence

    Writes through pointers, in order. *)
Definition writes (ws : list (loc * cell Meta ListMeta)) h : heap :=
  foldl (fun h '(l, c) => <[l := c]> h) h ws.

(** [p] and its copy [q], made from the heap [h] with the new cells [d]: both stand for [v]; the
    copy lies in the new cells alone; and no writes outside the cells of one of them, in
    particular no writes through the other, show in it. *)
Record independent {V} (sn : heap -> option loc -> option (option V)) h d p q v : Prop := {
  ind_disjoint : h ##ₘ d;
  ind_copy : sn d q = Some v;
  ind_original_kept : forall ws, Forall (fun w => h !! w.1 = None) ws -> sn (writes ws (h ∪ d)) p = Some v;
  ind_copy_kept : forall ws, Forall (fun w => d !! w.1 = None) ws -> sn (writes ws (h ∪ d)) q = Some v;
}.

Lemma writes_outside (a : heap) ws h :
  a ⊆ h -> Forall (fun w => a !! w.1 = None) ws -> a ⊆ writes ws h.
Proof.
  intros Ha H. induction H as [|[l c] ws Hl Hws IH] in h, Ha |- *; [done|].
  cbn. apply IH. by apply insert_subseteq_r.
Qed.

Lemma copier_independent {A V} (s : slot A) (sn : heap -> A -> option V) (body : A -> HM A) h p v :
  monotone sn -> copier sn body -> snap_ref s sn h p = Some v ->
  exists q d, copy_ref s body p h = (Val q, h ∪ d) /\ independent (snap_ref s sn) h d p q v.
Proof.
  intros Hm Hb H. pose proof (snap_ref_mono s sn Hm) as Hm'.
  destruct (copy_ref_copier s sn body Hm Hb h p v H) as (q & d & Eq & Hd & Hq).
  exists q, d. split; [done|]. split; [done|done| |]; intros ws Hws.
  - apply (Hm' h); [|done]. apply writes_outside; [apply map_union_subseteq_l|done].
  - apply (Hm' d); [|done]. apply writes_outside; [by apply map_union_subseteq_r|done].
Qed.

(** C14: DeepCopyObject on a RollingUpgrade (or nil) that the heap
    holds completely returns an object of that kind (or nil) and touches no existing cell; every pointer,
    slice and map of the copy, in the metadata, spec and status, lies in new cells and holds the same
    values, so that writes through the copy never show in the original, nor the other way
    round; the same for a RollingUpgradeList with all its items. *)
Theorem DeepCopyObject_independent h p :
  (forall v, snap_ref sRollingUpgrade snap_upgrade h p = Some v ->
     exists q d, RollingUpgrade_DeepCopyObject p h = (Val (ObjRollingUpgrade <$> q), h ∪ d) /\
       independent (snap_ref sRollingUpgrade snap_upgrade) h d p q v) /\
  (forall v, snap_ref sRollingUpgradeList snap_upgrade_list h p = Some v ->
     exists q d, RollingUpgradeList_DeepCopyObject p h = (Val (ObjRollingUpgradeList <$> q), h ∪ d) /\
       independent (snap_ref sRollingUpgradeList snap_upgrade_list) h d p q v).
Proof.
  split; intros v H.
  - destruct (copier_independent _ _ _ h p v snap_upgrade_mono upgrade_copier H) as (q & d & Eq & Hi).
    exists q, d. split; [|done]. unfold RollingUpgrade_DeepCopyObject.
    rewrite (bind_val _ _ _ _ _ Eq). by destruct q.
  - destruct (copier_independent _ _ _ h p v snap_upgrade_list_mono upgrade_list_copier H)
      as (q & d & Eq & Hi).
    exists q, d. split; [|done]. unfold RollingUpgradeList_DeepCopyObject.
    rewrite (bind_val _ _ _ _ _ Eq). by destruct q.
Qed.
End deepcopy.

(** *** A concrete metadata: a name and a reference to the labels *)
Module SampleMeta.
Definition Meta := (string * option loc)%type.
Definition MetaV := (string * option (gmap string string))%type.

#[export] Instance sample_meta : @MetaOps Meta string MetaV string := {|
  ObjectMeta_DeepCopyInto m := l ← copy_ref sLabels mret m.2; mret (m.1, l);
  ListMeta_DeepCopyInto m := mret m;
  snap_ObjectMeta h m := l ← snap_ref sLabels snap_val h m.2; Some (m.1, l);
  snap_ListMeta h m := Some m |}.

Lemma sample_meta_laws : MetaLaws (MO := sample_meta).
Proof.
  split; cbn.
  - intros h h' m v Hh H. apply bind_Some in H as (l & Hl & [= <-]). apply bind_Some.
    exists l. split; [|done]. by apply (snap_ref_mono _ _ snap_val_mono h).
  - intros h m v H. apply bind_Some in H as (l & Hl & [= <-]).
    eapply allocates_bind; [by eapply (copy_ref_copier _ _ _ snap_val_mono ret_copier)|].
    intros h' d y _ Hy. apply allocates_ret. intros D HD _. apply bind_Some. exists l.
    split; [|done]. by apply (snap_ref_mono _ _ snap_val_mono d).
  - by intros h h' m v _.
  - intros h m v H. by apply allocates_ret.
Qed.

(** A RollingUpgrade at address 1 with a drain timeout, a readiness gate, statistics
    with a nil entry, a node in processing, and labels. *)
Definition obj : UpgradeF Loc Meta :=
  mkUpgradeF "RollingUpgrade" "upgrademgr.keikoproj.io/v1alpha1" ("ru", Some 2%positive)
    (mkSpecF 30 300 "asg" (mkPreDrain "") (mkPostDrain "" 0 "") (mkPostTerminate "")
       (mkStrategyF "randomUpdate" "eager" (mkIntOrString IntType 1 "") (Some 3%positive))
       None true (Some 4%positive))
    (mkStatusF (mkStatusValues "running" "" "" "" 0 2 "0%") None (Some 6%positive) None
       (Some 7%positive) None (Some 9%positive)).

Definition obj_heap : gmap loc (cell Meta string) :=
  list_to_map [
    (1%positive, CRollingUpgrade obj);
    (2%positive, CLabels {[ "team" := "a" ]});
    (3%positive, CInt 0);
    (4%positive, CGates [mkGateF (R:=Loc) (Some 5%positive)]);
    (5%positive, CLabels {[ "ready" := "true" ]});
    (6%positive, CTime 12);
    (7%positive, CStatistics [None; Some 8%positive]);
    (8%positive, CRollingUpgradeStatistics (mkStatistics "drain" 5 1));
    (9%positive, CNodes {[ "n1" := Some 10%positive ]});
    (10%positive, CNodeInProcessing (mkNodeInProcessing "n1" "drain" 1 2 3))
  ].
End SampleMeta.
Import SampleMeta.

Lemma obj_snapshot :
  exists v, snap_ref sRollingUpgrade snap_upgrade obj_heap (Some 1%positive) = Some (Some v) /\
    sf_DrainTimeout (pf_Strategy (uf_Spec v)) = Some 0%Z.
Proof.
  assert (match snap_ref sRollingUpgrade snap_upgrade obj_heap (Some 1%positive) with
    | Some (Some v) => sf_DrainTimeout (pf_Strategy (uf_Spec v)) = Some 0%Z
    | _ => False end) as H by (vm_compute; reflexivity).
  destruct (snap_ref _ _ _ _) as [[v|]|]; [by exists v|done..].
Qed.

(** The copy of the sample: after the drain timeout of the copy (cell 12) is overwritten (as
    [Validate] does with a 0), the original still has its 0. *)
Lemma DeepCopyObject_independent_witness :
  exists v q d,
    snap_ref sRollingUpgrade snap_upgrade obj_heap (Some 1%positive) = Some (Some v) /\
    sf_DrainTimeout (pf_Strategy (uf_Spec v)) = Some 0%Z /\
    RollingUpgrade_DeepCopyObject (Some 1%positive) obj_heap =
      (Val (ObjRollingUpgrade <$> q), obj_heap ∪ d) /\
    snap_ref sRollingUpgrade snap_upgrade
      (writes [(12%positive, CInt (-1))] (obj_heap ∪ d)) (Some 1%positive) = Some (Some v).
Proof.
  destruct obj_snapshot as (v & Ev & Hv).
  destruct (proj1 (@DeepCopyObject_independent _ _ _ _ sample_meta sample_meta_laws
    obj_heap (Some 1%positive)) (Some v) Ev) as (q & d & Eq & Hi).
  exists v, q, d. split; [done|]. split; [done|]. split; [done|].
  apply (ind_original_kept _ _ _ _ _ _ Hi). by repeat constructor.
Defined.
