(* ===== verification/AwsProvider.v ===== *)
(** * Package [aws]: controllers/providers/aws/utils.go and the data of the AWS SDK

    The SDK structs keep the fields the controller reads; what is left of
    an [Instance] or a [Group] is one opaque field, because
    [reflect.DeepEqual(x, &Instance{})] looks at every field.  A slice of
    pointers holds no nil pointer, and a nil slice is the empty list. *)
From S2P Require Import Prelude GoStrings Common.

(** ** aws.StringValue, aws.Int64Value *)
Definition StringValue (p : option string) : string := default "" p.
Definition Int64Value (p : option Z) : Z := default 0%Z p.

(** ** SDK data *)
Record LaunchTemplateSpecification := mkLTSpec {
  lts_LaunchTemplateName : option string;
  lts_Version : option string;
}.

Record Instance_ := mkInstance {
  inst_InstanceId : option string;
  inst_AvailabilityZone : option string;
  inst_LifecycleState : option string;
  inst_LaunchConfigurationName : option string;
  inst_LaunchTemplate : option LaunchTemplateSpecification;
  inst_other : list (string * string);
}.

(** [MixedInstancesPolicy.LaunchTemplate.LaunchTemplateSpecification]: two
    pointers, either of which can be nil. *)
Record MixedInstancesPolicy := mkMixed {
  mip_LaunchTemplate : option (option LaunchTemplateSpecification);
}.

Record Group := mkGroup {
  asg_AutoScalingGroupName : option string;
  asg_LaunchConfigurationName : option string;
  asg_LaunchTemplate : option LaunchTemplateSpecification;
  asg_MixedInstancesPolicy : option MixedInstancesPolicy;
  asg_DesiredCapacity : option Z;
  asg_Instances : list Instance_;
  asg_other : list (string * string);
}.

Record LaunchTemplate := mkLaunchTemplate {
  lt_LaunchTemplateName : option string;
  lt_LatestVersionNumber : option Z;
}.

#[export] Instance LTSpec_eq_dec : EqDecision LaunchTemplateSpecification.
Proof. solve_decision. Defined.
#[export] Instance Instance_eq_dec : EqDecision Instance_.
Proof. solve_decision. Defined.
#[export] Instance Mixed_eq_dec : EqDecision MixedInstancesPolicy.
Proof. solve_decision. Defined.
#[export] Instance Group_eq_dec : EqDecision Group.
Proof. solve_decision. Defined.

Definition empty_instance : Instance_ := mkInstance None None None None None [].
Definition empty_group : Group := mkGroup None None None None None [] [].

(** [reflect.DeepEqual(i, &autoscaling.Instance{})]. *)
Definition is_empty_instance (i : Instance_) : bool := bool_decide (i = empty_instance).
Definition is_empty_group (g : Group) : bool := bool_decide (g = empty_group).

(** ** Lifecycle states *)
Definition LifecycleStateInService : string := "InService".

Definition TerminatingInstanceStates : list string :=
  ["Terminating"; "Terminating:Wait"; "Terminating:Proceed"; "Terminated";
   "Warmed:Terminating"; "Warmed:Terminating:Wait"; "Warmed:Terminating:Proceed";
   "Warmed:Terminated"].

Definition InstanceStandByLimit : Z := 19%Z.

(** ** utils.go *)
Definition instance_id (i : Instance_) : string := StringValue (inst_InstanceId i).

Section selection.
Context {UC : UnicodeCase}.

Fixpoint SelectScalingGroup (name : string) (groups : list Group) : Group :=
  match groups with
  | [] => empty_group
  | group :: groups' =>
      let groupName := StringValue (asg_AutoScalingGroupName group) in
      if EqualFold groupName name then group else SelectScalingGroup name groups'
  end.

Fixpoint select_instance (instanceID : string) (instances : list Instance_) : Instance_ :=
  match instances with
  | [] => empty_instance
  | instance :: instances' =>
      let selectedID := StringValue (inst_InstanceId instance) in
      if EqualFold instanceID selectedID then instance
      else select_instance instanceID instances'
  end.

Definition SelectScalingGroupInstance (instanceID : string) (group : Group) : Instance_ :=
  select_instance instanceID (asg_Instances group).

Fixpoint GetTemplateLatestVersion (templates : list LaunchTemplate) (templateName : string)
  : string :=
  match templates with
  | [] => "0"
  | template :: templates' =>
      let name := StringValue (lt_LaunchTemplateName template) in
      if EqualFold name templateName then Itoa (Int64Value (lt_LatestVersionNumber template))
      else GetTemplateLatestVersion templates' templateName
  end.

(** An instance is left alone once AWS is terminating it. *)
Definition is_terminating (i : Instance_) : bool :=
  ContainsEqualFold TerminatingInstanceStates (StringValue (inst_LifecycleState i)).
End selection.

Definition GetScalingAZs (instances : list Instance_) : list string :=
  sort_strings (map (fun i => StringValue (inst_AvailabilityZone i)) instances).

Definition GetInstanceIDs (instances : list Instance_) : list string :=
  sort_strings (map instance_id instances).

Definition is_in_service (i : Instance_) : bool :=
  String.eqb (StringValue (inst_LifecycleState i)) LifecycleStateInService.

Fixpoint GetInServiceInstanceIDs (instances : list Instance_) : list string :=
  match instances with
  | [] => []
  | instance :: instances' =>
      if is_in_service instance
      then instance_id instance :: GetInServiceInstanceIDs instances'
      else GetInServiceInstanceIDs instances'
  end.

(** ** Lemmas *)
Section selection_lemmas.
Context {UC : UnicodeCase}.

(** A selected scaling group is the empty one or a group of that name. *)
Lemma SelectScalingGroup_found (name : string) (groups : list Group) :
  is_empty_group (SelectScalingGroup name groups) = false ->
  SelectScalingGroup name groups ∈ groups /\
  EqualFold (StringValue (asg_AutoScalingGroupName (SelectScalingGroup name groups))) name = true.
Proof.
  induction groups as [|g gs IH]; cbn.
  - intros H. unfold is_empty_group in H. by rewrite bool_decide_true in H.
  - destruct (EqualFold (StringValue (asg_AutoScalingGroupName g)) name) eqn:E.
    + intros _. split; [by left|done].
    + intros H. destruct (IH H) as [? ?]. split; [by right|done].
Qed.

Lemma select_instance_found (id : string) (l : list Instance_) :
  is_empty_instance (select_instance id l) = false ->
  select_instance id l ∈ l /\ EqualFold id (instance_id (select_instance id l)) = true.
Proof.
  induction l as [|i l IH]; cbn.
  - intros H. unfold is_empty_instance in H. by rewrite bool_decide_true in H.
  - fold (instance_id i). destruct (EqualFold id (instance_id i)) eqn:E.
    + intros _. split; [by left|done].
    + intros H. destruct (IH H) as [? ?]. split; [by right|done].
Qed.

Lemma select_instance_missing (id : string) (l : list Instance_) :
  (forall i, i ∈ l -> EqualFold id (instance_id i) = false) ->
  select_instance id l = empty_instance.
Proof.
  induction l as [|i l IH]; intros H; cbn; [done|]. fold (instance_id i).
  rewrite (H i) by left. apply IH. intros j Hj. apply H. by right.
Qed.

Lemma ContainsEqualFold_ids (l : list Instance_) (s : string) :
  ContainsEqualFold (GetInstanceIDs l) s = ContainsEqualFold (map instance_id l) s.
Proof. apply ContainsEqualFold_perm, sort_strings_perm. Qed.
End selection_lemmas.

Lemma GetInServiceInstanceIDs_filter (l : list Instance_) :
  GetInServiceInstanceIDs l = map instance_id (filter (fun i => is_in_service i = true) l).
Proof.
  induction l as [|i l IH]; [done|].
  cbn [GetInServiceInstanceIDs]. rewrite filter_cons, IH.
  destruct (is_in_service i) eqn:E; [by rewrite decide_True|by rewrite decide_False].
Qed.
