(* ===== verification/KubeProvider.v ===== *)
(** * Package [kubernetes]: controllers/providers/kubernetes/utils.go and the node data

    A node keeps the fields the controller reads.  [SelectNodeByInstanceID] is
    generic in the pointer type, because the controller mutates the nodes it
    finds: the caller passes how to read a pointer. *)
From S2P Require Import Prelude GoStrings GoTime Common Types.

Record NodeCondition := mkNodeCondition {
  nc_Type : string;
  nc_Status : string;
}.

Record Node := mkNode {
  node_Name : string;
  node_ProviderID : string;                       (* Spec.ProviderID *)
  node_Unschedulable : bool;                      (* Spec.Unschedulable *)
  node_Annotations : option (gmap string string);
  node_Labels : option (gmap string string);
  node_CreationTimestamp : Time;
  node_Conditions : list NodeCondition;           (* Status.Conditions *)
}.

Definition with_Unschedulable (b : bool) (n : Node) : Node :=
  mkNode (node_Name n) (node_ProviderID n) b (node_Annotations n) (node_Labels n)
    (node_CreationTimestamp n) (node_Conditions n).
Definition with_Annotations (a : option (gmap string string)) (n : Node) : Node :=
  mkNode (node_Name n) (node_ProviderID n) (node_Unschedulable n) a (node_Labels n)
    (node_CreationTimestamp n) (node_Conditions n).

(** Reading a Go map: a missing key, or a nil map, reads as the zero value. *)
Definition map_read (m : option (gmap string string)) (k : string) : string :=
  default "" (m ≫= (!!) k).

Definition NodeReady : string := "Ready".
Definition ConditionTrue : string := "True".

(** ** utils.go *)

(** [tokens[len(tokens)-1]]; [strings.Split] never returns an empty slice. *)
Definition GetNodeInstanceID (node : option Node) : string :=
  match node with
  | Some n => List.last (Split (node_ProviderID n) "/"%char) ""
  | None => ""
  end.

Section selection.
Context {UC : UnicodeCase} {P : Type} (read : P -> Node).

Fixpoint SelectNodeByInstanceID (instanceID : string) (nodes : list P) : option P :=
  match nodes with
  | [] => None
  | node :: nodes' =>
      let nodeID := GetNodeInstanceID (Some (read node)) in
      if EqualFold instanceID nodeID then Some node
      else SelectNodeByInstanceID instanceID nodes'
  end.
End selection.

Fixpoint is_node_ready (conditions : list NodeCondition) : bool :=
  match conditions with
  | [] => false
  | c :: cs =>
      if String.eqb (nc_Type c) NodeReady && String.eqb (nc_Status c) ConditionTrue then true
      else is_node_ready cs
  end.

Definition IsNodeReady (node : Node) : bool := is_node_ready (node_Conditions node).

(** The inner loop of the gates: every label of one gate.  It returns from the
    function on a mismatch, so the order Go ranges in does not matter. *)
Definition gate_passes (node : Node) (gate : gmap string string) : bool :=
  forallb (fun kv => String.eqb (map_read (node_Labels node) kv.1) kv.2) (map_to_list gate).

Definition IsNodePassesReadinessGates (node : Node) (gates : list (gmap string string)) : bool :=
  if Nat.eqb (length gates) 0 then true else forallb (gate_passes node) gates.

(** ** Lemmas *)
Section selection_lemmas.
Context {UC : UnicodeCase} {P : Type} (read : P -> Node).

Lemma SelectNode_Some (id : string) (nodes : list P) (p : P) :
  SelectNodeByInstanceID read id nodes = Some p ->
  p ∈ nodes /\ EqualFold id (GetNodeInstanceID (Some (read p))) = true.
Proof.
  induction nodes as [|q qs IH]; cbn [SelectNodeByInstanceID]; [done|].
  destruct (EqualFold id (GetNodeInstanceID (Some (read q)))) eqn:E.
  - intros [= <-]. split; [by left|done].
  - intros H. destruct (IH H). split; [by right|done].
Qed.

Lemma SelectNode_None (id : string) (nodes : list P) :
  SelectNodeByInstanceID read id nodes = None <->
  forall p, p ∈ nodes -> EqualFold id (GetNodeInstanceID (Some (read p))) = false.
Proof.
  induction nodes as [|q qs IH]; cbn [SelectNodeByInstanceID].
  - split; [|done]. intros _ p Hp. by apply not_elem_of_nil in Hp.
  - destruct (EqualFold id (GetNodeInstanceID (Some (read q)))) eqn:E.
    + split; [done|]. intros H. rewrite H in E by left. done.
    + rewrite IH. split.
      * intros H p [->|Hp]%elem_of_cons; [done|by apply H].
      * intros H p Hp. apply H. by right.
Qed.

(** The answer depends on the instance id only up to letter case. *)
Lemma SelectNode_congr (id id' : string) (nodes : list P) :
  EqualFold id id' = true ->
  SelectNodeByInstanceID read id nodes = SelectNodeByInstanceID read id' nodes.
Proof.
  intros E. induction nodes as [|q qs IH]; [done|]. cbn [SelectNodeByInstanceID].
  by rewrite (EqualFold_congr id id' _ E), IH.
Qed.
End selection_lemmas.

(** Reading the pointers first and selecting a value, or selecting a pointer
    and reading it, is the same. *)
Lemma SelectNode_map {UC : UnicodeCase} {P Q} (read : Q -> Node) (f : P -> Q) (id : string)
    (nodes : list P) :
  SelectNodeByInstanceID read id (map f nodes) =
  f <$> SelectNodeByInstanceID (read ∘ f) id nodes.
Proof.
  induction nodes as [|q qs IH]; [done|].
  cbn [map SelectNodeByInstanceID]. cbn [compose]. unfold compose in *.
  by destruct (EqualFold id (GetNodeInstanceID (Some (read (f q))))).
Qed.

Lemma gate_passes_spec (node : Node) (gate : gmap string string) :
  gate_passes node gate = true <->
  forall k v, gate !! k = Some v -> map_read (node_Labels node) k = v.
Proof.
  unfold gate_passes. rewrite forallb_forall. split.
  - intros H k v Hk. apply String.eqb_eq. apply (H (k, v)).
    apply list_elem_of_In. by apply elem_of_map_to_list.
  - intros H [k v] Hin. apply list_elem_of_In, elem_of_map_to_list in Hin.
    apply String.eqb_eq. by apply H.
Qed.

(** The instance id of a node is its provider id
    after the last slash: the provider id is some prefix, possibly with a slash,
    followed by the id, and the id holds no slash. *)
Theorem GetNodeInstanceID_last (n : Node) :
  exists tokens, tokens ++ [GetNodeInstanceID (Some n)] = Split (node_ProviderID n) "/"%char /\
    join "/"%char (tokens ++ [GetNodeInstanceID (Some n)]) = node_ProviderID n /\
    has_char "/"%char (GetNodeInstanceID (Some n)) = false.
Proof.
  cbn [GetNodeInstanceID]. set (toks := Split (node_ProviderID n) "/"%char).
  pose proof (app_removelast_last "" (Split_nonempty (node_ProviderID n) "/"%char)) as E.
  fold toks in E. exists (removelast toks). rewrite <- E.
  split; [done|]. split; [apply join_Split|].
  pose proof (Split_tokens (node_ProviderID n) "/"%char) as F. fold toks in F.
  rewrite E in F. apply Forall_app in F as [_ F]. by inversion F.
Qed.
