(* ===== verification/Metrics.v ===== *)
(** * Prometheus metrics: controllers/common/metrics.go

    The package keeps one gauge or summary per scaling group (and step), made and
    registered on first use.  A gauge is its current value and a summary or
    histogram the list of the durations observed, oldest first.
    [m_registered] lists the collectors handed to the registry, as
    (metric, group) pairs; what the registry answers is only logged. *)
From S2P Require Import Prelude GoStrings GoTime Common.

Record Metrics := mkMetrics {
  m_nodeRotationTotal : list Duration;
  m_totalProcessingTime : gmap string (list Duration);
  m_totalNodes : gmap string Z;
  m_nodesProcessed : gmap string Z;
  m_stepSummaries : gmap string (gmap string (list Duration));
  m_CRStatus : gmap string Z;
  m_registered : list (string * string);
}.

Definition empty_metrics : Metrics := mkMetrics [] ∅ ∅ ∅ ∅ ∅ [].

Definition with_nodeRotationTotal v (m : Metrics) : Metrics :=
  mkMetrics v (m_totalProcessingTime m) (m_totalNodes m) (m_nodesProcessed m)
    (m_stepSummaries m) (m_CRStatus m) (m_registered m).
Definition with_totalProcessingTime v (m : Metrics) : Metrics :=
  mkMetrics (m_nodeRotationTotal m) v (m_totalNodes m) (m_nodesProcessed m)
    (m_stepSummaries m) (m_CRStatus m) (m_registered m).
Definition with_totalNodes v (m : Metrics) : Metrics :=
  mkMetrics (m_nodeRotationTotal m) (m_totalProcessingTime m) v (m_nodesProcessed m)
    (m_stepSummaries m) (m_CRStatus m) (m_registered m).
Definition with_nodesProcessed v (m : Metrics) : Metrics :=
  mkMetrics (m_nodeRotationTotal m) (m_totalProcessingTime m) (m_totalNodes m) v
    (m_stepSummaries m) (m_CRStatus m) (m_registered m).
Definition with_stepSummaries v (m : Metrics) : Metrics :=
  mkMetrics (m_nodeRotationTotal m) (m_totalProcessingTime m) (m_totalNodes m)
    (m_nodesProcessed m) v (m_CRStatus m) (m_registered m).
Definition with_CRStatus v (m : Metrics) : Metrics :=
  mkMetrics (m_nodeRotationTotal m) (m_totalProcessingTime m) (m_totalNodes m)
    (m_nodesProcessed m) (m_stepSummaries m) v (m_registered m).
Definition register (name group : string) (m : Metrics) : Metrics :=
  mkMetrics (m_nodeRotationTotal m) (m_totalProcessingTime m) (m_totalNodes m)
    (m_nodesProcessed m) (m_stepSummaries m) (m_CRStatus m) (m_registered m ++ [(name, group)]).

(** [TotalProcessingTime]: observe the total processing time of a group. *)
Definition TotalProcessingTime (groupName : string) (duration : Duration) (m : Metrics)
  : Metrics :=
  let '(summary, m1) :=
    match m_totalProcessingTime m !! groupName with
    | None => ([], register "total_processing_time_seconds" groupName m)
    | Some s => (s, m)
    end in
  with_totalProcessingTime (<[groupName := summary ++ [duration]]> (m_totalProcessingTime m1)) m1.

(** [addGaugeOrUpdate] on the gauge map [gauges]; returns that map. *)
Definition addGaugeOrUpdate (gauges : gmap string Z) (groupName : string) (count : Z)
  (metricName : string) (m : Metrics) : gmap string Z * Metrics :=
  let m1 := match gauges !! groupName with
            | None => register metricName groupName m
            | Some _ => m
            end in
  (<[groupName := count]> gauges, m1).

Definition SetTotalNodesMetric (groupName : string) (nodes : Z) (m : Metrics) : Metrics :=
  let '(g, m1) := addGaugeOrUpdate (m_totalNodes m) groupName nodes "total_nodes" m in
  with_totalNodes g m1.

Definition SetNodesProcessedMetric (groupName : string) (nodesProcessed : Z) (m : Metrics)
  : Metrics :=
  let '(g, m1) := addGaugeOrUpdate (m_nodesProcessed m) groupName nodesProcessed
                    "nodes_processed" m in
  with_nodesProcessed g m1.

Section step_duration.
Context {UC : UnicodeCase}.

(** [AddStepDuration]: the histogram for the total, a summary per group and
    step otherwise. *)
Definition AddStepDuration (groupName stepName : string) (duration : Duration) (m : Metrics)
  : Metrics :=
  if EqualFold stepName "total" then
    with_nodeRotationTotal (m_nodeRotationTotal m ++ [duration]) m
  else
    let steps := default ∅ (m_stepSummaries m !! groupName) in
    let '(summary, m1) :=
      match steps !! stepName with
      | None => ([], register ("node_" +:+ stepName +:+ "_seconds") groupName m)
      | Some s => (s, m)
      end in
    with_stepSummaries
      (<[groupName := <[stepName := summary ++ [duration]]> steps]> (m_stepSummaries m1)) m1.
End step_duration.

Definition SetMetricRollupInitOrRunning (ruName : string) (m : Metrics) : Metrics :=
  with_CRStatus (<[ruName := 0%Z]> (m_CRStatus m)) m.
Definition SetMetricRollupCompleted (ruName : string) (m : Metrics) : Metrics :=
  with_CRStatus (<[ruName := 1%Z]> (m_CRStatus m)) m.
Definition SetMetricRollupFailed (ruName : string) (m : Metrics) : Metrics :=
  with_CRStatus (<[ruName := (-1)%Z]> (m_CRStatus m)) m.
