(* ===== verification/Registry.v ===== *)
(** * The Prometheus registry: the collectors of controllers/common/metrics.go

    [Metrics] records what is observed; here is how it gets to be scraped.  A collector is an object on a heap; the package
    keeps pointers to its collectors in maps ([stepSummaries] is a map of references to maps), makes a collector
    on first use, registers it, and stores it, with the mutex held around the store only.  A
    call is a thread of atomic steps ([thread_step]); [run] is a call that is not interrupted.  The registry
    is the client library's: a parameter ([Registry], [RegistryLaws]). *)
From S2P Require Import Prelude GoStrings GoTime GoJson Common Types Metrics.

Abbreviation collector_ptr := nat (only parsing).
Abbreviation steps_ptr := nat (only parsing).

(** ** Collectors *)
Inductive Collector :=
| Summary (l : list Duration)
| Histogram (l : list Duration)
| Gauge (v : Z)
| GaugeVec (m : gmap string Z).

(** A descriptor: the full name, the help text, and the value of the constant label group. *)
Record Desc := mkDesc { d_fqName : string; d_help : string; d_group : option string }.
#[export] Instance Desc_eq_dec : EqDecision Desc.
Proof. solve_decision. Defined.
#[export] Instance Desc_countable : Countable Desc.
Proof.
  refine (inj_countable' (fun d => (d_fqName d, d_help d, d_group d)) (fun '(n, h, g) => mkDesc n h g) _).
  by intros [].
Defined.

Inductive RegisterError := AlreadyRegisteredError | OtherRegisterError (msg : string).

(** [metrics.Registry]: what a scrape collects, and [Register]. *)
Class Registry := {
  RegistryState : Type;
  collected : RegistryState -> gmap Desc collector_ptr;
  Register : Desc -> collector_ptr -> RegistryState -> option RegisterError * RegistryState;
}.

(** [a-zA-Z_:][a-zA-Z0-9_:]*. *)
Definition name_char (first : bool) (c : ascii) : bool :=
  let n := nat_of_ascii c in
  (Nat.leb 97 n && Nat.leb n 122) || (Nat.leb 65 n && Nat.leb n 90) || Nat.eqb n 95 || Nat.eqb n 58
  || (negb first && Nat.leb 48 n && Nat.leb n 57).
Definition valid_name (s : string) : bool :=
  match s with
  | EmptyString => false
  | String c s' => name_char true c && forallb (name_char false) (String.list_ascii_of_string s')
  end.

(** Collectors with the same full name have the same help text and the same label names. *)
Definition consistent {R : Registry} (d : Desc) (r : RegistryState) : Prop :=
  forall d', is_Some (collected r !! d') -> d_fqName d' = d_fqName d ->
    d_help d' = d_help d /\ (is_Some (d_group d') <-> is_Some (d_group d)).

(** A constant label has a value that is UTF-8. *)
Definition valid_label (d : Desc) : bool := match d_group d with Some g => valid_utf8 g | None => true end.

Class RegistryLaws (R : Registry) : Prop := {
  rl_outcome : forall d c r e r', Register d c r = (e, r') ->
    collected r' = match e with None => <[d := c]> (collected r) | Some _ => collected r end;
  rl_fresh : forall d c r, collected r !! d = None -> valid_name (d_fqName d) = true -> valid_label d = true ->
    consistent d r -> (Register d c r).1 = None;
  rl_again : forall d c r, is_Some (collected r !! d) -> (Register d c r).1 = Some AlreadyRegisteredError;
}.

(** ** The package *)
Definition metricNamespace : string := "upgrade_manager".

(** Which metric of a scaling group. *)
Inductive Kind := KProcessing | KTotalNodes | KNodesProcessed | KStep (stepName : string).

Definition kind_name (k : Kind) : string :=
  match k with
  | KProcessing => "total_processing_time_seconds"
  | KTotalNodes => "total_nodes"
  | KNodesProcessed => "nodes_processed"
  | KStep stepName => "node_" +:+ stepName +:+ "_seconds"
  end.
Definition kind_help (k : Kind) : string :=
  match k with
  | KProcessing => "Total processing time for all nodes in the group"
  | KTotalNodes => "Total nodes in the group"
  | KNodesProcessed => "Nodes processed in the group"
  | KStep stepName => "Summary for node " +:+ stepName
  end.
Definition new_collector (k : Kind) : Collector :=
  match k with
  | KTotalNodes | KNodesProcessed => Gauge 0
  | KProcessing | KStep _ => Summary []
  end.

Definition BuildFQName (name : string) : string := metricNamespace +:+ "_" +:+ name.
Definition desc_of (k : Kind) (groupName : string) : Desc :=
  mkDesc (BuildFQName (kind_name k)) (kind_help k) (Some groupName).
Definition nodeRotationTotal_desc : Desc :=
  mkDesc (BuildFQName "node_rotation_total_seconds") "Node rotation total" None.
Definition CRStatus_desc : Desc :=
  mkDesc (BuildFQName "resource_status") "Rollup CR statistics, partitioned by name." None.

(** The variables of the package, the heap, and the registry. *)
Record Prom `{R : Registry} := mkProm {
  pm_heap : gmap collector_ptr Collector;
  pm_nodeRotationTotal : collector_ptr;
  pm_CRStatus : collector_ptr;
  pm_totalProcessingTime : gmap string collector_ptr;
  pm_totalNodesMetrics : gmap string collector_ptr;
  pm_nodesProcessedMetrics : gmap string collector_ptr;
  pm_stepSummaries : gmap string steps_ptr;
  pm_maps : gmap steps_ptr (gmap string collector_ptr);
  pm_registry : RegistryState;
}.

(** A call of the package: which function with which arguments. *)
Inductive Job :=
| JTotalProcessingTime (groupName : string) (duration : Duration)
| JSetTotalNodes (groupName : string) (nodes : Z)
| JSetNodesProcessed (groupName : string) (nodes : Z)
| JAddStepDuration (groupName stepName : string) (duration : Duration)
| JSetStatus (ruName : string) (v : Z).

(** Where a call is: before the lookup of the group; with a new map of steps to store; before the lookup of the
    step; with a collector to make and register, to store, to observe with; returned. *)
Inductive CallPc :=
| PcStart
| PcStoreSteps (steps : steps_ptr)
| PcLookupStep (steps : steps_ptr)
| PcRegister (steps : option steps_ptr)
| PcStore (steps : option steps_ptr) (c : collector_ptr)
| PcObserve (c : collector_ptr)
| PcReturned.

Section package.
Context `{R : Registry}.

Definition set_heap h (p : Prom) : Prom :=
  mkProm _ h (pm_nodeRotationTotal p) (pm_CRStatus p) (pm_totalProcessingTime p) (pm_totalNodesMetrics p)
    (pm_nodesProcessedMetrics p) (pm_stepSummaries p) (pm_maps p) (pm_registry p).
Definition set_steps s m (p : Prom) : Prom :=
  mkProm _ (pm_heap p) (pm_nodeRotationTotal p) (pm_CRStatus p) (pm_totalProcessingTime p) (pm_totalNodesMetrics p)
    (pm_nodesProcessedMetrics p) s m (pm_registry p).
Definition set_tables t n d (p : Prom) : Prom :=
  mkProm _ (pm_heap p) (pm_nodeRotationTotal p) (pm_CRStatus p) t n d (pm_stepSummaries p) (pm_maps p) (pm_registry p).
Definition set_registry r (p : Prom) : Prom :=
  mkProm _ (pm_heap p) (pm_nodeRotationTotal p) (pm_CRStatus p) (pm_totalProcessingTime p) (pm_totalNodesMetrics p)
    (pm_nodesProcessedMetrics p) (pm_stepSummaries p) (pm_maps p) r.

(** [MustRegister] panics when [Register] fails. *)
Definition MustRegister (d : Desc) (c : collector_ptr) (p : Prom) : outcome Prom :=
  let '(err, r) := Register d c (pm_registry p) in
  match err with
  | Some _ => Panic
  | None => Val (set_registry r p)
  end.

(** The variables as the package initialises them. *)
Definition package_vars (r : RegistryState) : Prom :=
  mkProm _ {[0%nat := Histogram []; 1%nat := GaugeVec ∅]} 0 1 ∅ ∅ ∅ ∅ ∅ r.

Definition InitMetrics (p : Prom) : outcome Prom :=
  match MustRegister nodeRotationTotal_desc (pm_nodeRotationTotal p) p with
  | Val p1 => MustRegister CRStatus_desc (pm_CRStatus p1) p1
  | Panic => Panic
  end.

(** What a call does to its collector. *)
Definition observe (j : Job) (c : Collector) : Collector :=
  match j, c with
  | JTotalProcessingTime _ d, Summary l => Summary (l ++ [d])
  | JAddStepDuration _ _ d, Summary l => Summary (l ++ [d])
  | JAddStepDuration _ _ d, Histogram l => Histogram (l ++ [d])
  | JSetTotalNodes _ n, Gauge _ => Gauge n
  | JSetNodesProcessed _ n, Gauge _ => Gauge n
  | JSetStatus name v, GaugeVec m => GaugeVec (<[name := v]> m)
  | _, c => c
  end.

(** The kind and the group of the collector a call looks up. *)
Definition job_kind (j : Job) : option (Kind * string) :=
  match j with
  | JTotalProcessingTime g _ => Some (KProcessing, g)
  | JSetTotalNodes g _ => Some (KTotalNodes, g)
  | JSetNodesProcessed g _ => Some (KNodesProcessed, g)
  | JAddStepDuration g s _ => Some (KStep s, g)
  | JSetStatus _ _ => None
  end.

(** One of the package's maps from group to collector. *)
Definition table (k : Kind) (p : Prom) : gmap string collector_ptr :=
  match k with
  | KProcessing => pm_totalProcessingTime p
  | KTotalNodes => pm_totalNodesMetrics p
  | KNodesProcessed => pm_nodesProcessedMetrics p
  | KStep _ => ∅
  end.
Definition store_in_table (k : Kind) (g : string) (c : collector_ptr) (p : Prom) : Prom :=
  let '(t, n, d) := (pm_totalProcessingTime p, pm_totalNodesMetrics p, pm_nodesProcessedMetrics p) in
  match k with
  | KProcessing => set_tables (<[g := c]> t) n d p
  | KTotalNodes => set_tables t (<[g := c]> n) d p
  | KNodesProcessed => set_tables t n (<[g := c]> d) p
  | KStep _ => p
  end.

(** The map of the steps of a group. *)
Definition steps_at (mp : steps_ptr) (p : Prom) : gmap string collector_ptr := default ∅ (pm_maps p !! mp).

(** The steps of a thread, from one access to shared state to the next. *)
Definition start_step {UC : UnicodeCase} (j : Job) (p : Prom) : CallPc * Prom :=
  match j with
  | JSetStatus _ _ => (PcObserve (pm_CRStatus p), p)
  | JAddStepDuration g s _ =>
      if EqualFold s "total" then (PcObserve (pm_nodeRotationTotal p), p)
      else match pm_stepSummaries p !! g with
           | None =>
               let steps := fresh (dom (pm_maps p)) in
               (PcStoreSteps steps, set_steps (pm_stepSummaries p) (<[steps := ∅]> (pm_maps p)) p)
           | Some steps => (PcLookupStep steps, p)
           end
  | _ =>
      match job_kind j with
      | Some (k, g) =>
          match table k p !! g with
          | None => (PcRegister None, p)
          | Some c => (PcObserve c, p)
          end
      | None => (PcReturned, p)
      end
  end.

(** New collectors are allocated and handed to the registry; its error is only logged. *)
Definition register_step (k : Kind) (g : string) (p : Prom) : collector_ptr * Prom :=
  let c := fresh (dom (pm_heap p)) in
  let '(_, r) := Register (desc_of k g) c (pm_registry p) in
  (c, set_registry r (set_heap (<[c := new_collector k]> (pm_heap p)) p)).

(** The store under the mutex. *)
Definition store_step (k : Kind) (g : string) (steps : option steps_ptr) (c : collector_ptr) (p : Prom) : Prom :=
  match k, steps with
  | KStep s, Some mp => set_steps (pm_stepSummaries p) (<[mp := <[s := c]> (steps_at mp p)]> (pm_maps p)) p
  | _, _ => store_in_table k g c p
  end.

Definition thread_step {UC : UnicodeCase} (j : Job) (pc : CallPc) (p : Prom) : CallPc * Prom :=
  match pc, job_kind j with
  | PcStart, _ => start_step j p
  | PcStoreSteps steps, Some (_, g) => (PcLookupStep steps, set_steps (<[g := steps]> (pm_stepSummaries p)) (pm_maps p) p)
  | PcLookupStep steps, Some (KStep s, _) =>
      match steps_at steps p !! s with
      | None => (PcRegister (Some steps), p)
      | Some c => (PcObserve c, p)
      end
  | PcRegister steps, Some (k, g) => let '(c, p') := register_step k g p in (PcStore steps c, p')
  | PcStore steps c, Some (k, g) => (PcObserve c, store_step k g steps c p)
  | PcObserve c, _ => (PcReturned, set_heap (alter (observe j) c (pm_heap p)) p)
  | pc, _ => (pc, p)
  end.

(** A call that runs alone; six steps are enough ([run_ready]). *)
Fixpoint call_steps {UC : UnicodeCase} (n : nat) (j : Job) (pc : CallPc) (p : Prom) : CallPc * Prom :=
  match n with
  | O => (pc, p)
  | S n => let '(pc', p') := thread_step j pc p in call_steps n j pc' p'
  end.
Definition run {UC : UnicodeCase} (j : Job) (p : Prom) : Prom := (call_steps 6 j PcStart p).2.

(** Calls that overlap: a schedule names the thread that takes the next step. *)
Fixpoint interleave {UC : UnicodeCase} (schedule : list nat) (ts : list (Job * CallPc)) (p : Prom) : list (Job * CallPc) * Prom :=
  match schedule with
  | [] => (ts, p)
  | i :: schedule =>
      match ts !! i with
      | None => interleave schedule ts p
      | Some (j, pc) =>
          let '(pc', p') := thread_step j pc p in
          interleave schedule (<[i := (j, pc')]> ts) p'
      end
  end.

(** A scrape of a descriptor. *)
Definition scrape (d : Desc) (p : Prom) : option Collector :=
  collected (pm_registry p) !! d ≫= fun c => pm_heap p !! c.
End package.

(** ** Specification *)

(** The steps a node goes through. *)
Definition node_steps : list string :=
  [NodeRotationKickoff; NodeRotationDesiredNodeReady; NodeRotationPredrainScript; NodeRotationDrain;
   NodeRotationPostdrainScript; NodeRotationPostWait; NodeRotationTerminate; NodeRotationPostTerminate;
   NodeRotationTerminated; NodeRotationCompleted].

Definition all_kinds : list Kind := [KProcessing; KTotalNodes; KNodesProcessed] ++ map KStep node_steps.

#[export] Instance Kind_eq_dec : EqDecision Kind.
Proof. solve_decision. Defined.

(** The calls the controller makes: the names of groups and resources come from the API server and
    are UTF-8. *)
Definition job_ok (j : Job) : Prop :=
  match j with
  | JAddStepDuration g s _ => valid_utf8 g = true /\ s ∈ NodeRotationTotal :: node_steps
  | JTotalProcessingTime g _ | JSetTotalNodes g _ | JSetNodesProcessed g _ => valid_utf8 g = true
  | JSetStatus name _ => valid_utf8 name = true
  end.

(** What the model of [Metrics] records. *)
Definition job_metrics {UC : UnicodeCase} (j : Job) : Metrics -> Metrics :=
  match j with
  | JTotalProcessingTime g d => TotalProcessingTime g d
  | JSetTotalNodes g n => SetTotalNodesMetric g n
  | JSetNodesProcessed g n => SetNodesProcessedMetric g n
  | JAddStepDuration g s d => AddStepDuration g s d
  | JSetStatus name v => fun m => with_CRStatus (<[name := v]> (m_CRStatus m)) m
  end.

Definition metrics_at (k : Kind) (g : string) (m : Metrics) : option Collector :=
  match k with
  | KProcessing => Summary <$> m_totalProcessingTime m !! g
  | KTotalNodes => Gauge <$> m_totalNodes m !! g
  | KNodesProcessed => Gauge <$> m_nodesProcessed m !! g
  | KStep s => Summary <$> (m_stepSummaries m !! g ≫= lookup s)
  end.

(** The collectors of a kind have one type. *)
Definition has_type (k : Kind) (v : Collector) : Prop :=
  match new_collector k, v with
  | Summary _, Summary _ | Gauge _, Gauge _ => True
  | _, _ => False
  end.

Section specification.
Context `{R : Registry}.

(** The collector the package would use. *)
Definition collector_at (k : Kind) (g : string) (p : Prom) : option collector_ptr :=
  match k with
  | KStep s => mp ← pm_stepSummaries p !! g; m ← pm_maps p !! mp; m !! s
  | _ => table k p !! g
  end.

(** A name of the package's own. *)
Definition own (d : Desc) : Prop :=
  d_fqName d = d_fqName nodeRotationTotal_desc \/ d_fqName d = d_fqName CRStatus_desc \/
  exists k, k ∈ all_kinds /\ d_fqName d = BuildFQName (kind_name k).

(** The maps of the package and the registry agree, and no two names share a collector or a map. *)
Record in_sync (p : Prom) : Prop := {
  sy_slots : forall k g, k ∈ all_kinds -> collected (pm_registry p) !! desc_of k g = collector_at k g p;
  sy_own : forall d, is_Some (collected (pm_registry p) !! d) -> own d ->
    d = nodeRotationTotal_desc \/ d = CRStatus_desc \/ exists k g, k ∈ all_kinds /\ d = desc_of k g;
  sy_kinds : forall k g c, collector_at k g p = Some c -> k ∈ all_kinds /\ exists v, pm_heap p !! c = Some v /\ has_type k v;
  sy_inj : forall k g k' g' c, collector_at k g p = Some c -> collector_at k' g' p = Some c -> k = k' /\ g = g';
  sy_steps : forall g mp, pm_stepSummaries p !! g = Some mp ->
    is_Some (pm_maps p !! mp) /\ forall g', pm_stepSummaries p !! g' = Some mp -> g' = g;
  sy_alloc : forall mp m s c, pm_maps p !! mp = Some m -> m !! s = Some c -> is_Some (pm_heap p !! c);
  sy_total : collected (pm_registry p) !! nodeRotationTotal_desc = Some (pm_nodeRotationTotal p);
  sy_status : collected (pm_registry p) !! CRStatus_desc = Some (pm_CRStatus p);
  sy_fixed : pm_nodeRotationTotal p <> pm_CRStatus p /\
    forall k g, collector_at k g p <> Some (pm_nodeRotationTotal p) /\ collector_at k g p <> Some (pm_CRStatus p);
  sy_fixed_heap : is_Some (pm_heap p !! pm_nodeRotationTotal p) /\ is_Some (pm_heap p !! pm_CRStatus p);
}.

(** What the collectors hold is what the model recorded. *)
Record agrees (p : Prom) (m : Metrics) : Prop := {
  ag_slots : forall k g, k ∈ all_kinds -> (collector_at k g p ≫= fun c => pm_heap p !! c) = metrics_at k g m;
  ag_total : pm_heap p !! pm_nodeRotationTotal p = Some (Histogram (m_nodeRotationTotal m));
  ag_status : pm_heap p !! pm_CRStatus p = Some (GaugeVec (m_CRStatus m));
}.

(** The collector [orphan] is collected under [d], holds [v], and nothing the package keeps leads to it. *)
Record orphaned (orphan : collector_ptr) (v : Collector) (d : Desc) (p : Prom) : Prop := {
  or_collected : collected (pm_registry p) !! d = Some orphan;
  or_heap : pm_heap p !! orphan = Some v;
  or_fixed : orphan <> pm_nodeRotationTotal p /\ orphan <> pm_CRStatus p;
  or_tables : forall k g, table k p !! g <> Some orphan;
  or_maps : forall mp m s, pm_maps p !! mp = Some m -> m !! s <> Some orphan;
}.

(** Calls one after the other. *)
Definition run_all {UC : UnicodeCase} (jobs : list Job) (p : Prom) : Prom := foldl (fun p j => run j p) p jobs.
End specification.

(** ** Lemmas *)

(** *** Names *)
Lemma kind_name_inj (k k' : Kind) : k ∈ all_kinds -> k' ∈ all_kinds -> kind_name k = kind_name k' -> k = k'.
Proof.
  set (same k k' := bool_decide (kind_name k = kind_name k' -> k = k')).
  assert (forallb (fun k => forallb (same k) all_kinds) all_kinds = true) as H by (vm_compute; reflexivity).
  intros Hk Hk'. rewrite forallb_forall in H. specialize (H k (proj1 (list_elem_of_In _ _) Hk)).
  rewrite forallb_forall in H. specialize (H k' (proj1 (list_elem_of_In _ _) Hk')). by apply bool_decide_eq_true in H.
Qed.

Lemma BuildFQName_inj (x y : string) : BuildFQName x = BuildFQName y -> x = y.
Proof. unfold BuildFQName. intros H. by apply (inj (String.app metricNamespace)), (inj (String.app "_")) in H. Qed.

Lemma desc_of_inj (k k' : Kind) (g g' : string) :
  k ∈ all_kinds -> k' ∈ all_kinds -> desc_of k g = desc_of k' g' -> k = k' /\ g = g'.
Proof.
  intros Hk Hk' H. split; [|by injection (f_equal d_group H)].
  apply kind_name_inj; [done|done|]. apply BuildFQName_inj, (f_equal d_fqName H).
Qed.

Lemma kind_valid (k : Kind) : k ∈ all_kinds ->
  valid_name (BuildFQName (kind_name k)) = true /\ kind_name k <> "node_rotation_total_seconds" /\ kind_name k <> "resource_status".
Proof.
  assert (Forall (fun k => valid_name (BuildFQName (kind_name k)) = true /\
    kind_name k <> "node_rotation_total_seconds" /\ kind_name k <> "resource_status") all_kinds) as H.
  { repeat (constructor; [split; [vm_compute; reflexivity|split; intros H; vm_compute in H; discriminate H]|]). constructor. }
  rewrite Forall_forall in H. apply H.
Qed.

Lemma desc_of_consistent `{R : Registry} (k : Kind) (g : string) (p : Prom) :
  in_sync p -> k ∈ all_kinds -> consistent (desc_of k g) (pm_registry p).
Proof.
  intros HS Hk d Hd Hn. destruct (kind_valid k Hk) as (_ & H1 & H2).
  destruct (sy_own _ HS d Hd) as [->|[->|(k' & g' & Hk' & ->)]]; [by right; right; exists k| | |].
  - by apply BuildFQName_inj in Hn.
  - by apply BuildFQName_inj in Hn.
  - apply BuildFQName_inj, kind_name_inj in Hn as ->; [|done|done]. split; [done|]. cbn. split; by eexists.
Qed.

(** *** A new collector *)
Section steps.
Context `{R : Registry} `{!RegistryLaws R} {UC : UnicodeCase}.
Implicit Types (p : Prom).

(** Where a collector of this kind goes. *)
Definition place (k : Kind) (g : string) (steps : option steps_ptr) (p : Prom) : Prop :=
  match k with
  | KStep _ => exists mp, steps = Some mp /\ pm_stepSummaries p !! g = Some mp
  | _ => steps = None
  end.

Lemma slot_store (k k' : Kind) (g g' : string) (steps : option steps_ptr) (c : collector_ptr) p :
  (forall g mp, pm_stepSummaries p !! g = Some mp ->
     is_Some (pm_maps p !! mp) /\ forall g', pm_stepSummaries p !! g' = Some mp -> g' = g) ->
  place k g steps p ->
  collector_at k' g' (store_step k g steps c p) = if decide (k' = k /\ g' = g) then Some c else collector_at k' g' p.
Proof.
  intros HM HP. destruct k as [| | |s]; cbn in HP.
  1-3: subst steps; destruct k'; cbn; try (by rewrite decide_False by naive_solver);
    (destruct (decide (g' = g)) as [->|Hg]; [by rewrite lookup_insert_eq, decide_True|
      by rewrite lookup_insert_ne, decide_False by naive_solver]).
  destruct HP as (mp & -> & Hmp). destruct (HM g mp Hmp) as [[m Hm] Hu].
  destruct k' as [| | |s']; cbn; try (by rewrite decide_False by naive_solver).
  destruct (pm_stepSummaries p !! g') as [mp'|] eqn:Hg'; cbn.
  - destruct (decide (g' = g)) as [->|Hg].
    + rewrite Hmp in Hg'. injection Hg' as <-. rewrite lookup_insert_eq, Hm. cbn. unfold steps_at. rewrite Hm. cbn.
      destruct (decide (s' = s)) as [->|Hs]; [by rewrite lookup_insert_eq, decide_True|].
      by rewrite lookup_insert_ne, decide_False by naive_solver.
    + rewrite lookup_insert_ne by (intros <-; by apply Hg, Hu). by rewrite decide_False by naive_solver.
  - rewrite decide_False; [done|]. intros [_ ->]. congruence.
Qed.

(** One more collector, in one more slot. *)
Record extended (k : Kind) (g : string) (c : collector_ptr) (p p2 : Prom) : Prop := {
  ex_kind : k ∈ all_kinds;
  ex_fresh : pm_heap p !! c = None;
  ex_heap : pm_heap p2 = <[c := new_collector k]> (pm_heap p);
  ex_registry : collected (pm_registry p2) = <[desc_of k g := c]> (collected (pm_registry p));
  ex_slots : forall k' g', collector_at k' g' p2 = if decide (k' = k /\ g' = g) then Some c else collector_at k' g' p;
  ex_steps : pm_stepSummaries p2 = pm_stepSummaries p;
  ex_maps : forall mp, is_Some (pm_maps p !! mp) -> is_Some (pm_maps p2 !! mp);
  ex_cells : forall mp m s c', pm_maps p2 !! mp = Some m -> m !! s = Some c' ->
    c' = c \/ exists m', pm_maps p !! mp = Some m' /\ m' !! s = Some c';
  ex_total : pm_nodeRotationTotal p2 = pm_nodeRotationTotal p;
  ex_status : pm_CRStatus p2 = pm_CRStatus p;
}.

Lemma extended_sync (k : Kind) (g : string) (c : collector_ptr) p p2 : in_sync p -> extended k g c p p2 -> in_sync p2.
Proof.
  intros HS [Hk Hc F1 Hr Hsl F3 F4 FC F5 F6].
  assert (forall k' g' c', collector_at k' g' p = Some c' -> c' <> c) as Hne.
  { intros k' g' c' Hs ->. destruct (sy_kinds _ HS k' g' c Hs) as (_ & v & Hv & _). congruence. }
  destruct HS as [H1 H2 H3 H4 H5 HA H6 H7 H8 [[v9 H9] [v10 H10]]]. destruct (kind_valid k Hk) as (_ & V1 & V2).
  split; rewrite ?Hr, ?F5, ?F6, ?F1.
  - intros k' g' Hk'. rewrite Hsl. destruct (decide (k' = k /\ g' = g)) as [[-> ->]|Hn]; [by rewrite lookup_insert_eq|].
    rewrite lookup_insert_ne; [by apply H1|]. intros Hd. apply Hn. by apply desc_of_inj in Hd as [-> ->].
  - intros d. destruct (decide (d = desc_of k g)) as [->|Hd]; [intros _ _; right; right; by exists k, g|].
    rewrite lookup_insert_ne by done. apply H2.
  - intros k' g' c'. rewrite Hsl. destruct (decide (k' = k /\ g' = g)) as [[-> ->]|Hn].
    + intros [= <-]. split; [done|]. exists (new_collector k). rewrite lookup_insert_eq. split; [done|]. unfold has_type. by destruct k.
    + intros Hs. rewrite lookup_insert_ne by (intros <-; by apply (Hne k' g' c)). by apply (H3 k' g').
  - intros k1 g1 k2 g2 c'. rewrite !Hsl. destruct (decide (k1 = k /\ g1 = g)) as [[-> ->]|N1], (decide (k2 = k /\ g2 = g)) as [[-> ->]|N2]; [done|..].
    + intros [= <-] Hs. by destruct (Hne _ _ _ Hs).
    + intros Hs [= <-]. by destruct (Hne _ _ _ Hs).
    + apply H4.
  - rewrite F3. intros g' mp Hmp. destruct (H5 g' mp Hmp) as [Hm Hu]. split; [by apply F4|done].
  - intros mp m s c' Hm Hs. destruct (FC mp m s c' Hm Hs) as [->|(m' & Hm' & Hs')]; [by rewrite lookup_insert_eq|].
    apply lookup_insert_is_Some. right. destruct (HA mp m' s c' Hm' Hs') as [v Hv]. split; [congruence|by exists v].
  - rewrite lookup_insert_ne; [done|]. intros Hd%(f_equal d_fqName)%BuildFQName_inj. done.
  - rewrite lookup_insert_ne; [done|]. intros Hd%(f_equal d_fqName)%BuildFQName_inj. done.
  - split; [apply H8|]. intros k' g'. rewrite Hsl. destruct (decide _); [|apply H8]. split; intros [= ->]; congruence.
  - split; (rewrite lookup_insert_ne; [by eexists|congruence]).
Qed.

(** The registry takes the collector of an empty slot. *)
Lemma register_empty_slot (k : Kind) (g : string) (c : collector_ptr) p e r :
  in_sync p -> k ∈ all_kinds -> valid_utf8 g = true -> collector_at k g p = None ->
  Register (desc_of k g) c (pm_registry p) = (e, r) -> collected r = <[desc_of k g := c]> (collected (pm_registry p)).
Proof.
  intros HS Hk Hu Hn Er. pose proof (rl_outcome _ _ _ _ _ Er) as H. pose proof (rl_fresh (desc_of k g) c (pm_registry p)) as HF.
  rewrite Er in HF. cbn in HF. rewrite HF in H; [done|by rewrite (sy_slots _ HS)|by apply kind_valid|done|by apply desc_of_consistent].
Qed.

(** Allocating, registering and storing the collector of an empty slot. *)
Lemma new_slot_extends (k : Kind) (g : string) (steps : option steps_ptr) p :
  in_sync p -> k ∈ all_kinds -> valid_utf8 g = true -> collector_at k g p = None -> place k g steps p ->
  let '(c, p1) := register_step k g p in extended k g c p (store_step k g steps c p1).
Proof.
  intros HS Hk Hu Hn HP. unfold register_step. set (c := fresh (dom (pm_heap p))).
  destruct (Register _ _ _) as [e r] eqn:Er.
  pose proof (register_empty_slot k g c p e r HS Hk Hu Hn Er) as Hr.
  assert (pm_heap p !! c = None) as Hc by (apply not_elem_of_dom, is_fresh).
  set (p1 := set_registry _ _).
  assert (forall k' g', collector_at k' g' (store_step k g steps c p1) = if decide (k' = k /\ g' = g) then Some c else collector_at k' g' p) as Hsl.
  { intros k' g'. rewrite slot_store; [done|apply (sy_steps _ HS)|done]. }
  destruct k as [| | |s]; [split; [done..|intros mp m s c' Hm Hs; right; by exists m|done|done]..|].
  cbn in HP. destruct HP as (mp & -> & _). split; [done..| | |done|done].
  - intros mp' Hmp'. cbn. destruct (decide (mp' = mp)) as [->|]; [by rewrite lookup_insert_eq|by rewrite lookup_insert_ne].
  - intros mp' m s' c'. cbn. intros [[<- <-]|[Hne Hm]]%lookup_insert_Some; [|intros Hs; right; by exists m].
    intros [[<- <-]|[Hs Hl]]%lookup_insert_Some; [by left|right]. unfold steps_at in Hl. cbn in Hl.
    destruct (pm_maps p !! mp) as [m'|]; [by exists m'|cbn in Hl; by rewrite lookup_empty in Hl].
Qed.

(** An empty map of steps for a group that has none. *)
Lemma new_steps_sync (g : string) p :
  in_sync p -> pm_stepSummaries p !! g = None ->
  let mp := fresh (dom (pm_maps p)) in
  let p' := set_steps (<[g := mp]> (pm_stepSummaries p)) (<[mp := ∅]> (pm_maps p)) p in
  in_sync p' /\ forall k g', collector_at k g' p' = collector_at k g' p.
Proof.
  intros HS Hg mp p'.
  assert (pm_maps p !! mp = None) as Hmp by (apply not_elem_of_dom, is_fresh).
  assert (forall g' mp', pm_stepSummaries p !! g' = Some mp' -> mp' <> mp) as Hne.
  { intros g' mp' H ->. destruct (sy_steps _ HS g' mp H) as [[m Hm] _]. congruence. }
  assert (forall k g', collector_at k g' p' = collector_at k g' p) as Hsl.
  { intros k g'. destruct k as [| | |s]; [done..|]. cbn. destruct (decide (g' = g)) as [->|Hg'].
    - rewrite lookup_insert_eq, Hg. cbn. rewrite lookup_insert_eq. cbn. apply lookup_empty.
    - rewrite lookup_insert_ne by done. destruct (pm_stepSummaries p !! g') as [mp'|] eqn:Hm; [|done]. cbn.
      by rewrite lookup_insert_ne by (intros <-; by apply (Hne g' mp)). }
  split; [|done]. destruct HS as [H1 H2 H3 H4 H5 HA H6 H7 H8 H9]. split; try done; try (by intros *; rewrite ?Hsl; auto).
  - intros k g' c. rewrite Hsl. apply H3.
  - intros k1 g1 k2 g2 c. rewrite !Hsl. apply H4.
  - intros g' mp'. cbn. intros [[<- <-]|[Hg' Hm]]%lookup_insert_Some.
    + rewrite lookup_insert_eq. split; [done|]. intros g' [[<- _]|[_ Hm]]%lookup_insert_Some; [done|]. by destruct (Hne g' mp Hm).
    + destruct (H5 g' mp' Hm) as [Hs Hu]. split; [by rewrite lookup_insert_ne by (intros <-; by apply (Hne g' mp))|].
      intros g2 [[_ <-]|[_ Hm2]]%lookup_insert_Some; [by destruct (Hne g' mp Hm)|by apply Hu].
  - intros mp' m s c. cbn. intros [[<- <-]|[_ Hm]]%lookup_insert_Some; [by rewrite lookup_empty|by apply (HA mp')].
  - split; [apply H8|]. intros k g'. rewrite Hsl. apply H8.
Qed.

(** *** A call that runs alone *)

(** The slot a call observes, if it is not one of the two fixed collectors. *)
Definition target (j : Job) : option (Kind * string) :=
  match j with
  | JAddStepDuration g s _ => if EqualFold s "total" then None else Some (KStep s, g)
  | _ => job_kind j
  end.
Definition fixed (j : Job) p : collector_ptr :=
  match j with JSetStatus _ _ => pm_CRStatus p | _ => pm_nodeRotationTotal p end.

Definition value (k : Kind) (g : string) p : option Collector := collector_at k g p ≫= fun c => pm_heap p !! c.

(** The call has its collector [c], and has changed nothing else. *)
Record ready (j : Job) (c : collector_ptr) (p p1 : Prom) : Prop := {
  re_sync : in_sync p1;
  re_values : forall k g, value k g p1 =
    if decide (target j = Some (k, g)) then Some (default (new_collector k) (value k g p)) else value k g p;
  re_fixed : (pm_nodeRotationTotal p1, pm_CRStatus p1) = (pm_nodeRotationTotal p, pm_CRStatus p) /\
    pm_heap p1 !! pm_nodeRotationTotal p = pm_heap p !! pm_nodeRotationTotal p /\
    pm_heap p1 !! pm_CRStatus p = pm_heap p !! pm_CRStatus p;
  re_at : match target j with Some (k, g) => collector_at k g p1 = Some c | None => c = fixed j p1 end;
}.

Lemma target_ok (j : Job) (k : Kind) (g : string) :
  job_ok j -> target j = Some (k, g) -> k ∈ all_kinds /\ valid_utf8 g = true.
Proof.
  intros Hj Ht. unfold all_kinds. rewrite elem_of_app.
  destruct j as [g' d|g' n|g' n|g' s d|name v]; cbn in Hj, Ht; try (injection Ht as <- <-; split; [left; set_solver|done]); [|done].
  destruct (EqualFold s "total") eqn:Es; [done|]. injection Ht as <- <-. destruct Hj as [Hg Hj]. split; [|done]. right.
  apply list_elem_of_fmap. exists s. split; [done|]. apply elem_of_cons in Hj as [->|Hj]; [|done]. by rewrite EqualFold_refl in Es.
Qed.

Lemma value_Some (k : Kind) (g : string) (c : collector_ptr) p :
  in_sync p -> collector_at k g p = Some c -> exists v, value k g p = Some v /\ pm_heap p !! c = Some v /\ has_type k v.
Proof. intros HS Hc. destruct (sy_kinds _ HS k g c Hc) as (_ & v & Hv & Ht). exists v. unfold value. by rewrite Hc. Qed.

Lemma ready_same (j : Job) (k : Kind) (g : string) (c : collector_ptr) p p1 :
  in_sync p1 -> (forall k g, collector_at k g p1 = collector_at k g p) -> pm_heap p1 = pm_heap p ->
  (pm_nodeRotationTotal p1, pm_CRStatus p1) = (pm_nodeRotationTotal p, pm_CRStatus p) ->
  target j = Some (k, g) -> collector_at k g p1 = Some c -> ready j c p p1.
Proof.
  intros HS Hsl Hh Hf Ht Hc. destruct (value_Some k g c p1 HS Hc) as (v & Hv & _ & _).
  split; [done| |by rewrite Hh|by rewrite Ht].
  assert (forall k g, value k g p1 = value k g p) as HV by (intros k' g'; unfold value; by rewrite Hsl, Hh).
  intros k' g'. rewrite HV. destruct (decide _) as [Hd|]; [|done]. rewrite Ht in Hd. injection Hd as <- <-.
  by rewrite <- HV, Hv.
Qed.

Lemma ready_extended (j : Job) (k : Kind) (g : string) (c : collector_ptr) p p1 p2 :
  in_sync p1 -> (forall k g, collector_at k g p1 = collector_at k g p) -> pm_heap p1 = pm_heap p ->
  (pm_nodeRotationTotal p1, pm_CRStatus p1) = (pm_nodeRotationTotal p, pm_CRStatus p) ->
  target j = Some (k, g) -> collector_at k g p = None -> extended k g c p1 p2 -> ready j c p p2.
Proof.
  intros HS Hsl Hh Hf Ht Hn HX. injection Hf as Hf1 Hf2. pose proof (sy_fixed_heap _ HS) as [[v1 Hv1] [v2 Hv2]].
  pose proof (ex_fresh _ _ _ _ _ HX) as Hc. split.
  - by apply (extended_sync k g c p1).
  - intros k' g'. unfold value. rewrite (ex_slots _ _ _ _ _ HX), (ex_heap _ _ _ _ _ HX), Hsl, Hh, Ht.
    destruct (decide (k' = k /\ g' = g)) as [[-> ->]|Hne].
    + rewrite decide_True by done. cbn. by rewrite lookup_insert_eq, Hn.
    + rewrite decide_False by naive_solver. destruct (collector_at k' g' p) as [c'|] eqn:Hc'; [|done]. cbn.
      rewrite lookup_insert_ne; [done|]. intros <-. rewrite <- Hsl in Hc'.
      destruct (value_Some k' g' c p1 HS Hc') as (v & _ & Hv & _). congruence.
  - rewrite (ex_heap _ _ _ _ _ HX), (ex_total _ _ _ _ _ HX), (ex_status _ _ _ _ _ HX), Hf1, Hf2, Hh.
    rewrite Hf1 in Hv1. rewrite Hf2 in Hv2. rewrite Hh in Hv1, Hv2, Hc.
    split; [done|]. split; (rewrite lookup_insert_ne; [done|congruence]).
  - rewrite Ht, (ex_slots _ _ _ _ _ HX). by rewrite decide_True.
Qed.

Lemma call_steps_add (n m : nat) (j : Job) (pc : CallPc) p :
  call_steps (n + m) j pc p = call_steps m j (call_steps n j pc p).1 (call_steps n j pc p).2.
Proof.
  induction n as [|n IH] in pc, p |- *; [done|]. cbn [call_steps Nat.add]. destruct (thread_step j pc p) as [pc' p']. apply IH.
Qed.

(** From the lookup of the step on. *)
Lemma lookup_step_ready (g st : string) (d : Duration) (mp : steps_ptr) p p1 :
  let j := JAddStepDuration g st d in
  in_sync p1 -> (forall k g, collector_at k g p1 = collector_at k g p) -> pm_heap p1 = pm_heap p ->
  (pm_nodeRotationTotal p1, pm_CRStatus p1) = (pm_nodeRotationTotal p, pm_CRStatus p) ->
  job_ok j -> target j = Some (KStep st, g) -> pm_stepSummaries p1 !! g = Some mp ->
  exists p2 c, ready j c p p2 /\
    call_steps 4 j (PcLookupStep mp) p1 = (PcReturned, set_heap (alter (observe j) c (pm_heap p2)) p2).
Proof.
  intros j HS Hsl Hh Hf Hj Ht Hmp. destruct (sy_steps _ HS g mp Hmp) as [[m Hm] _].
  assert (steps_at mp p1 !! st = collector_at (KStep st) g p1) as Hs by (unfold steps_at; cbn; rewrite Hmp; cbn; by rewrite Hm).
  cbn [call_steps thread_step job_kind j]. rewrite Hs. destruct (collector_at (KStep st) g p1) as [c|] eqn:Hc.
  - exists p1, c. split; [by apply (ready_same j (KStep st) g)|done].
  - pose proof (new_slot_extends (KStep st) g (Some mp) p1 HS (proj1 (target_ok j _ _ Hj Ht)) (proj2 (target_ok j _ _ Hj Ht)) Hc) as HX. cbn.
    destruct (register_step (KStep st) g p1) as [c p2]. exists (store_step (KStep st) g (Some mp) c p2), c.
    split; [|done]. apply (ready_extended j (KStep st) g c p p1); try done; [by rewrite <- Hsl|]. apply HX. by exists mp.
Qed.

(** A group's collector, from one of the maps. *)
Lemma table_ready (j : Job) (k : Kind) (g : string) p :
  in_sync p -> job_ok j -> target j = Some (k, g) -> job_kind j = Some (k, g) -> place k g None p ->
  start_step j p = match table k p !! g with None => (PcRegister None, p) | Some c => (PcObserve c, p) end ->
  exists p1 c, ready j c p p1 /\
    call_steps 6 j PcStart p = (PcReturned, set_heap (alter (observe j) c (pm_heap p1)) p1).
Proof.
  intros HS Hj Ht Hk HP Hs.
  assert (collector_at k g p = table k p !! g) as Hsl by (destruct k as [| | |s]; [done..|]; by destruct HP as (mp & ? & _)).
  cbn [call_steps thread_step]. rewrite Hs. destruct (table k p !! g) as [c|] eqn:Hc.
  - exists p, c. split; [by apply (ready_same j k g)|done].
  - pose proof (new_slot_extends k g None p HS (proj1 (target_ok j k g Hj Ht)) (proj2 (target_ok j k g Hj Ht)) Hsl HP) as HX. cbn. rewrite Hk.
    destruct (register_step k g p) as [c p1]. exists (store_step k g None c p1), c.
    split; [by apply (ready_extended j k g c p p)|]. cbn. by rewrite Hk.
Qed.

(** A call that runs alone finds or makes its collector, observes, and returns. *)
Lemma run_ready (j : Job) p :
  in_sync p -> job_ok j ->
  exists p1 c, ready j c p p1 /\
    call_steps 6 j PcStart p = (PcReturned, set_heap (alter (observe j) c (pm_heap p1)) p1).
Proof.
  intros HS Hj. destruct j as [g d|g n|g n|g s d|name v]; try (by eapply table_ready).
  - destruct (EqualFold s "total") eqn:Es.
    + exists p, (pm_nodeRotationTotal p). split; [|cbn; by rewrite Es]. split; [done| |done|]; cbn; rewrite Es; [|done].
      intros k g'. by rewrite decide_False.
    + assert (target (JAddStepDuration g s d) = Some (KStep s, g)) as Ht by (cbn; by rewrite Es).
      destruct (pm_stepSummaries p !! g) as [mp|] eqn:Hg.
      * destruct (lookup_step_ready g s d mp p p) as (p2 & c & HR & HE); try done. exists p2, c. split; [done|].
        assert (call_steps 1 (JAddStepDuration g s d) PcStart p = (PcLookupStep mp, p)) as H1 by (cbn; by rewrite Es, Hg).
        rewrite (call_steps_add 1 5), H1. cbn [fst snd]. by rewrite (call_steps_add 4 1), HE.
      * destruct (new_steps_sync g p HS Hg) as [HS' Hsl]. set (mp := fresh (dom (pm_maps p))) in *.
        set (p1 := set_steps _ _ p) in *.
        destruct (lookup_step_ready g s d mp p p1) as (p2 & c & HR & HE); try done; [apply lookup_insert_eq|].
        exists p2, c. split; [done|].
        assert (call_steps 2 (JAddStepDuration g s d) PcStart p = (PcLookupStep mp, p1)) as H2 by (cbn; by rewrite Es, Hg).
        rewrite (call_steps_add 2 4), H2. exact HE.
  - exists p, (pm_CRStatus p). split; [|done]. split; [done| |done|done]. intros k g. cbn. by rewrite decide_False.
Qed.

(** *** The observation *)
Lemma observe_type (j : Job) (k : Kind) (v : Collector) : has_type k v -> has_type k (observe j v).
Proof. unfold has_type. by destruct j, v, (new_collector k). Qed.

Lemma observe_sync (j : Job) (c : collector_ptr) p : in_sync p -> in_sync (set_heap (alter (observe j) c (pm_heap p)) p).
Proof.
  intros [H1 H2 H3 H4 H5 HA H6 H7 H8 [H9 H10]].
  split; [exact H1|exact H2| |exact H4|exact H5|intros mp m s c' Hm Hs; cbn; apply lookup_alter_is_Some; by apply (HA mp m s)|exact H6|exact H7|exact H8|cbn; split; by apply lookup_alter_is_Some].
  intros k g c' Hs. destruct (H3 k g c' Hs) as (Hk & v & Hv & Ht). split; [done|]. cbn.
  destruct (decide (c' = c)) as [->|Hc]; [|exists v; by rewrite lookup_alter_ne].
  exists (observe j v). rewrite lookup_alter_eq, Hv. split; [done|]. by apply observe_type.
Qed.

(** What a call records, read off the model. *)
Lemma job_metrics_at (j : Job) (m : Metrics) (k : Kind) (g : string) :
  metrics_at k g (job_metrics j m) =
    if decide (target j = Some (k, g)) then Some (observe j (default (new_collector k) (metrics_at k g m)))
    else metrics_at k g m.
Proof.
  destruct j as [g' d|g' n|g' n|g' s d|name v]; cbn [target job_kind job_metrics].
  - unfold TotalProcessingTime. destruct (decide _) as [[= <- <-]|Hne].
    + cbn. destruct (m_totalProcessingTime m !! g'); cbn; by rewrite lookup_insert_eq.
    + destruct (m_totalProcessingTime m !! g'), k; cbn; try done; rewrite lookup_insert_ne; congruence.
  - unfold SetTotalNodesMetric, addGaugeOrUpdate. destruct (decide _) as [[= <- <-]|Hne].
    + cbn. destruct (m_totalNodes m !! g'); cbn; by rewrite lookup_insert_eq.
    + destruct (m_totalNodes m !! g'), k; cbn; try done; rewrite lookup_insert_ne; congruence.
  - unfold SetNodesProcessedMetric, addGaugeOrUpdate. destruct (decide _) as [[= <- <-]|Hne].
    + cbn. destruct (m_nodesProcessed m !! g'); cbn; by rewrite lookup_insert_eq.
    + destruct (m_nodesProcessed m !! g'), k; cbn; try done; rewrite lookup_insert_ne; congruence.
  - unfold AddStepDuration. destruct (EqualFold s "total"); [by destruct k|].
    destruct (decide _) as [[= <- <-]|Hne].
    + cbn. destruct (m_stepSummaries m !! g') as [st|]; cbn; [|rewrite lookup_empty; cbn; by rewrite !lookup_insert_eq; cbn; rewrite lookup_insert_eq].
      destruct (st !! s); cbn; rewrite lookup_insert_eq; cbn; by rewrite lookup_insert_eq.
    + destruct (default ∅ (m_stepSummaries m !! g') !! s) eqn:Es, k as [| | |s']; cbn; try done;
        (destruct (decide (g' = g)) as [->|Hg]; [rewrite lookup_insert_eq; cbn|by rewrite lookup_insert_ne]);
        (rewrite lookup_insert_ne by congruence); by destruct (m_stepSummaries m !! g).
  - by destruct k.
Qed.

Lemma job_metrics_fixed (j : Job) (m : Metrics) :
  m_nodeRotationTotal (job_metrics j m) =
    match j with
    | JAddStepDuration _ s d => if EqualFold s "total" then m_nodeRotationTotal m ++ [d] else m_nodeRotationTotal m
    | _ => m_nodeRotationTotal m
    end /\
  m_CRStatus (job_metrics j m) =
    match j with JSetStatus name v => <[name := v]> (m_CRStatus m) | _ => m_CRStatus m end.
Proof.
  destruct j as [g d|g n|g n|g s d|name v]; cbn [job_metrics]; [..|done];
    unfold TotalProcessingTime, SetTotalNodesMetric, SetNodesProcessedMetric, addGaugeOrUpdate, AddStepDuration;
    [| | |destruct (EqualFold s "total"); [done|]]; by destruct (_ !! _).
Qed.

(** One call: the collectors and the model stay in agreement. *)
Lemma observed_slot (j : Job) (c : collector_ptr) p p1 (k : Kind) (g : string) :
  ready j c p p1 ->
  (collector_at k g p1 ≫= fun c' => alter (observe j) c (pm_heap p1) !! c') =
    if decide (target j = Some (k, g)) then Some (observe j (default (new_collector k) (value k g p))) else value k g p.
Proof.
  intros [R1 R2 _ R6]. specialize (R2 k g). unfold value in R2 at 1.
  destruct (collector_at k g p1) as [c'|] eqn:Hc; cbn in *; [|by destruct (decide _)].
  destruct (decide (c' = c)) as [->|Hne].
  - rewrite lookup_alter_eq, R2. destruct (decide _) as [|Hd]; [done|]. exfalso.
    destruct (target j) as [[k' g']|] eqn:Ht; [by destruct (sy_inj _ R1 _ _ _ _ _ Hc R6) as [-> ->]|].
    destruct (sy_fixed _ R1) as [_ HX]. destruct (HX k g) as [H1 H2]. subst c. unfold fixed in *. destruct j; congruence.
  - rewrite lookup_alter_ne by done. rewrite R2. destruct (decide _) as [Hd|]; [|done]. rewrite Hd in R6. congruence.
Qed.

Lemma observed_fixed (j : Job) (c : collector_ptr) p p1 :
  ready j c p p1 ->
  let heap := alter (observe j) c (pm_heap p1) in
  heap !! pm_nodeRotationTotal p1 =
    (match j with JAddStepDuration _ s _ => if EqualFold s "total" then observe j else id | _ => id end)
      <$> pm_heap p !! pm_nodeRotationTotal p /\
  heap !! pm_CRStatus p1 = (match j with JSetStatus _ _ => observe j | _ => id end) <$> pm_heap p !! pm_CRStatus p.
Proof.
  intros [R1 _ [[= T1 T2] [R4 R5]] R6] heap. destruct (sy_fixed _ R1) as [X1 X2]. unfold heap. rewrite <- R4, <- R5, T1, T2.
  assert (forall k g, collector_at k g p1 = Some c -> c <> pm_nodeRotationTotal p /\ c <> pm_CRStatus p) as HX.
  { intros k g Hc. destruct (X2 k g) as [Y1 Y2]. rewrite Hc, T1 in Y1. rewrite Hc, T2 in Y2. split; congruence. }
  rewrite T1, T2 in X1. destruct j as [g d|g n|g n|g s d|name v]; unfold target, job_kind, fixed in R6;
    try (destruct (HX _ _ R6); rewrite !lookup_alter_ne, !option_fmap_id by done; done).
  - destruct (EqualFold s "total").
    + subst c. rewrite T1, lookup_alter_eq, lookup_alter_ne by done. by rewrite option_fmap_id.
    + destruct (HX _ _ R6). rewrite !lookup_alter_ne, !option_fmap_id by done. done.
  - subst c. rewrite T2, lookup_alter_eq, lookup_alter_ne by done. by rewrite option_fmap_id.
Qed.

Lemma run_agrees (j : Job) p (m : Metrics) :
  in_sync p -> job_ok j -> agrees p m -> in_sync (run j p) /\ agrees (run j p) (job_metrics j m).
Proof.
  intros HS Hj [A1 A2 A3]. destruct (run_ready j p HS Hj) as (p1 & c & HRd & HR).
  unfold run. rewrite HR. cbn [snd]. split; [apply observe_sync, (re_sync _ _ _ _ HRd)|].
  destruct (job_metrics_fixed j m) as [F1 F2]. destruct (observed_fixed j c p p1 HRd) as [H1 H2]. split.
  - intros k g Hk. rewrite job_metrics_at, <- A1 by done. exact (observed_slot j c p p1 k g HRd).
  - cbn. rewrite H1, A2, F1. destruct j as [| | |g s d|]; try done. cbn. by destruct (EqualFold s "total").
  - cbn. rewrite H2, A3, F2. by destruct j.
Qed.

(** *** The start *)

(** A registry that collects nothing under the package's names. *)
Definition not_registered (r : RegistryState) : Prop := forall d, own d -> collected r !! d = None.

Lemma InitMetrics_sync (r : RegistryState) :
  not_registered r -> exists p, InitMetrics (package_vars r) = Val p /\ in_sync p /\ agrees p empty_metrics.
Proof.
  intros HN. unfold InitMetrics, MustRegister. cbn [package_vars pm_nodeRotationTotal pm_registry].
  assert (own nodeRotationTotal_desc) as O1 by (by left). assert (own CRStatus_desc) as O2 by (by right; left).
  assert (forall d d', own d -> is_Some (collected r !! d') -> d_fqName d' = d_fqName d -> False) as HX.
  { intros d d' Ho [c Hc] Hd. rewrite HN in Hc; [done|]. unfold own in *. by rewrite Hd. }
  destruct (Register nodeRotationTotal_desc _ _) as [e1 r1] eqn:E1. pose proof (rl_outcome _ _ _ _ _ E1) as C1.
  pose proof (rl_fresh nodeRotationTotal_desc 0%nat r (HN _ O1)) as F1. rewrite E1 in F1. cbn in F1.
  assert (e1 = None) as -> by (apply F1; [done|done|intros d' Hd Hn; by destruct (HX _ _ O1 Hd Hn)]). cbn in C1 |- *.
  destruct (Register CRStatus_desc _ _) as [e2 r2] eqn:E2. pose proof (rl_outcome _ _ _ _ _ E2) as C2.
  pose proof (rl_fresh CRStatus_desc 1%nat r1) as F2. rewrite E2, C1 in F2. cbn in F2.
  assert (e2 = None) as ->.
  { apply F2; [rewrite lookup_insert_ne by done; by apply HN|done|done|].
    intros d'. rewrite C1. destruct (decide (d' = nodeRotationTotal_desc)) as [->|Hd]; [done|].
    rewrite lookup_insert_ne by done. intros Hd' Hn. by destruct (HX _ _ O2 Hd' Hn). }
  rewrite C1 in C2. eexists. split; [reflexivity|]. set (p2 := set_registry r2 _).
  assert (forall k g, collector_at k g p2 = None) as Hsl by (by intros [| | |s] g).
  change (collected (pm_registry p2) = <[CRStatus_desc := 1%nat]> (<[nodeRotationTotal_desc := 0%nat]> (collected r))) in C2.
  split; [|split; [intros k g Hk; rewrite Hsl; by destruct k|done|done]].
  split; rewrite ?C2; try (intros k g; rewrite Hsl; done); try done; try (intros k g k' g' c; by rewrite Hsl).
  - intros k g Hk. destruct (kind_valid k Hk) as (_ & V1 & V2).
    rewrite !lookup_insert_ne, Hsl; [apply HN; right; right; by exists k|..]; intros Hd%(f_equal d_fqName)%BuildFQName_inj; congruence.
  - intros d [c Hc] Ho. apply lookup_insert_Some in Hc as [[<- _]|[_ Hc]]; [by right; left|].
    apply lookup_insert_Some in Hc as [[<- _]|[_ Hc]]; [by left|]. rewrite HN in Hc; done.
  - rewrite lookup_insert_ne by done. apply lookup_insert_eq.
  - apply lookup_insert_eq.
  - split; [done|]. intros k g. by rewrite Hsl.
Qed.

Lemma run_all_agrees (jobs : list Job) p (m : Metrics) :
  in_sync p -> Forall job_ok jobs -> agrees p m ->
  in_sync (run_all jobs p) /\ agrees (run_all jobs p) (foldl (fun m j => job_metrics j m) m jobs).
Proof.
  unfold run_all. intros HS HJ HA. induction HJ as [|j jobs Hj _ IH] in p, m, HS, HA |- *; [done|].
  destruct (run_agrees j p m HS Hj HA) as [S1 A1]. cbn. by apply IH.
Qed.

Lemma metrics_at_untouched (jobs : list Job) (k : Kind) (g : string) (m : Metrics) :
  Forall (fun j => target j <> Some (k, g)) jobs -> metrics_at k g (foldl (fun m j => job_metrics j m) m jobs) = metrics_at k g m.
Proof.
  intros HJ. induction HJ as [|j jobs Hj _ IH] in m |- *; [done|]. cbn. by rewrite IH, job_metrics_at, decide_False.
Qed.

(** A step of a group that no call was for has no collector. *)
Lemma no_call_no_collector (jobs : list Job) (g s : string) p :
  in_sync p -> agrees p (foldl (fun m j => job_metrics j m) empty_metrics jobs) -> s ∈ node_steps ->
  (forall d, JAddStepDuration g s d ∉ jobs) -> collector_at (KStep s) g p = None.
Proof.
  intros HS HA Hs Hno. destruct (collector_at (KStep s) g p) as [c|] eqn:Hc; [exfalso|done].
  destruct (sy_kinds _ HS _ _ _ Hc) as (Hk & v & Hv & _). pose proof (ag_slots _ _ HA (KStep s) g Hk) as H.
  rewrite Hc in H. cbn [mbind option_bind] in H. rewrite Hv, metrics_at_untouched in H; [done|].
  apply Forall_forall. intros j Hj Ht. destruct j as [| | |g' s' d|]; cbn in Ht; try done.
  destruct (EqualFold s' "total"); [done|]. injection Ht as -> ->. by apply (Hno d).
Qed.

(** *** A metric that is lost *)

(** A running call does not have the orphan in hand. *)
Definition harmless (orphan : collector_ptr) (pc : CallPc) : Prop :=
  match pc with PcStore _ c | PcObserve c => c <> orphan | _ => True end.

Lemma register_orphaned (o : collector_ptr) (v : Collector) (d : Desc) (k : Kind) (g : string) p :
  orphaned o v d p -> let '(c, p') := register_step k g p in c <> o /\ orphaned o v d p'.
Proof.
  intros [O1 O2 O3 O4 O5]. unfold register_step. set (c := fresh (dom (pm_heap p))).
  assert (pm_heap p !! c = None) as Hc by (apply not_elem_of_dom, is_fresh).
  destruct (Register _ _ _) as [e r] eqn:Er. assert (c <> o) as Hne by congruence. split; [done|].
  split; [|by cbn; rewrite lookup_insert_ne|done..]. cbn. rewrite (rl_outcome _ _ _ _ _ Er).
  destruct e; [done|]. rewrite lookup_insert_ne; [done|]. intros Hd.
  pose proof (rl_again (desc_of k g) c (pm_registry p)) as HA. rewrite Er, Hd, O1 in HA. by discriminate HA.
Qed.

Lemma store_orphaned (o : collector_ptr) (v : Collector) (d : Desc) (k : Kind) (g : string) (steps : option steps_ptr) (c : collector_ptr) p :
  c <> o -> orphaned o v d p -> orphaned o v d (store_step k g steps c p).
Proof.
  intros Hc [O1 O2 O3 O4 O5].
  assert (forall (t : gmap string collector_ptr) g', t !! g' <> Some o -> <[g := c]> t !! g' <> Some o) as HI.
  { intros t g' Ht. destruct (decide (g' = g)) as [->|]; [rewrite lookup_insert_eq; congruence|by rewrite lookup_insert_ne]. }
  pose proof (O4 KProcessing) as T1. pose proof (O4 KTotalNodes) as T2. pose proof (O4 KNodesProcessed) as T3.
  destruct k as [| | |s]; [| | |destruct steps as [mp|]; [|done]].
  1-3: split; [done..| |done]; intros k' g'; destruct k'; cbn; auto; apply O4.
  split; [done..|]. intros mp' m s'. cbn. intros [[<- <-]|[_ Hm]]%lookup_insert_Some; [|by apply (O5 mp')].
  intros [[_ ?]|[_ Hl]]%lookup_insert_Some; [done|]. unfold steps_at in Hl.
  destruct (pm_maps p !! mp) as [m'|] eqn:Hm'; [by apply (O5 mp m' s')|cbn in Hl; by rewrite lookup_empty in Hl].
Qed.

Lemma start_orphaned (o : collector_ptr) (v : Collector) (d : Desc) (j : Job) p :
  orphaned o v d p -> let '(pc', p') := start_step j p in orphaned o v d p' /\ harmless o pc'.
Proof.
  intros HO. destruct HO as [O1 O2 [F1 F2] O4 O5] eqn:EO. clear EO.
  assert (forall k g, let '(pc', p') := match table k p !! g with None => (PcRegister None, p) | Some c => (PcObserve c, p) end in
    orphaned o v d p' /\ harmless o pc') as HT.
  { intros k g. destruct (table k p !! g) as [c|] eqn:Ht; split; try done. cbn. intros ->. by apply (O4 k g). }
  destruct j as [g' w|g' n|g' n|g' s w|name w]; [apply (HT KProcessing)|apply (HT KTotalNodes)|apply (HT KNodesProcessed)| |].
  - cbn. destruct (EqualFold s "total"); [by split; [|cbn; congruence]|].
    destruct (pm_stepSummaries p !! g') as [mp|]; [by split|]. split; [|done]. split; [done..|].
    intros mp m s'. cbn. intros [[_ <-]|[_ Hm]]%lookup_insert_Some; [by rewrite lookup_empty|by apply (O5 mp)].
  - cbn. by split; [|congruence].
Qed.

(** Whatever a call does, and wherever it is, the orphan stays one. *)
Lemma thread_step_orphaned (o : collector_ptr) (v : Collector) (d : Desc) (j : Job) (pc : CallPc) p :
  orphaned o v d p -> harmless o pc ->
  let '(pc', p') := thread_step j pc p in orphaned o v d p' /\ harmless o pc'.
Proof.
  intros HO HH. destruct pc as [|mp|mp|steps|steps c|c|]; [by apply start_orphaned|..]; cbn [thread_step].
  - destruct (job_kind j) as [[k' g']|]; [|done]. split; [|done]. destruct HO as [O1 O2 O3 O4 O5]. by split.
  - destruct (job_kind j) as [[[| | |s] g']|]; try done. destruct (steps_at mp p !! s) as [c|] eqn:Hc; [|done]. split; [done|].
    cbn. intros ->. unfold steps_at in Hc. destruct (pm_maps p !! mp) as [m|] eqn:Hm; [|cbn in Hc; by rewrite lookup_empty in Hc].
    by apply (or_maps _ _ _ _ HO mp m s).
  - destruct (job_kind j) as [[k' g']|]; [|done]. pose proof (register_orphaned o v d k' g' p HO) as H.
    destruct (register_step k' g' p) as [c p']. by destruct H.
  - destruct (job_kind j) as [[k' g']|]; [|done]. split; [by apply store_orphaned|done].
  - destruct HO as [O1 O2 O3 O4 O5]. split; [|done]. split; [done| |done..]. cbn. by rewrite lookup_alter_ne.
  - done.
Qed.

Lemma interleave_orphaned (o : collector_ptr) (v : Collector) (d : Desc) (schedule : list nat) (ts : list (Job * CallPc)) p :
  orphaned o v d p -> Forall (fun t => harmless o t.2) ts -> orphaned o v d (interleave schedule ts p).2.
Proof.
  induction schedule as [|i schedule IH] in ts, p |- *; intros HO HT; [done|]. cbn.
  destruct (ts !! i) as [[j pc]|] eqn:Hi; [|by apply IH].
  pose proof (thread_step_orphaned o v d j pc p HO (Forall_lookup_1 _ _ _ _ HT Hi)) as H.
  destruct (thread_step j pc p) as [pc' p']. destruct H as [HO' HH]. apply IH; [done|]. by apply Forall_insert.
Qed.

(** *** Two calls that both find no collector *)
Lemma interleave_app (xs ys : list nat) (ts : list (Job * CallPc)) p :
  interleave (xs ++ ys) ts p = interleave ys (interleave xs ts p).1 (interleave xs ts p).2.
Proof.
  induction xs as [|i xs IH] in ts, p |- *; [done|]. cbn. destruct (ts !! i) as [[j pc]|]; [|apply IH].
  destruct (thread_step j pc p) as [pc' p']. apply IH.
Qed.

Lemma node_step_not_total (s : string) : s ∈ node_steps -> EqualFold s "total" = false.
Proof.
  assert (Forall (fun s => EqualFold s "total" = false) node_steps) as H
    by (repeat (constructor; [vm_compute; reflexivity|]); constructor).
  rewrite Forall_forall in H. apply H.
Qed.

(** Both see the lookup of the step fail. *)
Lemma both_find_none (g s : string) (d1 d2 : Duration) p :
  in_sync p -> s ∈ node_steps -> collector_at (KStep s) g p = None ->
  let j1 := JAddStepDuration g s d1 in let j2 := JAddStepDuration g s d2 in
  exists schedule mp p1, interleave schedule [(j1, PcStart); (j2, PcStart)] p =
      ([(j1, PcRegister (Some mp)); (j2, PcRegister (Some mp))], p1) /\
    in_sync p1 /\ pm_stepSummaries p1 !! g = Some mp /\ collector_at (KStep s) g p1 = None.
Proof.
  intros HS Hs HN j1 j2. pose proof (node_step_not_total s Hs) as Hf.
  destruct (pm_stepSummaries p !! g) as [mp|] eqn:Hg.
  - destruct (sy_steps _ HS g mp Hg) as [[m Hm] _].
    assert (steps_at mp p !! s = None) as Hl by (unfold steps_at; rewrite Hm; cbn in HN |- *; rewrite Hg in HN; cbn in HN; by rewrite Hm in HN).
    exists [0; 0; 1; 1]%nat, mp, p. split; [|done]. unfold j1, j2. repeat (cbn; rewrite ?Hf, ?Hg, ?Hl). done.
  - destruct (new_steps_sync g p HS Hg) as [HS' Hsl]. set (mp := fresh (dom (pm_maps p))) in *. set (p1 := set_steps _ _ p) in *.
    assert (pm_stepSummaries p1 !! g = Some mp) as Hg1 by apply lookup_insert_eq.
    assert (steps_at mp p1 !! s = None) as Hl by (unfold steps_at; cbn; by rewrite lookup_insert_eq).
    exists [0; 0; 0; 1; 1]%nat, mp, p1. split; [|by rewrite Hsl].
    change [0; 0; 0; 1; 1]%nat with ([0; 0] ++ [0; 1; 1])%nat. rewrite interleave_app.
    assert (interleave [0; 0]%nat [(j1, PcStart); (j2, PcStart)] p = ([(j1, PcLookupStep mp); (j2, PcStart)], p1)) as ->
      by (unfold j1; repeat (cbn; rewrite ?Hf, ?Hg); done).
    clearbody p1 mp. unfold j1, j2. repeat (cbn; rewrite ?Hf, ?Hg1, ?Hl). done.
Qed.

(** The registry keeps the first of two collectors, the package the second. *)
Lemma second_orphans_first (g s : string) (d1 d2 : Duration) (mp : steps_ptr) p :
  in_sync p -> s ∈ node_steps -> valid_utf8 g = true -> pm_stepSummaries p !! g = Some mp -> collector_at (KStep s) g p = None ->
  let j1 := JAddStepDuration g s d1 in let j2 := JAddStepDuration g s d2 in
  exists o p', interleave [0; 1; 0; 1; 0; 1]%nat [(j1, PcRegister (Some mp)); (j2, PcRegister (Some mp))] p =
      ([(j1, PcReturned); (j2, PcReturned)], p') /\
    orphaned o (Summary [d1]) (desc_of (KStep s) g) p'.
Proof.
  intros HS Hs Hu Hg HN j1 j2.
  assert (KStep s ∈ all_kinds) as Hk by (apply elem_of_app; right; by apply list_elem_of_fmap_2).
  set (c1 := fresh (dom (pm_heap p))). set (h1 := <[c1 := Summary []]> (pm_heap p)).
  set (c2 := fresh (dom h1)).
  assert (pm_heap p !! c1 = None) as Hc1 by (apply not_elem_of_dom, is_fresh).
  assert (h1 !! c2 = None) as Hc2 by (apply not_elem_of_dom, is_fresh).
  assert (c1 <> c2) as Hne by (intros E; rewrite <- E in Hc2; unfold h1 in Hc2; by rewrite lookup_insert_eq in Hc2).
  destruct (Register (desc_of (KStep s) g) c1 (pm_registry p)) as [e1 r1] eqn:E1.
  pose proof (register_empty_slot (KStep s) g c1 p e1 r1 HS Hk Hu HN E1) as Hr1.
  destruct (Register (desc_of (KStep s) g) c2 r1) as [e2 r2] eqn:E2.
  assert (collected r2 = collected r1) as Hr2.
  { pose proof (rl_again (desc_of (KStep s) g) c2 r1) as HA. rewrite E2, Hr1, lookup_insert_eq in HA.
    pose proof (rl_outcome _ _ _ _ _ E2) as HO. cbn in HA. by rewrite HA in HO. }
  exists c1. eexists. split.
  - unfold j1, j2. cbn. unfold register_step at 1. cbn. fold c1. rewrite E1. cbn. unfold register_step. cbn. fold h1. fold c2. rewrite E2. cbn.
    reflexivity.
  - pose proof (sy_fixed_heap _ HS) as [[v1 Hv1] [v2 Hv2]]. split; cbn.
    + by rewrite Hr2, Hr1, lookup_insert_eq.
    + rewrite lookup_alter_ne by done. rewrite lookup_alter_eq, lookup_insert_ne by done. unfold h1. by rewrite lookup_insert_eq.
    + split; congruence.
    + intros k g' Ht. assert (collector_at k g' p = Some c1) as Hc by (by destruct k; [..|cbn in Ht; rewrite lookup_empty in Ht]).
      destruct (sy_kinds _ HS k g' c1 Hc) as (_ & v & Hv & _). congruence.
    + unfold steps_at. cbn. intros mp' m s'. rewrite lookup_insert_eq, insert_insert_eq. cbn. rewrite insert_insert_eq.
      assert (forall mp m, pm_maps p !! mp = Some m -> m !! s' <> Some c1) as HA.
      { intros mp2 m2 Hm2 Hl. destruct (sy_alloc _ HS mp2 m2 s' c1 Hm2 Hl). congruence. }
      intros [[<- <-]|[_ Hm]]%lookup_insert_Some; [|by apply (HA mp')].
      intros [[_ ?]|[_ Hl]]%lookup_insert_Some; [done|].
      destruct (pm_maps p !! mp) as [m'|] eqn:Hm'; [by apply (HA mp m')|cbn in Hl; by rewrite lookup_empty in Hl].
Qed.
End steps.

(** ** Theorems *)
Section registry_theorems.
Context `{R : Registry} `{!RegistryLaws R} {UC : UnicodeCase}.

(** C15: when the package starts on a registry that has none of its names,
    [InitMetrics] returns, and after any sequence of calls with UTF-8 names, made one after the other, every call still returns and a
    scrape shows exactly what the model of the metrics records: every summary, gauge, the
    histogram of the totals and the statuses of the resources. *)
Theorem metrics_scraped (r : RegistryState) (jobs : list Job) :
  not_registered r -> Forall job_ok jobs ->
  exists p0, InitMetrics (package_vars r) = Val p0 /\
    let p := run_all jobs p0 in
    let m := foldl (fun m j => job_metrics j m) empty_metrics jobs in
    (forall j, job_ok j -> (call_steps 6 j PcStart p).1 = PcReturned) /\
    (forall k g, k ∈ all_kinds -> scrape (desc_of k g) p = metrics_at k g m) /\
    scrape nodeRotationTotal_desc p = Some (Histogram (m_nodeRotationTotal m)) /\
    scrape CRStatus_desc p = Some (GaugeVec (m_CRStatus m)).
Proof.
  intros HN HJ. destruct (InitMetrics_sync r HN) as (p0 & E0 & S0 & A0). exists p0. split; [done|]. intros p m.
  destruct (run_all_agrees jobs p0 empty_metrics S0 HJ A0) as [HS HA]. fold p m in HS, HA.
  split; [|unfold scrape; split; [|split]].
  - intros j Hj. destruct (run_ready j p HS Hj) as (p1 & c & _ & ->). done.
  - intros k g Hk. rewrite (sy_slots _ HS k g Hk). by apply (ag_slots _ _ HA).
  - rewrite (sy_total _ HS). apply (ag_total _ _ HA).
  - rewrite (sy_status _ HS). apply (ag_status _ _ HA).
Qed.

(** C38: after any calls made one after the other, none of them for this step of this group, two drain goroutines that
    finish the step at the same time can lose the metric: there is a schedule on which both calls find no
    summary, both make one, the registry takes the first and the second is stored over it.  Both calls return,
    and whatever calls are made from then on, overlapping in any way, every scrape shows the first call's
    observation and no other. *)
Theorem lost_metric_stays_lost (r : RegistryState) (jobs : list Job) (g s : string) (d1 d2 : Duration) :
  not_registered r -> Forall job_ok jobs -> s ∈ node_steps -> valid_utf8 g = true ->
  (forall d, JAddStepDuration g s d ∉ jobs) ->
  let j1 := JAddStepDuration g s d1 in let j2 := JAddStepDuration g s d2 in
  exists p0 schedule p',
    InitMetrics (package_vars r) = Val p0 /\
    interleave schedule [(j1, PcStart); (j2, PcStart)] (run_all jobs p0) = ([(j1, PcReturned); (j2, PcReturned)], p') /\
    forall later calls, scrape (desc_of (KStep s) g) (interleave later (map (fun j => (j, PcStart)) calls) p').2 = Some (Summary [d1]).
Proof.
  intros HN HJ Hs Hu Hno j1 j2. destruct (InitMetrics_sync r HN) as (p0 & E0 & S0 & A0).
  destruct (run_all_agrees jobs p0 empty_metrics S0 HJ A0) as [HS HA].
  assert (collector_at (KStep s) g (run_all jobs p0) = None) as Hc by (by apply (no_call_no_collector jobs)).
  destruct (both_find_none g s d1 d2 _ HS Hs Hc) as (sch & mp & p1 & I1 & S1 & Hg1 & Hc1).
  destruct (second_orphans_first g s d1 d2 mp p1 S1 Hs Hu Hg1 Hc1) as (o & p' & I2 & HO).
  exists p0, (sch ++ [0; 1; 0; 1; 0; 1]%nat), p'. split; [done|]. unfold j1, j2.
  rewrite interleave_app, I1. split; [exact I2|].
  intros later calls. assert (Forall (fun t => harmless o t.2) (map (fun j => (j, PcStart)) calls)) as HH
    by (apply Forall_fmap, Forall_forall; done).
  destruct (interleave_orphaned o _ _ later _ p' HO HH) as [C1 C2 _ _ _]. unfold scrape. rewrite C1. exact C2.
Qed.
End registry_theorems.

(** ** Witnesses: a registry that is a map *)
Definition consistent_with (d d' : Desc) : bool :=
  negb (String.eqb (d_fqName d') (d_fqName d)) ||
  (String.eqb (d_help d') (d_help d) && bool_decide (is_Some (d_group d') <-> is_Some (d_group d))).

#[local] Instance map_registry : Registry := {
  RegistryState := gmap Desc nat;
  collected r := r;
  Register d c r :=
    match r !! d with
    | Some _ => (Some AlreadyRegisteredError, r)
    | None =>
        if valid_name (d_fqName d) && valid_label d && forallb (consistent_with d) (map fst (map_to_list r))
        then (None, <[d := c]> r) else (Some (OtherRegisterError "inconsistent descriptor"), r)
    end;
}.

#[local] Instance map_registry_laws : RegistryLaws map_registry.
Proof.
  split; cbn.
  - intros d c r e r'. destruct (r !! d); [by intros [= <- <-]|]. destruct (_ && _); by intros [= <- <-].
  - intros d c r -> -> -> HC. replace (forallb _ _) with true; [done|]. symmetry. apply forallb_forall.
    intros d' ([d2 c'] & <- & Hin)%in_map_iff. apply list_elem_of_In, elem_of_map_to_list in Hin. cbn.
    unfold consistent_with. destruct (String.eqb_spec (d_fqName d2) (d_fqName d)) as [Hn|]; [|done].
    destruct (HC d2) as [-> HG]; [by eexists|done|]. cbn. rewrite String.eqb_refl. by apply bool_decide_eq_true.
  - intros d c r [c' ->]. done.
Qed.

#[local] Instance no_fold : UnicodeCase := fun c => c.

Definition the_registered : Prom :=
  match InitMetrics (package_vars (R := map_registry) ∅) with Val p => p | Panic => package_vars ∅ end.

(** A group is rotated once: two steps, the total, the gauges and the status. *)
Definition sample_jobs : list Job :=
  [JSetStatus "ru" 0; JSetTotalNodes "asg-1" 3; JAddStepDuration "asg-1" NodeRotationDrain (5 * Second);
   JAddStepDuration "asg-1" NodeRotationDrain (7 * Second); JAddStepDuration "asg-1" NodeRotationTotal (9 * Second);
   JSetNodesProcessed "asg-1" 1; JTotalProcessingTime "asg-1" (60 * Second); JSetStatus "ru" 1].

Lemma metrics_scraped_witness :
  scrape (desc_of (KStep NodeRotationDrain) "asg-1") (run_all sample_jobs the_registered)
    = Some (Summary [5 * Second; 7 * Second]%Z) /\
  scrape CRStatus_desc (run_all sample_jobs the_registered) = Some (GaugeVec {["ru" := 1%Z]}).
Proof.
  destruct (metrics_scraped (R := map_registry) ∅ sample_jobs) as (p0 & H0 & _ & H1 & _ & H2).
  - intros d _. exact (lookup_empty (M := gmap Desc) d).
  - repeat constructor; try (vm_compute; reflexivity); cbn; set_solver.
  - replace the_registered with p0 by (unfold the_registered; by rewrite H0). split.
    + rewrite H1; [vm_compute; reflexivity|]. vm_compute. do 6 right. left.
    + rewrite H2. vm_compute. reflexivity.
Defined.

(** Two goroutines that finish the drain of their nodes at the same time, before any other. *)
Definition before_drains : list Job := [JSetStatus "ru" 0; JSetTotalNodes "asg-1" 3].

Lemma lost_metric_stays_lost_witness :
  exists schedule p',
    map snd (interleave schedule [(JAddStepDuration "asg-1" NodeRotationDrain (5 * Second), PcStart);
      (JAddStepDuration "asg-1" NodeRotationDrain (7 * Second), PcStart)] (run_all before_drains the_registered)).1 = [PcReturned; PcReturned] /\
    scrape (desc_of (KStep NodeRotationDrain) "asg-1") 
      (interleave [0; 0; 0]%nat [(JAddStepDuration "asg-1" NodeRotationDrain (9 * Second), PcStart)] p').2 = Some (Summary [5 * Second]%Z).
Proof.
  destruct (lost_metric_stays_lost (R := map_registry) ∅ before_drains "asg-1" NodeRotationDrain (5 * Second) (7 * Second))
    as (p0 & schedule & p' & H0 & H1 & H2).
  - intros d _. exact (lookup_empty (M := gmap Desc) d).
  - repeat constructor; vm_compute; reflexivity.
  - unfold node_steps. set_solver.
  - vm_compute. reflexivity.
  - intros d Hd. unfold before_drains in Hd. set_solver.
  - exists schedule, p'. replace the_registered with p0 by (unfold the_registered; by rewrite H0). split; [by rewrite H1|].
    exact (H2 [0; 0; 0]%nat [JAddStepDuration "asg-1" NodeRotationDrain (9 * Second)]).
Defined.
