(* ===== verification/Logging.v ===== *)
(** * Package [log]: controllers/common/log/log.go and retry.go

    The package keeps one logrus logger; logrus itself is outside code, so the logger is
    its level, its formatter and the calls made to its methods.  Values of type
    interface{} are their printed form. *)
From S2P Require Import Prelude GoStrings GoTime Common.

Inductive Level := DebugLevel | InfoLevel | WarnLevel.
Inductive Formatter := TextFormatter | JSONFormatter.

(** The methods of the interface [Logger]. *)
Inductive LogMethod :=
| MDebug | MDebugf | MDebugln | MError | MErrorf | MErrorln | MFatal | MFatalf | MFatalln
| MInfo | MInfof | MInfoln | MPanic | MPanicf | MPanicln | MPrint | MPrintf | MPrintln
| MWarn | MWarnf | MWarning | MWarningf | MWarningln | MWarnln.

#[export] Instance Level_eq_dec : EqDecision Level.
Proof. solve_decision. Defined.

Record LogState := mkLogState {
  lg_Level : Level;
  lg_Formatter : Formatter;
  lg_calls : list (LogMethod * list string);
}.

(** [newLogrusLogger], which also makes the default logger. *)
Definition newLogrusLogger : LogState := mkLogState InfoLevel TextFormatter [].

Definition SetLevel (logLevel : string) (l : LogState) : LogState :=
  let level :=
    if String.eqb logLevel "debug" then DebugLevel
    else if String.eqb logLevel "warning" then WarnLevel
    else if String.eqb logLevel "info" then InfoLevel
    else InfoLevel in
  mkLogState level (lg_Formatter l) (lg_calls l).

Definition SetJSONFormatter (l : LogState) : LogState :=
  mkLogState (lg_Level l) JSONFormatter (lg_calls l).

(** The package-level functions, each of which passes its arguments on to the
    method of its name. *)
Definition log_call (m : LogMethod) (args : list string) (l : LogState) : LogState :=
  mkLogState (lg_Level l) (lg_Formatter l) (lg_calls l ++ [(m, args)]).

(** ** Fields: maps that are shared, not copied

    [store] holds the maps; a nil map is no key of it, and writing to it panics. *)
Definition With (f : nat) (k v : string) : M (gmap nat (gmap string string)) nat := fun store =>
  match store !! f with
  | None => (Panic, store)
  | Some m => (Val f, <[f := <[k := v]> m]> store)
  end.

(** The loop over [f2]; an empty or nil [f2] writes nothing. *)
Definition WithFields (f f2 : nat) : M (gmap nat (gmap string string)) nat :=
  store ← get;
  for_each (map_to_list (default ∅ (store !! f2))) (fun kv => _ ← With f kv.1 kv.2; mret tt) ;;;
  mret f.

(** ** The retry logger *)

(** What [RetryRules] reads of an AWS request; the pointers may be nil. *)
Record Request := mkRequest {
  rq_ServiceName : string;
  rq_Operation : option string;
  rq_Error : option error;
  rq_HTTPResponse : option (Z * string);
}.

Section retry.
(** [DefaultRetryer.RetryRules] of the AWS SDK, and the formatting of durations. *)
Context (RetryRules_default : Request -> Duration) {TF : TimeFormat}.

Definition RetryRules (r : Request) : M LogState Duration :=
  let duration := RetryRules_default r in
  let name := default "" (rq_Operation r) in
  let method := rq_ServiceName r +:+ "/" +:+ name in
  err ← (match rq_Error r with
         | Some e => mret (Error e)
         | None => '(code, status) ← lift (deref (rq_HTTPResponse r)); mret (Itoa code +:+ " " +:+ status)
         end);
  modify (log_call MInfof ["retryable: %v -- %v, will retry after %v"; err; method; DurationString duration]) ;;;
  mret duration.
End retry.

(** ** Lemmas *)

(** The log never changes how long the SDK waits, and it panics only on a request
    with neither an error nor a response. *)
Lemma RetryRules_duration (rules : Request -> Duration) {TF : TimeFormat} (r : Request) (l : LogState) :
  is_Some (rq_Error r) \/ is_Some (rq_HTTPResponse r) ->
  exists msg, RetryRules rules r l = (Val (rules r), log_call MInfof msg l).
Proof.
  intros H. unfold RetryRules. destruct (rq_Error r) as [e|] eqn:Ee; [by eexists|].
  destruct H as [[e He]|[[code status] Hr]]; [done|]. rewrite Hr. by eexists.
Qed.

(** The receiver of [WithFields] is changed, not copied: its caller sees every field of
    the other map, which wins over its own. *)
Lemma with_loop (f : nat) (l : list (string * string)) (store : gmap nat (gmap string string))
    (m : gmap string string) :
  store !! f = Some m ->
  for_each l (fun kv => _ ← With f kv.1 kv.2; mret tt) store
  = (Val tt, <[f := foldl (fun m kv => <[kv.1 := kv.2]> m) m l]> store).
Proof.
  revert store m. induction l as [|[k v] l IH]; intros store m Hf; cbn [for_each foldl].
  - by rewrite insert_id.
  - rewrite (bind_val _ _ store (<[f := <[k := v]> m]> store) tt).
    + rewrite (IH _ (<[k := v]> m)) by (by rewrite lookup_insert_eq). by rewrite insert_insert_eq.
    + unfold With, mbind, M_bind. cbn [fst snd]. by rewrite Hf.
Qed.
