(* ===== verification/Env.v ===== *)
(** * The environment: everything the controller calls that is not under src/

    [Env] packs the AWS SDK, the Kubernetes API, [kubectl]'s drain package, the
    shell, the clock and the choices of the Go runtime (map iteration order,
    goroutine scheduling) as functions on an abstract state [World].  Nothing is
    assumed of them: a theorem that holds for every [Env] holds whatever these
    services answer, in whatever order.  Every call that leaves the process is
    recorded in a trace of [Call]s, which is what the safety theorems speak about. *)
From S2P Require Import Prelude GoStrings GoTime Common Types AwsProvider KubeProvider Metrics.

(** ** SDK answers *)
Record Page (A : Type) := mkPage {
  pg_items : list A;
  pg_NextToken : option string;
}.
Arguments mkPage {A} _ _.
Arguments pg_items {A} _.
Arguments pg_NextToken {A} _.

Record Ec2Instance := mkEc2Instance {
  ec2_InstanceId : option string;
  ec2_Tags : list (option string * option string);   (* Key, Value *)
}.

(** A filter of a DescribeInstances call: its name and values. *)
Abbreviation Filter := (string * list string)%type (only parsing).

(** ** Scheduling decisions while the controller waits in [select] *)
Inductive SchedEvent :=
| EvRun (i : nat)       (* the i-th drain goroutine runs its next step *)
| EvRecv (i : nat)      (* the i-th goroutine is blocked on its send: select receives from it *)
| EvDone                (* the goroutine waiting on the wait group closes done *)
| EvTimeout.            (* the five-second timer fires *)

(** ** Calls that leave the process *)
Inductive Call :=
| CallDescribeLaunchTemplates
| CallDescribeAutoScalingGroups
| CallDescribeInstances (filters : list Filter)
| CallCreateTags (ids : list string) (key value : string)
| CallDeleteTags (ids : list string) (key value : string)
| CallTerminateInstance (id : string) (decrement : bool)
| CallEnterStandby (asg : string) (ids : list string) (decrement : bool)
| CallNodesList
| CallNodeGet (name : string)
| CallNodeUpdate (node : Node)
| CallCordon (name : string) (desired : bool)
| CallDrain (name : string) (timeout : Duration)
| CallExec (command env : list string)
| CallGetRollingUpgrade (name : string)
| CallListRollingUpgrades (label value : string)
| CallStatusUpdate (ru : RollingUpgrade)
| CallPatchLabel (name label value : string)
| CallFlushCache (service : string)
| CallKubeClient.

Class Env := {
  env_unicode :: UnicodeCase;
  env_intstr :: IntOrStringOps;
  env_time :: TimeFormat;
  World : Type;
  (* the clock and the runtime's choices *)
  svc_Now : World -> Time * World;
  svc_shuffle : World -> list nat * World;
  svc_background : World -> list nat * World;
  svc_schedule : World -> list SchedEvent * World;
  (* AWS *)
  svc_DescribeLaunchTemplatesPages :
    World -> (list (Page LaunchTemplate) * option error) * World;
  svc_DescribeAutoScalingGroupsPages :
    World -> (list (Page Group) * option error) * World;
  svc_DescribeInstancesPages :
    list Filter -> World -> (list (Page (list Ec2Instance)) * option error) * World;
  svc_CreateTags : list string -> string -> string -> World -> option error * World;
  svc_DeleteTags : list string -> string -> string -> World -> option error * World;
  svc_TerminateInstance : string -> bool -> World -> option error * World;
  svc_EnterStandby : string -> list string -> bool -> World -> option error * World;
  (* Kubernetes: the core API, and kubectl's drain package, whose cordon updates
     the node object it is given *)
  svc_NodesList : World -> (option (list Node) * option error) * World;
  svc_NodeGet : string -> World -> (Node + error) * World;
  svc_NodeUpdate : Node -> World -> (Node + error) * World;
  svc_RunCordonOrUncordon : Node -> bool -> World -> (option error * Node) * World;
  svc_RunNodeDrain : string -> Duration -> World -> option error * World;
  (* the shell *)
  svc_Exec : list string -> list string -> World -> option error * World;
  env_Environ : list string;
  (* controller-runtime's client, for the RollingUpgrade resources *)
  svc_GetRollingUpgrade : string -> World -> (RollingUpgrade + error) * World;
  svc_ListRollingUpgrades :
    string -> string -> World -> (list RollingUpgrade + error) * World;
  svc_StatusUpdate : RollingUpgrade -> World -> option error * World;
  svc_PatchLabel : string -> string -> string -> World -> option error * World;
  svc_KubeClient : World -> option error * World;
}.

(** ** Pointers to nodes: the node cache is shared between the reconciler, the
    contexts and the drain goroutines, so nodes live in a heap. *)
Abbreviation node_ptr := nat (only parsing).

#[export] Instance Node_inhabited : Inhabited Node :=
  populate (mkNode "" "" false None None 0 []).

(** ** DiscoveredState (controllers/cloud.go) *)
Record DiscoveredState := mkDiscovered {
  ClusterNodes : list node_ptr;
  LaunchTemplates : list LaunchTemplate;
  ScalingGroups : list Group;
  InProgressInstances : list string;
}.

(** ** Drain goroutines

    One goroutine of [ReplaceNodeBatch], stopped between two steps.  The
    unbuffered channel [DrainErrors] has no buffer to model: a goroutine that
    wants to send is blocked until [select] receives from it. *)
Inductive DrainPc :=
| PcPreDrain                       (* about to run the pre-drain script *)
| PcSendPreDrain (e : error)       (* blocked sending the pre-drain error *)
| PcDrain                          (* about to drain the node *)
| PcSendDrain (e : error)          (* blocked sending the drain error; returns next *)
| PcPostDrain                      (* about to run the post-drain script *)
| PcSendPostDrain (e : error)
| PcPostWait                       (* about to run the post-wait script *)
| PcSendPostWait (e : error)
| PcDone.                          (* returned: DrainGroup.Done() has run *)

(** The maps one call of [ReplaceNodeBatch] works on.  [None]: the in-processing
    map is the one in the status of the resource (they are the same Go map);
    [Some m]: a map of its own. *)
Record CallMaps := mkCallMaps {
  cm_inProcessing : option (gmap string NodeInProcessing);
  cm_nodeSteps : gmap string (list NodeStepDuration);
}.

Record DrainWorker := mkWorker {
  dw_instanceID : string;
  dw_nodeName : string;
  dw_upgrade : RollingUpgrade;       (* the object the closure captured *)
  dw_nodes : list node_ptr;          (* r.Cloud.ClusterNodes of its context *)
  dw_drainTimeout : Z;
  dw_ignoreDrainFailures : bool;
  dw_call : nat;                     (* which CallMaps it writes to *)
  dw_pc : DrainPc;
}.

Record DrainManager := mkDrainManager {
  DrainGroup : Z;                    (* the counter of the wait group *)
  dm_workers : list DrainWorker;
}.

Definition new_DrainManager : DrainManager := mkDrainManager 0 [].

(** ** The state the methods of RollingUpgradeContext run in *)
Record St `{Env} := mkSt {
  s_world : World;
  s_calls : list Call;
  s_metrics : Metrics;
  s_nodes : gmap node_ptr Node;
  s_ru : RollingUpgrade;
  s_cloud : DiscoveredState;
  s_replacementNodes : gmap string Z;
  s_allowReplacements : bool;
  s_drain : DrainManager;
  s_maps : list CallMaps;
}.

(** The immutable fields of RollingUpgradeContext. *)
Record Config := mkConfig {
  cfg_DrainTimeout : Z;
  cfg_IgnoreDrainFailures : bool;
  cfg_MaxReplacementNodes : Z;
  cfg_EarlyCordonNodes : bool;
}.

Section state.
Context `{E : Env}.

(** *** Field updates *)
Definition set_world (v : World) (s : St) : St :=
  mkSt _ v (s_calls s) (s_metrics s) (s_nodes s) (s_ru s) (s_cloud s) (s_replacementNodes s)
    (s_allowReplacements s) (s_drain s) (s_maps s).
Definition set_calls (v : list Call) (s : St) : St :=
  mkSt _ (s_world s) v (s_metrics s) (s_nodes s) (s_ru s) (s_cloud s) (s_replacementNodes s)
    (s_allowReplacements s) (s_drain s) (s_maps s).
Definition set_metrics (v : Metrics) (s : St) : St :=
  mkSt _ (s_world s) (s_calls s) v (s_nodes s) (s_ru s) (s_cloud s) (s_replacementNodes s)
    (s_allowReplacements s) (s_drain s) (s_maps s).
Definition set_nodes (v : gmap node_ptr Node) (s : St) : St :=
  mkSt _ (s_world s) (s_calls s) (s_metrics s) v (s_ru s) (s_cloud s) (s_replacementNodes s)
    (s_allowReplacements s) (s_drain s) (s_maps s).
Definition set_ru (v : RollingUpgrade) (s : St) : St :=
  mkSt _ (s_world s) (s_calls s) (s_metrics s) (s_nodes s) v (s_cloud s) (s_replacementNodes
    s) (s_allowReplacements s) (s_drain s) (s_maps s).
Definition set_cloud (v : DiscoveredState) (s : St) : St :=
  mkSt _ (s_world s) (s_calls s) (s_metrics s) (s_nodes s) (s_ru s) v (s_replacementNodes s)
    (s_allowReplacements s) (s_drain s) (s_maps s).
Definition set_replacementNodes (v : gmap string Z) (s : St) : St :=
  mkSt _ (s_world s) (s_calls s) (s_metrics s) (s_nodes s) (s_ru s) (s_cloud s) v
    (s_allowReplacements s) (s_drain s) (s_maps s).
Definition set_allowReplacements (v : bool) (s : St) : St :=
  mkSt _ (s_world s) (s_calls s) (s_metrics s) (s_nodes s) (s_ru s) (s_cloud s)
    (s_replacementNodes s) v (s_drain s) (s_maps s).
Definition set_drain (v : DrainManager) (s : St) : St :=
  mkSt _ (s_world s) (s_calls s) (s_metrics s) (s_nodes s) (s_ru s) (s_cloud s)
    (s_replacementNodes s) (s_allowReplacements s) v (s_maps s).
Definition set_maps (v : list CallMaps) (s : St) : St :=
  mkSt _ (s_world s) (s_calls s) (s_metrics s) (s_nodes s) (s_ru s) (s_cloud s)
    (s_replacementNodes s) (s_allowReplacements s) (s_drain s) v.

(** *** Reading and updating through the monad *)
Definition upd_ru (f : RollingUpgrade -> RollingUpgrade) : M St unit :=
  modify (fun s => set_ru (f (s_ru s)) s).
Definition upd_metrics (f : Metrics -> Metrics) : M St unit :=
  modify (fun s => set_metrics (f (s_metrics s)) s).
Definition upd_cloud (f : DiscoveredState -> DiscoveredState) : M St unit :=
  modify (fun s => set_cloud (f (s_cloud s)) s).

(** A question to the environment that leaves no trace (clock, runtime). *)
Definition ask {A} (f : World -> A * World) : M St A := fun s =>
  let '(a, w) := f (s_world s) in (Val a, set_world w s).

(** A call that leaves the process. *)
Definition call {A} (c : Call) (f : World -> A * World) : M St A := fun s =>
  let '(a, w) := f (s_world s) in
  (Val a, set_calls (s_calls s ++ [c]) (set_world w s)).

Definition Now : M St Time := ask svc_Now.

(** *** Nodes *)
Definition read_node (h : gmap node_ptr Node) (p : node_ptr) : Node := h !!! p.

Definition node_at (p : node_ptr) : M St Node := gets (fun s => read_node (s_nodes s) p).
Definition write_node (p : node_ptr) (n : Node) : M St unit :=
  modify (fun s => set_nodes (<[p := n]> (s_nodes s)) s).

(** The nodes of the cluster as values. *)
Definition cluster_nodes (s : St) : list Node :=
  map (read_node (s_nodes s)) (ClusterNodes (s_cloud s)).

Definition select_node (id : string) (s : St) : option node_ptr :=
  SelectNodeByInstanceID (read_node (s_nodes s)) id (ClusterNodes (s_cloud s)).
End state.

(** ** Iterating over a Go map

    The runtime fixes no order; [permute code l] is the order a list of choices
    selects.  Every order of the keys is some [permute code]
    ([permute_complete]), and nothing else is ([permute_perm]). *)
Fixpoint permute_n {A} (n : nat) (code : list nat) (l : list A) : list A :=
  match n with
  | O => []
  | S n' =>
      let i := Nat.modulo (hd 0 code) (length l) in
      match l !! i with
      | Some x => x :: permute_n n' (tl code) (delete i l)
      | None => []
      end
  end.

Definition permute {A} (code : list nat) (l : list A) : list A := permute_n (length l) code l.

Section ranging.
Context `{E : Env}.

(** [for k, v := range m]: the entries in the order of this iteration. *)
Definition range_map {V} (m : gmap string V) : M St (list (string * V)) :=
  code ← ask svc_shuffle; mret (permute code (map_to_list m)).
End ranging.

(** ** Relations for framing (see [preserves] in Prelude) *)
Section frame_relations.
Context `{E : Env}.

(** Two states that agree on everything but the world and the trace. *)
Record same_memory (s s' : St) : Prop := {
  sm_metrics : s_metrics s' = s_metrics s;
  sm_nodes : s_nodes s' = s_nodes s;
  sm_ru : s_ru s' = s_ru s;
  sm_cloud : s_cloud s' = s_cloud s;
  sm_replacement : s_replacementNodes s' = s_replacementNodes s;
  sm_allow : s_allowReplacements s' = s_allowReplacements s;
  sm_drain : s_drain s' = s_drain s;
  sm_maps : s_maps s' = s_maps s;
}.

#[export] Instance same_memory_preorder : PreOrder same_memory.
Proof.
  split; [by constructor|].
  intros x y z [] []. constructor; congruence.
Qed.

(** The trace grows, and every new call satisfies [P]. *)
Definition emits (P : Call -> Prop) (s s' : St) : Prop :=
  exists new, s_calls s' = s_calls s ++ new /\ Forall P new.

#[export] Instance emits_preorder (P : Call -> Prop) : PreOrder (emits P).
Proof.
  split.
  - intros s. exists []. by rewrite app_nil_r.
  - intros x y z (n1 & H1 & F1) (n2 & H2 & F2). exists (n1 ++ n2).
    rewrite H2, H1, <- app_assoc. split; [done|]. by apply Forall_app.
Qed.

(** [triple I P m Q]: started in [I], [m] ends in [I] (also when it panics),
    makes only calls in [P], and what it returns satisfies [Q]. *)
Definition triple (I : St -> Prop) (P : Call -> Prop) {A} (m : M St A) (Q : A -> Prop) : Prop :=
  forall s, I s -> I (m s).2 /\ emits P s (m s).2 /\ forall a, (m s).1 = Val a -> Q a.
End frame_relations.

(** ** Lemmas *)
Lemma permute_n_perm {A} (n : nat) (code : list nat) (l : list A) :
  n = length l -> permute_n n code l ≡ₚ l.
Proof.
  revert code l. induction n as [|n IH]; intros code l Hn.
  - symmetry in Hn. apply length_zero_iff_nil in Hn. by subst.
  - cbn [permute_n].
    assert (hd 0 code mod length l < length l)%nat as Hi
      by (apply Nat.mod_upper_bound; lia).
    destruct (lookup_lt_is_Some_2 l _ Hi) as [x Hx]. rewrite Hx.
    rewrite IH by (rewrite length_delete; [lia|eauto]).
    symmetry. by apply delete_Permutation.
Qed.

Lemma permute_perm {A} (code : list nat) (l : list A) : permute code l ≡ₚ l.
Proof. by apply permute_n_perm. Qed.

Lemma permute_complete {A} (l l' : list A) : l' ≡ₚ l -> exists code, permute code l = l'.
Proof.
  unfold permute. revert l. induction l' as [|x l' IH]; intros l HP.
  - exists []. by apply Permutation_nil_l in HP as <-.
  - assert (x ∈ l) as Hx by (rewrite <- HP; left).
    apply list_elem_of_lookup in Hx as [i Hi].
    assert (l' ≡ₚ delete i l) as HP'.
    { apply (Permutation_cons_inv (a := x)). rewrite HP. by apply delete_Permutation. }
    destruct (IH _ HP') as [code Hc]. exists (i :: code).
    pose proof (lookup_lt_Some _ _ _ Hi) as Hlt.
    destruct (length l) as [|n] eqn:Hl; [lia|]. cbn [permute_n hd tl].
    rewrite Hl, Nat.mod_small by lia. rewrite Hi. f_equal.
    rewrite length_delete in Hc by eauto. rewrite Hl in Hc.
    by replace (S n - 1) with n in Hc by lia.
Qed.

Section primitive_lemmas.
Context `{E : Env}.

Lemma preserves_weaken {A} (R R' : relation St) (m : M St A) :
  (forall s s', R s s' -> R' s s') -> preserves R m -> preserves R' m.
Proof. intros H Hm s. apply H, Hm. Qed.

Lemma ask_memory {A} (f : World -> A * World) : preserves same_memory (ask f).
Proof. intros s. unfold ask. by destruct (f (s_world s)). Qed.

Lemma call_memory {A} (c : Call) (f : World -> A * World) : preserves same_memory (call c f).
Proof. intros s. unfold call. by destruct (f (s_world s)). Qed.

Lemma ask_emits {A} P (f : World -> A * World) : preserves (emits P) (ask f).
Proof.
  intros s. unfold ask. destruct (f (s_world s)). exists []. by rewrite app_nil_r.
Qed.

Lemma call_emits {A} (P : Call -> Prop) (c : Call) (f : World -> A * World) :
  P c -> preserves (emits P) (call c f).
Proof.
  intros HP s. unfold call. destruct (f (s_world s)). exists [c]. split; [done|].
  by constructor.
Qed.

Lemma modify_emits P (f : St -> St) :
  (forall s, s_calls (f s) = s_calls s) -> preserves (emits P) (modify f).
Proof. intros H s. exists []. cbn. by rewrite app_nil_r. Qed.
End primitive_lemmas.

#[export] Hint Resolve ask_memory call_memory ask_emits call_emits : frame.
#[export] Hint Extern 2 (preserves (emits _) (modify _)) =>
  apply modify_emits; reflexivity : frame.
#[export] Hint Extern 2 (preserves (emits _) (upd_ru _)) =>
  apply modify_emits; reflexivity : frame.
#[export] Hint Extern 2 (preserves (emits _) (upd_metrics _)) =>
  apply modify_emits; reflexivity : frame.
#[export] Hint Extern 2 (preserves (emits _) (upd_cloud _)) =>
  apply modify_emits; reflexivity : frame.
#[export] Hint Extern 2 (preserves (emits _) (write_node _ _)) =>
  apply modify_emits; reflexivity : frame.

(** ** Rules for triples *)
Section triples.
Context `{E : Env} (I : St -> Prop) (P : Call -> Prop).

Lemma triple_conseq {A} (m : M St A) (Q Q' : A -> Prop) :
  triple I P m Q -> (forall a, Q a -> Q' a) -> triple I P m Q'.
Proof. intros H HQ s Hs. destruct (H s Hs) as (? & ? & ?). eauto. Qed.

Lemma triple_ret {A} (a : A) (Q : A -> Prop) : Q a -> triple I P (mret a) Q.
Proof. intros HQ s Hs. split; [done|]. split; [done|]. cbn. by intros b [= <-]. Qed.

Lemma triple_bind {A B} (m : M St A) (f : A -> M St B) (Q : A -> Prop) (R : B -> Prop) :
  triple I P m Q -> (forall a, Q a -> triple I P (f a) R) -> triple I P (m ≫= f) R.
Proof.
  intros Hm Hf s Hs. destruct (Hm s Hs) as (I1 & E1 & Q1). unfold mbind, M_bind.
  destruct (m s) as [[a|] s'] eqn:Em; cbn in *; [|done].
  destruct (Hf a (Q1 a eq_refl) s' I1) as (I2 & E2 & Q2).
  split; [done|]. split; [by transitivity s'|done].
Qed.

Lemma triple_get : triple I P get I.
Proof. intros s Hs. split; [done|]. split; [done|]. cbn. by intros a [= <-]. Qed.

Lemma triple_gets {A} (f : St -> A) : triple I P (gets f) (fun a => exists s, I s /\ a = f s).
Proof. intros s Hs. split; [done|]. split; [done|]. cbn. intros a [= <-]. eauto. Qed.

Lemma triple_lift {A} (o : outcome A) : triple I P (lift o) (fun a => o = Val a).
Proof. intros s Hs. split; [done|]. split; [done|]. cbn. done. Qed.

Lemma triple_modify (f : St -> St) :
  (forall s, I s -> I (f s)) -> (forall s, s_calls (f s) = s_calls s) ->
  triple I P (modify f) (fun _ => True).
Proof.
  intros HI HC s Hs. cbn. split; [by apply HI|]. split; [|done].
  exists []. by rewrite app_nil_r, HC.
Qed.

Lemma triple_call {A} (c : Call) (f : World -> A * World) :
  (forall s s', same_memory s s' -> I s -> I s') -> P c ->
  triple I P (call c f) (fun a => exists w w', f w = (a, w')).
Proof.
  intros HI HP s Hs. pose proof (call_memory c f s) as HM. pose proof (call_emits P c f HP s) as HE.
  split; [by eapply HI|]. split; [done|]. unfold call. intros a.
  destruct (f (s_world s)) as [a' w'] eqn:Ef. cbn. intros [= <-]. eauto.
Qed.

Lemma triple_ask {A} (f : World -> A * World) :
  (forall s s', same_memory s s' -> I s -> I s') ->
  triple I P (ask f) (fun a => exists w w', f w = (a, w')).
Proof.
  intros HI s Hs. pose proof (ask_memory f s) as HM. pose proof (ask_emits P f s) as HE.
  split; [by eapply HI|]. split; [done|]. unfold ask. intros a.
  destruct (f (s_world s)) as [a' w'] eqn:Ef. cbn. intros [= <-]. eauto.
Qed.

Lemma triple_fold_m {A B} (body : B -> A -> M St B) (l : list A) (Q : B -> Prop) (b : B) :
  Q b -> (forall b x, Q b -> x ∈ l -> triple I P (body b x) Q) -> triple I P (fold_m body b l) Q.
Proof.
  revert b. induction l as [|x l IH]; intros b Hb H; cbn; [by apply triple_ret|].
  eapply triple_bind; [apply H; [done|left]|]. intros b' Hb'. apply IH; [done|].
  intros b'' y ? Hy. apply H; [done|by right].
Qed.

Lemma triple_for_each {A} (body : A -> M St unit) (l : list A) :
  (forall x, x ∈ l -> triple I P (body x) (fun _ => True)) ->
  triple I P (for_each l body) (fun _ => True).
Proof.
  induction l as [|x l IH]; intros H; cbn; [by apply triple_ret|].
  eapply triple_bind; [apply H; left|]. intros _ _. apply IH. intros y Hy. apply H. by right.
Qed.

Lemma triple_for_return {A R} (body : A -> M St (option R)) (l : list A) (Q : option R -> Prop) :
  Q None -> (forall x, x ∈ l -> triple I P (body x) Q) -> triple I P (for_return l body) Q.
Proof.
  intros HN. induction l as [|x l IH]; intros H; cbn; [by apply triple_ret|].
  eapply triple_bind; [apply H; left|]. intros [r|] Hr; [by apply triple_ret|].
  apply IH. intros y Hy. apply H. by right.
Qed.
End triples.

(** A triple about any invariant-free operation. *)
Lemma triple_emits `{E : Env} {A} (I : St -> Prop) (P : Call -> Prop) (m : M St A) :
  (forall s s', same_memory s s' -> I s -> I s') ->
  preserves same_memory m -> preserves (emits P) m -> triple I P m (fun _ => True).
Proof. intros HI HM HE s Hs. split; [exact (HI _ _ (HM s) Hs)|]. split; [apply HE|done]. Qed.
