(* ===== verification/SampleEnv.v ===== *)
(** * A concrete environment

    The environment in which the witnesses of the theorems run: a fixed cluster
    and cloud described by a [Scenario], a clock that advances one second per
    reading, and calls that succeed unless the scenario lists a failure. *)
From S2P Require Import Prelude GoStrings GoTime Common Types AwsProvider KubeProvider Metrics Env.

#[local] Instance ascii_fold : UnicodeCase := fun r => r.

#[local] Instance sample_intstr : IntOrStringOps := {
  GetValueFromIntOrPercent x total up :=
    let v := (Atoi (Trim (ios_StrVal x) "%"%char)).1 in
    match ios_Type x with
    | IntType => ios_IntVal x
    | StringType => if (up : bool) then ((v * total + 99) / 100)%Z else (v * total / 100)%Z
    end;
  IntValue x := match ios_Type x with
                | IntType => ios_IntVal x
                | StringType => (Atoi (ios_StrVal x)).1
                end;
}.

#[export] Instance sample_intstr_laws : IntOrStringLaws sample_intstr.
Proof.
  split; cbn.
  - intros x p total -> _ Hp _ _. by rewrite Hp.
  - intros x p total -> Hp _ _. left. by rewrite Hp.
  - by intros x ->.
Qed.

(** Timestamps as a decimal count of seconds. *)
#[local] Instance sample_time : TimeFormat := {
  FormatRFC3339 t := Itoa (t / Second);
  ParseRFC3339 s := match Atoi s with (z, true) => Some (z * Second)%Z | _ => None end;
  DurationString d := Itoa d;
}.

Record Scenario := mkScenario {
  sc_groups : list Group;
  sc_templates : list LaunchTemplate;
  sc_instances : list Ec2Instance;
  sc_nodes : list Node;
  sc_upgrades : list RollingUpgrade;
  sc_fails : Call -> option error;
  sc_schedule : list SchedEvent;
  sc_background : list nat;
  sc_shuffle : list nat;
}.

Definition no_failure (c : Call) : option error := None.

(** Does an instance match a tag filter of [DescribeTaggedInstanceIDs]? *)
Definition matches_filters (fs : list (string * list string)) (i : Ec2Instance) : bool :=
  match fs with
  | (name, [v]) :: _ =>
      existsb (fun kv => match kv with
                         | (Some k, Some v') => String.eqb ("tag:" +:+ k) name && String.eqb v' v
                         | _ => false
                         end) (ec2_Tags i)
  | _ => true
  end.

Definition find_node (name : string) (l : list Node) : option Node :=
  List.find (fun n => String.eqb (node_Name n) name) l.

Definition not_found (what : string) : error := mkError (what +:+ " not found") true.

(** [now] gives the readings of the clock. *)
#[local] Instance clocked_env (now : Z -> Time) (sc : Scenario) : Env := {
  env_unicode := ascii_fold;
  env_intstr := sample_intstr;
  env_time := sample_time;
  World := Z;
  svc_Now w := (now w, w + 1)%Z;
  svc_shuffle w := (sc_shuffle sc, w);
  svc_background w := (sc_background sc, w);
  svc_schedule w := (sc_schedule sc, w);
  svc_DescribeLaunchTemplatesPages w :=
    (([mkPage (sc_templates sc) None], sc_fails sc CallDescribeLaunchTemplates), w);
  svc_DescribeAutoScalingGroupsPages w :=
    (([mkPage (sc_groups sc) None], sc_fails sc CallDescribeAutoScalingGroups), w);
  svc_DescribeInstancesPages fs w :=
    (([mkPage [List.filter (matches_filters fs) (sc_instances sc)] None],
      sc_fails sc (CallDescribeInstances fs)), w);
  svc_CreateTags ids k v w := (sc_fails sc (CallCreateTags ids k v), w);
  svc_DeleteTags ids k v w := (sc_fails sc (CallDeleteTags ids k v), w);
  svc_TerminateInstance id b w := (sc_fails sc (CallTerminateInstance id b), w);
  svc_EnterStandby asg ids b w := (sc_fails sc (CallEnterStandby asg ids b), w);
  svc_NodesList w := ((Some (sc_nodes sc), sc_fails sc CallNodesList), w);
  svc_NodeGet name w :=
    (match sc_fails sc (CallNodeGet name), find_node name (sc_nodes sc) with
     | Some e, _ => inr e
     | None, Some n => inl n
     | None, None => inr (not_found name)
     end, w);
  svc_NodeUpdate n w :=
    (match sc_fails sc (CallNodeUpdate n) with Some e => inr e | None => inl n end, w);
  svc_RunCordonOrUncordon n b w :=
    (match sc_fails sc (CallCordon (node_Name n) b) with
     | Some e => (Some e, n)
     | None => (None, with_Unschedulable b n)
     end, w);
  svc_RunNodeDrain name t w := (sc_fails sc (CallDrain name t), w);
  svc_Exec cmd env w := (sc_fails sc (CallExec cmd env), w);
  env_Environ := ["HOME=/root"];
  svc_GetRollingUpgrade name w :=
    (match List.find (fun r => String.eqb (NamespacedName r) name) (sc_upgrades sc) with
     | Some r => inl r
     | None => inr (not_found name)
     end, w);
  svc_ListRollingUpgrades label value w := (inl (sc_upgrades sc), w);
  svc_StatusUpdate r w := (sc_fails sc (CallStatusUpdate r), w);
  svc_PatchLabel n l v w := (sc_fails sc (CallPatchLabel n l v), w);
  svc_KubeClient w := (sc_fails sc CallKubeClient, w);
}.

(** The clock advances one second per reading. *)
Definition sample_env : Scenario -> Env := clocked_env (fun w => w * Second)%Z.

(** ** Sample data: one drifted group of three instances in two zones *)
Definition sample_instance (id az lc : string) (state : string) : Instance_ :=
  mkInstance (Some id) (Some az) (Some state) (Some lc) None [].

Definition sample_group : Group :=
  mkGroup (Some "asg-1") (Some "lc-2") None None (Some 3%Z)
    [sample_instance "i-1" "az-1" "lc-1" "InService";
     sample_instance "i-2" "az-1" "lc-1" "InService";
     sample_instance "i-3" "az-2" "lc-1" "InService"] [].

Definition sample_node (name id : string) : Node :=
  mkNode name ("aws:///us-west-2a/" +:+ id) false None None 0
    [mkNodeCondition NodeReady ConditionTrue].

Definition sample_nodes : list Node :=
  [sample_node "node-1" "i-1"; sample_node "node-2" "i-2"; sample_node "node-3" "i-3"].

Definition sample_ec2 (id : string) (tags : list (option string * option string)) : Ec2Instance :=
  mkEc2Instance (Some id) tags.

Definition sample_strategy : UpdateStrategy :=
  mkStrategy RandomUpdateStrategy UpdateStrategyModeLazy (mkIntOrString IntType 1 "") None.

Definition sample_spec (strategy : UpdateStrategy) : RollingUpgradeSpec :=
  mkSpec 0 0 "asg-1" "" (mkPostDrain "" 0 "") "" strategy None false [].

Definition empty_status : RollingUpgradeStatus :=
  mkStatus "" "" "" "" 0 0 "" [] None None [] [] None.

Definition sample_upgrade (strategy : UpdateStrategy) : RollingUpgrade :=
  mkRollingUpgrade "ru" "default" None (100 * Second)%Z None (sample_spec strategy) empty_status.

Definition sample_scenario : Scenario :=
  mkScenario [sample_group] [] (map (fun id => sample_ec2 id []) ["i-1"; "i-2"; "i-3"])
    sample_nodes [] no_failure [] [] [].

(** The heap and the cluster the nodes of a scenario are discovered into. *)
Definition sample_heap (ns : list Node) : gmap node_ptr Node := list_to_map (imap pair ns).

Definition sample_cloud (sc : Scenario) : DiscoveredState :=
  mkDiscovered (seq 0 (length (sc_nodes sc))) (sc_templates sc) (sc_groups sc) [].

Definition sample_state (sc : Scenario) (ru : RollingUpgrade) : @St (sample_env sc) :=
  @mkSt (sample_env sc) 1000%Z [] empty_metrics (sample_heap (sc_nodes sc)) ru (sample_cloud sc)
    ∅ false new_DrainManager [].

(** A resource with an interval between terminations. *)
Definition sample_upgrade_interval (n : Z) : RollingUpgrade :=
  mkRollingUpgrade "ru" "default" None (100 * Second)%Z None
    (mkSpec 0 n "asg-1" "" (mkPostDrain "" 0 "") "" sample_strategy None false []) empty_status.

(** A group whose two instances are in service and ready. *)
Definition ready_scenario : Scenario :=
  mkScenario [mkGroup (Some "asg-1") (Some "lc-2") None None (Some 2%Z)
                [sample_instance "i-1" "az-1" "lc-2" "InService";
                 sample_instance "i-2" "az-1" "lc-2" "InService"] []]
    [] [] [sample_node "node-1" "i-1"; sample_node "node-2" "i-2"] [] no_failure [] [] [].

(** A drain timeout of 900 seconds, drain failures not ignored, at most two
    replacement nodes, no early cordon. *)
Definition sample_config : Config := mkConfig 900 false 2 false.

(** An API server that refuses every update of a node. *)
Definition refusing_scenario : Scenario :=
  mkScenario [sample_group] [] [] sample_nodes []
    (fun c => match c with
              | CallNodeUpdate _ => Some (Errorf "nodes is forbidden: cannot update resource")
              | _ => None
              end) [] [] [].

(** The sample cluster, with a schedule in which the first goroutine runs to its
    end and the select sees it. *)
Definition rotation_scenario : Scenario :=
  mkScenario [sample_group] [] (map (fun id => sample_ec2 id []) ["i-1"; "i-2"; "i-3"])
    sample_nodes [] no_failure [EvRun 0; EvRun 0; EvRun 0; EvRun 0; EvDone] [] [].

(** A schedule in which the first goroutine runs half of its way in each call. *)
Definition slow_scenario : Scenario :=
  mkScenario [sample_group] [] (map (fun id => sample_ec2 id []) ["i-1"; "i-2"; "i-3"])
    sample_nodes [] no_failure [EvRun 0; EvRun 0; EvDone; EvTimeout] [] [].

Definition sample_batch (ids : list string) : list Instance_ :=
  map (fun id => sample_instance id "az-1" "lc-1" "InService") ids.

Definition eager_strategy (mode : string) : UpdateStrategy :=
  mkStrategy RandomUpdateStrategy mode (mkIntOrString IntType 1 "") None.

(** One resource that has ended, and one that waits for the same scaling group. *)
Definition named_upgrade (name status : string) : RollingUpgrade :=
  with_Status (with_CurrentStatus status)
    (mkRollingUpgrade name "default" None (100 * Second)%Z None (sample_spec sample_strategy) empty_status).

Definition upgrades_scenario : Scenario :=
  mkScenario [sample_group] [] (map (fun id => sample_ec2 id []) ["i-1"; "i-2"; "i-3"])
    sample_nodes [named_upgrade "ended" StatusComplete; named_upgrade "waiting" ""] no_failure
    [EvRun 0; EvRun 0; EvRun 0; EvRun 0; EvDone] [] [].
