(* ===== verification/Events.v ===== *)
(** * The event writer: controllers/providers/kubernetes/events.go

    [CreateEvent] publishes a Kubernetes event about a RollingUpgrade.  Its message is the JSON object of the
    fields it is given ([GoJson]).  The clock, the random numbers, the order in which Go ranges over the
    fields and the API server are the class [EventServices]; the state is the services' world, the events
    handed to the API server and the lines logged. *)
From S2P Require Import Prelude GoStrings GoTime GoJson Common Types Env SampleEnv.

(** ** Data *)
Definition EventLevelNormal : string := "Normal".
Definition EventLevelWarning : string := "Warning".
Definition EventReasonRUStarted : string := "RollingUpgradeStarted".
Definition EventReasonRUInstanceStarted : string := "RollingUpgradeInstanceStarted".
Definition EventReasonRUInstanceFinished : string := "RollingUpgradeInstanceFinished".
Definition EventReasonRUFinished : string := "RollingUpgradeFinished".

(** [v1alpha1.GroupVersion.Version]. *)
Definition GroupVersion_Version : string := "v1alpha1".

(** corev1.ObjectReference and corev1.Event, the fields that are set. *)
Record ObjectReference := mkObjectReference {
  or_Kind : string;
  or_Name : string;
  or_Namespace : string;
  or_ResourceVersion : string;
  or_APIVersion : string;
  or_UID : string;
}.

Record Event := mkEvent {
  ev_Name : string;
  ev_Component : string;
  ev_InvolvedObject : ObjectReference;
  ev_Reason : string;
  ev_Message : string;
  ev_Type : string;
  ev_Count : Z;
  ev_FirstTimestamp : Time;
  ev_LastTimestamp : Time;
}.

(** The resource with the two fields of its metadata that only the event writer reads. *)
Record Subject := mkSubject {
  sub_upgrade : RollingUpgrade;
  sub_ResourceVersion : string;
  sub_UID : string;
}.

Inductive LogLine :=
| LogInfo (msg : string) (e : Event)
| LogError (err : error) (msg : string).

Class EventServices := {
  EvWorld : Type;
  ev_now : EvWorld -> Time * EvWorld;
  ev_rand : EvWorld -> Z * EvWorld;
  ev_shuffle : EvWorld -> list nat * EvWorld;
  ev_create : string -> Event -> EvWorld -> option error * EvWorld;
}.

(** The state of an EventWriter: its client's world, the events created in each
    namespace and the log. *)
Record EventWriter `{EventServices} := mkEventWriter {
  ew_world : EvWorld;
  ew_created : list (string * Event);
  ew_log : list LogLine;
}.

(** [Time.Unix()]: the zero time is in the year 1. *)
Definition Unix (t : Time) : Z := (t / Second - 62135596800)%Z.

(** ** Operations *)
Section writer.
Context `{EventServices}.

Definition NewEventWriter (w : EvWorld) : EventWriter := mkEventWriter _ w [] [].

Definition ev_ask {A} (f : EvWorld -> A * EvWorld) : M EventWriter A := fun s =>
  let '(a, w) := f (ew_world s) in (Val a, mkEventWriter _ w (ew_created s) (ew_log s)).

Definition ev_log (l : LogLine) : M EventWriter unit :=
  modify (fun s => mkEventWriter _ (ew_world s) (ew_created s) (ew_log s ++ [l])).

Definition ev_publish (namespace : string) (e : Event) : M EventWriter (option error) := fun s =>
  let '(err, w) := ev_create namespace e (ew_world s) in
  (Val err, mkEventWriter _ w (ew_created s ++ [(namespace, e)]) (ew_log s)).

(** The fields as Go ranges over them, a nil map being [None]. *)
Definition range_fields (fields : option (gmap string string))
  : M EventWriter (option (list (string * string))) :=
  match fields with
  | None => mret None
  | Some m => code ← ev_ask ev_shuffle; mret (Some (permute code (map_to_list m)))
  end.

Definition CreateEvent (u : Subject) (reason level : string) (msgFields : option (gmap string string))
  : M EventWriter unit :=
  let ru := sub_upgrade u in
  fields ← range_fields msgFields;
  let msgPayload := Marshal fields in
  t ← ev_ask ev_now;
  now ← ev_ask ev_now;
  n ← ev_ask ev_rand;
  let event := mkEvent
    (ru_Name ru +:+ "-" +:+ Itoa (Unix now) +:+ "." +:+ Itoa n)
    "upgrade-manager"
    (mkObjectReference "RollingUpgrade" (ru_Name ru) (ru_Namespace ru) (sub_ResourceVersion u)
       GroupVersion_Version (sub_UID u))
    reason msgPayload level 1 t t in
  ev_log (LogInfo "publishing event" event) ;;;
  err ← ev_publish (ru_Namespace ru) event;
  match err with
  | Some err => ev_log (LogError err "failed to publish event")
  | None => mret tt
  end.
End writer.

(** ** Specification *)

(** An event about this resource. *)
Definition about (u : Subject) (reason level : string) (e : Event) : Prop :=
  ev_InvolvedObject e = mkObjectReference "RollingUpgrade" (ru_Name (sub_upgrade u))
    (ru_Namespace (sub_upgrade u)) (sub_ResourceVersion u) GroupVersion_Version (sub_UID u) /\
  ev_Reason e = reason /\ ev_Type e = level /\ ev_Count e = 1%Z /\ ev_FirstTimestamp e = ev_LastTimestamp e.

(** The map a reader gets out of the entries it read. *)
Definition fields_of (entries : list (list N * list N)) : gmap string string :=
  list_to_map (map (fun kv => (of_bytes kv.1, of_bytes kv.2)) entries).

Definition valid_fields (m : gmap string string) : Prop :=
  forall k v, m !! k = Some v -> valid_utf8 k = true /\ valid_utf8 v = true.

(** ** Lemmas *)
Lemma permute_entries (code : list nat) (m : gmap string string) :
  sort_entries (permute code (map_to_list m)) = sort_entries (map_to_list m).
Proof.
  symmetry. apply sort_entries_perm; [apply NoDup_fst_map_to_list|]. symmetry. apply permute_perm.
Qed.

(** Reading the fields back gives the map they came from, when they are UTF-8. *)
Lemma fields_of_sorted (m : gmap string string) :
  valid_fields m -> fields_of (map read_entry (sort_entries (map_to_list m))) = m.
Proof.
  intros HV. unfold fields_of. rewrite map_map.
  transitivity (list_to_map (M := gmap string string) (sort_entries (map_to_list m))).
  - f_equal. rewrite <- (list_fmap_id (sort_entries _)) at 2. apply list_fmap_ext. intros i [k v] Hi.
    assert ((k, v) ∈ map_to_list m) as Hm.
    { rewrite <- (merge_sort_Permutation key_le (map_to_list m)). by eapply list_elem_of_lookup_2. }
    apply elem_of_map_to_list in Hm. destruct (HV k v Hm) as [Hk Hv]. unfold read_entry. cbn [fst snd].
    by rewrite !to_valid_id, !of_bytes_bytes.
  - rewrite <- (list_to_map_to_list m) at 2. apply list_to_map_proper.
    + pose proof (NoDup_fst_map_to_list m) as HN. unfold sort_entries.
      by rewrite (merge_sort_Permutation key_le (map_to_list m)).
    + apply merge_sort_Permutation.
Qed.

(** What a message says of the fields: null for a nil map; else a JSON object that reads back to
    them in the order of their keys, with ill-formed bytes replaced, so to the same map when the
    fields are UTF-8. *)
Definition tells (fields : option (gmap string string)) (message : string) : Prop :=
  match fields with
  | None => message = "null"
  | Some m =>
      parse_object (bytes message) = Some (map read_entry (sort_entries (map_to_list m))) /\
      (valid_fields m -> (fields_of <$> parse_object (bytes message)) = Some m)
  end.

Lemma tells_Marshal (code : list nat) (fields : option (gmap string string)) :
  tells fields (Marshal (permute code <$> (map_to_list <$> fields))).
Proof.
  destruct fields as [m|]; [|done]. cbn [fmap option_fmap option_map tells].
  assert (parse_object (bytes (Marshal (Some (permute code (map_to_list m)))))
    = Some (map read_entry (sort_entries (map_to_list m)))) as HP by (by rewrite Marshal_parse, permute_entries).
  split; [done|]. intros HV. rewrite HP. cbn [fmap option_fmap option_map]. by rewrite fields_of_sorted.
Qed.

Lemma range_fields_run `{EventServices} (fields : option (gmap string string)) (s : EventWriter) :
  exists code w, range_fields fields s
    = (Val (permute code <$> (map_to_list <$> fields)), mkEventWriter _ w (ew_created s) (ew_log s)).
Proof.
  unfold range_fields, ev_ask, mbind, M_bind. destruct fields as [m|].
  - destruct (ev_shuffle (ew_world s)) as [code w]. by exists code, w.
  - exists [], (ew_world s). by destruct s.
Qed.

(** C32: whatever the services answer and in whatever order Go ranges over the
    fields, [CreateEvent] returns after handing the API server exactly one event, in the namespace of the
    resource and about it; its message is null for a nil map of fields and else a JSON object that reads back
    to the given fields in the order of their keys, exactly when they are UTF-8 and otherwise with the
    ill-formed bytes replaced; it logs the event and then, exactly when the API server answered with an
    error, that error, and nothing else. *)
Theorem CreateEvent_publishes `{EventServices} (u : Subject) (reason level : string)
    (fields : option (gmap string string)) (s : EventWriter) :
  let namespace := ru_Namespace (sub_upgrade u) in
  exists e w err s',
    CreateEvent u reason level fields s = (Val tt, s') /\
    ev_create namespace e w = (err, ew_world s') /\
    ew_created s' = ew_created s ++ [(namespace, e)] /\ about u reason level e /\
    ew_log s' = ew_log s ++ LogInfo "publishing event" e ::
      match err with Some err => [LogError err "failed to publish event"] | None => [] end /\
    tells fields (ev_Message e).
Proof.
  intros namespace. unfold CreateEvent. destruct (range_fields_run fields s) as (code & w1 & Hr).
  cbv zeta. rewrite (bind_val _ _ _ _ _ Hr). pose proof (tells_Marshal code fields) as HT.
  unfold ev_ask, ev_log, ev_publish, mbind, M_bind, mret, M_ret, modify. cbn [ew_world].
  destruct (ev_now w1) as [t w2]. cbn [ew_world]. destruct (ev_now w2) as [now w3]. cbn [ew_world].
  destruct (ev_rand w3) as [n w4]. cbn [ew_world ew_created ew_log].
  match goal with |- context [ ev_create _ ?e _ ] => set (ev := e) end. exists ev, w4.
  change (ru_Namespace (sub_upgrade u)) with namespace.
  destruct (ev_create namespace ev w4) as [[err|] w5] eqn:Ec; eexists _, _; (split; [reflexivity|]);
    (split; [first [exact Ec | reflexivity]|]); (split; [reflexivity|]); (split; [done|]); (split; [|exact HT]); cbn [ew_log];
    [by rewrite <- app_assoc|done].
Qed.

(** ** Witness: an API server that refuses the event *)
#[local] Instance refusing_services : EventServices := {|
  EvWorld := Z;
  ev_now := fun w => (w, w + Second)%Z;
  ev_rand := fun w => (4, w)%Z;
  ev_shuffle := fun w => ([1; 0]%nat, w);
  ev_create := fun _ _ w => (Some (Errorf "forbidden"), w);
|}.

Definition sample_fields : gmap string string := {[ "step" := "drain"; "node" := "ip-10-0-0-1" ]}.

Definition sample_subject : Subject := mkSubject (named_upgrade "waiting" "") "12" "u-1".

(** Start of 1970. *)
Definition sample_writer : EventWriter := @NewEventWriter refusing_services 62135596800000000000%Z.

Lemma CreateEvent_publishes_witness :
  exists e s', CreateEvent sample_subject EventReasonRUStarted EventLevelNormal (Some sample_fields)
      sample_writer = (Val tt, s') /\
    ew_created s' = [("default", e)] /\
    ew_log s' = [LogInfo "publishing event" e; LogError (Errorf "forbidden") "failed to publish event"] /\
    (fields_of <$> parse_object (bytes (ev_Message e))) = Some sample_fields.
Proof.
  destruct (CreateEvent_publishes sample_subject EventReasonRUStarted EventLevelNormal (Some sample_fields)
    sample_writer) as (e & w & err & s' & E1 & EC & H1 & _ & HL & _ & HV).
  exists e, s'. split; [exact E1|]. split; [exact H1|].
  split; [injection EC as <- _; exact HL|]. apply HV.
  intros k v. unfold sample_fields. rewrite lookup_insert_Some, lookup_singleton_Some.
  intros [[<- <-]|[_ [<- <-]]]; split; reflexivity.
Defined.
