(* ===== verification/AwsClient.v ===== *)
(** * The AWS client: controllers/providers/aws/autoscaling.go and ec2.go

    Each method of AmazonClientSet, with the SDK call it makes.  The paged
    requests run their callback on the pages the service delivers until the
    callback returns false; only a pager that was not stopped reports the
    service's error. *)
From S2P Require Import Prelude GoStrings Common Types AwsProvider KubeProvider Metrics Env SampleEnv.

(** The SDK's pager: [fn] on one page after the other, until it says stop. *)
Fixpoint each_page {P A} (fn : A -> P -> outcome (A * bool)) (pages : list P) (err : option error)
  (acc : A) : outcome (A * option error) :=
  match pages with
  | [] => Val (acc, err)
  | page :: pages' =>
      '(acc', more) ← fn acc page;
      if (more : bool) then each_page fn pages' err acc' else Val (acc', None)
  end.

(** The callbacks continue when [page.NextToken != nil]. *)
Definition has_next {A} (page : Page A) : bool :=
  match pg_NextToken page with Some _ => true | None => false end.

(** [DescribeScalingGroups] and [DescribeLaunchTemplates] append whole pages. *)
Definition append_page {A} (acc : list A) (page : Page A) : outcome (list A * bool) :=
  Val (acc ++ pg_items page, has_next page).

(** The callback of [DescribeTaggedInstanceIDs]: every instance of every
    reservation. *)
Definition append_ids (acc : list string) (page : Page (list Ec2Instance))
  : outcome (list string * bool) :=
  Val (acc ++ map (fun i => StringValue (ec2_InstanceId i)) (concat (pg_items page)),
       has_next page).

(** The loop over the tags of one instance, with its [break]: does some tag have
    this key and value?  [*t.Key] and [*t.Value] dereference pointers. *)
Fixpoint scan_tags (tags : list (option string * option string)) (tagKey tagValue : string)
  (present : bool) : outcome bool :=
  match tags with
  | [] => Val present
  | (k, v) :: tags' =>
      k ← deref k;
      if String.eqb k tagKey then
        v ← deref v;
        if String.eqb v tagValue then Val true else scan_tags tags' tagKey tagValue present
      else scan_tags tags' tagKey tagValue present
  end.

(** The loop over the instances; the flag is declared outside the callback and
    reset at the end of each iteration. *)
Fixpoint scan_instances (insts : list Ec2Instance) (tagKey tagValue : string)
  (acc : list string * bool) : outcome (list string * bool) :=
  match insts with
  | [] => Val acc
  | i :: insts' =>
      present ← scan_tags (ec2_Tags i) tagKey tagValue acc.2;
      scan_instances insts' tagKey tagValue
        (if (present : bool) then acc.1 else acc.1 ++ [StringValue (ec2_InstanceId i)], false)
  end.

Definition append_untagged (tagKey tagValue : string) (acc : list string * bool)
  (page : Page (list Ec2Instance)) : outcome ((list string * bool) * bool) :=
  acc' ← scan_instances (concat (pg_items page)) tagKey tagValue acc;
  Val (acc', has_next page).

Section client.
Context `{E : Env}.

Definition DescribeScalingGroups : M St (list Group * option error) :=
  '(pages, err) ← call CallDescribeAutoScalingGroups svc_DescribeAutoScalingGroupsPages;
  lift (each_page append_page pages err []).

Definition TerminateInstance (instance : Instance_) : M St (option error) :=
  let instanceID := StringValue (inst_InstanceId instance) in
  call (CallTerminateInstance instanceID false) (svc_TerminateInstance instanceID false).

Definition SetInstancesStandBy (instanceIDs : list string) (scalingGroupName : string)
  : M St (option error) :=
  call (CallEnterStandby scalingGroupName instanceIDs false)
    (svc_EnterStandby scalingGroupName instanceIDs false).

Definition DescribeLaunchTemplates : M St (list LaunchTemplate * option error) :=
  '(pages, err) ← call CallDescribeLaunchTemplates svc_DescribeLaunchTemplatesPages;
  lift (each_page append_page pages err []).

Definition tagged_filters (tagKey tagValue : string) : list (string * list string) :=
  [("tag:" +:+ tagKey, [tagValue]); ("instance-state-name", ["pending"; "running"])].

Definition DescribeTaggedInstanceIDs (tagKey tagValue : string)
  : M St (list string * option error) :=
  let filters := tagged_filters tagKey tagValue in
  '(pages, err) ← call (CallDescribeInstances filters) (svc_DescribeInstancesPages filters);
  lift (each_page append_ids pages err []).

Definition DescribeInstancesWithoutTagValue (tagKey tagValue : string)
  : M St (list string * option error) :=
  '(pages, err) ← call (CallDescribeInstances []) (svc_DescribeInstancesPages []);
  '(acc, err') ← lift (each_page (append_untagged tagKey tagValue) pages err ([], false));
  mret (acc.1, err').

Definition TagEC2instances (instanceIDs : list string) (tagKey tagValue : string)
  : M St (option error) :=
  call (CallCreateTags instanceIDs tagKey tagValue) (svc_CreateTags instanceIDs tagKey tagValue).

Definition UntagEC2instances (instanceIDs : list string) (tagKey tagValue : string)
  : M St (option error) :=
  call (CallDeleteTags instanceIDs tagKey tagValue) (svc_DeleteTags instanceIDs tagKey tagValue).
End client.

(** ** Specifications of the paged requests *)

(** Paging as AWS documents it: a token on every page but the last. *)
Definition well_paged {A} (pages : list (Page A)) : Prop :=
  forall i p, pages !! i = Some p ->
    (is_Some (pg_NextToken p) <-> (i + 1 < length pages)%nat).

(** An instance with the tag and value, read off its tags. *)
Definition carries_tag (tagKey tagValue : string) (i : Ec2Instance) : bool :=
  bool_decide ((Some tagKey, Some tagValue) ∈ ec2_Tags i).

(** No nil pointer among the keys and values of the tags. *)
Definition tags_ok (i : Ec2Instance) : Prop :=
  Forall (fun kv => is_Some kv.1 /\ is_Some kv.2) (ec2_Tags i).

(** ** Lemmas *)
Lemma well_paged_cons {A} (p : Page A) (ps : list (Page A)) :
  well_paged (p :: ps) -> well_paged ps.
Proof.
  intros H i q Hq. specialize (H (S i) q Hq). cbn in H.
  rewrite H. lia.
Qed.

Lemma well_paged_head {A} (p : Page A) (ps : list (Page A)) :
  well_paged (p :: ps) -> has_next p = negb (bool_decide (ps = [])).
Proof.
  intros H. specialize (H 0 p eq_refl). cbn in H. unfold has_next.
  destruct (pg_NextToken p).
  - rewrite bool_decide_false; [done|]. intros ->. cbn in H.
    apply proj1 in H. specialize (H ltac:(by eexists)). lia.
  - rewrite bool_decide_true; [done|]. destruct ps as [|q ps]; [done|]. cbn in H.
    apply proj2 in H. destruct H as [x Hx]; [lia|done].
Qed.

(** A callback that accumulates [g page] and continues on a token sees all the
    pages of a well-paged answer. *)
Lemma each_page_all {A B} (g : Page A -> B) (f : B -> B -> B) (fn : B -> Page A -> outcome (B * bool))
    (pages : list (Page A)) (err : option error) (acc : B) :
  (forall acc p, p ∈ pages -> fn acc p = Val (f acc (g p), has_next p)) ->
  well_paged pages ->
  exists err', each_page fn pages err acc = Val (foldl (fun a p => f a (g p)) acc pages, err') /\
    (err = None -> err' = None).
Proof.
  revert acc. induction pages as [|p ps IH]; intros acc Hfn Hw; cbn [each_page foldl].
  - eauto.
  - rewrite Hfn by left. cbn. rewrite (well_paged_head p ps Hw).
    case_bool_decide as N; cbn.
    + subst ps. cbn. eauto.
    + apply IH; [|by eapply well_paged_cons]. intros a q Hq. apply Hfn. by right.
Qed.

Lemma foldl_app_concat {A B} (h : A -> list B) (l : list A) (acc : list B) :
  foldl (fun a p => a ++ h p) acc l = acc ++ concat (map h l).
Proof.
  revert acc. induction l as [|p l IH]; intros acc; cbn; [by rewrite app_nil_r|].
  by rewrite IH, <- app_assoc.
Qed.

Lemma scan_tags_ok (tags : list (option string * option string)) (k v : string) :
  Forall (fun kv => is_Some kv.1 /\ is_Some kv.2) tags ->
  scan_tags tags k v false = Val (bool_decide ((Some k, Some v) ∈ tags)).
Proof.
  induction tags as [|[k' v'] tags IH]; intros HF; cbn [scan_tags].
  - by rewrite bool_decide_false by apply not_elem_of_nil.
  - inversion_clear HF as [|? ? [[kk Hk] [vv Hv]] HF']. cbn in Hk, Hv. subst. cbn.
    rewrite IH by done.
    destruct (String.eqb_spec kk k) as [->|Nk]; [destruct (String.eqb_spec vv v) as [->|Nv]|].
    + rewrite bool_decide_true; [done|left].
    + f_equal. apply bool_decide_ext. rewrite elem_of_cons. naive_solver.
    + f_equal. apply bool_decide_ext. rewrite elem_of_cons. naive_solver.
Qed.

Lemma scan_instances_ok (insts : list Ec2Instance) (k v : string) (acc : list string) :
  Forall tags_ok insts ->
  scan_instances insts k v (acc, false) =
  Val (acc ++ map (fun i => StringValue (ec2_InstanceId i))
                (filter (fun i => carries_tag k v i = false) insts), false).
Proof.
  revert acc. induction insts as [|i insts IH]; intros acc HF; cbn [scan_instances].
  - cbn. by rewrite app_nil_r.
  - inversion_clear HF as [|? ? Hi HF']. cbn [fst snd].
    rewrite scan_tags_ok by done. fold (carries_tag k v i). rewrite filter_cons.
    destruct (carries_tag k v i) eqn:C;
      [rewrite decide_False by congruence|rewrite decide_True by done];
      cbn [mbind outcome_bind]; rewrite IH by done; [done|].
    cbn [map]. by rewrite <- app_assoc.
Qed.

Lemma append_untagged_ok (p : Page (list Ec2Instance)) (k v : string) (acc : list string) :
  Forall tags_ok (concat (pg_items p)) ->
  append_untagged k v (acc, false) p =
  Val ((acc ++ map (fun i => StringValue (ec2_InstanceId i))
         (filter (fun i => carries_tag k v i = false) (concat (pg_items p))), false), has_next p).
Proof. intros H. unfold append_untagged. by rewrite scan_instances_ok. Qed.

Lemma each_page_untagged (pages : list (Page (list Ec2Instance))) (k v : string)
    (acc : list string) :
  well_paged pages ->
  Forall (fun p => Forall tags_ok (concat (pg_items p))) pages ->
  each_page (append_untagged k v) pages None (acc, false) =
  Val ((acc ++ map (fun i => StringValue (ec2_InstanceId i))
         (filter (fun i => carries_tag k v i = false)
            (concat (map (fun p => concat (pg_items p)) pages))), false), None).
Proof.
  revert acc. induction pages as [|p ps IH]; intros acc Hw HF; cbn [each_page].
  - cbn. by rewrite app_nil_r.
  - inversion_clear HF as [|? ? Hp HF'].
    rewrite append_untagged_ok by done. cbn [mbind outcome_bind].
    rewrite (well_paged_head p ps Hw). cbn [map concat].
    rewrite filter_app, map_app.
    case_bool_decide as N; cbn [negb].
    + subst ps. cbn. by rewrite app_nil_r.
    + rewrite IH; [|by eapply well_paged_cons|done]. by rewrite <- app_assoc.
Qed.

(** ** Theorems *)
Section theorems.
Context `{E : Env}.

(** A run against a service that pages as documented. *)
Lemma DescribeInstancesWithoutTagValue_run (k v : string) (s : St)
    (pages : list (Page (list Ec2Instance))) (w : World) :
  svc_DescribeInstancesPages [] (s_world s) = ((pages, None), w) ->
  well_paged pages ->
  Forall (fun p => Forall tags_ok (concat (pg_items p))) pages ->
  exists s', DescribeInstancesWithoutTagValue k v s =
    (Val (map (fun i => StringValue (ec2_InstanceId i))
            (filter (fun i => carries_tag k v i = false)
               (concat (map (fun p => concat (pg_items p)) pages))), None), s').
Proof.
  intros Hs Hw HF. eexists. unfold DescribeInstancesWithoutTagValue, call.
  unfold mbind at 1, M_bind at 1. rewrite Hs. cbn [fst snd].
  unfold mbind at 1, M_bind at 1, lift. rewrite each_page_untagged by done.
  cbn. reflexivity.
Qed.

(** C34: against a service that pages as
    documented, reports no error and sends no nil tag key or value,
    [DescribeInstancesWithoutTagValue] returns the ids of exactly the instances
    of all pages, in order, that do not carry the tag with that value. *)
Theorem DescribeInstancesWithoutTagValue_spec (k v : string) (s : St)
    (pages : list (Page (list Ec2Instance))) (w : World) :
  svc_DescribeInstancesPages [] (s_world s) = ((pages, None), w) ->
  well_paged pages ->
  Forall (fun p => Forall tags_ok (concat (pg_items p))) pages ->
  exists s', DescribeInstancesWithoutTagValue k v s =
    (Val (map (fun i => StringValue (ec2_InstanceId i))
            (filter (fun i => carries_tag k v i = false)
               (concat (map (fun p => concat (pg_items p)) pages))), None), s').
Proof. exact (DescribeInstancesWithoutTagValue_run k v s pages w). Qed.

(** [DescribeTaggedInstanceIDs] asks the
    service for the pending and running instances with the tag, and returns the
    ids of all instances of all pages in order. *)
Theorem DescribeTaggedInstanceIDs_spec (k v : string) (s : St)
    (pages : list (Page (list Ec2Instance))) (w : World) :
  svc_DescribeInstancesPages
    [("tag:" +:+ k, [v]); ("instance-state-name", ["pending"; "running"])] (s_world s)
    = ((pages, None), w) ->
  well_paged pages ->
  exists s', DescribeTaggedInstanceIDs k v s =
    (Val (map (fun i => StringValue (ec2_InstanceId i))
            (concat (map (fun p => concat (pg_items p)) pages)), None), s').
Proof.
  intros Hs Hw. eexists. unfold DescribeTaggedInstanceIDs, tagged_filters, call.
  unfold mbind at 1, M_bind at 1. rewrite Hs. cbn [fst snd]. unfold lift.
  destruct (each_page_all
    (fun p => map (fun i => StringValue (ec2_InstanceId i)) (concat (pg_items p))) app
    append_ids pages None [] ltac:(done) Hw) as (e & -> & He).
  rewrite He by done. rewrite foldl_app_concat. cbn [app].
  rewrite concat_map, !map_map. reflexivity.
Qed.
End theorems.

(** Two instances, one of which carries the tag. *)
Definition tag_scenario : Scenario :=
  mkScenario [] [] [sample_ec2 "i-1" [(Some "state", Some "in-progress")];
                    sample_ec2 "i-2" [(Some "state", Some "failed-drain")]]
    [] [] no_failure [] [] [].

Lemma DescribeInstancesWithoutTagValue_witness :
  exists s', DescribeInstancesWithoutTagValue "state" "in-progress"
    (sample_state tag_scenario (sample_upgrade sample_strategy)) = (Val (["i-2"], None), s').
Proof.
  apply (DescribeInstancesWithoutTagValue_spec (E := sample_env tag_scenario)
    "state" "in-progress" (sample_state tag_scenario (sample_upgrade sample_strategy))
    [mkPage [sc_instances tag_scenario] None] 1000%Z).
  - reflexivity.
  - intros [|i] p Hp; [|done]. injection Hp as <-. cbn. split; [by intros []|lia].
  - repeat constructor; by eexists.
Defined.

Lemma DescribeTaggedInstanceIDs_witness :
  exists s', DescribeTaggedInstanceIDs "state" "in-progress"
    (sample_state tag_scenario (sample_upgrade sample_strategy)) = (Val (["i-1"], None), s').
Proof.
  apply (DescribeTaggedInstanceIDs_spec (E := sample_env tag_scenario)
    "state" "in-progress" (sample_state tag_scenario (sample_upgrade sample_strategy))
    [mkPage [[sample_ec2 "i-1" [(Some "state", Some "in-progress")]]] None] 1000%Z).
  - vm_compute. reflexivity.
  - intros [|i] p Hp; [|done]. injection Hp as <-. cbn. split; [by intros []|lia].
Defined.
