(* ===== verification/KubeClient.v ===== *)
(** * The Kubernetes client and the scripts: controllers/providers/kubernetes/nodes.go
      and controllers/script_runner.go

    A node object is either cached (a pointer shared with the node map of the
    reconciler) or fetched for one operation; [kubectl]'s cordon writes the
    object it is given, so cordoning a cached node changes the cache. *)
From S2P Require Import Prelude GoStrings GoTime Common Types AwsProvider KubeProvider Metrics Env.

Inductive NodeObj :=
| Cached (p : node_ptr)
| Fetched (n : Node).

(** ** ScriptTarget (script_runner.go) *)
Record ScriptTarget := mkScriptTarget {
  stgt_InstanceID : string;
  stgt_NodeName : string;
  stgt_UpgradeObject : RollingUpgrade;
}.

Definition ShellBinary : string := "/bin/sh".

Section client.
Context `{E : Env}.

(** ** nodes.go *)
Definition ListClusterNodes : M St (list Node * option error) :=
  '(nodes, err) ← call CallNodesList svc_NodesList;
  mret match nodes, err with
       | Some ns, None => (ns, None)
       | _, _ => ([], err)
       end.

Definition read_obj (o : NodeObj) : M St Node :=
  match o with Cached p => node_at p | Fetched n => mret n end.

Definition write_obj (o : NodeObj) (n : Node) : M St unit :=
  match o with Cached p => write_node p n | Fetched _ => mret tt end.

(** [drain.RunCordonOrUncordon(helper, node, desired)]. *)
Definition RunCordonOrUncordon (o : NodeObj) (desired : bool) : M St (option error) :=
  n ← read_obj o;
  '(err, n') ← call (CallCordon (node_Name n) desired) (svc_RunCordonOrUncordon n desired);
  write_obj o n' ;;;
  mret err.

(** The wrapping the two methods share: a NotFound error goes through as it is. *)
Definition wrap_unless_not_found (msg : string) (err : error) : error :=
  if err_not_found err then err else Errorf (msg +:+ Error err).

(** [client] says whether the client is set; [None] is a nil node. *)
Definition DrainNode (node : option NodeObj) (DrainTimeout : Z) (client : bool)
  : M St (option error) :=
  if negb client then mret (Some (Errorf "K8sClient not set"))
  else match node with
  | None => mret (Some (Errorf "node not set"))
  | Some o =>
      err ← RunCordonOrUncordon o true;
      match err with
      | Some err => mret (Some (wrap_unless_not_found "error cordoning node: " err))
      | None =>
          n ← read_obj o;
          err ← call (CallDrain (node_Name n) (seconds DrainTimeout))
                  (svc_RunNodeDrain (node_Name n) (seconds DrainTimeout));
          mret match err with
               | Some err => Some (wrap_unless_not_found "error draining node: " err)
               | None => None
               end
      end
  end.

Definition CordonUncordonNode (node : option NodeObj) (client : bool) (cordonNode : bool)
  : M St (option error) :=
  if negb client then mret (Some (Errorf "K8sClient not set"))
  else match node with
  | None => mret (Some (Errorf "node not set"))
  | Some o =>
      err ← RunCordonOrUncordon o cordonNode;
      mret match err with
           | Some err => Some (wrap_unless_not_found "error cordoning node: " err)
           | None => None
           end
  end.

(** ** script_runner.go *)
Definition getEnv (target : ScriptTarget) : list string :=
  ["ASG_NAME=" +:+ ScalingGroupName (stgt_UpgradeObject target);
   "INSTANCE_ID=" +:+ stgt_InstanceID target;
   "INSTANCE_NAME=" +:+ stgt_NodeName target].

Definition runScript (script : string) (target : ScriptTarget) : M St (option error) :=
  let command := [ShellBinary; "-c"; script] in
  let env := env_Environ ++ getEnv target in
  call (CallExec command env) (svc_Exec command env).

(** The four hooks differ only in the script they read. *)
Definition run_hook (script : string) (target : ScriptTarget) : M St (option error) :=
  if String.eqb script "" then mret None else runScript script target.

Definition PostTerminate (target : ScriptTarget) : M St (option error) :=
  run_hook (PostTerminateScript (stgt_UpgradeObject target)) target.
Definition PreDrain (target : ScriptTarget) : M St (option error) :=
  run_hook (PreDrainScript (stgt_UpgradeObject target)) target.
Definition PostDrain (target : ScriptTarget) : M St (option error) :=
  run_hook (PostDrainScript (stgt_UpgradeObject target)) target.
Definition PostWait (target : ScriptTarget) : M St (option error) :=
  run_hook (PostWaitScript (stgt_UpgradeObject target)) target.
End client.

(** ** Lemmas: which calls these operations make *)
Section emit_lemmas.
Context `{E : Env} (P : Call -> Prop).

Lemma write_obj_emits (o : NodeObj) (n : Node) : preserves (emits P) (write_obj o n).
Proof. destruct o; cbn; frame. Qed.

Lemma read_obj_emits (o : NodeObj) : preserves (emits P) (read_obj o).
Proof. destruct o; cbn; unfold node_at; frame. Qed.

Hint Resolve write_obj_emits read_obj_emits : frame.

Lemma RunCordonOrUncordon_emits (o : NodeObj) (b : bool) :
  (forall name, P (CallCordon name b)) -> preserves (emits P) (RunCordonOrUncordon o b).
Proof. intros H. unfold RunCordonOrUncordon. frame. Qed.

Hint Resolve RunCordonOrUncordon_emits : frame.

Lemma DrainNode_emits (o : option NodeObj) (t : Z) (b : bool) :
  (forall name, P (CallCordon name true)) -> (forall name d, P (CallDrain name d)) ->
  preserves (emits P) (DrainNode o t b).
Proof. intros H1 H2. unfold DrainNode. frame. Qed.

Lemma CordonUncordonNode_emits (o : option NodeObj) (b c : bool) :
  (forall name, P (CallCordon name c)) -> preserves (emits P) (CordonUncordonNode o b c).
Proof. intros H. unfold CordonUncordonNode. frame. Qed.

Lemma run_hook_emits (script : string) (t : ScriptTarget) :
  (forall c e, P (CallExec c e)) -> preserves (emits P) (run_hook script t).
Proof. intros H. unfold run_hook, runScript. frame. Qed.

Lemma ListClusterNodes_emits : P CallNodesList -> preserves (emits P) ListClusterNodes.
Proof. intros H. unfold ListClusterNodes. frame. Qed.
End emit_lemmas.

#[export] Hint Resolve write_obj_emits read_obj_emits RunCordonOrUncordon_emits
  DrainNode_emits CordonUncordonNode_emits run_hook_emits ListClusterNodes_emits : frame.
