(* ===== verification/Cloud.v ===== *)
(** * Discovery: controllers/cloud.go *)
From S2P Require Import Prelude GoStrings Common Types AwsProvider KubeProvider Metrics Env AwsClient.

Definition instanceStateTagKey : string := "upgrademgr.keikoproj.io/state".
Definition inProgressTagValue : string := "in-progress".
Definition failedDrainTagValue : string := "failed-drain".

Definition with_LaunchTemplates v (d : DiscoveredState) : DiscoveredState :=
  mkDiscovered (ClusterNodes d) v (ScalingGroups d) (InProgressInstances d).
Definition with_ScalingGroups v (d : DiscoveredState) : DiscoveredState :=
  mkDiscovered (ClusterNodes d) (LaunchTemplates d) v (InProgressInstances d).
Definition with_InProgressInstances v (d : DiscoveredState) : DiscoveredState :=
  mkDiscovered (ClusterNodes d) (LaunchTemplates d) (ScalingGroups d) v.

(** [NewDiscoveredState]; the caller fills in the nodes. *)
Definition NewDiscoveredState : DiscoveredState := mkDiscovered [] [] [] [].

Section discover.
Context `{E : Env}.

(** [Discover]: three requests, each stored before the next is made. *)
Definition Discover : M St (option error) :=
  '(launchTemplates, err) ← DescribeLaunchTemplates;
  match err with
  | Some err => mret (Some (Wrap err "failed to discover launch templates"))
  | None =>
      upd_cloud (with_LaunchTemplates launchTemplates) ;;;
      '(scalingGroups, err) ← DescribeScalingGroups;
      match err with
      | Some err => mret (Some (Wrap err "failed to discover scaling groups"))
      | None =>
          upd_cloud (with_ScalingGroups scalingGroups) ;;;
          '(inProgress, err) ← DescribeTaggedInstanceIDs instanceStateTagKey inProgressTagValue;
          match err with
          | Some err => mret (Some (Wrap err "failed to discover ec2 instances"))
          | None =>
              upd_cloud (with_InProgressInstances inProgress) ;;;
              mret None
          end
      end
  end.
End discover.

(** ** Lemmas *)
Section discover_lemmas.
Context `{E : Env}.

Lemma Discover_emits (P : Call -> Prop) :
  P CallDescribeLaunchTemplates -> P CallDescribeAutoScalingGroups ->
  (forall f, P (CallDescribeInstances f)) -> preserves (emits P) Discover.
Proof.
  intros H1 H2 H3.
  unfold Discover, DescribeLaunchTemplates, DescribeScalingGroups, DescribeTaggedInstanceIDs.
  frame.
Qed.
End discover_lemmas.

#[export] Hint Resolve Discover_emits : frame.
