(* ===== verification/Steps.v ===== *)
(** * Node steps and their statistics: controllers/metrics.go

    [DoNodeStep] is written on the values it changes: the in-processing map, the
    durations collected per node and the metrics.  The clock readings it makes are
    arguments ([Replace] reads the clock and passes them). *)
From S2P Require Import Prelude GoStrings GoTime Common Types Metrics.

Record StepState := mkStepState {
  ss_inProcessing : gmap string NodeInProcessing;
  ss_nodeSteps : gmap string (list NodeStepDuration);
  ss_metrics : Metrics;
}.

(** ** Statistics *)

(** The loop of [AddNodeStepDuration]: add to the first entry of that step, or
    append an entry.  [DurationSum] is an int64 and [DurationCount] an int32. *)
Fixpoint AddNodeStepDuration (nsd : NodeStepDuration) (stats : list RollingUpgradeStatistics)
  : list RollingUpgradeStatistics :=
  match stats with
  | [] => [mkStatistics (nsd_StepName nsd) (nsd_Duration nsd) 1]
  | s :: stats' =>
      if String.eqb (stat_StepName s) (nsd_StepName nsd) then
        mkStatistics (stat_StepName s)
          (int64 (stat_DurationSum s + nsd_Duration nsd))
          (int32 (stat_DurationCount s + 1)) :: stats'
      else s :: AddNodeStepDuration nsd stats'
  end.

(** [UpdateStatistics] over the values of the map in iteration order. *)
Definition UpdateStatistics (nodeSteps : list (list NodeStepDuration))
  (stats : list RollingUpgradeStatistics) : list RollingUpgradeStatistics :=
  foldl (fun st steps => foldl (fun st nsd => AddNodeStepDuration nsd st) st steps)
    stats nodeSteps.

(** [UpdateLastBatchNodes]: the map goes into the status, its keys in iteration
    order into [LastBatchNodes]. *)
Definition UpdateLastBatchNodes (batchNodes : gmap string NodeInProcessing)
  (keys : list string) (st : RollingUpgradeStatus) : RollingUpgradeStatus :=
  with_LastBatchNodes keys (with_NodeInProcessing (Some batchNodes) st).

Section steps.
Context {UC : UnicodeCase}.

Definition ToStepDuration (groupName nodeName stepName : string) (duration : Duration)
  (m : Metrics) : NodeStepDuration * Metrics :=
  (mkNodeStepDuration groupName nodeName stepName duration,
   AddStepDuration groupName stepName duration m).

Definition addNodeStepDuration (steps : gmap string (list NodeStepDuration)) (nodeName : string)
  (nsd : NodeStepDuration) : gmap string (list NodeStepDuration) :=
  match steps !! nodeName with
  | None => <[nodeName := [nsd]]> steps
  | Some stepDuration => <[nodeName := stepDuration ++ [nsd]]> steps
  end.

Definition step_order (step : string) : Z := default 0%Z (NodeRotationStepOrders !! step).

(** [DoNodeStep].  [now1] and [now2] are the two readings of the clock it makes
    when the node is not in the map yet. *)
Definition DoNodeStep (now1 now2 : Time) (groupName nodeName stepName : string) (endTime : Time)
  (s : StepState) : StepState :=
  let n0 := match ss_inProcessing s !! nodeName with
            | None => mkNodeInProcessing nodeName stepName now1 now2 zero_time
            | Some n => n
            end in
  let n := mkNodeInProcessing (nip_NodeName n0) (nip_StepName n0) (nip_UpgradeStartTime n0)
             (nip_StepStartTime n0) endTime in
  let duration := TimeSub (nip_StepEndTime n) (nip_StepStartTime n) in
  if String.eqb stepName NodeRotationCompleted then
    let total := TimeSub (nip_StepEndTime n) (nip_UpgradeStartTime n) in
    let '(duration1, m1) := ToStepDuration groupName nodeName (nip_StepName n) duration
                              (ss_metrics s) in
    let '(duration2, m2) := ToStepDuration groupName nodeName NodeRotationTotal total m1 in
    mkStepState (delete nodeName (ss_inProcessing s))
      (addNodeStepDuration (addNodeStepDuration (ss_nodeSteps s) nodeName duration1)
         nodeName duration2) m2
  else if negb (String.eqb (nip_StepName n) stepName)
          && (step_order (nip_StepName n) <? step_order stepName)%Z then
    let '(stepDuration, m1) := ToStepDuration groupName nodeName (nip_StepName n) duration
                                 (ss_metrics s) in
    let n' := mkNodeInProcessing (nip_NodeName n) stepName (nip_UpgradeStartTime n) endTime
                (nip_StepEndTime n) in
    mkStepState (<[nodeName := n']> (ss_inProcessing s))
      (addNodeStepDuration (ss_nodeSteps s) nodeName stepDuration) m1
  else
    mkStepState (<[nodeName := n]> (ss_inProcessing s)) (ss_nodeSteps s) (ss_metrics s).
End steps.

(** ** Specification *)

(** All the durations of a list, one after the other. *)
Definition add_all (l : list NodeStepDuration) (stats : list RollingUpgradeStatistics)
  : list RollingUpgradeStatistics :=
  foldl (fun st nsd => AddNodeStepDuration nsd st) stats l.

(** The sum and the count of a step, 0 when the step has no entry. *)
Definition stat_of (name : string) (stats : list RollingUpgradeStatistics) : Z * Z :=
  match List.find (fun s => String.eqb (stat_StepName s) name) stats with
  | Some s => (stat_DurationSum s, stat_DurationCount s)
  | None => (0, 0)%Z
  end.

(** One entry per step: what [AddNodeStepDuration] keeps true. *)
Definition stats_unique (stats : list RollingUpgradeStatistics) : Prop :=
  NoDup (map stat_StepName stats).

(** The durations recorded for a node. *)
Definition recorded (node : string) (s : StepState) : list NodeStepDuration :=
  default [] (ss_nodeSteps s !! node).

Definition total_duration (l : list NodeStepDuration) : Z :=
  foldr Z.add 0%Z (map nsd_Duration l).

(** A step event for one node: the step and the time it is entered at. *)
Definition run_steps {UC : UnicodeCase} (groupName nodeName : string) (evs : list (string * Time))
  (s : StepState) : StepState :=
  foldl (fun s ev => DoNodeStep ev.2 ev.2 groupName nodeName ev.1 ev.2 s) s evs.

(** Within the 292 years from [base] on, so that the difference of two such times is an int64 number
    of nanoseconds and [Sub] does not saturate. *)
Definition near (base t : Time) : Prop := (base <= t <= base + max_int64)%Z.

(** ** Lemmas *)
Lemma AddNodeStepDuration_names (nsd : NodeStepDuration) (stats : list RollingUpgradeStatistics) :
  map stat_StepName (AddNodeStepDuration nsd stats) =
  if bool_decide (nsd_StepName nsd ∈ map stat_StepName stats) then map stat_StepName stats
  else map stat_StepName stats ++ [nsd_StepName nsd].
Proof.
  induction stats as [|s stats IH]; cbn.
  - by rewrite bool_decide_false by apply not_elem_of_nil.
  - destruct (String.eqb_spec (stat_StepName s) (nsd_StepName nsd)) as [->|N]; cbn.
    + by rewrite bool_decide_true by left.
    + rewrite IH. case_bool_decide as H1; case_bool_decide as H2; try done.
      * destruct H2. by right.
      * apply elem_of_cons in H2 as [?|?]; congruence.
Qed.

Lemma AddNodeStepDuration_unique (nsd : NodeStepDuration) (stats : list RollingUpgradeStatistics) :
  stats_unique stats -> stats_unique (AddNodeStepDuration nsd stats).
Proof.
  unfold stats_unique. intros H. rewrite AddNodeStepDuration_names.
  case_bool_decide as Hin; [done|]. apply NoDup_app. split; [done|]. split.
  - intros x Hx. rewrite list_elem_of_singleton. congruence.
  - apply NoDup_singleton.
Qed.

(** Two additions commute, up to the order of the entries. *)
Lemma AddNodeStepDuration_comm (a b : NodeStepDuration) (stats : list RollingUpgradeStatistics) :
  AddNodeStepDuration a (AddNodeStepDuration b stats)
  ≡ₚ AddNodeStepDuration b (AddNodeStepDuration a stats).
Proof.
  induction stats as [|s stats IH]; cbn.
  - destruct (String.eqb_spec (nsd_StepName b) (nsd_StepName a)) as [E|N].
    + rewrite E, String.eqb_refl. cbn. by rewrite Z.add_comm.
    + rewrite (proj2 (String.eqb_neq _ _) (not_eq_sym N)). constructor.
  - destruct (String.eqb_spec (stat_StepName s) (nsd_StepName b)) as [Eb|Nb];
    destruct (String.eqb_spec (stat_StepName s) (nsd_StepName a)) as [Ea|Na]; cbn.
    + rewrite <- Ea, <- Eb, String.eqb_refl. unfold int64.
      rewrite !wrap_add_l by lia. by rewrite <- !Z.add_assoc, (Z.add_comm (nsd_Duration b)).
    + rewrite (proj2 (String.eqb_neq _ _) Na), Eb, String.eqb_refl. done.
    + rewrite Ea, String.eqb_refl, (proj2 (String.eqb_neq (nsd_StepName a) _)) by congruence.
      done.
    + rewrite (proj2 (String.eqb_neq _ _) Na), (proj2 (String.eqb_neq _ _) Nb). by rewrite IH.
Qed.

(** Adding to a permutation of the entries gives a permutation of the result. *)
Lemma AddNodeStepDuration_perm (nsd : NodeStepDuration) (l l' : list RollingUpgradeStatistics) :
  l ≡ₚ l' -> stats_unique l -> AddNodeStepDuration nsd l ≡ₚ AddNodeStepDuration nsd l'.
Proof.
  unfold stats_unique. induction 1 as [|x l l' HP IH|x y l|l1 l2 l3 H1 IH1 H2 IH2]; intros U; cbn.
  - done.
  - inversion_clear U. destruct (String.eqb _ _); [by constructor|]. constructor. by apply IH.
  - inversion_clear U as [|? ? Hy U']. apply not_elem_of_cons in Hy as [Hyx _].
    destruct (String.eqb_spec (stat_StepName x) (nsd_StepName nsd)) as [Ex|Nx];
    destruct (String.eqb_spec (stat_StepName y) (nsd_StepName nsd)) as [Ey|Ny];
      [congruence|apply perm_swap..].
  - rewrite IH1 by done. apply IH2. by rewrite <- H1.
Qed.

Lemma add_all_unique (l : list NodeStepDuration) (stats : list RollingUpgradeStatistics) :
  stats_unique stats -> stats_unique (add_all l stats).
Proof.
  revert stats. induction l as [|a l IH]; intros stats U; [done|]. cbn.
  apply IH. by apply AddNodeStepDuration_unique.
Qed.

Lemma add_all_perm_stats (l : list NodeStepDuration) (st st' : list RollingUpgradeStatistics) :
  st ≡ₚ st' -> stats_unique st -> add_all l st ≡ₚ add_all l st'.
Proof.
  revert st st'. induction l as [|a l IH]; intros st st' HP U; [done|]. cbn.
  apply IH; [by apply AddNodeStepDuration_perm|by apply AddNodeStepDuration_unique].
Qed.

Lemma add_all_perm (l l' : list NodeStepDuration) (stats : list RollingUpgradeStatistics) :
  l ≡ₚ l' -> stats_unique stats -> add_all l stats ≡ₚ add_all l' stats.
Proof.
  intros HP. revert stats. induction HP as [|x l l' HP IH|x y l|l1 l2 l3 H1 IH1 H2 IH2];
    intros stats U; cbn.
  - done.
  - apply IH. by apply AddNodeStepDuration_unique.
  - apply (add_all_perm_stats l); [apply AddNodeStepDuration_comm|].
    by do 2 apply AddNodeStepDuration_unique.
  - rewrite IH1 by done. by apply IH2.
Qed.

Lemma UpdateStatistics_concat (vs : list (list NodeStepDuration)) (stats : list RollingUpgradeStatistics) :
  UpdateStatistics vs stats = add_all (concat vs) stats.
Proof.
  unfold UpdateStatistics, add_all. revert stats.
  induction vs as [|v vs IH]; intros stats; [done|]. cbn. by rewrite foldl_app, IH.
Qed.

(** What one addition does to the sum and the count of a step. *)
Lemma AddNodeStepDuration_stat (nsd : NodeStepDuration) (name : string)
    (stats : list RollingUpgradeStatistics) :
  int64 (stat_of name (AddNodeStepDuration nsd stats)).1 =
    int64 ((stat_of name stats).1
           + if String.eqb (nsd_StepName nsd) name then nsd_Duration nsd else 0) /\
  int32 (stat_of name (AddNodeStepDuration nsd stats)).2 =
    int32 ((stat_of name stats).2 + if String.eqb (nsd_StepName nsd) name then 1 else 0).
Proof.
  induction stats as [|s stats IH]; cbn.
  - unfold stat_of. cbn. destruct (String.eqb (nsd_StepName nsd) name); done.
  - unfold stat_of in *. cbn.
    destruct (String.eqb_spec (stat_StepName s) (nsd_StepName nsd)) as [E|N]; cbn.
    + rewrite E. destruct (String.eqb (nsd_StepName nsd) name) eqn:En; cbn.
      * unfold int64, int32. by rewrite !wrap_idem by lia.
      * by rewrite !Z.add_0_r.
    + destruct (String.eqb_spec (stat_StepName s) name) as [<-|Nn]; cbn.
      * rewrite (proj2 (String.eqb_neq _ _) (not_eq_sym N)). by rewrite !Z.add_0_r.
      * apply IH.
Qed.

Lemma add_all_stat (l : list NodeStepDuration) (name : string)
    (stats : list RollingUpgradeStatistics) :
  let mine := filter (fun nsd => nsd_StepName nsd = name) l in
  int64 (stat_of name (add_all l stats)).1 =
    int64 ((stat_of name stats).1 + total_duration mine) /\
  int32 (stat_of name (add_all l stats)).2 = int32 ((stat_of name stats).2 + zlen mine).
Proof.
  revert stats. induction l as [|a l IH]; intros stats.
  - cbn. unfold zlen. cbn. by rewrite !Z.add_0_r.
  - cbn [add_all foldl]. fold (add_all l (AddNodeStepDuration a stats)).
    destruct (IH (AddNodeStepDuration a stats)) as [H1 H2]. cbv zeta in *.
    rewrite H1, H2. destruct (AddNodeStepDuration_stat a name stats) as [G1 G2].
    rewrite <- (wrap_add_l 64) by lia. fold int64. fold (int64 (stat_of name (AddNodeStepDuration a stats)).1).
    rewrite <- (wrap_add_l 32) by lia. fold (int32 (stat_of name (AddNodeStepDuration a stats)).2).
    rewrite G1, G2. unfold int64, int32. rewrite !wrap_add_l by lia.
    rewrite filter_cons. destruct (String.eqb_spec (nsd_StepName a) name) as [E|N].
    + rewrite decide_True by done. unfold total_duration, zlen. cbn.
      split; f_equal; lia.
    + rewrite decide_False by done. by rewrite !Z.add_0_r.
Qed.

(** *** Steps of one node *)
Section step_lemmas.
Context {UC : UnicodeCase}.

Lemma recorded_add (steps : gmap string (list NodeStepDuration)) (node : string)
    (nsd : NodeStepDuration) :
  default [] (addNodeStepDuration steps node nsd !! node) = default [] (steps !! node) ++ [nsd].
Proof.
  unfold addNodeStepDuration. destruct (steps !! node); by rewrite lookup_insert_eq.
Qed.

Lemma addNodeStepDuration_ne (steps : gmap string (list NodeStepDuration)) (node other : string)
    (nsd : NodeStepDuration) :
  node <> other -> addNodeStepDuration steps node nsd !! other = steps !! other.
Proof.
  intros N. unfold addNodeStepDuration. destruct (steps !! node); by rewrite lookup_insert_ne.
Qed.

Lemma total_duration_app (l l' : list NodeStepDuration) :
  total_duration (l ++ l') = (total_duration l + total_duration l')%Z.
Proof. unfold total_duration. induction l as [|x l IH]; cbn; [done|]. rewrite IH. lia. Qed.

(** Only the entries of the node change. *)
Lemma DoNodeStep_other (t1 t2 : Time) (g node other step : string) (t : Time) (s : StepState) :
  node <> other ->
  ss_inProcessing (DoNodeStep t1 t2 g node step t s) !! other = ss_inProcessing s !! other /\
  ss_nodeSteps (DoNodeStep t1 t2 g node step t s) !! other = ss_nodeSteps s !! other.
Proof.
  intros N. unfold DoNodeStep, ToStepDuration.
  repeat case_match; simplify_eq; cbn;
    rewrite ?addNodeStepDuration_ne, ?lookup_insert_ne, ?lookup_delete_ne by done; done.
Qed.

(** A step that is not the completing one, for a node in processing: the time
    recorded is the time the current step's start moved, and orders never go
    back. *)
Lemma DoNodeStep_telescope (base : Time) (t1 t2 : Time) (g node step : string) (t : Time) (s : StepState)
    (n : NodeInProcessing) :
  step <> NodeRotationCompleted -> near base t -> near base (nip_StepStartTime n) ->
  ss_inProcessing s !! node = Some n ->
  exists n', ss_inProcessing (DoNodeStep t1 t2 g node step t s) !! node = Some n' /\
    (total_duration (recorded node (DoNodeStep t1 t2 g node step t s))
     = total_duration (recorded node s) + (nip_StepStartTime n' - nip_StepStartTime n))%Z /\
    near base (nip_StepStartTime n') /\
    nip_UpgradeStartTime n' = nip_UpgradeStartTime n /\
    (step_order (nip_StepName n) <= step_order (nip_StepName n'))%Z.
Proof.
  intros Hs Ht Hn Hin. unfold DoNodeStep. rewrite Hin. cbn [nip_StepName nip_StepEndTime].
  rewrite (proj2 (String.eqb_neq _ _) Hs). cbn [nip_StepStartTime].
  destruct (negb _ && _) eqn:E; cbn [ToStepDuration ss_inProcessing].
  - zbool. eexists. rewrite lookup_insert_eq. split; [done|].
    unfold recorded; cbn [ss_nodeSteps]. rewrite recorded_add.
    rewrite total_duration_app. cbn.
    rewrite TimeSub_exact by (unfold near, in_int64, max_int64, min_int64 in *; lia).
    repeat split; unfold near in *; lia.
  - eexists. rewrite lookup_insert_eq. split; [done|]. unfold recorded. cbn.
    repeat split; unfold near in *; lia.
Qed.

Lemma run_steps_telescope (base : Time) (g node : string) (evs : list (string * Time)) (s : StepState)
    (n : NodeInProcessing) :
  Forall (fun ev => ev.1 <> NodeRotationCompleted /\ near base ev.2) evs ->
  near base (nip_StepStartTime n) -> ss_inProcessing s !! node = Some n ->
  exists n', ss_inProcessing (run_steps g node evs s) !! node = Some n' /\
    (total_duration (recorded node (run_steps g node evs s))
     = total_duration (recorded node s) + (nip_StepStartTime n' - nip_StepStartTime n))%Z /\
    near base (nip_StepStartTime n') /\
    nip_UpgradeStartTime n' = nip_UpgradeStartTime n /\
    (step_order (nip_StepName n) <= step_order (nip_StepName n'))%Z.
Proof.
  revert s n. induction evs as [|[step t] evs IH]; intros s n HF Hn Hin.
  - exists n. cbn. repeat split; unfold near in *; try done; lia.
  - change (run_steps g node ((step, t) :: evs) s)
      with (run_steps g node evs (DoNodeStep t t g node step t s)).
    inversion_clear HF as [|? ? [Hs Ht] HF']. cbn in Hs, Ht.
    destruct (DoNodeStep_telescope base t t g node step t s n Hs Ht Hn Hin)
      as (n1 & H1 & D1 & N1 & U1 & O1).
    destruct (IH _ n1 HF' N1 H1) as (n2 & H2 & D2 & N2 & U2 & O2).
    exists n2. split; [done|]. split; [lia|]. split; [done|]. split; [congruence|lia].
Qed.
End step_lemmas.

(** ** Theorems *)
Section theorems.
Context {UC : UnicodeCase}.

(** C33: the statistics of a node add up.  Take a node that is in
    processing, turn it onto any sequence of steps and then onto completed, all at times within 292
    years of each other: the durations recorded for the single steps, from the start of its current
    step on, sum to the time of completion minus that start, the total recorded
    last is the time of completion minus the start of the node's upgrade, so the total is
    the sum plus the time between the two starts (0 for a node whose current step began with its
    upgrade), and the node leaves the in-processing map. *)
Theorem steps_add_up (base : Time) (g node : string) (evs : list (string * Time)) (tend : Time)
    (s : StepState) (n : NodeInProcessing) :
  Forall (fun ev => ev.1 <> NodeRotationCompleted /\ near base ev.2) evs ->
  near base (nip_StepStartTime n) -> near base (nip_UpgradeStartTime n) -> near base tend ->
  ss_inProcessing s !! node = Some n -> ss_nodeSteps s !! node = None ->
  let s' := run_steps g node (evs ++ [(NodeRotationCompleted, tend)]) s in
  exists single total, recorded node s' = single ++ [total] /\
    total_duration single = (tend - nip_StepStartTime n)%Z /\
    nsd_StepName total = NodeRotationTotal /\
    nsd_Duration total = (tend - nip_UpgradeStartTime n)%Z /\
    (nsd_Duration total = total_duration single + (nip_StepStartTime n - nip_UpgradeStartTime n))%Z /\
    ss_inProcessing s' !! node = None.
Proof.
  intros HF Hn Hu Ht Hin Hrec s'. subst s'. unfold run_steps. rewrite foldl_app.
  fold (run_steps g node evs s).
  destruct (run_steps_telescope base g node evs s n HF Hn Hin) as (n' & H' & D' & N' & U' & _).
  assert (recorded node s = []) as R0 by (unfold recorded; by rewrite Hrec).
  rewrite R0 in D'. cbn [foldl fst snd]. unfold DoNodeStep. rewrite H'.
  cbn [nip_StepName nip_StepEndTime nip_StepStartTime nip_UpgradeStartTime].
  rewrite String.eqb_refl. cbn [ToStepDuration]. unfold recorded at 1. cbn [ss_nodeSteps].
  rewrite !recorded_add. fold (recorded node (run_steps g node evs s)).
  eexists _, _. split; [done|]. cbn [nsd_Duration nsd_StepName ss_inProcessing].
  rewrite total_duration_app, D'. cbn. rewrite lookup_delete_eq, U'.
  rewrite !TimeSub_exact by (unfold near, in_int64, max_int64, min_int64 in *; lia).
  repeat split; lia.
Qed.

(** Adding the durations of a batch to the
    statistics keeps one entry per step, adds to every step's sum (modulo
    int64) and count (modulo int32) exactly the durations of that step, and does
    not depend on the order in which Go ranges over the nodes, except for the order
    of new entries. *)
Theorem UpdateStatistics_spec (vs vs' : list (list NodeStepDuration))
    (stats : list RollingUpgradeStatistics) (name : string) :
  stats_unique stats -> vs' ≡ₚ vs ->
  let mine := filter (fun nsd => nsd_StepName nsd = name) (concat vs) in
  stats_unique (UpdateStatistics vs stats) /\
  UpdateStatistics vs' stats ≡ₚ UpdateStatistics vs stats /\
  int64 (stat_of name (UpdateStatistics vs stats)).1
    = int64 ((stat_of name stats).1 + total_duration mine) /\
  int32 (stat_of name (UpdateStatistics vs stats)).2
    = int32 ((stat_of name stats).2 + zlen mine).
Proof.
  intros U HP mine. rewrite !UpdateStatistics_concat. split; [by apply add_all_unique|].
  split; [|apply add_all_stat]. apply add_all_perm; [|done]. by rewrite HP.
Qed.
End theorems.

(** At a time in the year 2025. *)
Lemma steps_add_up_witness :
  let start := (63871000000 * Second)%Z in
  let at_ n := (start + n * Second)%Z in
  exists single total,
    recorded "n" (run_steps (UC := fun r => r) "g" "n"
      [(NodeRotationDrain, at_ 25%Z); (NodeRotationTerminate, at_ 40%Z); (NodeRotationCompleted, at_ 47%Z)]
      (mkStepState {["n" := mkNodeInProcessing "n" NodeRotationKickoff (at_ 10%Z) (at_ 10%Z) 0]} ∅
         empty_metrics)) = single ++ [total] /\
    total_duration single = (37 * Second)%Z /\ nsd_Duration total = (37 * Second)%Z.
Proof.
  intros start at_.
  destruct (steps_add_up (UC := fun r => r) start "g" "n"
    [(NodeRotationDrain, at_ 25%Z); (NodeRotationTerminate, at_ 40%Z)] (at_ 47%Z)
    (mkStepState {["n" := mkNodeInProcessing "n" NodeRotationKickoff (at_ 10%Z) (at_ 10%Z) 0]} ∅ empty_metrics)
    (mkNodeInProcessing "n" NodeRotationKickoff (at_ 10%Z) (at_ 10%Z) 0)) as (single & total & H1 & H2 & _ & H3 & _).
  - repeat constructor; cbn; try done; unfold near, max_int64, at_, start, Second; lia.
  - unfold near, max_int64, at_, start, Second; cbn; lia.
  - unfold near, max_int64, at_, start, Second; cbn; lia.
  - unfold near, max_int64, at_, start, Second; lia.
  - reflexivity.
  - reflexivity.
  - exists single, total. split; [exact H1|]. split; [exact H2|exact H3].
Defined.

Lemma UpdateStatistics_spec_witness :
  let d x := mkNodeStepDuration "g" "n" NodeRotationDrain x in
  UpdateStatistics [[d 5%Z]; [d 7%Z]] [] ≡ₚ UpdateStatistics [[d 7%Z]; [d 5%Z]] [] /\
  (stat_of NodeRotationDrain (UpdateStatistics [[d 7%Z]; [d 5%Z]] [])) = (12, 2)%Z.
Proof.
  intros d. split; [|reflexivity].
  apply (UpdateStatistics_spec [[d 7%Z]; [d 5%Z]] [[d 5%Z]; [d 7%Z]] [] NodeRotationDrain).
  - apply NoDup_nil_2.
  - apply perm_swap.
Defined.
