(* ===== verification/Drift.v ===== *)
(** * Drift, progress and readiness: the observing methods of RollingUpgradeContext
      (controllers/upgrade.go)

    [IsInstanceDrifted] decides from the discovered state alone, so it is a
    function of the resource, the discovered state and the cluster's nodes; the
    methods that also write the status run in the state monad. *)
From S2P Require Import Prelude GoStrings GoTime Common Types AwsProvider KubeProvider Metrics Env SampleEnv.
From S2P Require Import AwsClient KubeClient Cloud.

Definition LaunchTemplateVersionLatest : string := "$Latest".

Section drift.
Context {UC : UnicodeCase}.

(** The comparison of two launch template specifications, which the source
    writes out twice (for a launch template and for a mixed instances policy). *)
Definition template_drifted (templates : list LaunchTemplate) (group inst : LaunchTemplateSpecification)
  : bool :=
  let launchTemplateName := StringValue (lts_LaunchTemplateName group) in
  let instanceTemplateName := StringValue (lts_LaunchTemplateName inst) in
  let instanceTemplateVersion := StringValue (lts_Version inst) in
  let templateVersion := StringValue (lts_Version group) in
  let templateVersion :=
    if EqualFold templateVersion LaunchTemplateVersionLatest
    then GetTemplateLatestVersion templates launchTemplateName
    else templateVersion in
  if negb (EqualFold launchTemplateName instanceTemplateName) then true
  else if negb (EqualFold instanceTemplateVersion templateVersion) then true
  else false.

(** The checks after the forced-refresh check. *)
Definition config_drifted (templates : list LaunchTemplate) (scalingGroup : Group)
  (instance : Instance_) : outcome bool :=
  match asg_LaunchConfigurationName scalingGroup with
  | Some launchConfigName =>
      match inst_LaunchConfigurationName instance with
      | None => Val true
      | Some instanceConfigName => Val (negb (EqualFold launchConfigName instanceConfigName))
      end
  | None =>
      match asg_LaunchTemplate scalingGroup with
      | Some spec =>
          match inst_LaunchTemplate instance with
          | None => Val true
          | Some inst => Val (template_drifted templates spec inst)
          end
      | None =>
          match asg_MixedInstancesPolicy scalingGroup with
          | Some mip =>
              match inst_LaunchTemplate instance with
              | None => Val true
              | Some inst =>
                  template ← deref (mip_LaunchTemplate mip);
                  spec ← deref template;
                  Val (template_drifted templates spec inst)
              end
          | None => Val false
          end
      end
  end.

Definition IsInstanceDrifted (ru : RollingUpgrade) (cloud : DiscoveredState) (nodes : list Node)
  (instance : Instance_) : outcome bool :=
  let scalingGroup := SelectScalingGroup (ScalingGroupName ru) (ScalingGroups cloud) in
  let instanceID := StringValue (inst_InstanceId instance) in
  if ContainsEqualFold TerminatingInstanceStates (StringValue (inst_LifecycleState instance))
  then Val false
  else if IsForceRefresh ru then
    match SelectNodeByInstanceID id instanceID nodes with
    | None => Val false
    | Some node =>
        if Before (node_CreationTimestamp node) (ru_CreationTimestamp ru) then Val true
        else config_drifted (LaunchTemplates cloud) scalingGroup instance
    end
  else config_drifted (LaunchTemplates cloud) scalingGroup instance.

(** The counting loop of [IsScalingGroupDrifted]. *)
Fixpoint count_drifted (ru : RollingUpgrade) (cloud : DiscoveredState) (nodes : list Node)
  (instances : list Instance_) (driftCount : Z) : outcome Z :=
  match instances with
  | [] => Val driftCount
  | instance :: instances' =>
      drifted ← IsInstanceDrifted ru cloud nodes instance;
      count_drifted ru cloud nodes instances' (if (drifted : bool) then driftCount + 1 else driftCount)%Z
  end.
End drift.

(** The percentage [SetProgress] reports, computed in floating point. *)
Definition complete_percentage (nodesProcessed totalNodes : Z) : Z :=
  round_half_away (fmul (fdiv (float64 nodesProcessed) (float64 totalNodes)) (float64 100)).

Section methods.
Context `{E : Env}.

(** The scaling group of the resource. *)
Definition scaling_group (s : St) : Group :=
  SelectScalingGroup (ScalingGroupName (s_ru s)) (ScalingGroups (s_cloud s)).

Definition instance_drifted (instance : Instance_) : M St bool :=
  s ← get; lift (IsInstanceDrifted (s_ru s) (s_cloud s) (cluster_nodes s) instance).

Definition SetProgress (nodesProcessed totalNodes : Z) : M St unit :=
  if (0 <? totalNodes)%Z && (0 <=? nodesProcessed)%Z then
    upd_ru (SetTotalNodes totalNodes) ;;;
    upd_ru (SetNodesProcessed nodesProcessed) ;;;
    upd_ru (SetCompletePercentage (complete_percentage nodesProcessed totalNodes)) ;;;
    s ← get;
    upd_metrics (SetTotalNodesMetric (ScalingGroupName (s_ru s)) totalNodes) ;;;
    upd_metrics (SetNodesProcessedMetric (ScalingGroupName (s_ru s)) nodesProcessed)
  else mret tt.

Definition IsScalingGroupDrifted : M St bool :=
  s ← get;
  let scalingGroup := scaling_group s in
  let desiredCapacity := Int64Value (asg_DesiredCapacity scalingGroup) in
  driftCount ← lift (count_drifted (s_ru s) (s_cloud s) (cluster_nodes s)
                       (asg_Instances scalingGroup) 0);
  if negb (driftCount =? 0)%Z then
    SetProgress (desiredCapacity - driftCount) desiredCapacity ;;;
    mret true
  else
    SetProgress desiredCapacity desiredCapacity ;;;
    mret false.

(** The test of the counting loop of [DesiredNodesReady]. *)
Definition node_counts (inServiceInstanceIDs : list string) (gates : list (gmap string string))
  (node : Node) : bool :=
  ContainsEqualFold inServiceInstanceIDs (GetNodeInstanceID (Some node))
  && IsNodeReady node && IsNodePassesReadinessGates node gates.

Definition DesiredNodesReady : M St bool :=
  s ← get;
  let scalingGroup := scaling_group s in
  let desiredInstances := Int64Value (asg_DesiredCapacity scalingGroup) in
  let inServiceInstanceIDs := GetInServiceInstanceIDs (asg_Instances scalingGroup) in
  if negb (zlen inServiceInstanceIDs =? desiredInstances)%Z then mret false
  else
    '(listed, err) ← ListClusterNodes;
    s ← get;
    let currentClusterNodes := match err with Some _ => cluster_nodes s | None => listed end in
    let readyNodes := zlen (List.filter (node_counts inServiceInstanceIDs
                              (spec_ReadinessGates (ru_Spec (s_ru s)))) currentClusterNodes) in
    if negb (readyNodes =? desiredInstances)%Z then mret false else mret true.

Definition endTimeUpdate : M St unit :=
  now ← Now;
  upd_ru (SetEndTime (FormatRFC3339 now)) ;;;
  s ← get;
  match ParseRFC3339 (StartTime (s_ru s)), ParseRFC3339 (EndTime (s_ru s)) with
  | Some startTime, Some endTime =>
      let totalProcessingTime := TimeSub endTime startTime in
      upd_ru (SetTotalProcessingTime (DurationString totalProcessingTime)) ;;;
      upd_metrics (TotalProcessingTime (ScalingGroupName (s_ru s)) totalProcessingTime)
  | _, _ => mret tt
  end.
End methods.

(** ** Specification *)

(** The version an instance is compared with: [$Latest] (in any letter case)
    stands for the latest version number the template has, 0 if it is unknown. *)
Definition resolved_version {UC : UnicodeCase} (templates : list LaunchTemplate)
  (spec : LaunchTemplateSpecification) : string :=
  if EqualFold (StringValue (lts_Version spec)) LaunchTemplateVersionLatest
  then GetTemplateLatestVersion templates (StringValue (lts_LaunchTemplateName spec))
  else StringValue (lts_Version spec).

(** Where a group keeps its launch template: in the group itself, or in its
    mixed instances policy. *)
Definition group_template (g : Group) : option LaunchTemplateSpecification :=
  match asg_LaunchTemplate g with
  | Some spec => Some spec
  | None => mip ← asg_MixedInstancesPolicy g; template ← mip_LaunchTemplate mip; template
  end.

(** A mixed instances policy names its launch template: AWS requires it, and the
    code dereferences it without a check. *)
Definition policy_complete (g : Group) : Prop :=
  match asg_MixedInstancesPolicy g with
  | Some mip => exists spec, mip_LaunchTemplate mip = Some (Some spec)
  | None => True
  end.

(** The instance runs what its group asks for: the launch configuration if the
    group has one, else the launch template, at the version asked for. *)
Definition runs_configuration {UC : UnicodeCase} (templates : list LaunchTemplate) (g : Group)
  (i : Instance_) : Prop :=
  match asg_LaunchConfigurationName g with
  | Some lc => exists lc', inst_LaunchConfigurationName i = Some lc' /\ EqualFold lc lc' = true
  | None =>
      match group_template g with
      | Some spec => exists spec', inst_LaunchTemplate i = Some spec' /\
          EqualFold (StringValue (lts_LaunchTemplateName spec))
            (StringValue (lts_LaunchTemplateName spec')) = true /\
          EqualFold (StringValue (lts_Version spec')) (resolved_version templates spec) = true
      | None => True
      end
  end.

(** A forced refresh leaves an instance without a node alone, and replaces every
    node older than the resource. *)
Definition spared {UC : UnicodeCase} (ru : RollingUpgrade) (nodes : list Node) (i : Instance_) : Prop :=
  is_terminating i = true \/
  (IsForceRefresh ru = true /\ SelectNodeByInstanceID id (instance_id i) nodes = None).

Definition outdated_node {UC : UnicodeCase} (ru : RollingUpgrade) (nodes : list Node) (i : Instance_)
  : Prop :=
  IsForceRefresh ru = true /\
  exists n, SelectNodeByInstanceID id (instance_id i) nodes = Some n /\
    (node_CreationTimestamp n < ru_CreationTimestamp ru)%Z.

(** The nodes [DesiredNodesReady] looks at: a fresh list, or the cache when that fails. *)
Definition seen_nodes `{E : Env} (s : St) : list Node :=
  match ListClusterNodes s with
  | (Val (listed, None), _) => listed
  | _ => cluster_nodes s
  end.

(** The drifted instances of a list. *)
Definition is_drifted {UC : UnicodeCase} (ru : RollingUpgrade) (cloud : DiscoveredState)
  (nodes : list Node) (i : Instance_) : bool :=
  match IsInstanceDrifted ru cloud nodes i with Val b => b | Panic => false end.

(** The status after [SetProgress processed total]. *)
Definition with_progress (processed total : Z) (st : RollingUpgradeStatus) : RollingUpgradeStatus :=
  if (0 <? total)%Z && (0 <=? processed)%Z then
    with_CompletePercentage (Itoa (complete_percentage processed total) +:+ "%")
      (with_NodesProcessed processed (with_TotalNodes total st))
  else st.

(** The bounded check behind [complete_percentage_nearest]. *)
Definition percentage_ok (n t : Z) : bool :=
  (2 * Z.abs (100 * n - complete_percentage n t * t) <=? t)%Z.

Definition percentages_ok (bound : nat) : bool :=
  forallb (fun t => forallb (fun n => percentage_ok (Z.of_nat n) (Z.of_nat t)) (seq 0 (S t)))
    (seq 1 bound).

(** ** Lemmas *)
Section drift_lemmas.
Context {UC : UnicodeCase}.

Lemma template_drifted_spec (templates : list LaunchTemplate)
    (g i : LaunchTemplateSpecification) :
  template_drifted templates g i = false <->
  EqualFold (StringValue (lts_LaunchTemplateName g)) (StringValue (lts_LaunchTemplateName i)) = true
  /\ EqualFold (StringValue (lts_Version i)) (resolved_version templates g) = true.
Proof.
  unfold template_drifted, resolved_version.
  destruct (EqualFold (StringValue (lts_LaunchTemplateName g)) _); cbn; [|naive_solver].
  destruct (EqualFold (StringValue (lts_Version i)) _); cbn; naive_solver.
Qed.

Lemma config_drifted_spec (templates : list LaunchTemplate) (g : Group) (i : Instance_) :
  policy_complete g ->
  exists b, config_drifted templates g i = Val b /\
    (b = false <-> runs_configuration templates g i).
Proof.
  intros HP. unfold config_drifted, runs_configuration, group_template.
  destruct (asg_LaunchConfigurationName g) as [lc|].
  - destruct (inst_LaunchConfigurationName i) as [lc'|].
    + eexists. split; [done|]. rewrite negb_false_iff. naive_solver.
    + exists true. split; [done|]. naive_solver.
  - destruct (asg_LaunchTemplate g) as [spec|].
    + destruct (inst_LaunchTemplate i) as [sp|]; [|exists true; naive_solver].
      eexists. split; [done|]. rewrite template_drifted_spec. naive_solver.
    + unfold policy_complete in HP.
      destruct (asg_MixedInstancesPolicy g) as [mip|]; [|by exists false].
      destruct HP as [spec E]. cbn. rewrite E.
      destruct (inst_LaunchTemplate i) as [sp|]; [|exists true; naive_solver].
      eexists. split; [done|]. rewrite template_drifted_spec. naive_solver.
Qed.

Lemma IsInstanceDrifted_ok (ru : RollingUpgrade) (cloud : DiscoveredState) (nodes : list Node)
    (i : Instance_) :
  policy_complete (SelectScalingGroup (ScalingGroupName ru) (ScalingGroups cloud)) ->
  exists b, IsInstanceDrifted ru cloud nodes i = Val b.
Proof.
  intros HP. destruct (config_drifted_spec (LaunchTemplates cloud) _ i HP) as (b & E & _).
  unfold IsInstanceDrifted. repeat case_match; eauto.
Qed.

(** The counting loop is a filter. *)
Lemma count_drifted_spec (ru : RollingUpgrade) (cloud : DiscoveredState) (nodes : list Node)
    (l : list Instance_) (c : Z) :
  policy_complete (SelectScalingGroup (ScalingGroupName ru) (ScalingGroups cloud)) ->
  count_drifted ru cloud nodes l c
  = Val (c + zlen (List.filter (is_drifted ru cloud nodes) l))%Z.
Proof.
  intros HP. revert c. induction l as [|i l IH]; intros c.
  - cbn. unfold zlen. cbn. by rewrite Z.add_0_r.
  - destruct (IsInstanceDrifted_ok ru cloud nodes i HP) as [b E].
    cbn [count_drifted List.filter]. unfold is_drifted at 1. rewrite E. cbn.
    rewrite IH. unfold zlen. destruct b; cbn [length]; f_equal; lia.
Qed.
End drift_lemmas.

Section method_lemmas.
Context `{E : Env}.

Lemma SetProgress_emits P (a b : Z) : preserves (emits P) (SetProgress a b).
Proof. unfold SetProgress. frame. Qed.

Lemma IsScalingGroupDrifted_emits P : preserves (emits P) IsScalingGroupDrifted.
Proof. unfold IsScalingGroupDrifted. frame; apply SetProgress_emits. Qed.

Lemma DesiredNodesReady_emits P : P CallNodesList -> preserves (emits P) DesiredNodesReady.
Proof. intros H. unfold DesiredNodesReady. frame. Qed.

Lemma endTimeUpdate_emits P : preserves (emits P) endTimeUpdate.
Proof. unfold endTimeUpdate, Now. frame. Qed.
End method_lemmas.

#[export] Hint Resolve SetProgress_emits IsScalingGroupDrifted_emits DesiredNodesReady_emits
  endTimeUpdate_emits : frame.

(** *** Progress *)
Section progress.
Context `{E : Env}.

Lemma SetProgress_run (a b : Z) (s : St) :
  exists m, SetProgress a b s = (Val tt, set_metrics m (set_ru (with_Status (with_progress a b) (s_ru s)) s)).
Proof.
  unfold SetProgress, with_progress. destruct (_ && _).
  - eexists. reflexivity.
  - exists (s_metrics s). by destruct s as [? ? ? ? [] ? ? ? ? ?].
Qed.
End progress.

Lemma percentages_ok_spec (bound : nat) (n t : Z) :
  percentages_ok bound = true -> (0 <= n <= t)%Z -> (1 <= t <= Z.of_nat bound)%Z ->
  (2 * Z.abs (100 * n - complete_percentage n t * t) <= t)%Z.
Proof.
  unfold percentages_ok. intros H Hn Ht.
  rewrite forallb_forall in H. specialize (H (Z.to_nat t)).
  rewrite in_seq in H. specialize (H ltac:(lia)). rewrite forallb_forall in H.
  specialize (H (Z.to_nat n)). rewrite in_seq in H. specialize (H ltac:(lia)).
  rewrite !Z2Nat.id in H by lia. by apply Z.leb_le.
Qed.

Lemma percentages_ok_100 : percentages_ok 100 = true.
Proof. vm_compute. reflexivity. Qed.

(** ** Theorems *)

(** C21: for a group whose mixed instances policy (if
    any) names its template, the drift decision of an instance returns, and it is
    negative exactly when the instance is terminating, or has no node while a
    forced refresh is asked for, or when its node is not older than a forced
    refresh and it runs the launch configuration or the launch template (in the
    version asked for, [$Latest] resolved) of its group. *)
Theorem IsInstanceDrifted_spec {UC : UnicodeCase} (ru : RollingUpgrade) (cloud : DiscoveredState)
    (nodes : list Node) (i : Instance_) :
  let g := SelectScalingGroup (ScalingGroupName ru) (ScalingGroups cloud) in
  policy_complete g ->
  exists b, IsInstanceDrifted ru cloud nodes i = Val b /\
    (b = false <->
     spared ru nodes i \/
     (~ outdated_node ru nodes i /\ runs_configuration (LaunchTemplates cloud) g i)).
Proof.
  intros g HP. destruct (config_drifted_spec (LaunchTemplates cloud) g i HP) as (b & E & Hb).
  unfold IsInstanceDrifted, spared, outdated_node, is_terminating. fold g. fold (instance_id i).
  destruct (ContainsEqualFold TerminatingInstanceStates _).
  { exists false. naive_solver. }
  destruct (IsForceRefresh ru).
  - destruct (SelectNodeByInstanceID id (instance_id i) nodes) as [n|].
    + unfold Before. destruct (Z.ltb_spec (node_CreationTimestamp n) (ru_CreationTimestamp ru)).
      * exists true. split; [done|]. naive_solver.
      * exists b. split; [done|]. rewrite Hb. naive_solver lia.
    + exists false. naive_solver.
  - exists b. split; [done|]. rewrite Hb. naive_solver.
Qed.

Section theorems.
Context `{E : Env}.

(** A run of [IsScalingGroupDrifted]. *)
Lemma IsScalingGroupDrifted_run (s : St) :
  policy_complete (scaling_group s) ->
  let drifted := List.filter (is_drifted (s_ru s) (s_cloud s) (cluster_nodes s))
                   (asg_Instances (scaling_group s)) in
  let desired := Int64Value (asg_DesiredCapacity (scaling_group s)) in
  exists m, IsScalingGroupDrifted s =
    (Val (negb (Nat.eqb (length drifted) 0)),
     set_metrics m (set_ru (with_Status (with_progress (desired - zlen drifted) desired) (s_ru s)) s)).
Proof.
  intros HP drifted desired. unfold IsScalingGroupDrifted.
  rewrite (bind_val _ _ s s s) by done.
  rewrite (bind_val _ _ s s (0 + zlen drifted)%Z)
    by (unfold lift; by rewrite count_drifted_spec by done).
  rewrite Z.add_0_l. unfold zlen at 1 2. fold desired.
  destruct (length drifted) as [|k] eqn:L.
  - change (negb (Z.of_nat 0 =? 0)%Z) with false. cbn [Nat.eqb negb].
    destruct (SetProgress_run desired desired s) as [m Hm]. exists m.
    rewrite (bind_val _ _ _ _ _ Hm). unfold zlen. rewrite L.
    by replace (desired - Z.of_nat 0)%Z with desired by lia.
  - rewrite (proj2 (Z.eqb_neq (Z.of_nat (S k)) 0)) by lia. cbn [negb Nat.eqb].
    destruct (SetProgress_run (desired - Z.of_nat (S k)) desired s) as [m Hm]. exists m.
    rewrite (bind_val _ _ _ _ _ Hm). unfold zlen. by rewrite L.
Qed.

(** [IsScalingGroupDrifted] answers true
    exactly when some instance of the group is drifted; in both cases it makes no
    outside call and changes nothing but the metrics and the progress in the status, which
    is desired capacity minus drifted instances out of the desired capacity (left
    as it was when that is negative or the group is scaled to zero). *)
Theorem IsScalingGroupDrifted_spec (s : St) :
  policy_complete (scaling_group s) ->
  let drifted := List.filter (is_drifted (s_ru s) (s_cloud s) (cluster_nodes s))
                   (asg_Instances (scaling_group s)) in
  let desired := Int64Value (asg_DesiredCapacity (scaling_group s)) in
  exists m, IsScalingGroupDrifted s =
    (Val (negb (Nat.eqb (length drifted) 0)),
     set_metrics m (set_ru (with_Status (with_progress (desired - zlen drifted) desired) (s_ru s)) s)).
Proof. exact (IsScalingGroupDrifted_run s). Qed.

(** The counted nodes, as [DesiredNodesReady] sees the cluster after the list
    request of state [s]. *)
Lemma DesiredNodesReady_true (s s' : St) :
  DesiredNodesReady s = (Val true, s') ->
  exists listed err s1, ListClusterNodes s = (Val (listed, err), s1) /\ s' = s1 /\
    let inService := GetInServiceInstanceIDs (asg_Instances (scaling_group s)) in
    let nodes := match err with Some _ => cluster_nodes s1 | None => listed end in
    zlen inService = Int64Value (asg_DesiredCapacity (scaling_group s)) /\
    length (List.filter (node_counts inService (spec_ReadinessGates (ru_Spec (s_ru s1)))) nodes)
      = length inService.
Proof.
  unfold DesiredNodesReady. rewrite (bind_val _ _ s s s) by done.
  destruct (Z.eqb_spec (zlen (GetInServiceInstanceIDs (asg_Instances (scaling_group s))))
              (Int64Value (asg_DesiredCapacity (scaling_group s)))) as [Ei|]; [|done].
  cbn [negb]. intros H. apply bind_inv in H as ([listed err] & s1 & Hl & H).
  rewrite (bind_val _ _ s1 s1 s1) in H by done.
  destruct (zlen (List.filter _ _) =? _)%Z eqn:Er in H; [|done]. zbool.
  cbn in H. injection H as <-. exists listed, err, s1. split; [done|]. split; [done|].
  split; [done|]. unfold zlen in *. lia.
Qed.

(** C22: when [DesiredNodesReady] lets an eager batch go
    on, and the nodes it looked at (those the API server lists or, when the list request fails, the cached
    ones) have pairwise different instance ids, then the group has as many InService
    instances as it desires and every one of them has, among these nodes, a ready node that passes the
    readiness gates: no drain starts while a replacement is missing. *)
Theorem DesiredNodesReady_all (s s' : St) :
  DesiredNodesReady s = (Val true, s') ->
  NoDup (map (fun n => fold_string (GetNodeInstanceID (Some n))) (seen_nodes s)) ->
  let inService := GetInServiceInstanceIDs (asg_Instances (scaling_group s)) in
  zlen inService = Int64Value (asg_DesiredCapacity (scaling_group s)) /\
  forall id, id ∈ inService -> exists n, n ∈ seen_nodes s /\
    EqualFold id (GetNodeInstanceID (Some n)) = true /\ IsNodeReady n = true /\
    IsNodePassesReadinessGates n (spec_ReadinessGates (ru_Spec (s_ru s))) = true.
Proof.
  intros H ND inService.
  apply DesiredNodesReady_true in H as (listed & err & s1 & Hl & -> & Hd & Hc).
  assert (same_memory s s1) as HM.
  { assert (preserves same_memory ListClusterNodes) as HP by (unfold ListClusterNodes; frame).
    specialize (HP s). by rewrite Hl in HP. }
  assert (match err with Some _ => cluster_nodes s1 | None => listed end = seen_nodes s) as Hn.
  { unfold seen_nodes, cluster_nodes. rewrite Hl, (sm_nodes _ _ HM), (sm_cloud _ _ HM). by destruct err. }
  rewrite Hn, (sm_ru _ _ HM) in Hc. split; [done|]. fold inService in Hc.
  clear Hn. revert ND Hc. generalize (seen_nodes s). intros nodes ND Hc.
  set (gates := spec_ReadinessGates (ru_Spec (s_ru s))) in *.
  set (key := fun n => fold_string (GetNodeInstanceID (Some n))) in *.
  set (counted := List.filter (node_counts inService gates) nodes) in *.
  assert (length counted = length inService) as Hlen by exact Hc.
  assert (incl (map fold_string inService) (map key counted)) as HI.
  { apply NoDup_length_incl.
    - apply NoDup_ListNoDup. clear -ND. unfold counted. induction nodes as [|n ns IH]; cbn; [done|].
      inversion_clear ND as [|? ? Hn ND']. destruct (node_counts _ _ n); cbn; [|by apply IH].
      constructor; [|by apply IH]. intros Hin. apply Hn.
      apply list_elem_of_In, in_map_iff in Hin as (x & Ex & Hx). apply filter_In in Hx as [Hx _].
      apply list_elem_of_In, in_map_iff. eauto.
    - rewrite !length_map. by rewrite Hlen.
    - intros k Hk. apply in_map_iff in Hk as (n & <- & Hn). apply filter_In in Hn as [_ Hn].
      unfold node_counts in Hn. zbool.
      apply ContainsEqualFold_spec in H as (id & Hid & Eid). apply in_map_iff. exists id.
      split; [by apply EqualFold_spec|by apply list_elem_of_In]. }
  intros id Hid. apply list_elem_of_In in Hid.
  destruct (proj1 (in_map_iff _ _ _) (HI _ (in_map fold_string _ _ Hid))) as (n & En & Hn).
  apply filter_In in Hn as [Hn Hc']. unfold node_counts in Hc'. zbool. exists n.
  split; [by apply list_elem_of_In|]. split; [by apply EqualFold_spec|done].
Qed.
End theorems.

(** The floating-point percentage of the
    status is an integer nearest to [100 * processed / total], for every group
    of at most 100 nodes. *)
Theorem complete_percentage_nearest (n t : Z) :
  (0 <= n <= t)%Z -> (1 <= t <= 100)%Z ->
  (2 * Z.abs (100 * n - complete_percentage n t * t) <= t)%Z.
Proof.
  intros Hn Ht. apply (percentages_ok_spec 100 n t percentages_ok_100); lia.
Qed.

(** ** Witnesses *)
Lemma IsInstanceDrifted_spec_witness :
  let ru := sample_upgrade sample_strategy in
  exists b, IsInstanceDrifted (UC := ascii_fold) ru (sample_cloud sample_scenario) sample_nodes
              (sample_instance "i-1" "az-1" "lc-2" "InService") = Val b /\ b = false.
Proof.
  intros ru.
  destruct (IsInstanceDrifted_spec (UC := ascii_fold) ru (sample_cloud sample_scenario) sample_nodes
    (sample_instance "i-1" "az-1" "lc-2" "InService") I) as (b & Hb & Hs).
  exists b. split; [exact Hb|]. apply Hs. right. split.
  - intros [Hf _]. discriminate Hf.
  - exists "lc-2". split; reflexivity.
Defined.

Lemma IsScalingGroupDrifted_spec_witness :
  exists m s', @IsScalingGroupDrifted (sample_env sample_scenario)
    (sample_state sample_scenario (sample_upgrade sample_strategy)) = (Val true, set_metrics m s') /\
    st_CompletePercentage (ru_Status (s_ru s')) = "0%".
Proof.
  destruct (@IsScalingGroupDrifted_spec (sample_env sample_scenario)
    (sample_state sample_scenario (sample_upgrade sample_strategy)) I) as (m & Hm).
  eexists m, _. split; [exact Hm|]. reflexivity.
Defined.

Lemma DesiredNodesReady_all_witness :
  exists n, n ∈ sc_nodes ready_scenario /\ EqualFold (UC := ascii_fold) "i-2" (GetNodeInstanceID (Some n)) = true /\
    IsNodeReady n = true.
Proof.
  set (s := sample_state ready_scenario (sample_upgrade sample_strategy)).
  destruct (@DesiredNodesReady_all (sample_env ready_scenario) s
    (@ListClusterNodes (sample_env ready_scenario) s).2)
    as (_ & H).
  - reflexivity.
  - apply (bool_decide_unpack _). vm_compute. exact I.
  - destruct (H "i-2") as (n & Hn & He & Hr & _).
    + apply (bool_decide_unpack _). vm_compute. exact I.
    + exists n. split; [exact Hn|]. split; [exact He|exact Hr].
Defined.

Lemma complete_percentage_nearest_witness :
  complete_percentage 2 3 = 67%Z /\ (2 * Z.abs (100 * 2 - complete_percentage 2 3 * 3) <= 3)%Z.
Proof.
  split; [reflexivity|]. apply (complete_percentage_nearest 2 3); lia.
Defined.
