(* ===== verification/Uniform.v ===== *)
(** * The round-robin over availability zones of [SelectTargets]
      (controllers/upgrade.go, strategy uniformAcrossAzUpdate)

    The targets are grouped by zone in a Go map; each pass of the loop ranges over
    the map, in an order the runtime picks anew, and moves the last target of
    every zone that has one left to the result. *)
From S2P Require Import Prelude GoStrings GoTime Common Types AwsProvider KubeProvider Metrics Env SampleEnv.

Definition az_of (i : Instance_) : string := StringValue (inst_AvailabilityZone i).

(** Reading the map: a missing zone reads as a nil slice. *)
Definition zone (m : gmap string (list Instance_)) (az : string) : list Instance_ :=
  default [] (m !! az).

Definition group_by_az (l : list Instance_) : gmap string (list Instance_) :=
  foldl (fun m target => <[az_of target := zone m (az_of target) ++ [target]]> m) ∅ l.

(** One [for az := range targetsByAZMap]: [last] is the element at
    [targetsByAZGroupSize-1], there is none when the size is 0. *)
Fixpoint az_pass (azs : list string) (targetsByAZMap : gmap string (list Instance_))
  (uniformAZTargets : list Instance_) : gmap string (list Instance_) * list Instance_ :=
  match azs with
  | [] => (targetsByAZMap, uniformAZTargets)
  | az :: azs' =>
      let group := zone targetsByAZMap az in
      match last group with
      | Some target =>
          az_pass azs' (<[az := take (length group - 1) group]> targetsByAZMap)
            (uniformAZTargets ++ [target])
      | None => az_pass azs' targetsByAZMap uniformAZTargets
      end
  end.

Section uniform.
Context `{E : Env}.

(** The unbounded [for]: [None] when the fuel runs out. *)
Fixpoint uniform_loop (fuel : nat) (size : nat) (targetsByAZMap : gmap string (list Instance_))
  (uniformAZTargets : list Instance_) : M St (option (list Instance_)) :=
  if Nat.eqb (length uniformAZTargets) size then mret (Some uniformAZTargets)
  else match fuel with
  | O => mret None
  | S fuel' =>
      entries ← range_map targetsByAZMap;
      let '(m, acc) := az_pass (map fst entries) targetsByAZMap uniformAZTargets in
      uniform_loop fuel' size m acc
  end.

(** As many passes as there are targets are enough ([uniform_targets_run]); a
    loop that needed more would not return, which the model would show as a panic. *)
Definition uniform_targets (unprocessed : list Instance_) : M St (list Instance_) :=
  r ← uniform_loop (length unprocessed) (length unprocessed) (group_by_az unprocessed) [];
  match r with Some l => mret l | None => lift Panic end.
End uniform.

(** ** Specification *)

(** How many of the targets are in a zone. *)
Definition az_count (az : string) (l : list Instance_) : nat :=
  length (filter (fun i => az_of i = az) l).

(** Every prefix takes from the zones evenly: no zone is more than one target
    ahead of a zone that still has targets to give. *)
Definition uniform (all result : list Instance_) : Prop :=
  forall p a b, p `prefix_of` result -> (az_count a p < az_count a all)%nat ->
    (az_count b p <= az_count a p + 1)%nat.

(** What one pass appends. *)
Definition heads (m : gmap string (list Instance_)) (azs : list string) : list Instance_ :=
  omap (fun az => last (zone m az)) azs.

(** The loop invariant after [k] passes. *)
Record uniform_inv (all : list Instance_) (ks : list string) (k : nat)
    (m : gmap string (list Instance_)) (acc : list Instance_) : Prop := {
  ui_nodup : NoDup ks;
  ui_dom : forall az, az ∈ ks <-> is_Some (m !! az);
  ui_zone : forall az i, i ∈ zone m az -> az_of i = az;
  ui_all : acc ++ concat (map (zone m) ks) ≡ₚ all;
  ui_count : forall az, az_count az acc = Nat.min k (az_count az all);
  ui_uniform : uniform all acc;
}.

(** ** Lemmas *)
Lemma az_count_app (az : string) (l l' : list Instance_) :
  az_count az (l ++ l') = (az_count az l + az_count az l')%nat.
Proof. unfold az_count. by rewrite filter_app, length_app. Qed.

Lemma az_count_perm (az : string) (l l' : list Instance_) :
  l ≡ₚ l' -> az_count az l = az_count az l'.
Proof. intros H. unfold az_count. by rewrite H. Qed.

Lemma zone_insert (m : gmap string (list Instance_)) (az az' : string) (g : list Instance_) :
  zone (<[az := g]> m) az' = if String.eqb az az' then g else zone m az'.
Proof.
  unfold zone. destruct (String.eqb_spec az az') as [->|N].
  - by rewrite lookup_insert_eq.
  - by rewrite lookup_insert_ne.
Qed.

Lemma az_pass_spec (azs : list string) (m : gmap string (list Instance_)) (acc : list Instance_) :
  NoDup azs ->
  let r := az_pass azs m acc in
  r.2 = acc ++ heads m azs /\
  (forall az, zone r.1 az = if bool_decide (az ∈ azs) then take (length (zone m az) - 1) (zone m az)
                            else zone m az) /\
  ((forall az, az ∈ azs -> is_Some (m !! az)) -> dom r.1 = dom m).
Proof.
  revert m acc. induction azs as [|az azs IH]; intros m acc ND; cbn [az_pass].
  - cbn. rewrite app_nil_r. split; [done|]. split; [|done]. intros az.
    by rewrite bool_decide_false by apply not_elem_of_nil.
  - inversion_clear ND as [|? ? Hn ND']. unfold heads. cbn [omap list_omap].
    destruct (last (zone m az)) as [t|] eqn:L; cbn [fst snd].
    + set (g := zone m az) in *.
      destruct (IH (<[az := take (length g - 1) g]> m) (acc ++ [t]) ND') as (H1 & H2 & H3).
      rewrite H1. split; [|split].
      * rewrite <- app_assoc. f_equal. cbn. f_equal. unfold heads.
        clear -Hn. induction azs as [|b azs IHa]; [done|]. cbn.
        apply not_elem_of_cons in Hn as [Hb Hn]. rewrite zone_insert.
        rewrite (proj2 (String.eqb_neq _ _) Hb), IHa by done. done.
      * intros b. rewrite H2, zone_insert. destruct (String.eqb_spec az b) as [<-|N].
        -- rewrite bool_decide_false by done. by rewrite bool_decide_true by left.
        -- by rewrite (bool_decide_ext (b ∈ az :: azs) (b ∈ azs)) by set_solver.
      * intros HS. rewrite H3.
        -- rewrite dom_insert_L. assert (az ∈ dom m) by (apply elem_of_dom, HS; left). set_solver.
        -- intros b Hb. rewrite lookup_insert_is_Some'. right. apply HS. by right.
    + apply last_None in L.
      destruct (IH m acc ND') as (H1 & H2 & H3). rewrite H1. split; [done|]. split.
      * intros b. rewrite H2. destruct (decide (b = az)) as [->|N].
        -- rewrite bool_decide_false by done. rewrite bool_decide_true by left. by rewrite L.
        -- by rewrite (bool_decide_ext (b ∈ az :: azs) (b ∈ azs)) by set_solver.
      * intros HS. apply H3. intros b Hb. apply HS. by right.
Qed.

Lemma last_split {A} (l : list A) (x : A) :
  last l = Some x -> l = take (length l - 1) l ++ [x].
Proof.
  intros H. apply last_Some in H as [l' ->].
  rewrite length_app. cbn. replace (length l' + 1 - 1)%nat with (length l') by lia.
  by rewrite take_app_length.
Qed.

(** The heads and the shortened zones are the old zones. *)
Lemma heads_perm (m : gmap string (list Instance_)) (ks : list string) :
  heads m ks ++ concat (map (fun az => take (length (zone m az) - 1) (zone m az)) ks)
  ≡ₚ concat (map (zone m) ks).
Proof.
  induction ks as [|az ks IH]; [done|]. unfold heads in *. cbn [omap list_omap map concat].
  destruct (last (zone m az)) as [x|] eqn:L.
  - rewrite (last_split _ _ L) at 3. cbn.
    rewrite Permutation_app_swap_app, IH. rewrite Permutation_middle.
    by rewrite <- app_assoc.
  - apply last_None in L. rewrite L. cbn. by rewrite IH.
Qed.

Lemma heads_count (m : gmap string (list Instance_)) (azs : list string) (az : string) :
  NoDup azs -> (forall az i, i ∈ zone m az -> az_of i = az) ->
  az_count az (heads m azs) = if bool_decide (az ∈ azs /\ zone m az <> []) then 1%nat else 0%nat.
Proof.
  intros ND Hz. induction azs as [|b azs IH].
  - rewrite bool_decide_false; [done|]. intros [H _]. by apply not_elem_of_nil in H.
  - inversion_clear ND as [|? ? Hn ND']. specialize (IH ND'). unfold heads, az_count in *.
    cbn [omap list_omap]. destruct (last (zone m b)) as [x|] eqn:L.
    + assert (az_of x = b) as Hx by (apply Hz; by apply last_Some_elem_of in L).
      rewrite filter_cons. destruct (decide (az_of x = az)) as [Ea|Na].
      * cbn [length]. rewrite IH. rewrite bool_decide_false by (intros [H _]; congruence).
        rewrite bool_decide_true; [done|]. split; [rewrite <- Hx, Ea; left|].
        intros Hnil. rewrite <- Ea, Hx in Hnil. by rewrite Hnil in L.
      * rewrite IH. erewrite bool_decide_ext; [done|]. rewrite elem_of_cons. naive_solver.
    + apply last_None in L. rewrite IH. erewrite bool_decide_ext; [done|].
      rewrite elem_of_cons. naive_solver.
Qed.

Lemma prefix_count (az : string) (p l : list Instance_) :
  p `prefix_of` l -> (az_count az p <= az_count az l)%nat.
Proof. intros [q ->]. rewrite az_count_app. lia. Qed.

Lemma prefix_app_cases {A} (p l l' : list A) :
  p `prefix_of` l ++ l' -> p `prefix_of` l \/ exists q, p = l ++ q /\ q `prefix_of` l'.
Proof.
  revert p. induction l as [|x l IH]; intros p H; [right; by exists p|].
  destruct p as [|y p]; [left; apply prefix_nil|].
  apply prefix_cons_inv_1 in H as E. apply prefix_cons_inv_2 in H. subst y.
  destruct (IH p H) as [H'|(q & -> & Hq)]; [left; by apply prefix_cons|right; by exists q].
Qed.

Lemma zones_elem (m : gmap string (list Instance_)) (ks : list string) (i : Instance_) :
  i ∈ concat (map (zone m) ks) <-> exists az, az ∈ ks /\ i ∈ zone m az.
Proof.
  induction ks as [|b ks IH]; cbn [map concat].
  - split; [by intros H%not_elem_of_nil|]. by intros (? & H%not_elem_of_nil & _).
  - rewrite elem_of_app, IH. setoid_rewrite elem_of_cons. naive_solver.
Qed.

(** What is left of a zone is what has not been taken from it. *)
Lemma zone_count (m : gmap string (list Instance_)) (ks : list string) (az : string) :
  NoDup ks -> (forall az i, i ∈ zone m az -> az_of i = az) ->
  az_count az (concat (map (zone m) ks)) = if bool_decide (az ∈ ks) then length (zone m az) else 0%nat.
Proof.
  intros ND Hz. assert (forall b, az_count az (zone m b) = if String.eqb b az then length (zone m b) else 0%nat) as Hb.
  { intros b. unfold az_count. destruct (String.eqb_spec b az) as [<-|N].
    - f_equal. assert (Forall (fun i => az_of i = b) (zone m b)) as HF
        by (apply Forall_forall; intros i; apply Hz).
      induction HF as [|i l Hi _ IH]; [done|]. by rewrite filter_cons, decide_True, IH.
    - assert (Forall (fun i => az_of i = b) (zone m b)) as HF
        by (apply Forall_forall; intros i; apply Hz).
      induction HF as [|i l Hi _ IH]; [done|]. by rewrite filter_cons, decide_False by congruence. }
  induction ks as [|b ks IH]; [by rewrite bool_decide_false by apply not_elem_of_nil|].
  inversion_clear ND as [|? ? Hn ND']. cbn [map concat]. rewrite az_count_app, Hb, IH by done.
  destruct (String.eqb_spec b az) as [<-|N].
  - rewrite bool_decide_false by done. rewrite bool_decide_true by left. lia.
  - by rewrite (bool_decide_ext (az ∈ b :: ks) (az ∈ ks)) by set_solver.
Qed.

Lemma zone_group (l : list Instance_) (az : string) :
  zone (group_by_az l) az = filter (fun i => az_of i = az) l.
Proof.
  induction l as [|x l IH] using rev_ind; [done|].
  unfold group_by_az in *. rewrite foldl_snoc, zone_insert, filter_app.
  destruct (String.eqb_spec (az_of x) az) as [<-|N].
  - rewrite IH. rewrite (filter_cons_True _ x) by done. done.
  - rewrite IH, (filter_cons_False _ x) by done. by rewrite filter_nil, app_nil_r.
Qed.

Lemma group_by_az_dom (l : list Instance_) (i : Instance_) :
  i ∈ l -> is_Some (group_by_az l !! az_of i).
Proof.
  intros Hi. assert (i ∈ zone (group_by_az l) (az_of i)) as H
    by (rewrite zone_group; by apply list_elem_of_filter).
  unfold zone in H. destruct (group_by_az l !! az_of i); [by eexists|].
  by apply not_elem_of_nil in H.
Qed.

Lemma concat_groups (l : list Instance_) (ks : list string) :
  NoDup ks -> (forall i, i ∈ l -> az_of i ∈ ks) ->
  concat (map (fun az => filter (fun i => az_of i = az) l) ks) ≡ₚ l.
Proof.
  intros ND. induction l as [|x l IH]; intros HK.
  - clear ND HK. induction ks; [done|]. cbn [map concat]. by rewrite filter_nil.
  - transitivity (x :: concat (map (fun az => filter (fun i => az_of i = az) l) ks));
      [|constructor; apply IH; intros i Hi; apply HK; by right].
    assert (az_of x ∈ ks) as Hx by (apply HK; left). clear HK IH.
    induction ks as [|b ks IHk]; [by apply not_elem_of_nil in Hx|].
    inversion_clear ND as [|? ? Hn ND']. cbn [map concat]. rewrite filter_cons.
    destruct (decide (az_of x = b)) as [<-|N].
    + cbn [app]. constructor. f_equiv.
      rewrite (map_ext_in _ (fun az => filter (fun i => az_of i = az) l)); [done|].
      intros a Ha. rewrite filter_cons_False; [done|]. intros <-. by apply list_elem_of_In in Ha.
    + apply elem_of_cons in Hx as [?|Hx]; [done|]. rewrite IHk by done.
      by rewrite Permutation_middle.
Qed.

Lemma uniform_inv_init (l : list Instance_) :
  uniform_inv l (map fst (map_to_list (group_by_az l))) 0 (group_by_az l) [].
Proof.
  assert (NoDup (map fst (map_to_list (group_by_az l)))) as ND by apply NoDup_fst_map_to_list.
  assert (forall az, az ∈ map fst (map_to_list (group_by_az l)) <-> is_Some (group_by_az l !! az)) as HD.
  { intros az. rewrite list_elem_of_fmap. split.
    - intros ([k v] & -> & H%elem_of_map_to_list). by eexists.
    - intros [v H]. exists (az, v). by rewrite elem_of_map_to_list. }
  split.
  - done.
  - done.
  - intros az i. rewrite zone_group. by intros [? _]%list_elem_of_filter.
  - cbn [app]. rewrite (map_ext (zone (group_by_az l)) _ (zone_group l)).
    apply concat_groups; [done|]. intros i Hi. by apply HD, group_by_az_dom.
  - done.
  - intros p a b Hp. apply prefix_nil_inv in Hp as ->. unfold az_count. cbn. lia.
Qed.

Lemma uniform_inv_left (all : list Instance_) (ks : list string) (k : nat)
    (m : gmap string (list Instance_)) (acc : list Instance_) (az : string) :
  uniform_inv all ks k m acc ->
  az_count az all = (az_count az acc + if bool_decide (az ∈ ks) then length (zone m az) else 0)%nat.
Proof.
  intros [ND HD HZ HA HC HU]. rewrite <- (az_count_perm az _ _ HA), az_count_app.
  by rewrite zone_count.
Qed.

Lemma uniform_inv_step (all : list Instance_) (ks order : list string) (k : nat)
    (m : gmap string (list Instance_)) (acc : list Instance_) :
  uniform_inv all ks k m acc -> order ≡ₚ ks ->
  uniform_inv all ks (S k) (az_pass order m acc).1 (az_pass order m acc).2.
Proof.
  intros I HP. pose proof (fun az => uniform_inv_left all ks k m acc az I) as Hleft.
  destruct I as [ND HD HZ HA HC HU].
  assert (NoDup order) as NDo by (by rewrite HP).
  destruct (az_pass_spec order m acc NDo) as (H1 & H2 & H3).
  assert (forall az, zone (az_pass order m acc).1 az = take (length (zone m az) - 1) (zone m az)) as Hz'.
  { intros az. rewrite H2. case_bool_decide as Hin; [done|].
    assert (zone m az = []) as ->; [|done]. unfold zone.
    destruct (m !! az) eqn:Em; [|done]. destruct Hin. rewrite HP. apply HD. by eexists. }
  split.
  - done.
  - intros az. rewrite HD, <- !elem_of_dom, H3; [done|]. intros b Hb. apply HD. by rewrite <- HP.
  - intros az i. rewrite Hz'. intros Hi. apply HZ. by apply (subseteq_take (length (zone m az) - 1)).
  - rewrite H1, (map_ext _ _ Hz'), <- app_assoc, <- HA. f_equiv.
    rewrite <- heads_perm. f_equiv. unfold heads. by rewrite HP.
  - intros az. rewrite H1, az_count_app, heads_count by done. specialize (Hleft az).
    rewrite HC in *. destruct (decide (az ∈ ks)) as [Hin|Hin].
    + rewrite bool_decide_true in Hleft by done.
      case_bool_decide as HB.
      * destruct HB as [_ HB]. destruct (zone m az); [done|]. cbn [length] in Hleft. lia.
      * assert (zone m az = []) as Hn.
        { destruct (zone m az) eqn:Ez; [done|]. destruct HB. by rewrite HP. }
        rewrite Hn in Hleft. cbn in Hleft. lia.
    + rewrite bool_decide_false in Hleft by done.
      rewrite bool_decide_false by (rewrite HP; tauto). lia.
  - rewrite H1. intros p a b Hp Hlt. apply prefix_app_cases in Hp as [Hp|(q & -> & Hq)];
      [by apply HU|].
    rewrite !az_count_app in *. rewrite !HC in *. apply (prefix_count b) in Hq as Hqb.
    rewrite heads_count in Hqb by done. case_bool_decide; lia.
Qed.

Section uniform_lemmas.
Context `{E : Env}.

Lemma range_map_run {V} (m : gmap string V) (s : St) :
  exists l w, range_map m s = (Val l, set_world w s) /\ l ≡ₚ map_to_list m.
Proof.
  unfold range_map, ask, mbind, M_bind. destruct (svc_shuffle (s_world s)) as [code w].
  exists (permute code (map_to_list m)), w. split; [done|]. apply permute_perm.
Qed.

Lemma uniform_loop_run (all : list Instance_) (ks : list string) (fuel k : nat)
    (m : gmap string (list Instance_)) (acc : list Instance_) (s : St) :
  uniform_inv all ks k m acc -> (length all <= length acc + fuel)%nat ->
  exists r w, uniform_loop fuel (length all) m acc s = (Val (Some r), set_world w s) /\
    r ≡ₚ all /\ uniform all r.
Proof.
  revert k m acc s. induction fuel as [|fuel IH]; intros k m acc s I Hf;
    pose proof (ui_all _ _ _ _ _ I) as HA; pose proof (Permutation_length HA) as HL;
    rewrite length_app in HL; cbn [uniform_loop];
    destruct (Nat.eqb_spec (length acc) (length all)) as [Eq|Ne]; try lia.
  1, 2: exists acc, (s_world s); split; [by destruct s|]; split; [|apply I];
    rewrite <- HA; destruct (concat (map (zone m) ks)); [by rewrite app_nil_r|cbn in HL; lia].
  destruct (range_map_run m s) as (l & w & Hr & Hl). rewrite (bind_val _ _ _ _ _ Hr).
  assert (map fst l ≡ₚ ks) as Ho.
  { rewrite Hl. apply NoDup_Permutation; [apply NoDup_fst_map_to_list|apply I|].
    intros az. rewrite (ui_dom _ _ _ _ _ I). rewrite list_elem_of_fmap. split.
    - intros ([k' v] & -> & H%elem_of_map_to_list). by eexists.
    - intros [v H]. exists (az, v). by rewrite elem_of_map_to_list. }
  pose proof (uniform_inv_step all ks _ k m acc I Ho) as I'.
  destruct (az_pass (map fst l) m acc) as [m' acc'] eqn:Ep. cbn [fst snd] in I'.
  destruct (IH (S k) m' acc' (set_world w s) I') as (r & w' & -> & Hp & Hu).
  - assert (length acc < length acc')%nat; [|lia].
    assert (acc' = acc ++ heads m (map fst l)) as ->.
    { pose proof (az_pass_spec (map fst l) m acc) as HS. rewrite Ep in HS. cbn in HS.
      apply HS. rewrite Ho. apply I. }
    rewrite length_app. assert (heads m (map fst l) <> []) as Hh.
    { intros Hh. destruct (concat (map (zone m) ks)) as [|i rest] eqn:Ec; [cbn in HL; lia|].
      assert (i ∈ concat (map (zone m) ks)) as Hi by (rewrite Ec; left).
      apply zones_elem in Hi as (az & Haz & Hi).
      assert (az_count az (heads m (map fst l)) = 1%nat) as Hc; [|by rewrite Hh in Hc].
      rewrite heads_count by (apply I || (rewrite Ho; apply I)).
      rewrite bool_decide_true; [done|]. rewrite Ho. split; [done|]. intros Hn. rewrite Hn in Hi.
      by apply not_elem_of_nil in Hi. }
    destruct (heads m (map fst l)); [done|]. cbn. lia.
  - exists r, w'. by split.
Qed.

Lemma uniform_targets_run (l : list Instance_) (s : St) :
  exists r w, uniform_targets l s = (Val r, set_world w s) /\ r ≡ₚ l /\ uniform l r.
Proof.
  unfold uniform_targets.
  destruct (uniform_loop_run l _ (length l) 0 _ [] s (uniform_inv_init l) ltac:(cbn; lia))
    as (r & w & Hr & HP & HU).
  exists r, w. by rewrite (bind_val _ _ _ _ _ Hr).
Qed.
End uniform_lemmas.

(** ** Theorem *)

(** C20: the round-robin over the availability zones
    always returns, whatever order Go ranges over the zones in on each pass; its
    result holds every unprocessed target exactly as often as before, and every
    prefix of it (so every batch cut from it) is spread over the zones: no zone is
    more than one target ahead of a zone that still has targets left. *)
Theorem uniform_targets_fair `{E : Env} (l : list Instance_) (s : St) :
  exists r w, uniform_targets l s = (Val r, set_world w s) /\ r ≡ₚ l /\
    forall p a b, p `prefix_of` r -> (az_count a p < az_count a l)%nat ->
      (az_count b p <= az_count a p + 1)%nat.
Proof. apply uniform_targets_run. Qed.
