(* ===== verification/Targets.v ===== *)
(** * Selecting the batch: [CalculateMaxUnavailable] and [SelectTargets]
      (controllers/upgrade.go) *)
From S2P Require Import Prelude GoStrings GoTime Common Types AwsProvider KubeProvider Metrics Env SampleEnv.
From S2P Require Import AwsClient KubeClient Cloud Drift Uniform.

Section max_unavailable.
Context {IO : IntOrStringOps}.

Definition CalculateMaxUnavailable (batchSize : IntOrString) (totalNodes : Z) : Z :=
  let unavailableInt :=
    match ios_Type batchSize with
    | StringType =>
        if Contains (ios_StrVal batchSize) "%"
        then GetValueFromIntOrPercent batchSize totalNodes true
        else (Atoi (ios_StrVal batchSize)).1
    | IntType => IntValue batchSize
    end in
  let unavailableInt := if (totalNodes <? unavailableInt)%Z then totalNodes else unavailableInt in
  if (unavailableInt =? 0)%Z then 1%Z else unavailableInt.
End max_unavailable.

Section scans.
Context {UC : UnicodeCase}.

(** One in-progress instance: a target ([inl]), an instance whose tag is to be
    cleaned up ([inr]), or neither. *)
Definition classify_in_progress (nodes : list Node) (scalingGroup : Group) (instance : string)
  : option (Instance_ + string) :=
  let selectedInstance := SelectScalingGroupInstance instance scalingGroup in
  if negb (is_empty_instance selectedInstance) then
    if negb (is_terminating selectedInstance) then
      match SelectNodeByInstanceID id instance nodes with
      | None => Some (inr instance)
      | Some _ => Some (inl selectedInstance)
      end
    else None
  else Some (inr instance).

(** The loop over the in-progress instances: [inprogressTargets] and
    [orphanedInProgressInstances]. *)
Fixpoint scan_in_progress (nodes : list Node) (scalingGroup : Group) (instances : list string)
  (acc : list Instance_ * list string) : list Instance_ * list string :=
  match instances with
  | [] => acc
  | instance :: instances' =>
      scan_in_progress nodes scalingGroup instances'
        match classify_in_progress nodes scalingGroup instance with
        | Some (inl target) => (acc.1 ++ [target], acc.2)
        | Some (inr orphan) => (acc.1, acc.2 ++ [orphan])
        | None => acc
        end
  end.

(** The loop over the instances without the in-progress tag, and its body. *)
Definition consider (drifted : Instance_ -> outcome bool) (scalingGroup : Group)
  (excludedInstances : list string) (unprocessedTargets : list Instance_) (instance : string)
  : outcome (list Instance_) :=
  let selectedInstance := SelectScalingGroupInstance instance scalingGroup in
  if negb (is_empty_instance selectedInstance) then
    b ← drifted selectedInstance;
    if (b : bool) && negb (is_terminating selectedInstance) then
      if negb (ContainsEqualFold (GetInstanceIDs unprocessedTargets)
                 (StringValue (inst_InstanceId selectedInstance)))
         && negb (ContainsEqualFold excludedInstances
                    (StringValue (inst_InstanceId selectedInstance)))
      then Val (unprocessedTargets ++ [selectedInstance])
      else Val unprocessedTargets
    else Val unprocessedTargets
  else Val unprocessedTargets.

Fixpoint scan_unprocessed (drifted : Instance_ -> outcome bool) (scalingGroup : Group)
  (excludedInstances : list string) (instances : list string) (acc : list Instance_)
  : outcome (list Instance_) :=
  match instances with
  | [] => Val acc
  | instance :: instances' =>
      acc' ← consider drifted scalingGroup excludedInstances acc instance;
      scan_unprocessed drifted scalingGroup excludedInstances instances' acc'
  end.
End scans.

Section select.
Context `{E : Env}.

Definition untag_orphaned (orphaned : list string) : M St unit :=
  if (0 <? zlen orphaned)%Z then
    _ ← UntagEC2instances orphaned instanceStateTagKey inProgressTagValue; mret tt
  else mret tt.

(** The order of the targets, by strategy: [finalTargets]. *)
Definition order_targets (inprogress unprocessed : list Instance_) : M St (list Instance_) :=
  s ← get;
  if String.eqb (UpdateStrategyType (s_ru s)) RandomUpdateStrategy then
    mret (inprogress ++ unprocessed)
  else if String.eqb (UpdateStrategyType (s_ru s)) UniformAcrossAzUpdateStrategy then
    uniformAZTargets ← uniform_targets unprocessed;
    mret (inprogress ++ uniformAZTargets)
  else mret [].

Definition SelectTargets (scalingGroup : Group) (excludedInstances : list string)
  : M St (list Instance_) :=
  s ← get;
  let batchSize := MaxUnavailable (s_ru s) in
  let totalNodes := Int64Value (asg_DesiredCapacity scalingGroup) in
  let unavailableInt := CalculateMaxUnavailable batchSize totalNodes in
  let '(inprogressTargets, orphaned) :=
    scan_in_progress (cluster_nodes s) scalingGroup (InProgressInstances (s_cloud s)) ([], []) in
  untag_orphaned orphaned ;;;
  '(instances, err) ← DescribeInstancesWithoutTagValue instanceStateTagKey inProgressTagValue;
  match err with
  | Some _ => mret []
  | None =>
      s ← get;
      unprocessedTargets ← lift (scan_unprocessed
          (IsInstanceDrifted (s_ru s) (s_cloud s) (cluster_nodes s))
          scalingGroup excludedInstances instances []);
      finalTargets ← order_targets inprogressTargets unprocessedTargets;
      let unavailableInt :=
        if (zlen finalTargets <? unavailableInt)%Z then zlen finalTargets else unavailableInt in
      lift (slice_to finalTargets unavailableInt)
  end.
End select.

(** ** Specification *)

(** A percentage is written with one percent sign, at its end. *)
Definition percent_well_formed (x : IntOrString) : Prop :=
  ios_Type x = StringType -> Contains (ios_StrVal x) "%" = true ->
  Trim (ios_StrVal x) "%"%char +:+ "%" = ios_StrVal x.

(** The batch size a validated strategy asks for, before the limits. *)
Definition requested_batch (x : IntOrString) (totalNodes : Z) : Z :=
  let p := (Atoi (Trim (ios_StrVal x) "%"%char)).1 in
  match ios_Type x with
  | IntType => ios_IntVal x
  | StringType => if Contains (ios_StrVal x) "%" then ((p * totalNodes + 99) / 100)%Z else p
  end.

(** What the source's comment says of a new target: an instance of the group
    that is drifted, not terminating and not excluded. *)
Record fresh_target {UC : UnicodeCase} (drifted : Instance_ -> outcome bool) (g : Group)
    (excluded : list string) (i : Instance_) : Prop := {
  ft_group : i ∈ asg_Instances g;
  ft_drifted : drifted i = Val true;
  ft_live : is_terminating i = false;
  ft_included : ContainsEqualFold excluded (instance_id i) = false;
}.

(** A target that is already being rotated: tagged, in the group, alive, with a
    node in the cluster. *)
Record resumed_target {UC : UnicodeCase} (nodes : list Node) (g : Group) (tagged : list string)
    (i : Instance_) : Prop := {
  rt_group : i ∈ asg_Instances g;
  rt_live : is_terminating i = false;
  rt_tagged : exists id, id ∈ tagged /\ EqualFold id (instance_id i) = true;
  rt_node : exists n, n ∈ nodes /\ EqualFold (instance_id i) (GetNodeInstanceID (Some n)) = true;
}.

(** Instances with pairwise different ids, up to letter case. *)
Definition distinct_ids {UC : UnicodeCase} (l : list Instance_) : Prop :=
  NoDup (map (fun i => fold_string (instance_id i)) l).

(** The instances of a group have ids, and different ones. *)
Definition identified {UC : UnicodeCase} (g : Group) : Prop :=
  distinct_ids (asg_Instances g) /\
  Forall (fun i => is_Some (inst_InstanceId i)) (asg_Instances g).

(** The ids the listing of instances without the in-progress tag answers when
    [SelectTargets] asks for it. *)
Definition listed_untagged `{E : Env} (g : Group) (s : St) (ids : list string) : Prop :=
  let scan := scan_in_progress (cluster_nodes s) g (InProgressInstances (s_cloud s)) ([], []) in
  (DescribeInstancesWithoutTagValue instanceStateTagKey inProgressTagValue (untag_orphaned scan.2 s).2).1
  = Val (ids, None).

(** ** Lemmas *)
Lemma select_instance_unique {UC : UnicodeCase} (l : list Instance_) (i : Instance_) (x : string) :
  distinct_ids l -> i ∈ l -> EqualFold x (instance_id i) = true -> select_instance x l = i.
Proof.
  induction l as [|j l IH]; [by intros _ H%not_elem_of_nil|]. unfold distinct_ids. cbn [map].
  intros [Hn HD]%NoDup_cons Hi Hx. cbn [select_instance]. fold (instance_id j).
  apply elem_of_cons in Hi as [<-|Hi]; [by rewrite Hx|].
  destruct (EqualFold x (instance_id j)) eqn:Ej; [|by apply IH].
  destruct Hn. apply list_elem_of_fmap. exists i. split; [|done].
  apply EqualFold_spec in Ej, Hx. congruence.
Qed.

Section scan_lemmas.
Context {UC : UnicodeCase}.

Lemma scan_in_progress_app (nodes : list Node) (g : Group) (l : list string)
    (ts : list Instance_) (os : list string) :
  scan_in_progress nodes g l (ts, os) =
  (ts ++ (scan_in_progress nodes g l ([], [])).1, os ++ (scan_in_progress nodes g l ([], [])).2).
Proof.
  revert ts os. induction l as [|x l IH]; intros ts os; cbn [scan_in_progress].
  - cbn. by rewrite !app_nil_r.
  - destruct (classify_in_progress nodes g x) as [[t|o]|]; cbn [fst snd app].
    + rewrite IH, (IH [t]). cbn. by rewrite <- app_assoc.
    + rewrite IH, (IH _ [o]). cbn. by rewrite <- app_assoc.
    + by rewrite IH.
Qed.

Lemma scan_in_progress_in (nodes : list Node) (g : Group) (l : list string) :
  (forall i, i ∈ (scan_in_progress nodes g l ([], [])).1 <->
     exists x, x ∈ l /\ classify_in_progress nodes g x = Some (inl i)) /\
  (forall o, o ∈ (scan_in_progress nodes g l ([], [])).2 <->
     exists x, x ∈ l /\ classify_in_progress nodes g x = Some (inr o)).
Proof.
  induction l as [|x l [IH1 IH2]]; cbn [scan_in_progress].
  - cbn. split; intros i; (split; [by intros H%not_elem_of_nil|]);
      by intros (? & H%not_elem_of_nil & _).
  - destruct (classify_in_progress nodes g x) as [[t|o]|] eqn:Ex; cbn [fst snd app];
      rewrite ?(scan_in_progress_app _ _ _ [_]), ?(scan_in_progress_app _ _ _ [] [_]);
      cbn [fst snd app]; split; intros y; rewrite ?elem_of_cons, ?IH1, ?IH2;
      setoid_rewrite elem_of_cons; naive_solver.
Qed.

Lemma classify_target (nodes : list Node) (g : Group) (x : string) (i : Instance_) :
  classify_in_progress nodes g x = Some (inl i) ->
  SelectScalingGroupInstance x g = i /\ is_empty_instance i = false /\
  is_terminating i = false /\ is_Some (SelectNodeByInstanceID id x nodes).
Proof.
  unfold classify_in_progress.
  destruct (is_empty_instance _) eqn:Ee; [discriminate|]. cbn [negb].
  destruct (is_terminating _) eqn:Et; [discriminate|]. cbn [negb].
  destruct (SelectNodeByInstanceID _ _ _) as [n|] eqn:En; [|discriminate].
  intros H. injection H as <-. split; [reflexivity|]. split; [exact Ee|].
  split; [exact Et|]. by exists n.
Qed.

(** The targets of the scan are resumable. *)
Lemma scan_in_progress_targets (nodes : list Node) (g : Group) (l : list string) (i : Instance_) :
  i ∈ (scan_in_progress nodes g l ([], [])).1 -> resumed_target nodes g l i.
Proof.
  intros (x & Hx & Hc)%scan_in_progress_in.
  apply classify_target in Hc as (<- & Ee & Et & n & En).
  destruct (select_instance_found x (asg_Instances g) Ee) as [Hg Hi].
  apply SelectNode_Some in En as [Hn Hid]. split; [exact Hg|exact Et|by exists x|].
  exists n. split; [exact Hn|]. change (id n) with n in Hid.
  rewrite <- (EqualFold_congr _ _ _ Hi). exact Hid.
Qed.

(** An id that no instance of the group has is orphaned. *)
Lemma scan_in_progress_foreign (nodes : list Node) (g : Group) (l : list string) (x : string) :
  x ∈ l -> (forall i, i ∈ asg_Instances g -> EqualFold x (instance_id i) = false) ->
  x ∈ (scan_in_progress nodes g l ([], [])).2.
Proof.
  intros Hx Hg. apply scan_in_progress_in. exists x. split; [done|].
  unfold classify_in_progress, SelectScalingGroupInstance, is_empty_instance.
  rewrite (select_instance_missing x) by done. by rewrite bool_decide_true by done.
Qed.

(** One iteration either leaves the targets as they are, or appends a fresh
    target whose id was not there yet. *)
Lemma consider_cases (drifted : Instance_ -> outcome bool) (g : Group) (excluded : list string)
    (acc : list Instance_) (x : string) :
  let i := SelectScalingGroupInstance x g in
  (drifted i <> Panic -> consider drifted g excluded acc x <> Panic) /\
  (consider drifted g excluded acc x = Panic \/
   consider drifted g excluded acc x = Val acc \/
   (consider drifted g excluded acc x = Val (acc ++ [i]) /\ fresh_target drifted g excluded i /\
    ContainsEqualFold (map instance_id acc) (instance_id i) = false)).
Proof.
  intros i. unfold consider. fold i. fold (instance_id i). rewrite ContainsEqualFold_ids.
  destruct (is_empty_instance i) eqn:Ee; cbn [negb]; [split; [discriminate|auto]|].
  destruct (drifted i) as [[]|] eqn:Ed; cbn [mbind outcome_bind andb];
    [|split; [discriminate|auto]|split; [congruence|auto]].
  destruct (is_terminating i) eqn:Et; cbn [negb]; [split; [discriminate|auto]|].
  destruct (ContainsEqualFold (map instance_id acc) (instance_id i)) eqn:Ec; cbn [negb andb];
    [split; [discriminate|auto]|].
  destruct (ContainsEqualFold excluded (instance_id i)) eqn:Ex; cbn [negb];
    split; [discriminate|auto|discriminate|].
  right. right. split; [reflexivity|]. split; [|reflexivity].
  destruct (select_instance_found x (asg_Instances g) Ee) as [Hg _].
  split; [exact Hg|exact Ed|exact Et|exact Ex].
Qed.

Lemma distinct_ids_snoc (l : list Instance_) (i : Instance_) :
  distinct_ids l -> ContainsEqualFold (map instance_id l) (instance_id i) = false ->
  distinct_ids (l ++ [i]).
Proof.
  intros HN Ec. unfold distinct_ids. rewrite map_app. apply NoDup_app. split; [done|].
  split; [|apply NoDup_singleton].
  intros k Hk. cbn [map]. rewrite list_elem_of_singleton. intros ->.
  rewrite ContainsEqualFold_false in Ec. apply list_elem_of_fmap in Hk as (j & Ej & Hj).
  specialize (Ec (instance_id j)). rewrite EqualFold_false in Ec.
  apply Ec; [|congruence]. apply list_elem_of_fmap. eauto.
Qed.

Lemma scan_unprocessed_inv (drifted : Instance_ -> outcome bool) (g : Group)
    (excluded l : list string) (acc r : list Instance_) :
  scan_unprocessed drifted g excluded l acc = Val r ->
  Forall (fresh_target drifted g excluded) acc -> distinct_ids acc ->
  Forall (fresh_target drifted g excluded) r /\ distinct_ids r.
Proof.
  revert acc. induction l as [|x l IH]; intros acc; cbn [scan_unprocessed].
  - by intros [= <-].
  - destruct (consider_cases drifted g excluded acc x) as [_ [->|[->|(-> & Hf & Hd)]]];
      cbn [mbind outcome_bind]; [done|apply IH|].
    intros H HF HN. apply (IH _ H).
    + apply Forall_app. split; [done|]. by constructor.
    + by apply distinct_ids_snoc.
Qed.

(** What the scans find, in a group whose instances have different ids. *)
Lemma identified_select (g : Group) (i : Instance_) (x : string) :
  identified g -> i ∈ asg_Instances g -> EqualFold x (instance_id i) = true ->
  SelectScalingGroupInstance x g = i /\ is_empty_instance i = false.
Proof.
  intros [HD HI] Hi Hx. split; [by apply select_instance_unique|].
  unfold is_empty_instance. apply bool_decide_eq_false. intros ->.
  apply (proj1 (Forall_forall _ _) HI) in Hi. by destruct Hi.
Qed.

Lemma scan_in_progress_all (nodes : list Node) (g : Group) (l : list string) (i : Instance_) :
  identified g -> resumed_target nodes g l i -> i ∈ (scan_in_progress nodes g l ([], [])).1.
Proof.
  intros HG [Hi Hl (x & Hx & Hxi) (n & Hn & Hni)]. apply scan_in_progress_in. exists x. split; [done|].
  unfold classify_in_progress. destruct (identified_select g i x HG Hi Hxi) as [-> ->]. cbn [negb].
  rewrite Hl. cbn [negb].
  destruct (SelectNodeByInstanceID id x nodes) as [n'|] eqn:En; [done|].
  rewrite SelectNode_None in En. specialize (En n Hn). change (id n) with n in En.
  by rewrite (EqualFold_congr _ _ _ Hxi), Hni in En.
Qed.

Lemma scan_unprocessed_all (drifted : Instance_ -> outcome bool) (g : Group) (excluded l : list string)
    (acc r : list Instance_) (i : Instance_) :
  identified g -> Forall (fun j => j ∈ asg_Instances g) acc ->
  scan_unprocessed drifted g excluded l acc = Val r ->
  fresh_target drifted g excluded i -> i ∈ acc \/ (exists x, x ∈ l /\ EqualFold x (instance_id i) = true) ->
  i ∈ r.
Proof.
  intros HG HA HR [Hi Hd Ht He] HI. revert acc HA HR HI. induction l as [|x l IH]; intros acc HA; cbn [scan_unprocessed].
  { intros [= <-] [H|(x & Hx & _)]; [done|by apply not_elem_of_nil in Hx]. }
  destruct (EqualFold x (instance_id i)) eqn:Ex.
  - destruct (identified_select g i x HG Hi Ex) as [Hs Hne]. unfold consider.
    rewrite Hs, Hne, Hd. cbn [negb mbind outcome_bind andb]. rewrite Ht. cbn [negb].
    fold (instance_id i). rewrite ContainsEqualFold_ids, He, andb_true_r.
    destruct (ContainsEqualFold (map instance_id acc) (instance_id i)) eqn:Ec; cbn [negb]; intros H _.
    + apply (IH acc HA H). left. apply ContainsEqualFold_spec in Ec as (y & Hy & Hyi).
      apply list_elem_of_fmap in Hy as (j & -> & Hj).
      destruct (identified_select g i (instance_id j) HG Hi Hyi) as [<- _].
      pose proof (proj1 (Forall_forall _ _) HA _ Hj) as Hj'.
      by destruct (identified_select g j (instance_id j) HG Hj' (EqualFold_refl _)) as [-> _].
    + apply (IH (acc ++ [i])); [|exact H|left; set_solver]. apply Forall_app. split; [done|]. by constructor.
  - destruct (consider_cases drifted g excluded acc x) as [_ [->|[->|(-> & HF & _)]]];
      cbn [mbind outcome_bind]; [done|..]; intros H HI.
    + apply (IH acc HA H). destruct HI as [HI|(y & Hy & Hyi)]; [by left|right].
      apply elem_of_cons in Hy as [->|Hy]; [congruence|eauto].
    + apply (IH (acc ++ [SelectScalingGroupInstance x g])); [|done|].
      { apply Forall_app. split; [done|]. constructor; [apply HF|done]. }
      destruct HI as [HI|(y & Hy & Hyi)]; [left; set_solver|right].
      apply elem_of_cons in Hy as [->|Hy]; [congruence|eauto].
Qed.

(** Every target was listed. *)
Lemma scan_unprocessed_listed (drifted : Instance_ -> outcome bool) (g : Group) (excluded l : list string)
    (acc r : list Instance_) (i : Instance_) :
  scan_unprocessed drifted g excluded l acc = Val r -> i ∈ r ->
  i ∈ acc \/ exists x, x ∈ l /\ EqualFold x (instance_id i) = true.
Proof.
  revert acc. induction l as [|x l IH]; intros acc; cbn [scan_unprocessed]; [intros [= <-]; by left|].
  unfold consider at 1. destruct (is_empty_instance _) eqn:Ee; cbn [negb].
  { intros H Hi. destruct (IH acc H Hi) as [?|(y & Hy & ?)]; [by left|]. right. exists y. set_solver. }
  destruct (select_instance_found x (asg_Instances g) Ee) as [_ Hx].
  destruct (drifted _) as [b|]; cbn [mbind outcome_bind]; [|done]. repeat case_match; intros H' Hi;
    (destruct (IH _ H' Hi) as [Ha|(y & Hy & ?)]; [|right; exists y; set_solver]); try (by left).
  apply elem_of_app in Ha as [Ha|Ha]; [by left|]. apply list_elem_of_singleton in Ha as ->.
  right. exists x. split; [left|exact Hx].
Qed.

Lemma scan_unprocessed_total (drifted : Instance_ -> outcome bool) (g : Group)
    (excluded l : list string) (acc : list Instance_) :
  (forall i, drifted i <> Panic) -> exists r, scan_unprocessed drifted g excluded l acc = Val r.
Proof.
  intros HD. revert acc. induction l as [|x l IH]; intros acc; cbn [scan_unprocessed]; [eauto|].
  destruct (consider_cases drifted g excluded acc x) as [HP [E|[->|(-> & _ & _)]]];
    [by destruct (HP (HD _))|apply IH..].
Qed.
End scan_lemmas.

(** *** Percentages *)
Lemma trim_left_none (c : ascii) (s : string) : has_char c s = false -> trim_left c s = s.
Proof. destruct s as [|c' s]; [done|]. cbn. by destruct (Ascii.eqb c' c). Qed.

Lemma trim_right_none (c : ascii) (s : string) : has_char c s = false -> trim_right c s = s.
Proof.
  induction s as [|c' s IH]; [done|]. cbn. destruct (Ascii.eqb c' c) eqn:Ec; [done|].
  cbn. intros H. rewrite IH by done. by destruct s.
Qed.

Lemma Contains_percent (s : string) : Contains s "%" = has_char "%"%char s.
Proof.
  induction s as [|c s IH]; [done|]. cbn [Contains has_char]. rewrite IH. f_equal.
  cbn [String.prefix]. rewrite (Ascii.eqb_sym c). destruct (ascii_dec "%" c) as [<-|N].
  - rewrite Ascii.eqb_refl. by destruct s.
  - by rewrite (proj2 (Ascii.eqb_neq _ _) N).
Qed.

Lemma Atoi_small (s : string) : (0 < (Atoi s).1 <= 100)%Z -> Atoi s = ((Atoi s).1, true).
Proof.
  assert (forall o, (0 < (match o with None => (0, false)%Z
     | Some z => (clamp_int64 z, Z.eqb (clamp_int64 z) z) end).1 <= 100)%Z ->
     (match o with None => (0, false)%Z
      | Some z => (clamp_int64 z, Z.eqb (clamp_int64 z) z) end).2 = true) as H.
  { intros [z|]; cbn [fst snd]; [|lia]. intros Hz. apply Z.eqb_eq.
    unfold clamp_int64, min_int64, max_int64 in *. lia. }
  intros Hs. rewrite (surjective_pairing (Atoi s)) at 1. f_equal.
  unfold Atoi in *. destruct s as [|c t]; [cbn in Hs; lia|].
  destruct (Ascii.eqb c "+"); [by apply H|]. destruct (Ascii.eqb c "-"); by apply H.
Qed.

(** The limits of [CalculateMaxUnavailable], whatever is asked for. *)
Lemma clamp_batch (u total : Z) :
  (0 <= u)%Z -> (0 <= total)%Z ->
  let v := if (total <? u)%Z then total else u in
  (if (v =? 0)%Z then 1 else v)%Z = Z.max 1 (Z.min total u).
Proof.
  intros Hu Ht v. subst v.
  destruct (Z.ltb_spec total u); destruct (Z.eqb_spec (if (total <? u)%Z then total else u) 0);
    repeat case_match; zbool; lia.
Qed.

(** What is asked for, before the limits; a percentage that is not well formed may count as
    nothing. *)
Lemma requested_ok {UC : UnicodeCase} (ops : IntOrStringOps) (laws : IntOrStringLaws ops)
    (s : UpdateStrategy) (total : Z) :
  let x := us_MaxUnavailable s in
  valid_strategy s -> (0 <= total)%Z ->
  (0 <= requested_batch x total)%Z /\
  exists u, (u = requested_batch x total \/ u = 0%Z) /\
    (percent_well_formed x -> u = requested_batch x total) /\
    CalculateMaxUnavailable x total = Z.max 1 (Z.min total u).
Proof.
  intros x ((_ & _ & Hu & _) & _ & _ & Hi & _) Ht.
  unfold acceptable_max_unavailable in Hu. fold x in Hu, Hi.
  unfold CalculateMaxUnavailable, requested_batch, percent_well_formed. destruct (ios_Type x) eqn:Ety.
  - rewrite (int_value x Ety). split; [done|]. exists (ios_IntVal x). split; [by left|]. split; [done|].
    by apply clamp_batch.
  - destruct (Contains (ios_StrVal x) "%") eqn:Ec.
    + set (p := (Atoi (Trim (ios_StrVal x) "%"%char)).1) in *.
      assert (0 <= (p * total + 99) / 100)%Z by (apply Z.div_pos; nia). split; [done|].
      exists (GetValueFromIntOrPercent x total true).
      pose proof (scaled_other x p total Ety (Atoi_small _ Hu)) as Ho.
      split; [apply Ho; lia|]. split; [|apply clamp_batch; [destruct Ho as [-> | ->]|]; lia].
      intros Hp. apply (scaled_percent x p total Ety (Hp eq_refl eq_refl) (Atoi_small _ Hu)); lia.
    + rewrite Contains_percent in Ec.
      assert (Trim (ios_StrVal x) "%"%char = ios_StrVal x) as Htr.
      { unfold Trim. rewrite trim_left_none by done. by apply trim_right_none. }
      rewrite Htr in *. split; [lia|]. eexists. split; [by left|]. split; [done|]. apply clamp_batch; lia.
Qed.

(** Clipping a bound at the length of the slice and cutting there is [take]. *)
Lemma slice_clip {A} (l : list A) (b : Z) :
  (0 <= b)%Z ->
  slice_to l (if (zlen l <? b)%Z then zlen l else b) = Val (take (Z.to_nat b) l).
Proof.
  intros Hb. pose proof (zlen_nonneg l). destruct (Z.ltb_spec (zlen l) b).
  - rewrite slice_to_in_range by lia. f_equal. unfold zlen in *.
    rewrite take_ge by lia. by rewrite take_ge by lia.
  - by rewrite slice_to_in_range by lia.
Qed.

(** *** The run of [SelectTargets] *)
Section select_lemmas.
Context `{E : Env}.

Lemma cluster_nodes_same (s s' : St) : same_memory s s' -> cluster_nodes s' = cluster_nodes s.
Proof. intros H. unfold cluster_nodes. by rewrite (sm_nodes _ _ H), (sm_cloud _ _ H). Qed.

Lemma scaling_group_same (s s' : St) : same_memory s s' -> scaling_group s' = scaling_group s.
Proof. intros H. unfold scaling_group. by rewrite (sm_ru _ _ H), (sm_cloud _ _ H). Qed.

Lemma untag_orphaned_memory (o : list string) : preserves same_memory (untag_orphaned o).
Proof. unfold untag_orphaned, UntagEC2instances. frame. Qed.

Lemma DescribeInstancesWithoutTagValue_memory (k v : string) :
  preserves same_memory (DescribeInstancesWithoutTagValue k v).
Proof. unfold DescribeInstancesWithoutTagValue. frame. Qed.

Lemma uniform_targets_memory (l : list Instance_) : preserves same_memory (uniform_targets l).
Proof.
  intros s. destruct (uniform_targets_run l s) as (r & w & -> & _). cbn. by constructor.
Qed.

Lemma uniform_targets_emits (P : Call -> Prop) (l : list Instance_) :
  preserves (emits P) (uniform_targets l).
Proof.
  intros s. destruct (uniform_targets_run l s) as (r & w & -> & _). cbn.
  exists []. by rewrite app_nil_r.
Qed.

Hint Resolve uniform_targets_emits untag_orphaned_memory DescribeInstancesWithoutTagValue_memory
  uniform_targets_memory : frame.

Lemma SelectTargets_memory (g : Group) (ex : list string) :
  preserves same_memory (SelectTargets g ex).
Proof. unfold SelectTargets, order_targets. frame. Qed.

Lemma SelectTargets_emits (P : Call -> Prop) (g : Group) (ex : list string) :
  (forall ids k v, P (CallDeleteTags ids k v)) -> (forall f, P (CallDescribeInstances f)) ->
  preserves (emits P) (SelectTargets g ex).
Proof.
  intros H1 H2. unfold SelectTargets, untag_orphaned, UntagEC2instances, order_targets,
    DescribeInstancesWithoutTagValue. frame.
Qed.

(** The list that is cut, for the three kinds of strategy type. *)
Lemma order_targets_run (ip un : list Instance_) (s : St) :
  exists final w, order_targets ip un s = (Val final, set_world w s) /\
    ((final = [] /\ UpdateStrategyType (s_ru s) <> RandomUpdateStrategy /\
      UpdateStrategyType (s_ru s) <> UniformAcrossAzUpdateStrategy) \/
     exists ordered, final = ip ++ ordered /\ ordered ≡ₚ un).
Proof.
  unfold order_targets. rewrite (bind_val _ _ s s s) by done.
  destruct (String.eqb_spec (UpdateStrategyType (s_ru s)) RandomUpdateStrategy).
  - exists (ip ++ un), (s_world s). split; [by destruct s|]. right. by exists un.
  - destruct (String.eqb_spec (UpdateStrategyType (s_ru s)) UniformAcrossAzUpdateStrategy).
    + destruct (uniform_targets_run un s) as (r & w & Hr & HP & _).
      exists (ip ++ r), w. rewrite (bind_val _ _ _ _ _ Hr). split; [done|]. right. by exists r.
    + exists [], (s_world s). split; [by destruct s|]. by left.
Qed.

(** A value returned by [SelectTargets] is empty, or a prefix of the in-progress
    targets followed by the fresh ones. *)
Lemma SelectTargets_inv (g : Group) (ex : list string) (s s' : St) (l : list Instance_) :
  SelectTargets g ex s = (Val l, s') ->
  let bound := CalculateMaxUnavailable (MaxUnavailable (s_ru s))
                 (Int64Value (asg_DesiredCapacity g)) in
  let drifted := IsInstanceDrifted (s_ru s) (s_cloud s) (cluster_nodes s) in
  let ip := (scan_in_progress (cluster_nodes s) g (InProgressInstances (s_cloud s)) ([], [])).1 in
  l = [] \/
  ((UpdateStrategyType (s_ru s) = RandomUpdateStrategy \/
    UpdateStrategyType (s_ru s) = UniformAcrossAzUpdateStrategy) /\
   exists ids un ordered, scan_unprocessed drifted g ex ids [] = Val un /\ ordered ≡ₚ un /\
     (0 <= bound)%Z /\ l = take (Z.to_nat bound) (ip ++ ordered)).
Proof.
  intros H bound drifted ip. unfold SelectTargets in H. rewrite (bind_val _ _ s s s) in H by done.
  destruct (scan_in_progress _ _ _ _) as [ip' orph] eqn:Es in H.
  assert (ip' = ip) as -> by (subst ip; by rewrite Es). clear Es. cbv zeta in H. fold bound in H.
  apply bind_inv in H as ([] & s1 & H1 & H).
  apply bind_inv in H as ([ids err] & s2 & H2 & H).
  assert (same_memory s s2) as HM.
  { transitivity s1; [pose proof (untag_orphaned_memory orph s) as M; by rewrite H1 in M|].
    pose proof (DescribeInstancesWithoutTagValue_memory instanceStateTagKey inProgressTagValue s1)
      as M. by rewrite H2 in M. }
  destruct err as [e|]; [left; by injection H|].
  rewrite (bind_val _ _ s2 s2 s2) in H by done.
  rewrite (cluster_nodes_same _ _ HM), (sm_ru _ _ HM), (sm_cloud _ _ HM) in H. fold drifted in H.
  apply bind_inv in H as (un & s3 & H3 & H). unfold lift in H3. injection H3 as H3 <-.
  destruct (order_targets_run ip un s2) as (final & w & Ho & Hf).
  rewrite (bind_val _ _ _ _ _ Ho) in H. unfold lift in H. injection H as H _.
  rewrite (sm_ru _ _ HM) in Hf.
  destruct Hf as [(-> & _ & _)|(ordered & -> & HP)].
  - left. apply slice_to_val in H as (_ & -> & _). by destruct (Z.to_nat _).
  - assert (l = take (Z.to_nat bound) (ip ++ ordered) /\ (0 <= bound)%Z) as [Hl Hb].
    { destruct (Z.ltb_spec (zlen (ip ++ ordered)) bound).
      - apply slice_to_val in H as (Hr & -> & _). unfold zlen in *.
        rewrite !take_ge by lia. split; [done|lia].
      - apply slice_to_val in H as (Hr & -> & _). split; [done|lia]. }
    unfold order_targets in Ho. rewrite (bind_val _ _ s2 s2 s2) in Ho by done.
    rewrite (sm_ru _ _ HM) in Ho.
    destruct (String.eqb_spec (UpdateStrategyType (s_ru s)) RandomUpdateStrategy);
      [right; split; [by left|]; by exists ids, un, ordered|].
    destruct (String.eqb_spec (UpdateStrategyType (s_ru s)) UniformAcrossAzUpdateStrategy);
      [right; split; [by right|]; by exists ids, un, ordered|].
    left. injection Ho as Hn _. rewrite <- Hn in Hl. rewrite Hl. by rewrite take_nil.
Qed.

Lemma SelectTargets_members (g : Group) (ex : list string) (s s' : St) (l : list Instance_) :
  SelectTargets g ex s = (Val l, s') ->
  (zlen l <= Z.max 0 (CalculateMaxUnavailable (MaxUnavailable (s_ru s))
                        (Int64Value (asg_DesiredCapacity g))))%Z /\
  forall i, i ∈ l ->
    resumed_target (cluster_nodes s) g (InProgressInstances (s_cloud s)) i \/
    fresh_target (IsInstanceDrifted (s_ru s) (s_cloud s) (cluster_nodes s)) g ex i.
Proof.
  intros H. apply SelectTargets_inv in H as [->|(_ & ids & un & ordered & Hs & HP & Hb & ->)].
  { unfold zlen. cbn [length]. split; [lia|]. by intros i Hi%not_elem_of_nil. }
  split; [unfold zlen; rewrite length_take; lia|].
  intros i Hi. apply subseteq_take, elem_of_app in Hi as [Hi|Hi].
  - left. by apply scan_in_progress_targets.
  - right. rewrite HP in Hi.
    destruct (scan_unprocessed_inv _ _ _ _ _ _ Hs) as [HF _]; [done|apply NoDup_nil_2|].
    by apply (proj1 (Forall_forall _ _) HF).
Qed.
End select_lemmas.

#[export] Hint Resolve SelectTargets_memory SelectTargets_emits : frame.

(** ** Theorems *)

(** C23: for a validated strategy and a group
    of [total] instances, a batch is of at least one instance and of at most max(1, total), so of one
    also for an empty group.  It is the number asked for within these limits (the integer, the number in
    the string, or the percentage of the group rounded up), if a percentage is written with one percent
    sign at its end; validation also accepts percent signs elsewhere, and then the batch is that
    size or of one instance. *)
Theorem CalculateMaxUnavailable_spec {UC : UnicodeCase} (ops : IntOrStringOps)
    (laws : IntOrStringLaws ops) (s : UpdateStrategy) (total : Z) :
  let x := us_MaxUnavailable s in
  let asked := Z.max 1 (Z.min total (requested_batch x total)) in
  valid_strategy s -> (0 <= total)%Z ->
  (1 <= CalculateMaxUnavailable x total <= Z.max 1 total)%Z /\
  (CalculateMaxUnavailable x total = asked \/ CalculateMaxUnavailable x total = 1%Z) /\
  (percent_well_formed x -> CalculateMaxUnavailable x total = asked).
Proof.
  intros x asked Hv Ht. destruct (requested_ok ops laws s total Hv Ht) as (H0 & u & H1 & H2 & H3).
  fold x in H0, H1, H2, H3. split; [lia|]. split; [lia|]. intros Hp. by rewrite H3, (H2 Hp).
Qed.

Section theorems.
Context `{E : Env}.

(** C3: every batch [SelectTargets] returns is within the
    allowed size, and each of its members is a live instance of the scaling group
    that either carries the in-progress tag and has a node, or is drifted and not
    among the excluded instances.  No instance is ever selected otherwise. *)
Theorem SelectTargets_sound (g : Group) (ex : list string) (s s' : St) (l : list Instance_) :
  SelectTargets g ex s = (Val l, s') ->
  (zlen l <= Z.max 0 (CalculateMaxUnavailable (MaxUnavailable (s_ru s))
                        (Int64Value (asg_DesiredCapacity g))))%Z /\
  forall i, i ∈ l ->
    resumed_target (cluster_nodes s) g (InProgressInstances (s_cloud s)) i \/
    fresh_target (IsInstanceDrifted (s_ru s) (s_cloud s) (cluster_nodes s)) g ex i.
Proof.
  exact (SelectTargets_members g ex s s' l).
Qed.

(** A run of [SelectTargets] once the instances are fetched. *)
Lemma SelectTargets_run (g : Group) (ex : list string) (s s1 s2 : St) (ids : list string) :
  let bound := CalculateMaxUnavailable (MaxUnavailable (s_ru s))
                 (Int64Value (asg_DesiredCapacity g)) in
  let scan := scan_in_progress (cluster_nodes s) g (InProgressInstances (s_cloud s)) ([], []) in
  policy_complete (scaling_group s) -> (0 <= bound)%Z ->
  UpdateStrategyType (s_ru s) ∈ [RandomUpdateStrategy; UniformAcrossAzUpdateStrategy] ->
  untag_orphaned scan.2 s = (Val tt, s1) ->
  DescribeInstancesWithoutTagValue instanceStateTagKey inProgressTagValue s1
    = (Val (ids, None), s2) ->
  exists fresh s', SelectTargets g ex s = (Val (take (Z.to_nat bound) (scan.1 ++ fresh)), s') /\
    distinct_ids fresh /\
    exists un, scan_unprocessed (IsInstanceDrifted (s_ru s) (s_cloud s) (cluster_nodes s))
                 g ex ids [] = Val un /\ fresh ≡ₚ un.
Proof.
  intros bound scan HP Hb Hty H1 H2.
  assert (same_memory s s2) as HM.
  { transitivity s1; [pose proof (untag_orphaned_memory scan.2 s) as M; by rewrite H1 in M|].
    pose proof (DescribeInstancesWithoutTagValue_memory instanceStateTagKey inProgressTagValue s1)
      as M. by rewrite H2 in M. }
  set (drifted := IsInstanceDrifted (s_ru s) (s_cloud s) (cluster_nodes s)).
  destruct (scan_unprocessed_total drifted g ex ids []) as [un Hu].
  { intros i. destruct (IsInstanceDrifted_ok (s_ru s) (s_cloud s) (cluster_nodes s) i HP) as [b Hd].
    unfold drifted. by rewrite Hd. }
  destruct (order_targets_run scan.1 un s2) as (final & w & Ho & [(_ & N1 & N2)|(fresh & -> & HF)]).
  { rewrite (sm_ru _ _ HM) in N1, N2. rewrite !elem_of_cons in Hty.
    destruct Hty as [Hty|[Hty|Hty%not_elem_of_nil]];
      [by destruct (N1 Hty)|by destruct (N2 Hty)|done]. }
  exists fresh. eexists. split; [|split].
  - unfold SelectTargets. rewrite (bind_val _ _ s s s) by done.
    change (scan_in_progress _ _ _ _) with scan. rewrite (surjective_pairing scan).
    rewrite (bind_val _ _ _ _ _ H1), (bind_val _ _ _ _ _ H2).
    rewrite (bind_val _ _ s2 s2 s2) by done.
    rewrite (cluster_nodes_same _ _ HM), (sm_ru _ _ HM), (sm_cloud _ _ HM).
    fold drifted. rewrite (bind_val _ _ s2 s2 un) by (unfold lift; by rewrite Hu).
    rewrite (bind_val _ _ _ _ _ Ho). fold bound. unfold lift.
    by rewrite slice_clip.
  - destruct (scan_unprocessed_inv _ _ _ _ _ _ Hu) as [_ HD]; [done|apply NoDup_nil_2|].
    unfold distinct_ids in *. by rewrite HF.
  - by exists un.
Qed.

(** C19: a batch is as large as it may be.  For a
    group whose policy is complete and whose instances have different ids, a strategy type that
    is one of the two constants and a bound that is not negative, once the instances
    without the in-progress tag have been listed [SelectTargets] returns instances that are being
    rotated already followed by new targets, pairwise different and all listed; if it
    stays below the bound then every live tagged instance of the group with a node and every live,
    drifted, listed and not excluded instance of the group is in it; and it holds a new
    target only if it holds every instance that is being rotated. *)
Theorem SelectTargets_complete (g : Group) (ex : list string) (s : St) (ids : list string) :
  let bound := CalculateMaxUnavailable (MaxUnavailable (s_ru s))
                 (Int64Value (asg_DesiredCapacity g)) in
  let resumed := resumed_target (cluster_nodes s) g (InProgressInstances (s_cloud s)) in
  let fresh i := fresh_target (IsInstanceDrifted (s_ru s) (s_cloud s) (cluster_nodes s)) g ex i /\
                 exists x, x ∈ ids /\ EqualFold x (instance_id i) = true in
  policy_complete (scaling_group s) -> identified g -> (0 <= bound)%Z ->
  UpdateStrategyType (s_ru s) ∈ [RandomUpdateStrategy; UniformAcrossAzUpdateStrategy] ->
  listed_untagged g s ids ->
  exists old new s', SelectTargets g ex s = (Val (old ++ new), s') /\
    Forall resumed old /\ Forall fresh new /\ distinct_ids new /\
    (zlen (old ++ new) <= bound)%Z /\
    (new <> [] -> forall i, resumed i -> i ∈ old) /\
    ((zlen (old ++ new) < bound)%Z -> forall i, (resumed i -> i ∈ old) /\ (fresh i -> i ∈ new)).
Proof.
  intros bound resumed fresh HP HG Hb Hty HL.
  set (scan := scan_in_progress (cluster_nodes s) g (InProgressInstances (s_cloud s)) ([], [])).
  assert (untag_orphaned scan.2 s = (Val tt, (untag_orphaned scan.2 s).2)) as H1.
  { apply run_val. unfold untag_orphaned, UntagEC2instances, call, mbind, M_bind.
    destruct (_ <? _)%Z; [|done]. by destruct (svc_DeleteTags _ _ _ _). }
  destruct (SelectTargets_run g ex s _ _ ids HP Hb Hty H1 (run_val _ _ _ HL))
    as (ordered & s' & HS & HD & un & Hu & HF). fold scan bound in HS.
  assert (Forall fresh ordered) as Hfr.
  { apply Forall_forall. intros i Hi. rewrite HF in Hi. split.
    - destruct (scan_unprocessed_inv _ _ _ _ _ _ Hu) as [H _]; [done|apply NoDup_nil_2|].
      by apply (proj1 (Forall_forall _ _) H).
    - by destruct (scan_unprocessed_listed _ _ _ _ _ _ _ Hu Hi) as [H%not_elem_of_nil|H]. }
  assert (forall i, resumed i <-> i ∈ scan.1) as Hre
    by (intros i; split; [by apply scan_in_progress_all|apply scan_in_progress_targets]).
  exists (take (Z.to_nat bound) scan.1), (take (Z.to_nat bound - length scan.1) ordered), s'.
  rewrite <- take_app. split; [exact HS|].
  split; [by apply Forall_take, Forall_forall, Hre|]. split; [by apply Forall_take|].
  split; [unfold distinct_ids; rewrite <- firstn_map; by eapply sublist_NoDup, sublist_take|].
  split; [unfold zlen; rewrite length_take; lia|]. split.
  - intros Hne i Hi%Hre. rewrite take_ge; [done|].
    destruct (decide (length scan.1 <= Z.to_nat bound)%nat); [done|].
    destruct Hne. by replace (Z.to_nat bound - length scan.1)%nat with 0%nat by lia.
  - unfold zlen. rewrite length_take, length_app. intros Hlt i.
    rewrite !take_ge by lia. split; [apply Hre|]. intros [H1' H2']. rewrite HF.
    by apply (scan_unprocessed_all _ _ _ _ _ _ _ HG (Forall_nil_2 _) Hu); [|right].
Qed.

(** The strategy type is compared exactly, so a
    type that [Validate] accepts up to letter case only, such as
    RandomUpdate, selects no instance at all, whatever is drifted. *)
Theorem SelectTargets_exact_type (g : Group) (ex : list string) (s s' : St) (l : list Instance_) :
  UpdateStrategyType (s_ru s) <> RandomUpdateStrategy ->
  UpdateStrategyType (s_ru s) <> UniformAcrossAzUpdateStrategy ->
  SelectTargets g ex s = (Val l, s') -> l = [].
Proof.
  intros N1 N2 H. apply SelectTargets_inv in H as [H|[[H|H] _]];
    [exact H|by destruct (N1 H)|by destruct (N2 H)].
Qed.

(** C35: the first call [SelectTargets] makes when
    some in-progress instance belongs to no instance of this scaling group removes the
    in-progress tag from every such instance, also when it is being rotated by
    the upgrade of another group (the list of in-progress instances is not
    restricted to one group). *)
Theorem SelectTargets_untags_foreign (g : Group) (ex : list string) (s : St) (x : string) :
  x ∈ InProgressInstances (s_cloud s) ->
  (forall i, i ∈ asg_Instances g -> EqualFold x (instance_id i) = false) ->
  exists ids rest, x ∈ ids /\
    s_calls (SelectTargets g ex s).2
    = s_calls s ++ CallDeleteTags ids instanceStateTagKey inProgressTagValue :: rest.
Proof.
  intros Hx Hg.
  pose proof (scan_in_progress_foreign (cluster_nodes s) g _ x Hx Hg) as Ho.
  unfold SelectTargets. rewrite (bind_val _ _ s s s) by done.
  destruct (scan_in_progress _ _ _ _) as [ip orph]. cbn [snd] in Ho. cbv zeta.
  assert (exists w, untag_orphaned orph s = (Val tt, set_calls (s_calls s ++
    [CallDeleteTags orph instanceStateTagKey inProgressTagValue]) (set_world w s))) as [w Hw].
  { unfold untag_orphaned, UntagEC2instances, call, zlen.
    destruct orph; [by apply not_elem_of_nil in Ho|]. cbn [length].
    rewrite (proj2 (Z.ltb_lt _ _)) by lia. unfold mbind, M_bind.
    destruct (svc_DeleteTags _ _ _ _) as [e w]. by exists w. }
  rewrite (bind_val _ _ _ _ _ Hw). set (s1 := set_calls _ _).
  match goal with |- context [ (?m ≫= ?f) s1 ] =>
    assert (preserves (emits (fun _ => True)) (m ≫= f)) as HP end.
  { unfold DescribeInstancesWithoutTagValue, order_targets. frame. apply uniform_targets_emits. }
  destruct (HP s1) as (new & Hn & _). exists orph, new. split; [done|].
  rewrite Hn. subst s1. cbn. by rewrite <- app_assoc.
Qed.
End theorems.

(** ** Witnesses *)
Lemma CalculateMaxUnavailable_spec_witness :
  CalculateMaxUnavailable (IO := sample_intstr) (mkIntOrString StringType 0 "25%") 10 = 3%Z /\
  (1 <= CalculateMaxUnavailable (IO := sample_intstr) (mkIntOrString StringType 0 "25%") 10 <= 10)%Z.
Proof.
  destruct (CalculateMaxUnavailable_spec (UC := ascii_fold) sample_intstr _
    (mkStrategy RandomUpdateStrategy UpdateStrategyModeLazy (mkIntOrString StringType 0 "25%") None)
    10) as (H1 & _ & H2).
  - unfold valid_strategy, acceptable_strategy. repeat split; try (right; reflexivity); try discriminate.
  - lia.
  - split; [|exact H1]. transitivity (Z.max 1 (Z.min 10 3)); [|reflexivity]. apply H2. intros _ _. reflexivity.
Defined.

Lemma SelectTargets_sound_witness :
  let s := sample_state sample_scenario (sample_upgrade sample_strategy) in
  exists l, (@SelectTargets (sample_env sample_scenario) sample_group ["i-1"] s).1 = Val l /\
    map instance_id l = ["i-2"] /\ (zlen l <= 1)%Z.
Proof.
  intros s. eexists. split; [vm_compute; reflexivity|]. split; [reflexivity|].
  refine (proj1 (@SelectTargets_sound (sample_env sample_scenario) sample_group ["i-1"] s _ _
    (run_val _ _ _ _))).
  vm_compute. reflexivity.
Defined.

Lemma sample_identified : identified (UC := ascii_fold) sample_group.
Proof. split; [vm_compute; apply NoDup_ListNoDup; repeat constructor; set_solver|repeat constructor; eauto]. Qed.

(** One instance may be rotated at a time: i-2 is, so nothing else is selected. *)
Lemma SelectTargets_complete_witness :
  let s := set_cloud (with_InProgressInstances ["i-2"] (sample_cloud sample_scenario))
             (sample_state sample_scenario (sample_upgrade sample_strategy)) in
  exists old new s', @SelectTargets (sample_env sample_scenario) sample_group [] s
    = (Val (old ++ new), s') /\ (zlen (old ++ new) <= 1)%Z /\
    (new <> [] -> forall i, resumed_target (UC := ascii_fold) (cluster_nodes s) sample_group ["i-2"] i -> i ∈ old).
Proof.
  intros s.
  destruct (@SelectTargets_complete (sample_env sample_scenario) sample_group [] s ["i-1"; "i-2"; "i-3"] I)
    as (old & new & s' & H1 & _ & _ & _ & H2 & H3 & _).
  - exact sample_identified.
  - vm_compute. discriminate.
  - left.
  - vm_compute. reflexivity.
  - exists old, new, s'. split; [exact H1|]. split; [exact H2|exact H3].
Defined.

Lemma SelectTargets_exact_type_witness :
  let strategy := mkStrategy "RandomUpdate" UpdateStrategyModeLazy (mkIntOrString IntType 1 "") None in
  let s := sample_state sample_scenario (sample_upgrade strategy) in
  (Validate (UC := ascii_fold) (sample_upgrade strategy)).2 = None /\
  exists l, (@SelectTargets (sample_env sample_scenario) sample_group [] s).1 = Val l /\ l = [].
Proof.
  intros strategy s. split; [vm_compute; reflexivity|].
  eexists. split; [vm_compute; reflexivity|].
  refine (@SelectTargets_exact_type (sample_env sample_scenario) sample_group [] s _ _ _ _
    (run_val _ _ _ _)); [discriminate..|vm_compute; reflexivity].
Defined.

Lemma SelectTargets_untags_foreign_witness :
  let s := set_cloud (with_InProgressInstances ["i-9"] (sample_cloud sample_scenario))
             (sample_state sample_scenario (sample_upgrade sample_strategy)) in
  exists ids rest, "i-9" ∈ ids /\
    s_calls (@SelectTargets (sample_env sample_scenario) sample_group [] s).2
    = CallDeleteTags ids instanceStateTagKey inProgressTagValue :: rest.
Proof.
  intros s.
  apply (@SelectTargets_untags_foreign (sample_env sample_scenario) sample_group [] s "i-9").
  - left.
  - intros i Hi. repeat (apply elem_of_cons in Hi as [->|Hi]; [reflexivity|]).
    by apply not_elem_of_nil in Hi.
Defined.
