(* ===== verification/Balloon.v ===== *)
(** * Replacement nodes: [ClusterBallooning] and [SetBatchStandBy]
      (controllers/upgrade.go)

    The number of replacement nodes of the whole cluster is one counter, shared by
    all the upgrades through a [sync.Map]. *)
From S2P Require Import Prelude GoStrings GoTime Common Types AwsProvider KubeProvider Metrics Env SampleEnv.
From S2P Require Import AwsClient.

Definition ReplacementNodesKey : string := "ReplacementNodes".

(** The decision between the load and the store: the two results, the value to
    store (if any) and the new value of [AllowReplacements]. *)
Definition balloon_decide (MaxReplacementNodes count batchSize : Z) (AllowReplacements : bool)
  : (bool * Z) * option Z * bool :=
  let newReplacementCount := (count + batchSize)%Z in
  let partialReplacementCount := (MaxReplacementNodes - count)%Z in
  if (MaxReplacementNodes =? 0)%Z then ((false, batchSize), None, AllowReplacements)
  else if (newReplacementCount <=? MaxReplacementNodes)%Z then
    ((false, batchSize), Some newReplacementCount, true)
  else if (partialReplacementCount <? batchSize)%Z && (0 <? partialReplacementCount)%Z then
    ((false, partialReplacementCount), Some (count + partialReplacementCount)%Z, true)
  else if negb AllowReplacements then ((true, 0%Z), None, AllowReplacements)
  else ((false, batchSize), None, AllowReplacements).

Section balloon.
Context `{E : Env}.

Definition upd_replacementNodes (f : gmap string Z -> gmap string Z) : M St unit :=
  modify (fun s => set_replacementNodes (f (s_replacementNodes s)) s).

Definition ClusterBallooning (cfg : Config) (batchSize : Z) : M St (bool * Z) :=
  s ← get;
  let '(count, _, m) := LoadOrStore (s_replacementNodes s) ReplacementNodesKey 0%Z in
  upd_replacementNodes (fun _ => m) ;;;
  let '(result, store, allow) :=
    balloon_decide (cfg_MaxReplacementNodes cfg) count batchSize (s_allowReplacements s) in
  match store with
  | Some n => upd_replacementNodes (fun m => Store m ReplacementNodesKey n)
  | None => mret tt
  end ;;;
  modify (set_allowReplacements allow) ;;;
  mret result.

(** After a successful termination: one replacement node less. *)
Definition release_replacement : M St unit :=
  s ← get;
  match Load (s_replacementNodes s) ReplacementNodesKey with
  | Some count =>
      if (0 <? count)%Z then
        upd_replacementNodes (fun m => Store m ReplacementNodesKey (count - 1)%Z) ;;;
        modify (set_allowReplacements false)
      else mret tt
  | None => mret tt
  end.

(** [GetChunks] returns for every list ([GetChunks_total]). *)
Definition SetBatchStandBy (instanceIDs : list string) : M St (option error) :=
  s ← get;
  match GetChunks instanceIDs InstanceStandByLimit with
  | Some instanceBatch =>
      for_return instanceBatch (fun batch =>
        SetInstancesStandBy batch (spec_AsgName (ru_Spec (s_ru s))))
  | None => lift Panic
  end.
End balloon.

(** ** Specification *)

(** The counter as the code reads it. *)
Definition replacement_count `{Env} (s : St) : Z :=
  default 0%Z (s_replacementNodes s !! ReplacementNodesKey).

(** The counter stays within the limit. *)
Definition within_limit `{Env} (cfg : Config) (s : St) : Prop :=
  (0 <= replacement_count s <= cfg_MaxReplacementNodes cfg)%Z.

(** What the upgrades do to the counter, one atomic operation after the other. *)
Inductive ReplacementOp :=
| OpRequest (allow : bool) (batchSize : nat)   (* some context asks for a batch *)
| OpRelease.                                   (* some context terminated an instance *)

Definition run_op `{Env} (cfg : Config) (op : ReplacementOp) (s : St) : St :=
  match op with
  | OpRequest allow n => (ClusterBallooning cfg (Z.of_nat n) (set_allowReplacements allow s)).2
  | OpRelease => (release_replacement s).2
  end.

(** Two contexts that both read the counter before either stores: what each is
    granted. *)
Definition interleaved_grants (Max count batch1 batch2 : Z) : Z * Z :=
  ((balloon_decide Max count batch1 false).1.1.2, (balloon_decide Max count batch2 false).1.1.2).

(** ** Lemmas *)
Section balloon_lemmas.
Context `{E : Env}.

Lemma SetInstancesStandBy_run (ids : list string) (asg : string) (s : St) :
  exists e w, SetInstancesStandBy ids asg s =
    (Val e, set_calls (s_calls s ++ [CallEnterStandby asg ids false]) (set_world w s)).
Proof.
  unfold SetInstancesStandBy, call. destruct (svc_EnterStandby _ _ _ _) as [e w]. eauto.
Qed.

(** The run of [ClusterBallooning] in terms of its decision. *)
Lemma ClusterBallooning_run (cfg : Config) (n : Z) (s : St) :
  let '(result, store, allow) :=
    balloon_decide (cfg_MaxReplacementNodes cfg) (replacement_count s) n (s_allowReplacements s) in
  exists s', ClusterBallooning cfg n s = (Val result, s') /\
    replacement_count s' = default (replacement_count s) store /\
    s_allowReplacements s' = allow /\ s_calls s' = s_calls s /\ s_ru s' = s_ru s /\
    s_nodes s' = s_nodes s /\ s_cloud s' = s_cloud s /\ s_drain s' = s_drain s /\
    s_maps s' = s_maps s.
Proof.
  assert (exists b m, LoadOrStore (s_replacementNodes s) ReplacementNodesKey 0%Z
            = (replacement_count s, b, m) /\ m !! ReplacementNodesKey = Some (replacement_count s))
    as (b & m & HL & Hm).
  { unfold LoadOrStore, replacement_count.
    destruct (s_replacementNodes s !! ReplacementNodesKey) as [c|] eqn:Ec; eexists _, _;
      (split; [reflexivity|]); [done|by rewrite lookup_insert_eq]. }
  destruct (balloon_decide _ _ _ _) as [[result store] allow] eqn:Ed.
  unfold ClusterBallooning. rewrite (bind_val _ _ s s s) by done. rewrite HL.
  erewrite bind_val by reflexivity. rewrite Ed.
  destruct store as [k|]; eexists; (split; [reflexivity|]); unfold replacement_count at 1; cbn;
    unfold Store; rewrite ?lookup_insert_eq, ?Hm; repeat split; done.
Qed.

Lemma ClusterBallooning_emits (P : Call -> Prop) (cfg : Config) (n : Z) :
  preserves (emits P) (ClusterBallooning cfg n).
Proof. unfold ClusterBallooning, upd_replacementNodes. frame. Qed.

Lemma release_replacement_emits (P : Call -> Prop) : preserves (emits P) release_replacement.
Proof. unfold release_replacement, upd_replacementNodes. frame. Qed.

Lemma SetBatchStandBy_emits (P : Call -> Prop) (ids : list string) :
  (forall asg l, P (CallEnterStandby asg l false)) -> preserves (emits P) (SetBatchStandBy ids).
Proof. intros H. unfold SetBatchStandBy, SetInstancesStandBy. frame. Qed.

(** The standby loop: it calls for one chunk after the other, up to and
    including the first that fails. *)
Lemma standby_loop (asg : string) (chunks : list (list string)) (s : St) :
  exists r s' done, for_return chunks (fun b => SetInstancesStandBy b asg) s = (Val r, s') /\
    done `prefix_of` chunks /\ (r = None -> done = chunks) /\
    s_calls s' = s_calls s ++ map (fun b => CallEnterStandby asg b false) done.
Proof.
  revert s. induction chunks as [|c cs IH]; intros s; cbn [for_return].
  - exists None, s, []. split; [done|]. split; [done|]. split; [done|]. cbn. by rewrite app_nil_r.
  - destruct (SetInstancesStandBy_run c asg s) as (e & w & Hr). rewrite (bind_val _ _ _ _ _ Hr).
    destruct e as [e|].
    + exists (Some e). eexists _, [c]. split; [reflexivity|]. split; [by apply prefix_cons, prefix_nil|].
      by split.
    + destruct (IH (set_calls (s_calls s ++ [CallEnterStandby asg c false]) (set_world w s)))
        as (r & s' & d & -> & Hp & Hd & Hc).
      exists r, s', (c :: d). split; [done|]. split; [by apply prefix_cons|].
      split; [intros Hn; by rewrite Hd|]. rewrite Hc. cbn. by rewrite <- app_assoc.
Qed.

Lemma run_op_limit (cfg : Config) (op : ReplacementOp) (s : St) :
  (0 < cfg_MaxReplacementNodes cfg)%Z -> within_limit cfg s -> within_limit cfg (run_op cfg op s).
Proof.
  intros HM HW. destruct op as [allow n|]; cbn [run_op].
  - pose proof (ClusterBallooning_run cfg (Z.of_nat n) (set_allowReplacements allow s)) as H.
    destruct (balloon_decide _ _ _ _) as [[result store] al] eqn:Ed in H.
    destruct H as (s' & -> & Hc & _). unfold within_limit. cbn [snd]. rewrite Hc.
    change (replacement_count (set_allowReplacements allow s)) with (replacement_count s) in *.
    unfold within_limit in HW. unfold balloon_decide in Ed.
    repeat case_match; zbool; simplify_eq; cbn; lia.
  - unfold release_replacement, within_limit, replacement_count in *.
    rewrite (bind_val _ _ s s s) by done. unfold Load.
    destruct (s_replacementNodes s !! ReplacementNodesKey) as [c|] eqn:Ec; cbn in HW.
    + destruct (Z.ltb_spec 0 c).
      * unfold upd_replacementNodes, modify, mbind, M_bind.
        cbn [snd s_replacementNodes set_allowReplacements set_replacementNodes]. unfold Store.
        rewrite lookup_insert_eq. cbn. lia.
      * cbn. rewrite Ec. cbn. lia.
    + cbn. rewrite Ec. cbn. lia.
Qed.
End balloon_lemmas.

#[export] Hint Resolve ClusterBallooning_emits release_replacement_emits
  SetBatchStandBy_emits : frame.

(** ** Theorems *)
Section theorems.
Context `{E : Env}.

(** With a limit set, in a context that holds no
    grant yet and with the counter within the limit, the request for a batch is granted
    the smaller of the batch and the room that is left; the counter grows by
    exactly the grant, stays within the limit, and the caller is told to requeue
    exactly when nothing is granted. *)
Theorem ClusterBallooning_grant (cfg : Config) (n : Z) (s : St) :
  (0 < cfg_MaxReplacementNodes cfg)%Z -> (0 < n)%Z -> within_limit cfg s ->
  s_allowReplacements s = false ->
  let grant := Z.min n (cfg_MaxReplacementNodes cfg - replacement_count s) in
  exists s', ClusterBallooning cfg n s = (Val ((grant =? 0)%Z, grant), s') /\
    replacement_count s' = (replacement_count s + grant)%Z /\ within_limit cfg s'.
Proof.
  intros HM Hn HW Ha grant. pose proof (ClusterBallooning_run cfg n s) as H.
  destruct (balloon_decide _ _ _ _) as [[result store] al] eqn:Ed in H.
  destruct H as (s' & -> & Hc & _). exists s'.
  assert (result = ((grant =? 0)%Z, grant) /\
          default (replacement_count s) store = (replacement_count s + grant)%Z) as [-> Hg].
  { unfold within_limit in HW. unfold balloon_decide in Ed. rewrite Ha in Ed.
    set (c := replacement_count s) in *. set (Mx := cfg_MaxReplacementNodes cfg) in *.
    rewrite (proj2 (Z.eqb_neq Mx 0)) in Ed by lia.
    destruct (Z.leb_spec (c + n) Mx), (Z.ltb_spec (Mx - c) n), (Z.ltb_spec 0 (Mx - c));
      try lia; cbn in Ed; injection Ed as <- <- <-; cbn [default]; unfold id;
      (split; [|lia]); f_equal; [..|lia]; try lia; symmetry;
      (apply Z.eqb_neq; lia) || (apply Z.eqb_eq; lia). }
  split; [done|]. split; [by rewrite Hc|]. unfold within_limit in *. rewrite Hc, Hg.
  subst grant. lia.
Qed.

(** C24: requests and releases of any number of upgrades, in
    any order, never take the counter of replacement nodes out of 0..limit. *)
Theorem replacement_limit (cfg : Config) (ops : list ReplacementOp) (s : St) :
  (0 < cfg_MaxReplacementNodes cfg)%Z -> within_limit cfg s ->
  within_limit cfg (foldl (fun s op => run_op cfg op s) s ops).
Proof.
  intros HM. revert s. induction ops as [|op ops IH]; intros s HW; [done|].
  cbn. apply IH. by apply run_op_limit.
Qed.

(** The instances go to standby in requests of at
    most 19 (the limit of the API) and at least one instance each, in order;
    when no request fails the requests together cover the batch exactly, and after a failing
    one no further request is made. *)
Theorem SetBatchStandBy_spec (ids : list string) (s : St) :
  exists r s' chunks, SetBatchStandBy ids s = (Val r, s') /\
    s_calls s' = s_calls s ++
      map (fun b => CallEnterStandby (spec_AsgName (ru_Spec (s_ru s))) b false) chunks /\
    Forall (fun b => (1 <= zlen b <= 19)%Z) chunks /\
    concat chunks `prefix_of` ids /\ (r = None -> concat chunks = ids).
Proof.
  unfold SetBatchStandBy. rewrite (bind_val _ _ s s s) by done.
  destruct (GetChunks_total ids InstanceStandByLimit eq_refl) as (chunks & Hc & Hcat & HF).
  rewrite Hc.
  destruct (standby_loop (spec_AsgName (ru_Spec (s_ru s))) chunks s)
    as (r & s' & d & Hr & [rest Hp] & Hd & Hcalls).
  exists r, s', d. split; [done|]. split; [done|]. split; [|split].
  - rewrite Hp in HF. apply Forall_app in HF as [HF _]. eapply Forall_impl; [exact HF|].
    cbn. unfold InstanceStandByLimit. lia.
  - exists (concat rest). by rewrite <- concat_app, <- Hp.
  - intros Hn. by rewrite (Hd Hn).
Qed.
End theorems.

(** The load and the store of the counter are
    two operations, so two upgrades that both load before either stores are
    each granted the whole room: together they can put twice the limit of
    nodes into replacement. *)
Theorem interleaved_requests_exceed (Max : Z) :
  (0 < Max)%Z ->
  let '(grant1, grant2) := interleaved_grants Max 0 Max Max in
  grant1 = Max /\ grant2 = Max /\ (Max < grant1 + grant2)%Z.
Proof.
  intros HM. unfold interleaved_grants, balloon_decide.
  rewrite (proj2 (Z.eqb_neq Max 0)) by lia.
  rewrite Z.add_0_l, (proj2 (Z.leb_le Max Max)) by lia. cbn. lia.
Qed.

(** ** Witnesses *)
Lemma ClusterBallooning_grant_witness :
  let s := sample_state sample_scenario (sample_upgrade sample_strategy) in
  exists s', @ClusterBallooning (sample_env sample_scenario) sample_config 3 s
    = (Val (false, 2%Z), s') /\ replacement_count s' = 2%Z.
Proof.
  intros s.
  destruct (@ClusterBallooning_grant (sample_env sample_scenario) sample_config 3 s)
    as (s' & H & Hc & _).
  - reflexivity.
  - reflexivity.
  - split; vm_compute; discriminate.
  - reflexivity.
  - exists s'. split; [exact H|exact Hc].
Defined.

Lemma replacement_limit_witness :
  let s := sample_state sample_scenario (sample_upgrade sample_strategy) in
  (@replacement_count (sample_env sample_scenario)
     (foldl (fun s op => run_op sample_config op s) s
        [OpRequest false 5; OpRelease; OpRequest false 1; OpRequest true 7]) <= 2)%Z.
Proof.
  intros s.
  apply (@replacement_limit (sample_env sample_scenario) sample_config
    [OpRequest false 5; OpRelease; OpRequest false 1; OpRequest true 7] s).
  - reflexivity.
  - split; vm_compute; discriminate.
Defined.

Lemma interleaved_requests_exceed_witness :
  interleaved_grants 5 0 5 5 = (5, 5)%Z /\ (5 < 5 + 5)%Z.
Proof.
  split; [reflexivity|]. apply (interleaved_requests_exceed 5). lia.
Defined.
