(* ===== verification/Cordon.v ===== *)
(** * Early cordon: [CordonUncordonAllNodes] and what it calls
      (controllers/upgrade.go)

    A node that the controller cordons ahead of its turn is marked with an
    annotation, so that only those nodes are uncordoned later.  The annotation is
    written to a freshly fetched object; the cordon itself also changes the cached
    object. *)
From S2P Require Import Prelude GoStrings GoTime Common Types AwsProvider KubeProvider Metrics Env SampleEnv.
From S2P Require Import AwsClient KubeClient Cloud Drift.

Definition EarlyCordonAnnotationKey : string := "rollingupgrade.keikoproj.io/early-cordoned-by".
Definition EarlyCordonAnnotationValue : string := "upgrade-manager".
Definition maxRetries : nat := 3.
Definition conflict_message : string := "the object has been modified".

(** [node.Annotations != nil && node.Annotations[key] == value]. *)
Definition has_annotation (n : Node) : bool :=
  match node_Annotations n with
  | None => false
  | Some _ => String.eqb (map_read (node_Annotations n) EarlyCordonAnnotationKey)
                EarlyCordonAnnotationValue
  end.

Definition annotate (n : Node) : Node :=
  with_Annotations (Some (<[EarlyCordonAnnotationKey := EarlyCordonAnnotationValue]>
                            (default ∅ (node_Annotations n)))) n.

Definition remove_annotation (n : Node) : Node :=
  with_Annotations (delete EarlyCordonAnnotationKey <$> node_Annotations n) n.

(** [attempt < maxRetries && strings.Contains(err.Error(), ...)], where
    [rem] attempts are left after this one. *)
Definition retry_conflict (rem : nat) (err : error) : bool :=
  Nat.ltb 0 rem && Contains (Error err) conflict_message.

Section cordon.
Context `{E : Env}.

Definition NodesGet (name : string) : M St (Node + error) :=
  call (CallNodeGet name) (svc_NodeGet name).
Definition NodesUpdate (n : Node) : M St (Node + error) :=
  call (CallNodeUpdate n) (svc_NodeUpdate n).

(** The loop of [uncordonAndRemoveAnnotation]: the updated node object, or the
    error it returns with.  [attempts] are left to make. *)
Fixpoint remove_loop (attempts : nat) (name : string) : M St (option NodeObj + error) :=
  match attempts with
  | O => mret (inl None)
  | S rem =>
      r ← NodesGet name;
      match r with
      | inr err => mret (inr (Errorf ("failed to get current node object: " +:+ Error err)))
      | inl currentNodeObject =>
          r ← NodesUpdate (remove_annotation currentNodeObject);
          match r with
          | inl final => mret (inl (Some (Fetched final)))
          | inr err =>
              if retry_conflict rem err then remove_loop rem name
              else mret (inr (Errorf ("failed to remove annotation from node after 3 attempts: "
                                      +:+ Error err)))
          end
      end
  end.

Definition uncordonAndRemoveAnnotation (node : NodeObj) : M St (option error) :=
  n ← read_obj node;
  final ← (if has_annotation n then remove_loop maxRetries (node_Name n)
           else mret (inl (Some node)));
  match final with
  | inr err => mret (Some err)
  | inl finalNodeObject =>
      err ← CordonUncordonNode finalNodeObject true false;
      mret match err with
           | Some err => Some (Errorf ("failed to uncordon node: " +:+ Error err))
           | None => None
           end
  end.

(** The loop of [cordonAndAnnotateNode], after the node was cordoned. *)
Fixpoint annotate_loop (attempts : nat) (p : node_ptr) : M St (option error) :=
  match attempts with
  | O => mret (Some (Errorf "unexpected exit from retry loop"))
  | S rem =>
      n ← node_at p;
      r ← NodesGet (node_Name n);
      match r with
      | inr err =>
          if Nat.ltb 0 rem then annotate_loop rem p
          else
            _ ← uncordonAndRemoveAnnotation (Cached p);
            mret (Some (Errorf ("failed to get current node object after 3 attempts: "
                                +:+ Error err)))
      | inl currentNodeObject =>
          r ← NodesUpdate (annotate currentNodeObject);
          match r with
          | inl _ => mret None
          | inr err =>
              if retry_conflict rem err then annotate_loop rem p
              else
                _ ← uncordonAndRemoveAnnotation (Fetched (annotate currentNodeObject));
                mret (Some (Errorf ("failed to annotate node after 3 attempts: " +:+ Error err)))
          end
      end
  end.

Definition cordonAndAnnotateNode (p : node_ptr) : M St (option error) :=
  err ← CordonUncordonNode (Some (Cached p)) true true;
  match err with
  | Some err => mret (Some (Errorf ("failed to cordon node: " +:+ Error err)))
  | None => annotate_loop maxRetries p
  end.

(** What is done with the node of one instance: [None] when it is skipped. *)
Definition cordon_node (cordonNode : bool) (p : node_ptr) : M St (option (option error)) :=
  n ← node_at p;
  if cordonNode then
    if node_Unschedulable n then mret None
    else err ← cordonAndAnnotateNode p; mret (Some err)
  else
    if has_annotation n then err ← uncordonAndRemoveAnnotation (Cached p); mret (Some err)
    else mret None.

(** One iteration; the counters are [processedCount] and [errorCount]. *)
Definition cordon_instance (cordonNode : bool) (counts : Z * Z) (instance : Instance_)
  : M St (Z * Z) :=
  if is_terminating instance then mret counts
  else
    drifted ← (if cordonNode then instance_drifted instance else mret true);
    if negb drifted then mret counts
    else
      id ← lift (deref (inst_InstanceId instance));
      s ← get;
      match select_node id s with
      | None => mret counts
      | Some p =>
          r ← cordon_node cordonNode p;
          mret match r with
               | None => counts
               | Some (Some _) => (counts.1, counts.2 + 1)%Z
               | Some None => (counts.1 + 1, counts.2)%Z
               end
      end.

Definition CordonUncordonAllNodes (cordonNode : bool) : M St (bool * option error) :=
  s ← get;
  counts ← fold_m (cordon_instance cordonNode) (0, 0)%Z (asg_Instances (scaling_group s));
  let '(processedCount, errorCount) := counts in
  if (0 <? errorCount)%Z && (0 <? processedCount)%Z then mret (true, None)
  else if (errorCount =? 0)%Z then mret (true, None)
  else mret (false, Some (Errorf ("failed to process any nodes: " +:+ Itoa errorCount
                                  +:+ " errors encountered"))).

Definition cleanupEarlyCordonedNodes : M St unit :=
  _ ← CordonUncordonAllNodes false; mret tt.
End cordon.

(** ** Specification *)

(** kubectl's cordon changes nothing of the node object but its schedulability. *)
Class CordonLaws (E : Env) : Prop :=
  cordon_only : forall n b w, exists b', (svc_RunCordonOrUncordon n b w).1.2 = with_Unschedulable b' n.

(** The node API answers about the node it is asked about. *)
Class NodeApiLaws (E : Env) : Prop := {
  get_name : forall name w n w', svc_NodeGet name w = (inl n, w') -> node_Name n = name;
  update_name : forall n w n' w', svc_NodeUpdate n w = (inl n', w') -> node_Name n' = node_Name n;
}.

Section specification.
Context `{E : Env}.

(** The two states differ in the schedulability of the cached nodes only (and
    in the world, the trace). *)
Record same_but_schedulable (s s' : St) : Prop := {
  sb_ru : s_ru s' = s_ru s;
  sb_cloud : s_cloud s' = s_cloud s;
  sb_drain : s_drain s' = s_drain s;
  sb_maps : s_maps s' = s_maps s;
  sb_nodes : forall p, exists b, read_node (s_nodes s') p = with_Unschedulable b (read_node (s_nodes s) p);
}.

(** The node of a drifted, live instance of the group. *)
Definition early_cordon_target (s : St) (name : string) : Prop :=
  exists i id p, i ∈ asg_Instances (scaling_group s) /\ is_terminating i = false /\
    IsInstanceDrifted (s_ru s) (s_cloud s) (cluster_nodes s) i = Val true /\
    inst_InstanceId i = Some id /\ select_node id s = Some p /\
    node_Name (read_node (s_nodes s) p) = name.

(** The node of a live instance of the group that carries the annotation. *)
Definition early_cordoned (s : St) (name : string) : Prop :=
  exists i id p, i ∈ asg_Instances (scaling_group s) /\ is_terminating i = false /\
    inst_InstanceId i = Some id /\ select_node id s = Some p /\
    has_annotation (read_node (s_nodes s) p) = true /\
    node_Name (read_node (s_nodes s) p) = name.

(** The calls an early cordon may make, and those a cleanup may make. *)
Definition cordon_call (s : St) (c : Call) : Prop :=
  match c with
  | CallCordon name true => early_cordon_target s name
  | CallCordon name false => early_cordon_target s name
  | CallNodeGet name => early_cordon_target s name
  | CallNodeUpdate n => early_cordon_target s (node_Name n)
  | _ => False
  end.
Definition uncordon_call (s : St) (c : Call) : Prop :=
  match c with
  | CallCordon name false => early_cordoned s name
  | CallNodeGet name => early_cordoned s name
  | CallNodeUpdate n => early_cordoned s (node_Name n)
  | _ => False
  end.
(** Which calls a mode may make. *)
Definition mode_call (s : St) (cordonNode : bool) : Call -> Prop :=
  if cordonNode then cordon_call s else uncordon_call s.

(** The name of a node object. *)
Definition obj_named (s0 : St) (o : NodeObj) (name : string) : Prop :=
  match o with
  | Cached p => node_Name (read_node (s_nodes s0) p) = name
  | Fetched n => node_Name n = name
  end.
End specification.

(** ** Lemmas *)
Lemma with_Unschedulable_twice (b b' : bool) (n : Node) :
  with_Unschedulable b' (with_Unschedulable b n) = with_Unschedulable b' n.
Proof. done. Qed.

Lemma select_node_ext {UC : UnicodeCase} {P} (read read' : P -> Node) (x : string) (l : list P) :
  (forall p, GetNodeInstanceID (Some (read' p)) = GetNodeInstanceID (Some (read p))) ->
  SelectNodeByInstanceID read' x l = SelectNodeByInstanceID read x l.
Proof.
  intros H. induction l as [|p l IH]; [done|]. cbn [SelectNodeByInstanceID]. by rewrite H, IH.
Qed.

Section cordon_lemmas.
Context `{E : Env}.

#[export] Instance same_but_schedulable_refl : Reflexive same_but_schedulable.
Proof.
  intros s. split; try done. intros p. exists (node_Unschedulable (read_node (s_nodes s) p)).
  by destruct (read_node (s_nodes s) p).
Qed.

Lemma same_but_schedulable_memory (s0 s s' : St) :
  same_memory s s' -> same_but_schedulable s0 s -> same_but_schedulable s0 s'.
Proof.
  intros HM [H1 H2 H3 H4 H5]. destruct HM. split; try congruence. intros p.
  destruct (H5 p) as [b Hb]. exists b. congruence.
Qed.

Lemma select_node_same (s0 s : St) (x : string) :
  same_but_schedulable s0 s -> select_node x s = select_node x s0.
Proof.
  intros H. unfold select_node. rewrite (sb_cloud _ _ H). apply select_node_ext.
  intros p. by destruct (sb_nodes _ _ H p) as [b ->].
Qed.

(** Whether an instance is drifted does not depend on what is cordoned. *)
Lemma IsInstanceDrifted_same (s0 s : St) (i : Instance_) :
  same_but_schedulable s0 s ->
  IsInstanceDrifted (s_ru s) (s_cloud s) (cluster_nodes s) i =
  IsInstanceDrifted (s_ru s0) (s_cloud s0) (cluster_nodes s0) i.
Proof.
  intros H. unfold IsInstanceDrifted, cluster_nodes.
  rewrite (sb_ru _ _ H), (sb_cloud _ _ H), !SelectNode_map.
  rewrite (select_node_ext (id ∘ read_node (s_nodes s0)) (id ∘ read_node (s_nodes s))).
  - destruct (SelectNodeByInstanceID _ _ (ClusterNodes (s_cloud s0))) as [p|]; [|done]. cbn.
    by destruct (sb_nodes _ _ H p) as [b ->].
  - intros p. unfold compose. by destruct (sb_nodes _ _ H p) as [b ->].
Qed.

Section node_triples.
Context `{!CordonLaws E, !NodeApiLaws E} (s0 : St) (P : Call -> Prop) (nm : string).
Context (P_get : P (CallNodeGet nm)) (P_update : forall n, node_Name n = nm -> P (CallNodeUpdate n)).
Context (P_uncordon : P (CallCordon nm false)).

Abbreviation T := (triple (same_but_schedulable s0) P).

Lemma node_at_triple (p : node_ptr) :
  T (node_at p) (fun n => exists b, n = with_Unschedulable b (read_node (s_nodes s0) p)).
Proof.
  eapply triple_conseq; [apply triple_gets|]. cbn. intros n (s & Hs & ->). apply Hs.
Qed.

Lemma RunCordonOrUncordon_triple (o : NodeObj) (b : bool) :
  obj_named s0 o nm -> P (CallCordon nm b) -> T (RunCordonOrUncordon o b) (fun _ => True).
Proof.
  intros Ho HP. unfold RunCordonOrUncordon. destruct o as [p|n]; cbn in Ho.
  - eapply triple_bind; [apply node_at_triple|]. intros n [b0 ->].
    eapply triple_bind; [apply triple_call; [apply same_but_schedulable_memory|by rewrite <- Ho in HP]|].
    intros [e n'] (w & w' & Hw).
    destruct (cordon_only (with_Unschedulable b0 (read_node (s_nodes s0) p)) b w) as [b' Hb'].
    rewrite Hw in Hb'. cbn in Hb'. subst n'.
    eapply triple_bind; [|intros _ _; by apply triple_ret].
    apply triple_modify; [|done]. intros s [H1 H2 H3 H4 H5]. split; try done. intros q.
    unfold read_node in *. cbn. destruct (decide (p = q)) as [<-|N].
    + exists b'. by rewrite lookup_total_insert_eq.
    + rewrite lookup_total_insert_ne by done. apply H5.
  - apply (triple_bind _ _ _ _ (fun n' => node_Name n' = nm)); [by apply triple_ret|]. intros n' Hn'.
    eapply triple_bind; [apply triple_call; [apply same_but_schedulable_memory|by rewrite Hn']|].
    intros [e n''] _. apply (triple_bind _ _ _ _ (fun _ => True)); [by apply triple_ret|].
    intros _ _. by apply triple_ret.
Qed.

Lemma CordonUncordonNode_triple (o : option NodeObj) (client b : bool) :
  (forall o', o = Some o' -> obj_named s0 o' nm) -> P (CallCordon nm b) ->
  T (CordonUncordonNode o client b) (fun _ => True).
Proof.
  intros Ho HP. unfold CordonUncordonNode. destruct client; cbn [negb]; [|by apply triple_ret].
  destruct o as [o|]; [|by apply triple_ret].
  eapply triple_bind; [apply RunCordonOrUncordon_triple; [by apply Ho|done]|].
  intros e _. by apply triple_ret.
Qed.

Lemma NodesGet_triple :
  T (NodesGet nm) (fun r => forall n, r = inl n -> node_Name n = nm).
Proof.
  eapply triple_conseq; [apply triple_call; [apply same_but_schedulable_memory|done]|].
  intros r (w & w' & Hw) n ->. by apply get_name in Hw.
Qed.

Lemma NodesUpdate_triple (n : Node) :
  node_Name n = nm -> T (NodesUpdate n) (fun r => forall n', r = inl n' -> node_Name n' = nm).
Proof.
  intros Hn. eapply triple_conseq; [apply triple_call; [apply same_but_schedulable_memory|by apply P_update]|].
  intros r (w & w' & Hw) n' ->. apply update_name in Hw. congruence.
Qed.

Lemma remove_loop_triple (k : nat) :
  T (remove_loop k nm) (fun r => forall o, r = inl (Some o) -> obj_named s0 o nm).
Proof.
  induction k as [|k IH]; cbn [remove_loop]; [by apply triple_ret|].
  eapply triple_bind; [apply NodesGet_triple|]. intros [n|e] Hn; [|by apply triple_ret].
  eapply triple_bind; [apply NodesUpdate_triple; cbn; by apply Hn|].
  intros [n'|e] Hn'.
  - apply triple_ret. intros o [= <-]. cbn. by apply Hn'.
  - destruct (retry_conflict k e); [exact IH|]. by apply triple_ret.
Qed.

Lemma uncordonAndRemoveAnnotation_triple (o : NodeObj) :
  obj_named s0 o nm -> T (uncordonAndRemoveAnnotation o) (fun _ => True).
Proof.
  intros Ho. unfold uncordonAndRemoveAnnotation.
  apply (triple_bind _ _ _ _ (fun n => node_Name n = nm)).
  { destruct o as [p|n]; cbn in *; [|by apply triple_ret].
    eapply triple_conseq; [apply node_at_triple|]. by intros n [b ->]. }
  intros n Hn.
  apply (triple_bind _ _ _ _ (fun r => forall o, r = inl (Some o) -> obj_named s0 o nm)).
  { destruct (has_annotation n); [rewrite Hn; apply remove_loop_triple|].
    apply triple_ret. by intros o' [= <-]. }
  intros [final|e] Hf; [|by apply triple_ret].
  eapply triple_bind; [apply CordonUncordonNode_triple; [|done]|intros e _; by apply triple_ret].
  intros o' ->. by apply Hf.
Qed.

Lemma annotate_loop_triple (k : nat) (p : node_ptr) :
  node_Name (read_node (s_nodes s0) p) = nm -> T (annotate_loop k p) (fun _ => True).
Proof.
  intros Hp. induction k as [|k IH]; cbn [annotate_loop]; [by apply triple_ret|].
  eapply triple_bind; [apply node_at_triple|]. intros n [b ->]. cbn [node_Name with_Unschedulable].
  rewrite Hp. eapply triple_bind; [apply NodesGet_triple|]. intros [n|e] Hn.
  - eapply triple_bind; [apply NodesUpdate_triple; cbn; by apply Hn|]. intros [n'|e] _.
    + by apply triple_ret.
    + destruct (retry_conflict k e); [exact IH|].
      eapply triple_bind; [apply uncordonAndRemoveAnnotation_triple; cbn; by apply Hn|].
      intros _ _. by apply triple_ret.
  - destruct (Nat.ltb 0 k); [exact IH|].
    eapply triple_bind; [by apply uncordonAndRemoveAnnotation_triple|]. intros _ _. by apply triple_ret.
Qed.

Lemma cordonAndAnnotateNode_triple (p : node_ptr) :
  node_Name (read_node (s_nodes s0) p) = nm -> P (CallCordon nm true) ->
  T (cordonAndAnnotateNode p) (fun _ => True).
Proof.
  intros Hp HP. unfold cordonAndAnnotateNode.
  eapply triple_bind; [apply CordonUncordonNode_triple; [|done]|].
  - by intros o [= <-].
  - intros [e|] _; [by apply triple_ret|]. by apply annotate_loop_triple.
Qed.
End node_triples.

Section loop_triples.
Context `{!CordonLaws E, !NodeApiLaws E} (s0 : St).

Lemma cordon_instance_triple (cordonNode : bool) (counts : Z * Z) (i : Instance_) :
  i ∈ asg_Instances (scaling_group s0) ->
  triple (same_but_schedulable s0) (mode_call s0 cordonNode) (cordon_instance cordonNode counts i)
    (fun _ => True).
Proof.
  intros Hi. unfold cordon_instance. destruct (is_terminating i) eqn:Et; [by apply triple_ret|].
  apply (triple_bind _ _ _ _ (fun d => cordonNode = true ->
    IsInstanceDrifted (s_ru s0) (s_cloud s0) (cluster_nodes s0) i = Val d)).
  { destruct cordonNode; [|by apply triple_ret]. unfold instance_drifted.
    eapply triple_bind; [apply triple_get|]. intros s Hs.
    eapply triple_conseq; [apply triple_lift|]. cbn. intros d Hd _.
    by rewrite <- (IsInstanceDrifted_same s0 s). }
  intros [] Hd; cbn [negb]; [|by apply triple_ret].
  eapply triple_bind; [apply triple_lift|]. intros id Hid.
  destruct (inst_InstanceId i) as [id'|] eqn:Ei; [|done]. injection Hid as ->.
  eapply triple_bind; [apply triple_get|]. intros s Hs. rewrite (select_node_same _ _ _ Hs).
  destruct (select_node id s0) as [p|] eqn:Ep; [|by apply triple_ret].
  apply (triple_bind _ _ _ _ (fun _ => True)); [|intros r _; by apply triple_ret].
  unfold cordon_node. eapply triple_bind; [apply node_at_triple|]. intros n [b ->].
  destruct cordonNode; cbn [mode_call].
  - assert (early_cordon_target s0 (node_Name (read_node (s_nodes s0) p))) as HT
      by (exists i, id, p; repeat split; auto).
    destruct (node_Unschedulable _); [by apply triple_ret|].
    eapply triple_bind; [eapply cordonAndAnnotateNode_triple; cbn; try done|].
    + by intros n ->.
    + intros e _. by apply triple_ret.
  - destruct (has_annotation (with_Unschedulable b _)) eqn:Ea; [|by apply triple_ret].
    change (has_annotation (read_node (s_nodes s0) p) = true) in Ea.
    assert (early_cordoned s0 (node_Name (read_node (s_nodes s0) p))) as HT
      by (exists i, id, p; repeat split; auto).
    eapply triple_bind; [eapply uncordonAndRemoveAnnotation_triple; cbn; try done|].
    + by intros n ->.
    + intros e _. by apply triple_ret.
Qed.

Lemma CordonUncordonAllNodes_triple (cordonNode : bool) :
  let r := CordonUncordonAllNodes cordonNode s0 in
  same_but_schedulable s0 r.2 /\ emits (mode_call s0 cordonNode) s0 r.2.
Proof.
  intros r. unfold r, CordonUncordonAllNodes. rewrite (bind_val _ _ s0 s0 s0) by done.
  assert (triple (same_but_schedulable s0) (mode_call s0 cordonNode)
    (counts ← fold_m (cordon_instance cordonNode) (0, 0)%Z (asg_Instances (scaling_group s0));
     let '(processedCount, errorCount) := counts in
     if (0 <? errorCount)%Z && (0 <? processedCount)%Z then mret (true, None)
     else if (errorCount =? 0)%Z then mret (true, None)
     else mret (false, Some (Errorf ("failed to process any nodes: " +:+ Itoa errorCount
                                  +:+ " errors encountered")))) (fun _ => True)) as HT.
  { eapply triple_bind; [apply (triple_fold_m _ _ _ _ (fun _ => True)); [done|]|].
    - intros b x _ Hx. by apply cordon_instance_triple.
    - intros [a b] _. repeat case_match; by apply triple_ret. }
  destruct (HT s0 (reflexivity s0)) as (H1 & H2 & _). by split.
Qed.
End loop_triples.
End cordon_lemmas.

(** *** A cordon that succeeds *)
Section success.
Context `{E : Env}.

(** The last call of a successful annotation is an accepted update. *)
Lemma annotate_loop_success (k : nat) (p : node_ptr) (s s' : St) :
  annotate_loop k p s = (Val None, s') ->
  exists new n, s_calls s' = s_calls s ++ new ++ [CallNodeUpdate (annotate n)] /\
    exists w n' w', svc_NodeUpdate (annotate n) w = (inl n', w').
Proof.
  revert s. induction k as [|k IH]; intros s; cbn [annotate_loop]; [done|].
  rewrite (bind_val _ _ s s (read_node (s_nodes s) p)) by done.
  unfold NodesGet, call. set (nm := node_Name _). unfold mbind at 1, M_bind at 1.
  destruct (svc_NodeGet nm (s_world s)) as [[n|e] w] eqn:Eg.
  - unfold NodesUpdate, call, mbind at 1, M_bind at 1.
    destruct (svc_NodeUpdate (annotate n) _) as [[n'|e] w'] eqn:Eu.
    + intros [= <-]. exists [CallNodeGet nm], n. cbn. split; [by rewrite <- !app_assoc|]. eauto.
    + destruct (retry_conflict k e).
      * intros (new & m & Hc & Hw)%IH. exists ([CallNodeGet nm; CallNodeUpdate (annotate n)] ++ new), m.
        split; [|done]. rewrite Hc. cbn. by rewrite <- !app_assoc.
      * intros (x & s1 & _ & H)%bind_inv. done.
  - destruct (Nat.ltb 0 k).
    + intros (new & m & Hc & Hw)%IH. exists (CallNodeGet nm :: new), m. split; [|done].
      rewrite Hc. cbn. by rewrite <- !app_assoc.
    + intros (x & s1 & _ & H)%bind_inv. done.
Qed.

Lemma remove_loop_no_uncordon (k : nat) (name : string) :
  preserves (emits (fun c => forall nm, c <> CallCordon nm false)) (remove_loop k name).
Proof.
  induction k as [|k IH]; cbn [remove_loop]; unfold NodesGet, NodesUpdate; frame;
    apply call_emits; congruence.
Qed.

(** Without the right to update nodes, the removal loop never gets to its end. *)
Lemma remove_loop_refused (k : nat) (name : string) (s : St) :
  (forall n w, exists e w', svc_NodeUpdate n w = (inr e, w')) ->
  exists e, (remove_loop (S k) name s).1 = Val (inr e).
Proof.
  intros HU. revert s. induction k as [|k IH]; intros s; cbn [remove_loop];
    unfold NodesGet, call, mbind at 1, M_bind at 1;
    (destruct (svc_NodeGet name (s_world s)) as [[n|e] w]; [|by eexists]);
    unfold NodesUpdate, call, mbind at 1, M_bind at 1;
    match goal with |- context [ svc_NodeUpdate ?m ?v ] => destruct (HU m v) as (e & w' & ->) end.
  - unfold retry_conflict. cbn. by eexists.
  - destruct (retry_conflict (S k) e); [apply IH|by eexists].
Qed.

Lemma has_annotation_annotate (n : Node) : has_annotation (annotate n) = true.
Proof.
  unfold has_annotation, annotate, map_read. cbn. by rewrite lookup_insert_eq.
Qed.

Lemma remove_loop_memory (k : nat) (name : string) : preserves same_memory (remove_loop k name).
Proof. induction k as [|k IH]; cbn [remove_loop]; unfold NodesGet, NodesUpdate; frame; exact IH. Qed.

(** The rollback of a refused annotation fails before it uncordons. *)
Lemma rollback_refused (n : Node) (s : St) :
  (forall n w, exists e w', svc_NodeUpdate n w = (inr e, w')) ->
  exists e s', uncordonAndRemoveAnnotation (Fetched (annotate n)) s = (Val (Some e), s') /\
    s_nodes s' = s_nodes s /\ emits (fun c => forall name, c <> CallCordon name false) s s'.
Proof.
  intros HU. destruct (remove_loop_refused 2 (node_Name n) s HU) as [e He%run_val].
  pose proof (remove_loop_no_uncordon 3 (node_Name n) s) as HR.
  pose proof (remove_loop_memory 3 (node_Name n) s) as HM.
  exists e, (remove_loop 3 (node_Name n) s).2. unfold uncordonAndRemoveAnnotation, maxRetries, read_obj.
  rewrite (bind_ret_l (annotate n)), has_annotation_annotate. change (node_Name (annotate n)) with (node_Name n).
  rewrite (bind_val _ _ _ _ _ He). split; [done|]. split; [apply HM|done].
Qed.

Lemma annotate_loop_refused (k : nat) (p : node_ptr) (nm : string) (s : St) :
  (forall n w, exists e w', svc_NodeUpdate n w = (inr e, w')) ->
  (forall w, exists n w', svc_NodeGet nm w = (inl n, w')) ->
  node_Name (read_node (s_nodes s) p) = nm ->
  exists e s', annotate_loop k p s = (Val (Some e), s') /\ s_nodes s' = s_nodes s /\
    emits (fun c => forall name, c <> CallCordon name false) s s'.
Proof.
  intros HU HG. revert s. induction k as [|k IH]; intros s Hp; cbn [annotate_loop]; [by eexists _, s|].
  rewrite (bind_val _ _ s s (read_node (s_nodes s) p)) by done. rewrite Hp.
  unfold NodesGet, call, mbind at 1, M_bind at 1.
  destruct (HG (s_world s)) as (n1 & w1 & ->).
  unfold NodesUpdate, call, mbind at 1, M_bind at 1.
  match goal with |- context [ svc_NodeUpdate ?m ?v ] => destruct (HU m v) as (e & w' & ->) end.
  match goal with |- context [ _ ?t ] => match type of t with St =>
    lazymatch t with set_calls _ _ => set (s2 := t) end end end.
  assert (emits (fun c => forall name, c <> CallCordon name false) s s2) as H2.
  { exists [CallNodeGet nm; CallNodeUpdate (annotate n1)]. cbn.
    split; [by rewrite <- app_assoc|]. repeat constructor; discriminate. }
  destruct (retry_conflict k e).
  - destruct (IH s2 Hp) as (e' & s' & -> & Hn & HE). exists e', s'. split; [done|]. split; [done|by transitivity s2].
  - destruct (rollback_refused n1 s2 HU) as (e' & s' & Hr & Hn & HE). rewrite (bind_val _ _ _ _ _ Hr).
    eexists _, s'. split; [done|]. split; [done|by transitivity s2].
Qed.
End success.

(** ** Theorems *)
Section theorems.
Context `{E : Env}.

(** C28: an early cordon touches only the nodes of live drifted instances
    of its scaling group: it cordons, annotates and (to roll back) uncordons those and makes no
    other call; a cleanup uncordons only nodes of live instances of the group whose cached
    object carries the controller's annotation, and never cordons a node.  Of the cached
    nodes neither changes anything but their schedulability. *)
Theorem cordon_only_targets `{!CordonLaws E, !NodeApiLaws E} (s : St) :
  let cordoned := (CordonUncordonAllNodes true s).2 in
  let cleaned := (CordonUncordonAllNodes false s).2 in
  emits (cordon_call s) s cordoned /\ emits (uncordon_call s) s cleaned /\
  same_but_schedulable s cordoned /\ same_but_schedulable s cleaned.
Proof.
  intros cordoned cleaned. destruct (CordonUncordonAllNodes_triple s true) as [H1 H2].
  destruct (CordonUncordonAllNodes_triple s false) as [H3 H4]. done.
Qed.

(** When [cordonAndAnnotateNode] reports success,
    its first call cordoned the node and its last call is an update, accepted by the API,
    that carries the annotation: no node is left cordoned without a mark. *)
Theorem cordon_success_annotated (p : node_ptr) (s s' : St) :
  cordonAndAnnotateNode p s = (Val None, s') ->
  exists new n, s_calls s' = s_calls s ++ CallCordon (node_Name (read_node (s_nodes s) p)) true :: new
      ++ [CallNodeUpdate (annotate n)] /\
    has_annotation (annotate n) = true /\
    exists w n' w', svc_NodeUpdate (annotate n) w = (inl n', w').
Proof.
  unfold cordonAndAnnotateNode, CordonUncordonNode, RunCordonOrUncordon. cbn [negb].
  intros (err & s1 & H1 & H)%bind_inv. destruct err as [e|]; [done|].
  apply bind_inv in H1 as (err & s2 & H1 & H2). injection H2 as H2 <-.
  destruct err as [e|]; [done|]. clear H2.
  assert (s_calls s2 = s_calls s ++ [CallCordon (node_Name (read_node (s_nodes s) p)) true]) as Hc.
  { revert H1. unfold read_obj, node_at, gets, call, mbind, M_bind.
    destruct (svc_RunCordonOrUncordon _ _ _) as [[e n] w]. by intros [= -> <-]. }
  apply annotate_loop_success in H as (new & n & Hn & Hw). exists new, n.
  split; [|split; [apply has_annotation_annotate|done]].
  rewrite Hn, Hc. by rewrite <- app_assoc.
Qed.

(** C37: when the API server answers requests for the
    node but refuses node updates (the generated role has no update right on nodes), an early
    cordon of the node leaves it cordoned: [cordonAndAnnotateNode] cordons the node, fails to annotate
    it and returns an error, makes no call that uncordons any node, since the rollback first tries to
    remove the annotation that was never stored, and the node is still unschedulable at the end. *)
Theorem refused_update_stays_cordoned (p : node_ptr) (s : St) (w : World) :
  let n := read_node (s_nodes s) p in
  (forall m w, exists e w', svc_NodeUpdate m w = (inr e, w')) ->
  (forall w, exists m w', svc_NodeGet (node_Name n) w = (inl m, w')) ->
  svc_RunCordonOrUncordon n true (s_world s) = ((None, with_Unschedulable true n), w) ->
  exists err s' new, cordonAndAnnotateNode p s = (Val (Some err), s') /\
    s_calls s' = s_calls s ++ CallCordon (node_Name n) true :: new /\
    Forall (fun c => forall name, c <> CallCordon name false) new /\
    node_Unschedulable (read_node (s_nodes s') p) = true.
Proof.
  intros n HU HG HC.
  set (s1 := set_nodes (<[p := with_Unschedulable true n]> (s_nodes s))
    (set_calls (s_calls s ++ [CallCordon (node_Name n) true]) (set_world w s))).
  assert (CordonUncordonNode (Some (Cached p)) true true s = (Val None, s1)) as H1.
  { unfold CordonUncordonNode, RunCordonOrUncordon, read_obj, node_at, gets, call, mbind, M_bind. cbn.
    fold n. rewrite HC. done. }
  assert (read_node (s_nodes s1) p = with_Unschedulable true n) as Hr.
  { unfold read_node. cbn. by rewrite lookup_total_insert_eq. }
  destruct (annotate_loop_refused maxRetries p (node_Name n) s1 HU HG) as (e & s' & HE & Hn & new & Hc & HF);
    [by rewrite Hr|].
  exists e, s', new. unfold cordonAndAnnotateNode. rewrite (bind_val _ _ _ _ _ H1). split; [done|].
  split; [rewrite Hc; cbn; by rewrite <- app_assoc|]. split; [done|]. by rewrite Hn, Hr.
Qed.

(** The annotation is not written to the cached
    node, so an uncordon of the same reconcile (as after a failed rotation)
    skips every node the early cordon has just cordoned: it makes no call at
    all when no cached node of the group was annotated before. *)
Theorem early_cordon_not_undone `{!CordonLaws E, !NodeApiLaws E} (s : St) :
  (forall name, ~ early_cordoned s name) ->
  let s1 := (CordonUncordonAllNodes true s).2 in
  s_calls (CordonUncordonAllNodes false s1).2 = s_calls s1.
Proof.
  intros HN s1. destruct (CordonUncordonAllNodes_triple s true) as [HS _]. fold s1 in HS.
  destruct (CordonUncordonAllNodes_triple s1 false) as [_ (new & Hc & HF)].
  rewrite Hc. destruct new as [|c new]; [by rewrite app_nil_r|]. exfalso.
  assert (forall name, ~ early_cordoned s1 name) as HN1.
  { intros name (i & id & p & H1 & H2 & H3 & H4 & H5 & H6). apply (HN name).
    exists i, id, p. unfold scaling_group in *. rewrite (sb_ru _ _ HS), (sb_cloud _ _ HS) in H1.
    rewrite (select_node_same _ _ _ HS) in H4. destruct (sb_nodes _ _ HS p) as [b Hb].
    rewrite Hb in H5, H6. by repeat split. }
  inversion_clear HF as [|? ? Hcall _]. cbn [mode_call] in Hcall.
  destruct c; cbn in Hcall; try done; try (destruct desired; [done|]); by eapply HN1.
Qed.
End theorems.

(** ** Witnesses *)
#[export] Instance sample_cordon_laws (sc : Scenario) : CordonLaws (sample_env sc).
Proof.
  intros n b w. cbn. destruct (sc_fails sc _); cbn; [|by exists b].
  exists (node_Unschedulable n). by destruct n.
Qed.

#[export] Instance sample_node_laws (sc : Scenario) : NodeApiLaws (sample_env sc).
Proof.
  split; cbn.
  - intros name w n w'. destruct (sc_fails sc _); [done|]. unfold find_node.
    destruct (List.find _ _) as [m|] eqn:Ef; [|done]. intros [= <- <-].
    apply find_some in Ef as [_ Ef]. by apply String.eqb_eq.
  - intros n w n' w'. destruct (sc_fails sc _); [done|]. by intros [= <- <-].
Qed.

Lemma cordon_only_targets_witness :
  let s := set_nodes (annotate <$> sample_heap sample_nodes)
             (sample_state sample_scenario (sample_upgrade sample_strategy)) in
  emits (uncordon_call s) s (@CordonUncordonAllNodes (sample_env sample_scenario) false s).2 /\
  length (s_calls (@CordonUncordonAllNodes (sample_env sample_scenario) false s).2) = 9%nat.
Proof.
  intros s. split; [apply (@cordon_only_targets (sample_env sample_scenario) _ _ s)|].
  vm_compute. reflexivity.
Defined.

Lemma cordon_success_annotated_witness :
  let s := sample_state sample_scenario (sample_upgrade sample_strategy) in
  exists new n, s_calls (@cordonAndAnnotateNode (sample_env sample_scenario) 0 s).2
    = CallCordon "node-1" true :: new ++ [CallNodeUpdate (annotate n)].
Proof.
  intros s.
  destruct (@cordon_success_annotated (sample_env sample_scenario) 0 s
    (@cordonAndAnnotateNode (sample_env sample_scenario) 0 s).2) as (new & n & H & _).
  - apply run_val. vm_compute. reflexivity.
  - exists new, n. exact H.
Defined.

Lemma refused_update_stays_cordoned_witness :
  let s := sample_state refusing_scenario (sample_upgrade sample_strategy) in
  exists err s' new, @cordonAndAnnotateNode (sample_env refusing_scenario) 0 s = (Val (Some err), s') /\
    s_calls s' = CallCordon "node-1" true :: new /\
    Forall (fun c => forall name, c <> CallCordon name false) new /\
    node_Unschedulable (read_node (s_nodes s') 0) = true.
Proof.
  intros s.
  apply (@refused_update_stays_cordoned (sample_env refusing_scenario) 0 s 1000%Z).
  - intros n w. eexists _, w. reflexivity.
  - intros w. eexists _, w. vm_compute. reflexivity.
  - vm_compute. reflexivity.
Defined.

Lemma early_cordon_not_undone_witness :
  let s := sample_state sample_scenario (sample_upgrade sample_strategy) in
  let s1 := (@CordonUncordonAllNodes (sample_env sample_scenario) true s).2 in
  s_calls (@CordonUncordonAllNodes (sample_env sample_scenario) false s1).2 = s_calls s1 /\
  map node_Unschedulable (cluster_nodes s1) = [true; true; true].
Proof.
  intros s s1. split; [|vm_compute; reflexivity].
  apply (@early_cordon_not_undone (sample_env sample_scenario) _ _ s).
  intros name (i & id & p & _ & _ & _ & Hp & Ha & _).
  apply SelectNode_Some in Hp as [Hp _]. cbn in Hp.
  repeat (apply elem_of_cons in Hp as [->|Hp]; [vm_compute in Ha; discriminate Ha|]).
  by apply not_elem_of_nil in Hp.
Defined.
