(* ===== verification/Drain.v ===== *)
(** * Draining: the goroutines of [ReplaceNodeBatch] and the select that waits
      for them (controllers/upgrade.go), with the bookkeeping they share
      (controllers/metrics.go)

    A goroutine is a [DrainWorker] with a program counter; it runs from one
    point where it can block to the next in one step.  The wait group is its
    counter, and the channel of errors is unbuffered, so a worker that
    has an error to report stays at a sending program counter until the select
    receives from it, in this or in a later reconcile.  The schedule is a
    list of events the environment chooses; when it ends, the timer of the select
    fires. *)
From S2P Require Import Prelude GoStrings GoTime Common Types AwsProvider KubeProvider Metrics Env SampleEnv.
From S2P Require Import AwsClient KubeClient Cloud Steps Drift Cordon.

Section bookkeeping.
Context `{E : Env}.

(** The status map of the resource, and the in-processing map of a call. *)
Definition status_map (s : St) : gmap string NodeInProcessing :=
  default ∅ (st_NodeInProcessing (ru_Status (s_ru s))).
Definition in_processing (s : St) (cm : CallMaps) : gmap string NodeInProcessing :=
  default (status_map s) (cm_inProcessing cm).

(** Write the maps of call [c] and the metrics back; an aliased map is written
    through to the status. *)
Definition store_steps (c : nat) (cm : CallMaps) (r : StepState) (s : St) : St :=
  let s := set_metrics (ss_metrics r) s in
  match cm_inProcessing cm with
  | Some _ => set_maps (<[c := mkCallMaps (Some (ss_inProcessing r)) (ss_nodeSteps r)]> (s_maps s)) s
  | None =>
      set_ru (with_Status (with_NodeInProcessing (Some (ss_inProcessing r))) (s_ru s))
        (set_maps (<[c := mkCallMaps None (ss_nodeSteps r)]> (s_maps s)) s)
  end.

(** [DoNodeStep] on the maps of call [c]: it reads the clock twice when the node
    is new to the map. *)
Definition DoNodeStepAt (c : nat) (groupName nodeName stepName : string) (endTime : Time)
  : M St unit :=
  s ← get;
  match s_maps s !! c with
  | None => mret tt
  | Some cm =>
      now1 ← (match in_processing s cm !! nodeName with None => Now | Some _ => mret zero_time end);
      now2 ← (match in_processing s cm !! nodeName with None => Now | Some _ => mret zero_time end);
      modify (fun s => store_steps c cm
        (DoNodeStep now1 now2 groupName nodeName stepName endTime
           (mkStepState (in_processing s cm) (cm_nodeSteps cm) (s_metrics s))) s)
  end.

Definition NodeStep (c : nat) (groupName nodeName stepName : string) : M St unit :=
  now ← Now; DoNodeStepAt c groupName nodeName stepName now.

(** Every call that works on the map of the status gets that map to itself. *)
Definition detach (s : St) (maps : list CallMaps) : list CallMaps :=
  map (fun cm => mkCallMaps (Some (in_processing s cm)) (cm_nodeSteps cm)) maps.

(** [UpdateMetricsStatus]: from now on the status holds the map of call [c]. *)
Definition UpdateMetricsStatus (c : nat) : M St unit :=
  s ← get;
  match s_maps s !! c with
  | None => mret tt
  | Some cm =>
      keys ← range_map (in_processing s cm);
      steps ← range_map (cm_nodeSteps cm);
      modify (fun s =>
        let st := UpdateLastBatchNodes (in_processing s cm) (map fst keys) (ru_Status (s_ru s)) in
        let st := with_Statistics (UpdateStatistics (map snd steps) (st_Statistics st)) st in
        let maps := match cm_inProcessing cm with
                    | None => s_maps s
                    | Some _ => <[c := mkCallMaps None (cm_nodeSteps cm)]> (detach s (s_maps s))
                    end in
        set_ru (with_Status (fun _ => st) (s_ru s)) (set_maps maps s))
  end.
End bookkeeping.

(** ** The goroutine *)
Definition with_pc (pc : DrainPc) (w : DrainWorker) : DrainWorker :=
  mkWorker (dw_instanceID w) (dw_nodeName w) (dw_upgrade w) (dw_nodes w) (dw_drainTimeout w)
    (dw_ignoreDrainFailures w) (dw_call w) pc.

(** Has the goroutine returned? *)
Definition is_done (w : DrainWorker) : bool := match dw_pc w with PcDone => true | _ => false end.

Definition worker_target (w : DrainWorker) : ScriptTarget :=
  mkScriptTarget (dw_instanceID w) (dw_nodeName w) (dw_upgrade w).

Definition failed_message (what : string) (id : string) (err : error) : error :=
  Errorf (what +:+ " failed: instanceID - " +:+ id +:+ ", " +:+ Error err).

Section workers.
Context `{E : Env}.

(** Move worker [i] on; the deferred [DrainGroup.Done()] runs when it returns. *)
Definition set_worker_pc (i : nat) (pc : DrainPc) : M St unit :=
  modify (fun s =>
    match dm_workers (s_drain s) !! i with
    | None => s
    | Some w =>
        let n := match pc with PcDone => (DrainGroup (s_drain s) - 1)%Z | _ => DrainGroup (s_drain s) end in
        set_drain (mkDrainManager n (<[i := with_pc pc w]> (dm_workers (s_drain s)))) s
    end).

Definition worker_step (w : DrainWorker) (stepName : string) : M St unit :=
  NodeStep (dw_call w) (spec_AsgName (ru_Spec (dw_upgrade w))) (dw_nodeName w) stepName.

(** The drain part of the body: where it goes next. *)
Definition drain_part (w : DrainWorker) : M St DrainPc :=
  s ← get;
  match SelectNodeByInstanceID (read_node (s_nodes s)) (dw_instanceID w) (dw_nodes w) with
  | None => mret PcPostDrain
  | Some p =>
      worker_step w NodeRotationDrain ;;;
      err ← DrainNode (Some (Cached p)) (dw_drainTimeout w) true;
      match err with
      | None => mret PcPostDrain
      | Some err =>
          if negb (dw_ignoreDrainFailures w) then
            _ ← TagEC2instances [dw_instanceID w] instanceStateTagKey failedDrainTagValue;
            mret (PcSendDrain (failed_message "DrainNode" (dw_instanceID w) err))
          else mret PcPostDrain
      end
  end.

(** Where a worker goes from a point where it is not blocked. *)
Definition worker_body (w : DrainWorker) : M St DrainPc :=
  match dw_pc w with
  | PcPreDrain =>
      worker_step w NodeRotationPredrainScript ;;;
      err ← PreDrain (worker_target w);
      mret match err with
           | Some err => PcSendPreDrain (failed_message "PreDrain" (dw_instanceID w) err)
           | None => PcDrain
           end
  | PcDrain => drain_part w
  | PcPostDrain =>
      worker_step w NodeRotationPostdrainScript ;;;
      err ← PostDrain (worker_target w);
      mret match err with
           | Some err => PcSendPostDrain (failed_message "PostDrain" (dw_instanceID w) err)
           | None => PcPostWait
           end
  | PcPostWait =>
      worker_step w NodeRotationPostWait ;;;
      err ← PostWait (worker_target w);
      mret match err with
           | Some err => PcSendPostWait (failed_message "PostWait" (dw_instanceID w) err)
           | None => PcDone
           end
  | pc => mret pc
  end.

(** Can it run, or is it blocked or finished? *)
Definition runnable (pc : DrainPc) : bool :=
  match pc with PcPreDrain | PcDrain | PcPostDrain | PcPostWait => true | _ => false end.

Definition run_worker (i : nat) : M St unit :=
  s ← get;
  match dm_workers (s_drain s) !! i with
  | None => mret tt
  | Some w =>
      if runnable (dw_pc w) then pc ← worker_body w; set_worker_pc i pc else mret tt
  end.

(** The error a worker is blocked on, and where it goes once it is received. *)
Definition sending (pc : DrainPc) : option (error * DrainPc) :=
  match pc with
  | PcSendPreDrain e => Some (e, PcDrain)
  | PcSendDrain e => Some (e, PcDone)
  | PcSendPostDrain e => Some (e, PcPostWait)
  | PcSendPostWait e => Some (e, PcDone)
  | _ => None
  end.

Definition recv_worker (i : nat) : M St (option error) :=
  s ← get;
  match dm_workers (s_drain s) !! i with
  | None => mret None
  | Some w =>
      match sending (dw_pc w) with
      | None => mret None
      | Some (err, pc) => set_worker_pc i pc ;;; mret (Some err)
      end
  end.

(** ** The select *)
Inductive Awaited := DrainError (err : error) | Drained | StillDraining.

Fixpoint await (schedule : list SchedEvent) : M St Awaited :=
  match schedule with
  | [] => mret StillDraining
  | EvTimeout :: _ => mret StillDraining
  | EvRun i :: rest => run_worker i ;;; await rest
  | EvRecv i :: rest =>
      err ← recv_worker i;
      match err with Some err => mret (DrainError err) | None => await rest end
  | EvDone :: rest =>
      s ← get;
      if (DrainGroup (s_drain s) =? 0)%Z then mret Drained else await rest
  end.

(** What the goroutines of earlier reconciles do meanwhile. *)
Definition background : M St unit :=
  order ← ask svc_background; for_each order run_worker.

(** ** Launching *)
Definition drain_timeout (cfg : Config) (ru : RollingUpgrade) : Z :=
  match DrainTimeout ru with None => cfg_DrainTimeout cfg | Some t => t end.
Definition ignore_drain_failures (cfg : Config) (ru : RollingUpgrade) : bool :=
  match IsIgnoreDrainFailures ru with None => cfg_IgnoreDrainFailures cfg | Some b => b end.

(** [DrainGroup.Add(1)] and the [go] statement, for one target. *)
Definition launch_one (cfg : Config) (c : nat) (target : Instance_) : M St unit :=
  s ← get;
  match select_node (instance_id target) s with
  | None => mret tt
  | Some p =>
      let w := mkWorker (instance_id target) (node_Name (read_node (s_nodes s) p)) (s_ru s)
                 (ClusterNodes (s_cloud s)) (drain_timeout cfg (s_ru s))
                 (ignore_drain_failures cfg (s_ru s)) c PcPreDrain in
      modify (fun s => set_drain (mkDrainManager (DrainGroup (s_drain s) + 1)
                                    (dm_workers (s_drain s) ++ [w])) s)
  end.

Definition launch (cfg : Config) (c : nat) (batch : list Instance_) : M St unit :=
  for_each batch (launch_one cfg c).
End workers.

(** ** Specification *)

(** How many goroutines have not returned. *)
Definition live_workers (ws : list DrainWorker) : nat :=
  length (List.filter (fun w => negb (is_done w)) ws).

(** The wait group counts the goroutines that have not returned. *)
Definition group_ok `{Env} (s : St) : Prop :=
  DrainGroup (s_drain s) = Z.of_nat (live_workers (dm_workers (s_drain s))).

(** Past the drain, on the way that leads to termination. *)
Definition past_drain (pc : DrainPc) : bool :=
  match pc with
  | PcPostDrain | PcSendPostDrain _ | PcPostWait | PcSendPostWait _ | PcDone => true
  | _ => false
  end.

(** The calls a goroutine may make. *)
Definition drain_call (c : Call) : Prop :=
  match c with
  | CallExec _ _ | CallCordon _ true | CallDrain _ _ => True
  | CallCreateTags _ _ value => value = failedDrainTagValue
  | _ => False
  end.

(** The calls the goroutine of an instance may make: it tags no other instance. *)
Definition worker_call (id : string) (c : Call) : Prop :=
  drain_call c /\
  match c with CallCreateTags ids key _ => ids = [id] /\ key = instanceStateTagKey | _ => True end.

(** [group_ok] as a relation, so that the framing rules carry it along. *)
Definition keeps_group `{Env} (s s' : St) : Prop := group_ok s -> group_ok s'.

(** What the goroutines leave alone: nothing of the cached nodes changes but
    their schedulability, the cloud, the spec and the creation time stay, and the trace only
    grows. *)
Record quiet `{Env} (s s' : St) : Prop := {
  q_nodes : forall p, exists b, read_node (s_nodes s') p = with_Unschedulable b (read_node (s_nodes s) p);
  q_cloud : s_cloud s' = s_cloud s;
  q_spec : ru_Spec (s_ru s') = ru_Spec (s_ru s);
  q_created : ru_CreationTimestamp (s_ru s') = ru_CreationTimestamp (s_ru s);
  q_calls : s_calls s `prefix_of` s_calls s';
}.

(** The node of a worker is in the cache under the name it was launched with, and
    once the worker is past the drain the drain was requested (unless failures
    are ignored), by a call after the first [base] of the trace. *)
Record worker_inv `{Env} (base : nat) (s : St) (w : DrainWorker) : Prop := {
  wi_base : (base <= length (s_calls s))%nat;
  wi_node : exists p, SelectNodeByInstanceID (read_node (s_nodes s)) (dw_instanceID w) (dw_nodes w)
                        = Some p /\ node_Name (read_node (s_nodes s) p) = dw_nodeName w;
  wi_drained : past_drain (dw_pc w) = true -> dw_ignoreDrainFailures w = false ->
    CallDrain (dw_nodeName w) (seconds (dw_drainTimeout w)) ∈ drop base (s_calls s);
}.

(** All the workers from index [k] on satisfy it. *)
Definition drained_inv `{Env} (base k : nat) (s : St) : Prop :=
  forall i w, (k <= i)%nat -> dm_workers (s_drain s) !! i = Some w -> worker_inv base s w.

(** ** Lemmas *)

(** *** Framing: the drain manager and the trace *)
Section keeps_lemmas.
Context `{E : Env}.

Lemma ask_keeps_drain {A} (f : World -> A * World) : preserves (keeps s_drain) (ask f).
Proof. intros s. exact (sm_drain _ _ (ask_memory f s)). Qed.

Lemma call_keeps_drain {A} (c : Call) (f : World -> A * World) :
  preserves (keeps s_drain) (call c f).
Proof. intros s. exact (sm_drain _ _ (call_memory c f s)). Qed.

Lemma modify_keeps_drain (f : St -> St) :
  (forall s, s_drain (f s) = s_drain s) -> preserves (keeps s_drain) (modify f).
Proof. intros H s. apply H. Qed.

Lemma store_steps_keeps (c : nat) (cm : CallMaps) (r : StepState) (s : St) :
  s_drain (store_steps c cm r s) = s_drain s /\ s_calls (store_steps c cm r s) = s_calls s /\
  s_nodes (store_steps c cm r s) = s_nodes s /\ s_cloud (store_steps c cm r s) = s_cloud s /\
  ru_Spec (s_ru (store_steps c cm r s)) = ru_Spec (s_ru s) /\
  ru_CreationTimestamp (s_ru (store_steps c cm r s)) = ru_CreationTimestamp (s_ru s) /\
  CurrentStatus (s_ru (store_steps c cm r s)) = CurrentStatus (s_ru s).
Proof. unfold store_steps. by destruct (cm_inProcessing cm). Qed.

Hint Resolve ask_keeps_drain call_keeps_drain : frame.

Lemma NodeStep_keeps_drain (c : nat) (g n st : string) :
  preserves (keeps s_drain) (NodeStep c g n st).
Proof.
  unfold NodeStep, DoNodeStepAt, Now. frame.
  apply modify_keeps_drain. intros s. apply store_steps_keeps.
Qed.

Lemma NodeStep_emits (P : Call -> Prop) (c : nat) (g n st : string) :
  preserves (emits P) (NodeStep c g n st).
Proof.
  unfold NodeStep, DoNodeStepAt, Now. frame.
  apply modify_emits. intros s. apply store_steps_keeps.
Qed.

Lemma DoNodeStepAt_emits (P : Call -> Prop) (c : nat) (g n st : string) (t : Time) :
  preserves (emits P) (DoNodeStepAt c g n st t).
Proof.
  unfold DoNodeStepAt, Now. frame. apply modify_emits. intros s. apply store_steps_keeps.
Qed.

Lemma UpdateMetricsStatus_emits (P : Call -> Prop) (c : nat) :
  preserves (emits P) (UpdateMetricsStatus c).
Proof. unfold UpdateMetricsStatus, range_map. frame. Qed.

Hint Resolve NodeStep_keeps_drain NodeStep_emits : frame.

Lemma worker_body_keeps_drain (w : DrainWorker) : preserves (keeps s_drain) (worker_body w).
Proof.
  unfold worker_body, worker_step, PreDrain, PostDrain, PostWait, run_hook, runScript, drain_part,
    worker_step, DrainNode, RunCordonOrUncordon, read_obj, write_obj, node_at, write_node,
    TagEC2instances.
  frame; by apply modify_keeps_drain.
Qed.

Lemma worker_body_call (w : DrainWorker) :
  preserves (emits (worker_call (dw_instanceID w))) (worker_body w).
Proof.
  unfold worker_body, worker_step, PreDrain, PostDrain, PostWait, drain_part, worker_step,
    TagEC2instances.
  frame; try (apply run_hook_emits; done); try (apply DrainNode_emits; done).
  by apply call_emits.
Qed.

Lemma worker_body_emits (w : DrainWorker) : preserves (emits drain_call) (worker_body w).
Proof.
  intros s. destruct (worker_body_call w s) as (new & Hn & HF). exists new. split; [done|].
  eapply Forall_impl; [exact HF|]. by intros c [H _].
Qed.

Lemma set_worker_pc_emits (P : Call -> Prop) (i : nat) (pc : DrainPc) :
  preserves (emits P) (set_worker_pc i pc).
Proof. apply modify_emits. intros s. by destruct (dm_workers (s_drain s) !! i). Qed.

Hint Resolve worker_body_emits set_worker_pc_emits : frame.

Lemma run_worker_emits (i : nat) : preserves (emits drain_call) (run_worker i).
Proof. unfold run_worker. frame. Qed.

Lemma recv_worker_emits (P : Call -> Prop) (i : nat) : preserves (emits P) (recv_worker i).
Proof. unfold recv_worker. frame. Qed.

Hint Resolve run_worker_emits recv_worker_emits : frame.

Lemma await_emits (l : list SchedEvent) : preserves (emits drain_call) (await l).
Proof. induction l as [|[i|i| |] l IH]; cbn [await]; frame; exact IH. Qed.

Lemma background_emits : preserves (emits drain_call) background.
Proof. unfold background. frame. Qed.

Lemma launch_emits (P : Call -> Prop) (cfg : Config) (c : nat) (batch : list Instance_) :
  preserves (emits P) (launch cfg c batch).
Proof. unfold launch, launch_one. frame. Qed.
End keeps_lemmas.

#[export] Hint Resolve NodeStep_emits DoNodeStepAt_emits UpdateMetricsStatus_emits run_worker_emits
  recv_worker_emits await_emits background_emits launch_emits : frame.

(** *** The wait group *)
Lemma live_workers_insert (ws : list DrainWorker) (i : nat) (w w' : DrainWorker) :
  ws !! i = Some w ->
  (live_workers (<[i := w']> ws) + (if is_done w then 0 else 1)
   = live_workers ws + (if is_done w' then 0 else 1))%nat.
Proof.
  unfold live_workers. revert i. induction ws as [|x ws IH]; intros [|i];
    cbn [lookup list_lookup insert list_insert List.filter]; [done|done| |].
  - intros [= ->]. destruct (is_done w), (is_done w'); cbn [negb length]; lia.
  - intros H. specialize (IH i H). destruct (is_done x); cbn [negb length]; unfold insert in *; lia.
Qed.

Section group_lemmas.
Context `{E : Env}.

Lemma set_worker_pc_group (i : nat) (pc : DrainPc) (w : DrainWorker) (s : St) :
  dm_workers (s_drain s) !! i = Some w -> is_done w = false -> group_ok s ->
  group_ok (set_worker_pc i pc s).2.
Proof.
  intros Hw Hd HG. unfold set_worker_pc, modify. cbn [snd]. rewrite Hw. unfold group_ok in *.
  cbn [s_drain set_drain DrainGroup dm_workers].
  pose proof (live_workers_insert _ i w (with_pc pc w) Hw) as HL. rewrite Hd in HL.
  destruct pc; cbn [is_done with_pc dw_pc] in HL; lia.
Qed.

Lemma runnable_live (w : DrainWorker) : runnable (dw_pc w) = true -> is_done w = false.
Proof. unfold is_done. by destruct (dw_pc w). Qed.

Lemma sending_live (w : DrainWorker) r : sending (dw_pc w) = Some r -> is_done w = false.
Proof. unfold is_done. by destruct (dw_pc w). Qed.

#[export] Instance keeps_group_preorder : PreOrder keeps_group.
Proof. split; unfold keeps_group; auto. Qed.

Lemma keeps_drain_group {A} (m : M St A) : preserves (keeps s_drain) m -> preserves keeps_group m.
Proof. intros H s. specialize (H s). unfold keeps_group, group_ok, keeps in *. by rewrite H. Qed.

Lemma run_worker_group (i : nat) : preserves keeps_group (run_worker i).
Proof.
  intros s HG. unfold run_worker. rewrite (bind_val _ _ s s s) by done.
  destruct (dm_workers (s_drain s) !! i) as [w|] eqn:Ew; [|done].
  destruct (runnable (dw_pc w)) eqn:Er; [|done].
  pose proof (worker_body_keeps_drain w s) as HK. unfold keeps in HK.
  unfold mbind, M_bind. destruct (worker_body w s) as [[pc|] s1]; cbn in HK |- *.
  - apply (set_worker_pc_group i pc w); [by rewrite HK|by apply runnable_live|].
    unfold group_ok in *. by rewrite HK.
  - unfold group_ok in *. by rewrite HK.
Qed.

Lemma recv_worker_group (i : nat) : preserves keeps_group (recv_worker i).
Proof.
  intros s HG. unfold recv_worker. rewrite (bind_val _ _ s s s) by done.
  destruct (dm_workers (s_drain s) !! i) as [w|] eqn:Ew; [|done].
  destruct (sending (dw_pc w)) as [[e pc]|] eqn:Es; [|done].
  apply (set_worker_pc_group i pc w) in HG; [|done|by eapply sending_live].
  unfold mbind, M_bind. by destruct (set_worker_pc i pc s) as [[]].
Qed.

Hint Resolve run_worker_group recv_worker_group : frame.

Lemma await_group (l : list SchedEvent) : preserves keeps_group (await l).
Proof. induction l as [|[i|i| |] l IH]; cbn [await]; frame; exact IH. Qed.

Lemma background_group : preserves keeps_group background.
Proof.
  unfold background. frame. apply keeps_drain_group, ask_keeps_drain.
Qed.

Lemma launch_group (cfg : Config) (c : nat) (batch : list Instance_) :
  preserves keeps_group (launch cfg c batch).
Proof.
  unfold launch, launch_one. frame. apply preserves_modify. intros s HG.
  unfold group_ok, live_workers in *. cbn. rewrite List.filter_app, length_app. cbn. lia.
Qed.
End group_lemmas.

#[export] Hint Resolve run_worker_group recv_worker_group await_group background_group
  launch_group : frame.

(** *** Drained before terminated *)
Section drained.
Context `{E : Env} `{!CordonLaws E}.

#[export] Instance quiet_preorder : PreOrder quiet.
Proof.
  split.
  - intros s. split; try done. intros p. exists (node_Unschedulable (read_node (s_nodes s) p)).
    by destruct (read_node (s_nodes s) p).
  - intros x y z [A1 A2 A3 A5 A4] [B1 B2 B3 B5 B4].
    split; try congruence; [|by transitivity (s_calls y)].
    intros p. destruct (B1 p) as [b Hb], (A1 p) as [b' Hb']. exists b. by rewrite Hb, Hb'.
Qed.

Lemma quiet_memory (s s' : St) : same_memory s s' -> s_calls s `prefix_of` s_calls s' -> quiet s s'.
Proof.
  intros HM HP. split; [|apply HM|by rewrite (sm_ru _ _ HM)..|done]. intros p.
  rewrite (sm_nodes _ _ HM).
  exists (node_Unschedulable (read_node (s_nodes s) p)). by destruct (read_node (s_nodes s) p).
Qed.

Lemma ask_quiet {A} (f : World -> A * World) : preserves quiet (ask f).
Proof.
  intros s. apply quiet_memory; [apply ask_memory|]. unfold ask. by destruct (f (s_world s)).
Qed.

Lemma call_quiet {A} (c : Call) (f : World -> A * World) : preserves quiet (call c f).
Proof.
  intros s. apply quiet_memory; [apply call_memory|]. unfold call. destruct (f (s_world s)).
  by exists [c].
Qed.

Lemma quiet_same_nodes (s s' : St) :
  s_nodes s' = s_nodes s -> s_cloud s' = s_cloud s -> ru_Spec (s_ru s') = ru_Spec (s_ru s) ->
  ru_CreationTimestamp (s_ru s') = ru_CreationTimestamp (s_ru s) ->
  s_calls s' = s_calls s -> quiet s s'.
Proof.
  intros H1 H2 H3 H5 H4. split; [|done|done|done|by rewrite H4]. intros p. rewrite H1.
  exists (node_Unschedulable (read_node (s_nodes s) p)). by destruct (read_node (s_nodes s) p).
Qed.

Hint Resolve ask_quiet call_quiet : frame.

Lemma NodeStep_quiet (c : nat) (g n st : string) : preserves quiet (NodeStep c g n st).
Proof.
  unfold NodeStep, DoNodeStepAt, Now. frame. apply preserves_modify. intros s.
  apply quiet_same_nodes; apply store_steps_keeps.
Qed.

Lemma UpdateMetricsStatus_quiet (c : nat) : preserves quiet (UpdateMetricsStatus c).
Proof.
  unfold UpdateMetricsStatus, range_map. frame. apply preserves_modify. intros s.
  by apply quiet_same_nodes.
Qed.

Hint Resolve NodeStep_quiet UpdateMetricsStatus_quiet : frame.

Lemma RunCordonOrUncordon_quiet (p : node_ptr) (b : bool) :
  preserves quiet (RunCordonOrUncordon (Cached p) b).
Proof.
  intros s. unfold RunCordonOrUncordon, read_obj. rewrite (bind_val _ _ s s (read_node (s_nodes s) p)) by done.
  unfold call, mbind, M_bind, write_obj, write_node, modify.
  destruct (cordon_only (read_node (s_nodes s) p) b (s_world s)) as [b' Hb'].
  destruct (svc_RunCordonOrUncordon _ _ _) as [[e n'] w]. cbn in Hb' |- *. subst n'.
  split; cbn; [|done|done|done|by eexists]. intros q. unfold read_node.
  destruct (decide (p = q)) as [<-|N]; [exists b'; by rewrite lookup_total_insert_eq|].
  rewrite lookup_total_insert_ne by done. exists (node_Unschedulable (s_nodes s !!! q)).
  by destruct (s_nodes s !!! q).
Qed.

Hint Resolve RunCordonOrUncordon_quiet : frame.

Lemma DrainNode_quiet (p : node_ptr) (t : Z) (b : bool) :
  preserves quiet (DrainNode (Some (Cached p)) t b).
Proof. unfold DrainNode, read_obj, node_at. frame. Qed.

Hint Resolve DrainNode_quiet : frame.

Lemma worker_body_quiet (w : DrainWorker) : preserves quiet (worker_body w).
Proof.
  unfold worker_body, worker_step, PreDrain, PostDrain, PostWait, run_hook, runScript, drain_part,
    worker_step, TagEC2instances. frame.
Qed.

Lemma quiet_select (s s' : St) (id : string) (l : list node_ptr) :
  quiet s s' -> SelectNodeByInstanceID (read_node (s_nodes s')) id l
                = SelectNodeByInstanceID (read_node (s_nodes s)) id l.
Proof.
  intros H. apply select_node_ext. intros p. by destruct (q_nodes _ _ H p) as [b ->].
Qed.

Lemma quiet_name (s s' : St) (p : node_ptr) :
  quiet s s' -> node_Name (read_node (s_nodes s') p) = node_Name (read_node (s_nodes s) p).
Proof. intros H. by destruct (q_nodes _ _ H p) as [b ->]. Qed.

Lemma quiet_elem (base : nat) (s s' : St) (c : Call) :
  quiet s s' -> c ∈ drop base (s_calls s) -> c ∈ drop base (s_calls s').
Proof.
  intros H Hc. destruct (q_calls _ _ H) as [l ->]. rewrite drop_app. apply elem_of_app. by left.
Qed.

Lemma quiet_length (s s' : St) : quiet s s' -> (length (s_calls s) <= length (s_calls s'))%nat.
Proof. intros H. destruct (q_calls _ _ H) as [l ->]. rewrite length_app. lia. Qed.

Lemma worker_inv_quiet (base : nat) (s s' : St) (w : DrainWorker) :
  quiet s s' -> worker_inv base s w -> worker_inv base s' w.
Proof.
  intros HQ [HB (p & Hp & Hn) HD]. split; [pose proof (quiet_length _ _ HQ); lia| |].
  - exists p. rewrite (quiet_select s s') by done. split; [done|]. by rewrite (quiet_name s s').
  - intros H1 H2. apply (quiet_elem base s s'); auto.
Qed.

(** A drain that reports no error was requested, under the name of the node. *)
Lemma DrainNode_success (base : nat) (p : node_ptr) (t : Z) (s s' : St) :
  (base <= length (s_calls s))%nat -> DrainNode (Some (Cached p)) t true s = (Val None, s') ->
  CallDrain (node_Name (read_node (s_nodes s) p)) (seconds t) ∈ drop base (s_calls s').
Proof.
  unfold DrainNode. cbn [negb]. intros HB (err & s1 & H1 & H)%bind_inv.
  destruct err as [e|]; [done|].
  pose proof (RunCordonOrUncordon_quiet p true s) as HQ. rewrite H1 in HQ. cbn in HQ.
  pose proof (quiet_length _ _ HQ).
  unfold read_obj in H. rewrite (bind_val _ _ s1 s1 (read_node (s_nodes s1) p)) in H by done.
  rewrite (quiet_name s s1 p HQ) in H. revert H. unfold call, mbind, M_bind.
  destruct (svc_RunNodeDrain _ _ _) as [[e|] w]; [done|]. intros [= <-]. cbn [s_calls set_calls].
  rewrite drop_app_le by lia. apply elem_of_app. right. by left.
Qed.

Lemma drain_part_drained (base : nat) (w : DrainWorker) (s s' : St) (pc : DrainPc) :
  worker_inv base s w -> drain_part w s = (Val pc, s') -> past_drain pc = true ->
  dw_ignoreDrainFailures w = false ->
  CallDrain (dw_nodeName w) (seconds (dw_drainTimeout w)) ∈ drop base (s_calls s').
Proof.
  intros [HB (p & Hp & Hn) _] H Hpast Hig. unfold drain_part in H.
  rewrite (bind_val _ _ s s s) in H by done. rewrite Hp in H.
  apply bind_inv in H as ([] & s1 & H1 & H). apply bind_inv in H as (err & s2 & H2 & H).
  pose proof (NodeStep_quiet (dw_call w) (spec_AsgName (ru_Spec (dw_upgrade w))) (dw_nodeName w)
    NodeRotationDrain s) as HQ.
  unfold worker_step in H1. rewrite H1 in HQ. cbn in HQ.
  destruct err as [e|].
  - rewrite Hig in H. cbn [negb] in H. apply bind_inv in H as (x & s3 & _ & H).
    injection H as <- <-. done.
  - injection H as <- <-. pose proof (quiet_length _ _ HQ).
    apply (DrainNode_success base) in H2; [|lia].
    by rewrite (quiet_name s s1 p HQ), Hn in H2.
Qed.

Lemma worker_body_inv (base : nat) (w : DrainWorker) (s s' : St) (pc : DrainPc) :
  worker_inv base s w -> runnable (dw_pc w) = true -> worker_body w s = (Val pc, s') ->
  worker_inv base s' (with_pc pc w).
Proof.
  intros HI HR H. pose proof (worker_body_quiet w s) as HQ. rewrite H in HQ. cbn in HQ.
  pose proof (worker_inv_quiet base s s' w HQ HI) as [HB HN HD]. split; [done|done|]. cbn.
  intros Hpast Hig. unfold worker_body in H. destruct (dw_pc w) eqn:Epc; try done.
  - apply bind_inv in H as ([] & s1 & _ & H). apply bind_inv in H as (err & s2 & _ & H).
    injection H as <- <-. by destruct err.
  - by eapply drain_part_drained.
  - by apply HD.
  - by apply HD.
Qed.

Lemma run_worker_inv (base k i : nat) (s s' : St) :
  drained_inv base k s -> run_worker i s = (Val tt, s') -> drained_inv base k s' /\ quiet s s'.
Proof.
  intros HI. unfold run_worker. rewrite (bind_val _ _ s s s) by done.
  destruct (dm_workers (s_drain s) !! i) as [w|] eqn:Ew; [|by intros [= <-]].
  destruct (runnable (dw_pc w)) eqn:Er; [|by intros [= <-]].
  intros (pc & s1 & H1 & H)%bind_inv.
  pose proof (worker_body_quiet w s) as HQ. rewrite H1 in HQ. cbn in HQ.
  pose proof (worker_body_keeps_drain w s) as HK. rewrite H1 in HK. cbn in HK. unfold keeps in HK.
  unfold set_worker_pc, modify in H. injection H as <-. rewrite HK, Ew.
  match goal with |- drained_inv _ k ?t /\ _ => assert (quiet s1 t) as HQ1 by by apply quiet_same_nodes end.
  split; [|by transitivity s1]. intros j v Hj. cbn.
  destruct (decide (i = j)) as [<-|N].
  - rewrite list_lookup_insert_eq by (by eapply lookup_lt_Some). intros [= <-].
    apply (worker_inv_quiet _ s1); [done|]. apply (worker_body_inv _ w s); auto. by apply (HI i).
  - rewrite list_lookup_insert_ne by done. intros Hv.
    apply (worker_inv_quiet _ s1); [done|]. apply (worker_inv_quiet _ s); [done|]. by apply (HI j).
Qed.

(** The select ends drained only when every goroutine has returned, and none of
    those launched last had an error to report. *)
Lemma await_drained (base k : nat) (l : list SchedEvent) (s s' : St) :
  drained_inv base k s -> await l s = (Val Drained, s') ->
  drained_inv base k s' /\ quiet s s' /\ DrainGroup (s_drain s') = 0%Z.
Proof.
  revert s. induction l as [|[i|i| |] l IH]; intros s HI; cbn [await]; try done.
  - intros ([] & s1 & H1 & H)%bind_inv. destruct (run_worker_inv base k i s s1 HI H1) as [HI1 HQ1].
    destruct (IH s1 HI1 H) as (HI2 & HQ2 & HG). split; [done|]. split; [by transitivity s1|done].
  - intros (err & s1 & H1 & H)%bind_inv. destruct err as [e|]; [done|].
    assert (s1 = s) as ->; [|by apply IH]. revert H1. unfold recv_worker.
    rewrite (bind_val _ _ s s s) by done. destruct (dm_workers (s_drain s) !! i) as [w|]; [|by intros [= <-]].
    destruct (sending (dw_pc w)) as [[e pc]|]; [done|by intros [= <-]].
  - rewrite (bind_val _ _ s s s) by done.
    destruct (Z.eqb_spec (DrainGroup (s_drain s)) 0) as [E0|]; [|by apply IH].
    intros [= <-]. done.
Qed.

(** A worker keeps everything but its program counter. *)
Lemma run_worker_same (j i : nat) (s : St) (w : DrainWorker) :
  dm_workers (s_drain s) !! i = Some w ->
  exists pc, dm_workers (s_drain (run_worker j s).2) !! i = Some (with_pc pc w).
Proof.
  intros Hw. assert (w = with_pc (dw_pc w) w) as Ew by by destruct w.
  unfold run_worker. rewrite (bind_val _ _ s s s) by done.
  destruct (dm_workers (s_drain s) !! j) as [v|] eqn:Ev; [|exists (dw_pc w); by rewrite <- Ew].
  destruct (runnable (dw_pc v)); [|exists (dw_pc w); by rewrite <- Ew].
  pose proof (worker_body_keeps_drain v s) as HK. unfold keeps in HK.
  unfold mbind, M_bind. destruct (worker_body v s) as [[pc|] s1]; cbn in HK |- *;
    [|exists (dw_pc w); by rewrite HK, <- Ew].
  rewrite HK, Ev. cbn. destruct (decide (j = i)) as [<-|N].
  - rewrite list_lookup_insert_eq by (by eapply lookup_lt_Some). rewrite Ev in Hw.
    injection Hw as ->. by exists pc.
  - rewrite list_lookup_insert_ne by done. exists (dw_pc w). by rewrite <- Ew.
Qed.

Lemma await_workers (l : list SchedEvent) (s s' : St) (r : Awaited) :
  await l s = (Val r, s') -> r = Drained ->
  forall i w, dm_workers (s_drain s) !! i = Some w ->
  exists w', dm_workers (s_drain s') !! i = Some w' /\ dw_nodeName w' = dw_nodeName w /\
    dw_drainTimeout w' = dw_drainTimeout w /\
    dw_ignoreDrainFailures w' = dw_ignoreDrainFailures w.
Proof.
  intros H ->. revert s H. induction l as [|[j|j| |] l IH]; intros s; cbn [await]; try done.
  - intros ([] & s1 & H1 & H)%bind_inv i w Hw.
    destruct (run_worker_same j i s w Hw) as [pc Hpc]. rewrite H1 in Hpc. cbn in Hpc.
    destruct (IH s1 H i _ Hpc) as (w' & Hw' & ? & ? & ?). by exists w'.
  - intros (err & s1 & H1 & H)%bind_inv. destruct err as [e|]; [done|].
    assert (s1 = s) as ->; [|by apply IH]. revert H1. unfold recv_worker.
    rewrite (bind_val _ _ s s s) by done. destruct (dm_workers (s_drain s) !! j) as [w|]; [|by intros [= <-]].
    destruct (sending (dw_pc w)) as [[e pc]|]; [done|by intros [= <-]].
  - rewrite (bind_val _ _ s s s) by done.
    destruct (DrainGroup (s_drain s) =? 0)%Z; [|by apply IH]. intros [= <-] i w Hw. by exists w.
Qed.

Lemma group_zero_done (s : St) (i : nat) (w : DrainWorker) :
  group_ok s -> DrainGroup (s_drain s) = 0%Z -> dm_workers (s_drain s) !! i = Some w ->
  dw_pc w = PcDone.
Proof.
  unfold group_ok, live_workers. intros HG H0 Hw. rewrite H0 in HG.
  destruct (is_done w) eqn:Ed; [unfold is_done in Ed; by destruct (dw_pc w)|].
  assert (w ∈ List.filter (fun w => negb (is_done w)) (dm_workers (s_drain s))) as Hin.
  { apply list_elem_of_In, filter_In. rewrite Ed. split; [|done].
    apply list_elem_of_In. by eapply list_elem_of_lookup_2. }
  destruct (List.filter _ _); [by apply not_elem_of_nil in Hin|]. cbn in HG. lia.
Qed.

(** What [launch] adds: a worker for every target that has a node. *)
Lemma launch_inv (cfg : Config) (c : nat) (batch : list Instance_) (base k : nat) (s : St) :
  drained_inv base k s -> (k <= length (dm_workers (s_drain s)))%nat ->
  (base <= length (s_calls s))%nat ->
  exists s', launch cfg c batch s = (Val tt, s') /\ drained_inv base k s' /\ quiet s s' /\
    s_ru s' = s_ru s /\ s_maps s' = s_maps s /\ s_calls s' = s_calls s /\
    (length (dm_workers (s_drain s)) <= length (dm_workers (s_drain s')))%nat /\
    (forall i w, dm_workers (s_drain s) !! i = Some w -> dm_workers (s_drain s') !! i = Some w) /\
    (forall t p, t ∈ batch -> select_node (instance_id t) s = Some p ->
       exists i w, (k <= i)%nat /\ dm_workers (s_drain s') !! i = Some w /\
         dw_nodeName w = node_Name (read_node (s_nodes s) p) /\
         dw_drainTimeout w = drain_timeout cfg (s_ru s) /\
         dw_ignoreDrainFailures w = ignore_drain_failures cfg (s_ru s)).
Proof.
  revert s. unfold launch. induction batch as [|t batch IH]; intros s HI HK HB; cbn [for_each].
  - exists s. split; [done|]. split; [done|]. split; [done|]. repeat split; try done.
    by intros t p Ht%not_elem_of_nil.
  - unfold launch_one at 2. rewrite bind_assoc, (bind_val _ _ s s s) by done.
    destruct (select_node (instance_id t) s) as [p|] eqn:Ep.
    + match goal with |- context [ modify ?f ] => set (s1 := f s) end.
      rewrite (bind_val _ _ s s1 tt) by done.
      assert (quiet s s1) as HQ by by apply quiet_same_nodes.
      destruct (IH s1) as (s' & H & HI' & HQ' & H1 & H2 & H3 & H4 & H5 & H6).
      * intros i w Hi. cbn. intros [Hw|[Hl Hw]]%lookup_app_Some.
        -- apply (worker_inv_quiet _ s); [done|]. by apply (HI i).
        -- apply list_lookup_singleton_Some in Hw as [_ <-]. split; [done| |done]. exists p. rewrite (quiet_select s s1) by done. split; [exact Ep|reflexivity].
      * cbn. rewrite length_app. lia.
      * done.
      * exists s'. split; [done|]. split; [done|]. split; [by transitivity s1|].
        split; [done|]. split; [done|]. split; [done|].
        split; [cbn in H4; rewrite length_app in H4; lia|].
        split; [intros i w Hw; apply H5; cbn; by apply lookup_app_l_Some|].
        intros t' p' [->|Ht']%elem_of_cons Hp'.
        -- rewrite Ep in Hp'. injection Hp' as <-.
           eexists (length (dm_workers (s_drain s))), _. split; [done|]. split.
           ++ apply H5. cbn. by rewrite lookup_app_r, Nat.sub_diag by lia.
           ++ done.
        -- apply (H6 t' p' Ht'). unfold select_node in *. by rewrite (quiet_select s s1).
    + cbn [mbind]. rewrite (bind_ret_l tt). destruct (IH s HI HK HB) as (s' & H & HI' & HQ' & H1 & H2 & H3 & H4 & H5 & H6).
      exists s'. repeat (split; [done|]). intros t' p' [->|Ht']%elem_of_cons Hp'; [congruence|].
      by apply (H6 t' p').
Qed.
End drained.

#[export] Hint Resolve ask_quiet call_quiet NodeStep_quiet UpdateMetricsStatus_quiet : frame.
