(* ===== verification/Replace.v ===== *)
(** * Rotating a batch: [ReplaceNodeBatch] and [RotateNodes]
      (controllers/upgrade.go)

    [ReplaceNodeBatch] is cut at the points where it can return early; an early
    return is [Some] of the results. *)
From S2P Require Import Prelude GoStrings GoTime Common Types AwsProvider KubeProvider Metrics Env SampleEnv.
From S2P Require Import AwsClient KubeClient Cloud Steps Drift Uniform Targets Balloon Cordon Drain.

(** The two results of [ReplaceNodeBatch]. *)
Abbreviation BatchResult := (bool * option error)%type (only parsing).

Section replace.
Context `{E : Env}.

(** The maps of this call: [nodeSteps] is new, [inProcessingNodes] is the map in
    the status, or a new one when that is nil. *)
Definition new_call : M St nat :=
  s ← get;
  let cm := mkCallMaps (match st_NodeInProcessing (ru_Status (s_ru s)) with
                        | None => Some ∅
                        | Some _ => None
                        end) ∅ in
  modify (fun s => set_maps (s_maps s ++ [cm]) s) ;;;
  mret (length (s_maps s)).

(** A loop over the batch that turns the nodes it finds onto a step. *)
Definition turn_onto (c : nat) (stepName : string) (batch : list Instance_) : M St unit :=
  for_each batch (fun target =>
    s ← get;
    match select_node (instance_id target) s with
    | None => mret tt
    | Some p => NodeStep c (spec_AsgName (ru_Spec (s_ru s))) (node_Name (read_node (s_nodes s) p))
                  stepName
    end).

(** [case UpdateStrategyModeEager]. *)
Definition eager_phase (cfg : Config) (c : nat) (batch : list Instance_) : M St (option BatchResult) :=
  turn_onto c NodeRotationKickoff batch ;;;
  let inServiceInstanceIDs := GetInServiceInstanceIDs batch in
  if (0 <? zlen inServiceInstanceIDs)%Z then
    '(clusterIsBallooning, allowedBatchSize) ← ClusterBallooning cfg (zlen inServiceInstanceIDs);
    if clusterIsBallooning || (allowedBatchSize =? 0)%Z then mret (Some (true, None))
    else
      inServiceInstanceIDs ← lift (if negb (zlen inServiceInstanceIDs =? allowedBatchSize)%Z
                                   then slice_to inServiceInstanceIDs allowedBatchSize
                                   else Val inServiceInstanceIDs);
      err ← TagEC2instances inServiceInstanceIDs instanceStateTagKey inProgressTagValue;
      match err with
      | Some err => UpdateMetricsStatus c ;;; mret (Some (false, Some err))
      | None =>
          _ ← SetBatchStandBy inServiceInstanceIDs;
          UpdateMetricsStatus c ;;;
          mret (Some (true, None))
      end
  else
    turn_onto c NodeRotationDesiredNodeReady batch ;;;
    ready ← DesiredNodesReady;
    if (ready : bool) then mret None
    else UpdateMetricsStatus c ;;; mret (Some (true, None)).

(** [case UpdateStrategyModeLazy]. *)
Definition lazy_phase (c : nat) (batch : list Instance_) : M St (option BatchResult) :=
  turn_onto c NodeRotationKickoff batch ;;;
  err ← TagEC2instances (GetInServiceInstanceIDs batch) instanceStateTagKey inProgressTagValue;
  match err with
  | Some err => UpdateMetricsStatus c ;;; mret (Some (false, Some err))
  | None => mret None
  end.

(** The interval checks: the clock is read only when there is a time to compare. *)
Definition still_waiting (last : option Time) (interval : Z) : M St bool :=
  match last with
  | Some t => if IsZero t then mret false else now ← Now; mret (since_less_than now t interval)
  | None => mret false
  end.

(** The body of the terminating loop. *)
Definition terminate_one (c : nat) (target : Instance_) : M St (option BatchResult) :=
  let instanceID := instance_id target in
  s ← get;
  match select_node instanceID s with
  | None => mret None
  | Some p =>
      let nodeName := node_Name (read_node (s_nodes s) p) in
      let asg := spec_AsgName (ru_Spec (s_ru s)) in
      NodeStep c asg nodeName NodeRotationTerminate ;;;
      err ← TerminateInstance target;
      match err with
      | Some _ => UpdateMetricsStatus c ;;; mret (Some (true, None))
      | None =>
          _ ← UntagEC2instances [instanceID] instanceStateTagKey inProgressTagValue;
          release_replacement ;;;
          now ← Now;
          upd_ru (SetLastNodeTerminationTime (Some now)) ;;;
          NodeStep c asg nodeName NodeRotationPostTerminate ;;;
          s ← get;
          err ← PostTerminate (mkScriptTarget instanceID nodeName (s_ru s));
          match err with
          | Some err => mret (Some (false, Some err))
          | None =>
              now ← Now;
              let terminatedTime := TimeAdd now (seconds (NodeIntervalSeconds (s_ru s))) in
              NodeStep c asg nodeName NodeRotationTerminated ;;;
              DoNodeStepAt c asg nodeName NodeRotationCompleted terminatedTime ;;;
              mret None
          end
      end
  end.

(** [case <-done]. *)
Definition terminate_batch (c : nat) (batch : list Instance_) : M St BatchResult :=
  now ← Now;
  upd_ru (SetLastNodeDrainTime (Some now)) ;;;
  r ← for_return batch (terminate_one c);
  match r with
  | Some r => mret r
  | None => UpdateMetricsStatus c ;;; mret (true, None)
  end.

(** The select. *)
Definition wait_and_terminate (c : nat) (batch : list Instance_) : M St BatchResult :=
  schedule ← ask svc_schedule;
  awaited ← await schedule;
  match awaited with
  | DrainError err => UpdateMetricsStatus c ;;; mret (false, Some err)
  | Drained => terminate_batch c batch
  | StillDraining => UpdateMetricsStatus c ;;; mret (true, None)
  end.

(** The goroutines are started only when the wait group is as new. *)
Definition start_drains (cfg : Config) (c : nat) (batch : list Instance_) : M St unit :=
  s ← get;
  if (DrainGroup (s_drain s) =? 0)%Z then launch cfg c batch else mret tt.

(** From the interval checks to the end. *)
Definition drain_phase (cfg : Config) (c : nat) (batch : list Instance_) : M St BatchResult :=
  s ← get;
  w ← still_waiting (LastNodeTerminationTime (s_ru s)) (NodeIntervalSeconds (s_ru s));
  if (w : bool) then mret (true, None)
  else
    w ← still_waiting (LastNodeDrainTime (s_ru s)) (PostDrainDelaySeconds (s_ru s));
    if (w : bool) then mret (true, None)
    else
      background ;;;
      start_drains cfg c batch ;;;
      wait_and_terminate c batch.

Definition early_cordon (cfg : Config) : M St (option BatchResult) :=
  if cfg_EarlyCordonNodes cfg then
    '(ok, err) ← CordonUncordonAllNodes true;
    mret (if (ok : bool) then None else Some (ok, err))
  else mret None.

(** [switch mode]. *)
Definition mode_phase (cfg : Config) (c : nat) (mode : string) (batch : list Instance_)
  : M St (option BatchResult) :=
  if String.eqb mode UpdateStrategyModeEager then eager_phase cfg c batch
  else if String.eqb mode UpdateStrategyModeLazy then lazy_phase c batch
  else mret None.

(** Up to the interval checks.  The goroutines of earlier reconciles run meanwhile:
    they take steps at the start, before and after [switch mode] (also when that
    returns), and, in [drain_phase], once the intervals have passed. *)
Definition prepare_batch (cfg : Config) (batch : list Instance_) : M St (nat * option BatchResult) :=
  s ← get;
  let mode := StrategyMode (s_ru s) in
  c ← new_call;
  background ;;;
  r ← early_cordon cfg;
  match r with
  | Some r => mret (c, Some r)
  | None =>
      background ;;;
      r ← mode_phase cfg c mode batch;
      background ;;;
      mret (c, r)
  end.

Definition ReplaceNodeBatch (cfg : Config) (batch : list Instance_) : M St BatchResult :=
  '(c, r) ← prepare_batch cfg batch;
  match r with
  | Some r => mret r
  | None => drain_phase cfg c batch
  end.

(** [SetCurrentStatus] with the label and, by the caller, the metric. *)
Definition set_status (status : string) : M St unit :=
  upd_ru (SetCurrentStatus status) ;;;
  upd_ru (SetLabel LabelKeyRollingUpgradeCurrentStatus status).

Definition cleanup_if_early (cfg : Config) : M St unit :=
  if cfg_EarlyCordonNodes cfg then cleanupEarlyCordonedNodes else mret tt.

(** The end of [RotateNodes], once the scaling group is known to be drifted. *)
Definition rotate_batch (cfg : Config) (scalingGroup : Group) (failedDrainInstances : list string)
  : M St (option error) :=
  rotationTargets ← SelectTargets scalingGroup failedDrainInstances;
  rotationTargets ←
    (if (zlen rotationTargets =? 0)%Z && (0 <? zlen failedDrainInstances)%Z
     then SelectTargets scalingGroup [] else mret rotationTargets);
  '(ok, err) ← ReplaceNodeBatch cfg rotationTargets;
  mret (if (ok : bool) then None else err).

(** From the choice of the scaling group on. *)
Definition rotate_discovered (cfg : Config) (failedDrainInstances : list string)
  : M St (option error) :=
  s ← get;
  let scalingGroup := scaling_group s in
  if is_empty_group scalingGroup then
    mret (Some (Errorf ("scaling group not found, scalingGroupName: "
                        +:+ ScalingGroupName (s_ru s))))
  else
    upd_ru (SetTotalNodes (zlen (asg_Instances scalingGroup))) ;;;
    drifted ← IsScalingGroupDrifted;
    if negb drifted then
      set_status StatusComplete ;;;
      upd_metrics (SetMetricRollupCompleted (ru_Name (s_ru s))) ;;;
      endTimeUpdate ;;;
      cleanup_if_early cfg ;;;
      mret None
    else rotate_batch cfg scalingGroup failedDrainInstances.

Definition RotateNodes (cfg : Config) : M St (option error) :=
  '(failedDrainInstances, _) ← DescribeTaggedInstanceIDs instanceStateTagKey failedDrainTagValue;
  set_status StatusRunning ;;;
  s ← get;
  upd_metrics (SetMetricRollupInitOrRunning (ru_Name (s_ru s))) ;;;
  (if String.eqb (StartTime (s_ru s)) "" then
     now ← Now; upd_ru (SetStartTime (FormatRFC3339 now))
   else mret tt) ;;;
  err ← Discover;
  match err with
  | Some err =>
      set_status StatusError ;;;
      upd_metrics (SetMetricRollupFailed (ru_Name (s_ru s))) ;;;
      cleanup_if_early cfg ;;;
      mret (Some err)
  | None => rotate_discovered cfg failedDrainInstances
  end.
End replace.

(** ** Specification *)

(** The instances of the goroutines that have not returned. *)
Definition running_ids `{Env} (s : St) : list string :=
  map dw_instanceID (List.filter (fun w => negb (is_done w)) (dm_workers (s_drain s))).

(** The calls [ReplaceNodeBatch] may make for a batch, when goroutines of earlier
    calls are at work on the instances [left]: it terminates only instances of the
    batch; it sends to standby and tags in-progress only those of them that are in
    service; it marks as failed-drain one instance at a time, of the batch or of
    such a goroutine; and it removes only the in-progress tag of an instance of the
    batch. *)
Definition batch_call (batch : list Instance_) (left : list string) (c : Call) : Prop :=
  match c with
  | CallTerminateInstance id decrement => decrement = false /\ id ∈ map instance_id batch
  | CallEnterStandby _ ids decrement =>
      decrement = false /\ forall id, id ∈ ids -> id ∈ GetInServiceInstanceIDs batch
  | CallCreateTags ids key value =>
      key = instanceStateTagKey /\
      (value = inProgressTagValue /\ (forall id, id ∈ ids -> id ∈ GetInServiceInstanceIDs batch) \/
       value = failedDrainTagValue /\ exists id, ids = [id] /\ id ∈ map instance_id batch ++ left)
  | CallDeleteTags ids key value =>
      key = instanceStateTagKey /\ value = inProgressTagValue /\
      exists id, ids = [id] /\ id ∈ map instance_id batch
  | CallCordon _ _ | CallDrain _ _ | CallExec _ _ | CallNodesList | CallNodeGet _
  | CallNodeUpdate _ => True
  | _ => False
  end.

(** The goroutines that have not returned work on these instances, [P] holds of the
    calls, and both stay so. *)
Definition confined `{Env} (known : list string) (P : Call -> Prop) (s s' : St) : Prop :=
  (forall id, id ∈ running_ids s -> id ∈ known) ->
  (forall id, id ∈ running_ids s' -> id ∈ known) /\ emits P s s'.

(** Calls that take capacity away from the cluster. *)
Definition disruptive (c : Call) : Prop :=
  match c with
  | CallTerminateInstance _ _ | CallDrain _ _ => True
  | _ => False
  end.

(** Termination calls. *)
Definition terminates (c : Call) : Prop :=
  match c with CallTerminateInstance _ _ => True | _ => False end.

(** No goroutine is left over, and relations that need this. *)
Definition group_idle `{Env} (s : St) : Prop := group_ok s /\ DrainGroup (s_drain s) = 0%Z.
Definition from_idle `{Env} (R : relation St) (s s' : St) : Prop := group_idle s -> R s s'.

(** What the phases before the select do: nothing that terminates, and nothing
    to the goroutines. *)
Record prepares `{Env} (s s' : St) : Prop := {
  pr_drain : s_drain s' = s_drain s;
  pr_quiet : quiet s s';
  pr_calls : emits (fun c => ~ terminates c) s s';
}.

(** What the phases before the select leave of the resource. *)
Definition core (r : RollingUpgrade) : RollingUpgradeSpec * (string * option Time * option Time) :=
  (ru_Spec r, (CurrentStatus r, LastNodeTerminationTime r, LastNodeDrainTime r)).

(** ** Lemmas *)
Lemma core_steps (r : RollingUpgrade) (st : RollingUpgradeStatus) :
  st_CurrentStatus st = st_CurrentStatus (ru_Status r) ->
  st_LastNodeTerminationTime st = st_LastNodeTerminationTime (ru_Status r) ->
  st_LastNodeDrainTime st = st_LastNodeDrainTime (ru_Status r) ->
  core (with_Status (fun _ => st) r) = core r.
Proof. unfold core, CurrentStatus, LastNodeTerminationTime, LastNodeDrainTime. cbn. congruence. Qed.

(** *** Which calls the phases make *)
Section call_lemmas.
Context `{E : Env}.

Lemma CordonUncordonAllNodes_emits (P : Call -> Prop) (b : bool) :
  (forall name b', P (CallCordon name b')) -> (forall name, P (CallNodeGet name)) ->
  (forall n, P (CallNodeUpdate n)) -> preserves (emits P) (CordonUncordonAllNodes b).
Proof.
  intros H1 H2 H3.
  assert (forall n nm, preserves (emits P) (remove_loop n nm)) as HR.
  { induction n as [|n IH]; intros nm; cbn [remove_loop]; unfold NodesGet, NodesUpdate; frame; apply IH. }
  assert (forall o, preserves (emits P) (uncordonAndRemoveAnnotation o)) as HU.
  { intros o. unfold uncordonAndRemoveAnnotation. frame; apply HR. }
  assert (forall n p, preserves (emits P) (annotate_loop n p)) as HA.
  { induction n as [|n IH]; intros p; cbn [annotate_loop]; unfold NodesGet, NodesUpdate, node_at; frame;
      first [apply IH | apply HU]. }
  unfold CordonUncordonAllNodes, cordon_instance, instance_drifted, cordon_node,
    cordonAndAnnotateNode, node_at.
  frame; first [apply HA | apply HU].
Qed.

Lemma turn_onto_emits (P : Call -> Prop) (c : nat) (st : string) (batch : list Instance_) :
  preserves (emits P) (turn_onto c st batch).
Proof. unfold turn_onto. frame. Qed.

Lemma new_call_emits (P : Call -> Prop) : preserves (emits P) new_call.
Proof. unfold new_call. frame. Qed.

Lemma early_cordon_emits (P : Call -> Prop) (cfg : Config) :
  (forall name b', P (CallCordon name b')) -> (forall name, P (CallNodeGet name)) ->
  (forall n, P (CallNodeUpdate n)) -> preserves (emits P) (early_cordon cfg).
Proof. intros H1 H2 H3. unfold early_cordon. frame. by apply CordonUncordonAllNodes_emits. Qed.

Hint Resolve turn_onto_emits new_call_emits early_cordon_emits : frame.

(** The standby requests name only the instances they were asked for. *)
Lemma SetBatchStandBy_sub (P : Call -> Prop) (ids : list string) :
  (forall asg l, (forall id, id ∈ l -> id ∈ ids) -> P (CallEnterStandby asg l false)) ->
  preserves (emits P) (SetBatchStandBy ids).
Proof.
  intros HP s. unfold SetBatchStandBy. rewrite (bind_val _ _ s s s) by done.
  destruct (GetChunks_total ids InstanceStandByLimit eq_refl) as (chunks & -> & Hcat & _).
  destruct (standby_loop (spec_AsgName (ru_Spec (s_ru s))) chunks s)
    as (r & s' & d & -> & [rest Hp] & _ & Hc).
  exists (map (fun b => CallEnterStandby (spec_AsgName (ru_Spec (s_ru s))) b false) d).
  split; [done|]. apply Forall_fmap, Forall_forall. intros l Hl. apply HP. intros id Hid.
  rewrite <- Hcat, Hp, concat_app. apply elem_of_app. left.
  apply list_elem_of_In, in_concat. exists l. by rewrite <- !list_elem_of_In.
Qed.

Lemma eager_phase_emits (cfg : Config) (c : nat) (batch : list Instance_) (left : list string) :
  preserves (emits (fun call => batch_call batch left call /\ ~ disruptive call)) (eager_phase cfg c batch).
Proof.
  assert (forall n sub, (if negb (zlen (GetInServiceInstanceIDs batch) =? n)%Z
    then slice_to (GetInServiceInstanceIDs batch) n else Val (GetInServiceInstanceIDs batch)) = Val sub ->
    forall id, id ∈ sub -> id ∈ GetInServiceInstanceIDs batch) as Hsub.
  { intros n sub. destruct (negb _).
    - intros (_ & -> & _)%slice_to_val id. apply subseteq_take.
    - by intros [= <-]. }
  unfold eager_phase, TagEC2instances. frame.
  - apply call_emits. cbn. split; [|auto]. split; [done|]. left. split; [done|]. by eapply Hsub.
  - apply SetBatchStandBy_sub. intros asg l Hl. cbn. split; [|auto]. split; [done|].
    intros id Hid. by eapply Hsub, Hl.
  - apply DesiredNodesReady_emits. cbn; tauto.
Qed.

Lemma lazy_phase_emits (c : nat) (batch : list Instance_) (left : list string) :
  preserves (emits (fun call => batch_call batch left call /\ ~ disruptive call)) (lazy_phase c batch).
Proof. unfold lazy_phase, TagEC2instances. frame. apply call_emits. cbn. auto 6. Qed.

Lemma still_waiting_emits (P : Call -> Prop) (t : option Time) (n : Z) :
  preserves (emits P) (still_waiting t n).
Proof. unfold still_waiting, Now. frame. Qed.

Lemma terminate_one_emits (c : nat) (batch : list Instance_) (left : list string) (t : Instance_) :
  t ∈ batch -> preserves (emits (batch_call batch left)) (terminate_one c t).
Proof.
  intros Ht%(list_elem_of_fmap_2 instance_id).
  unfold terminate_one, TerminateInstance, UntagEC2instances, PostTerminate, Now. frame.
  - apply call_emits. cbn. eauto.
  - apply call_emits. cbn. eauto 6.
  - by apply run_hook_emits.
Qed.

Lemma terminate_batch_emits (c : nat) (batch : list Instance_) (left : list string) :
  preserves (emits (batch_call batch left)) (terminate_batch c batch).
Proof. unfold terminate_batch, Now. frame. by apply terminate_one_emits. Qed.

Lemma emits_weaken {A} (P Q : Call -> Prop) (m : M St A) :
  (forall c, P c -> Q c) -> preserves (emits P) m -> preserves (emits Q) m.
Proof.
  intros HPQ. apply preserves_weaken. intros s s' (new & H & HF). exists new. split; [done|].
  by eapply Forall_impl.
Qed.

Lemma drain_call_terminates (c : Call) : drain_call c -> ~ terminates c.
Proof. destruct c; cbn; tauto. Qed.

Lemma worker_call_batch (batch : list Instance_) (left : list string) (id : string) (c : Call) :
  id ∈ map instance_id batch ++ left -> worker_call id c -> batch_call batch left c.
Proof.
  intros Hid [H1 H2]. destruct c; cbn in *; try (destruct desired); try done.
  destruct H2 as [-> ->]. eauto 8.
Qed.
End call_lemmas.

#[export] Hint Resolve turn_onto_emits new_call_emits early_cordon_emits still_waiting_emits
  terminate_batch_emits : frame.

Lemma mode_phase_emits `{E : Env} (cfg : Config) (c : nat) (batch : list Instance_) (mode : string)
    (left : list string) :
  preserves (emits (fun call => batch_call batch left call /\ ~ disruptive call))
    (mode_phase cfg c mode batch).
Proof.
  unfold mode_phase. destruct (String.eqb mode _); [apply eager_phase_emits|].
  destruct (String.eqb mode _); [apply lazy_phase_emits|frame].
Qed.

(** *** The wait group *)
#[export] Hint Resolve ask_keeps_drain call_keeps_drain NodeStep_keeps_drain : frame.
#[export] Hint Extern 2 (preserves (keeps s_drain) (modify _)) =>
  apply modify_keeps_drain; reflexivity : frame.
#[export] Hint Extern 2 (preserves (keeps s_drain) (upd_ru _)) =>
  apply modify_keeps_drain; reflexivity : frame.
#[export] Hint Extern 2 (preserves (keeps s_drain) (write_node _ _)) =>
  apply modify_keeps_drain; reflexivity : frame.

Section group_lemmas.
Context `{E : Env}.

Lemma DoNodeStepAt_keeps_drain (c : nat) (g n st : string) (t : Time) :
  preserves (keeps s_drain) (DoNodeStepAt c g n st t).
Proof.
  unfold DoNodeStepAt, Now. frame. apply modify_keeps_drain. intros s. apply store_steps_keeps.
Qed.

Lemma UpdateMetricsStatus_keeps_drain (c : nat) :
  preserves (keeps s_drain) (UpdateMetricsStatus c).
Proof. unfold UpdateMetricsStatus, range_map. frame. Qed.

Lemma RunCordonOrUncordon_keeps_drain (o : NodeObj) (b : bool) :
  preserves (keeps s_drain) (RunCordonOrUncordon o b).
Proof. unfold RunCordonOrUncordon, read_obj, write_obj, node_at. frame. Qed.

Hint Resolve DoNodeStepAt_keeps_drain UpdateMetricsStatus_keeps_drain
  RunCordonOrUncordon_keeps_drain : frame.

Lemma CordonUncordonAllNodes_keeps_drain (b : bool) :
  preserves (keeps s_drain) (CordonUncordonAllNodes b).
Proof.
  assert (forall n nm, preserves (keeps s_drain) (remove_loop n nm)) as HR.
  { induction n as [|n IH]; intros nm; cbn [remove_loop]; unfold NodesGet, NodesUpdate; frame; apply IH. }
  assert (forall o, preserves (keeps s_drain) (uncordonAndRemoveAnnotation o)) as HU.
  { intros o. unfold uncordonAndRemoveAnnotation, CordonUncordonNode, read_obj, node_at. frame; apply HR. }
  assert (forall n p, preserves (keeps s_drain) (annotate_loop n p)) as HA.
  { induction n as [|n IH]; intros p; cbn [annotate_loop]; unfold NodesGet, NodesUpdate, node_at; frame;
      first [apply IH | apply HU]. }
  unfold CordonUncordonAllNodes, cordon_instance, instance_drifted, cordon_node,
    cordonAndAnnotateNode, CordonUncordonNode, node_at.
  frame; first [apply HA | apply HU].
Qed.

Hint Resolve CordonUncordonAllNodes_keeps_drain : frame.

Lemma new_call_keeps_drain : preserves (keeps s_drain) new_call.
Proof. unfold new_call. frame. Qed.

Lemma early_cordon_keeps_drain (cfg : Config) : preserves (keeps s_drain) (early_cordon cfg).
Proof. unfold early_cordon. frame. Qed.

Lemma eager_phase_keeps_drain (cfg : Config) (c : nat) (batch : list Instance_) :
  preserves (keeps s_drain) (eager_phase cfg c batch).
Proof.
  unfold eager_phase, turn_onto, ClusterBallooning, upd_replacementNodes, SetBatchStandBy,
    SetInstancesStandBy, TagEC2instances, DesiredNodesReady, ListClusterNodes. frame.
Qed.

Lemma lazy_phase_keeps_drain (c : nat) (batch : list Instance_) :
  preserves (keeps s_drain) (lazy_phase c batch).
Proof. unfold lazy_phase, turn_onto, TagEC2instances. frame. Qed.

Lemma mode_phase_keeps_drain (cfg : Config) (c : nat) (mode : string) (batch : list Instance_) :
  preserves (keeps s_drain) (mode_phase cfg c mode batch).
Proof.
  unfold mode_phase. destruct (String.eqb _ _); [apply eager_phase_keeps_drain|].
  destruct (String.eqb _ _); [apply lazy_phase_keeps_drain|frame].
Qed.

Lemma still_waiting_keeps_drain (t : option Time) (n : Z) :
  preserves (keeps s_drain) (still_waiting t n).
Proof. unfold still_waiting, Now. frame. Qed.

Lemma terminate_batch_keeps_drain (c : nat) (batch : list Instance_) :
  preserves (keeps s_drain) (terminate_batch c batch).
Proof.
  unfold terminate_batch, terminate_one, release_replacement, upd_replacementNodes,
    UntagEC2instances, TerminateInstance, PostTerminate, run_hook, runScript, Now. frame.
Qed.
End group_lemmas.

#[export] Hint Resolve new_call_keeps_drain early_cordon_keeps_drain eager_phase_keeps_drain
  lazy_phase_keeps_drain mode_phase_keeps_drain still_waiting_keeps_drain terminate_batch_keeps_drain
  UpdateMetricsStatus_keeps_drain : frame.
#[export] Hint Extern 4 (preserves keeps_group _) => apply keeps_drain_group : frame.

Lemma ReplaceNodeBatch_group `{E : Env} (cfg : Config) (batch : list Instance_) :
  preserves keeps_group (ReplaceNodeBatch cfg batch).
Proof.
  unfold ReplaceNodeBatch, prepare_batch, drain_phase, start_drains, wait_and_terminate. frame.
Qed.

(** *** Which instances the goroutines work on *)
Section confined_lemmas.
Context `{E : Env} (known : list string) (P : Call -> Prop).

#[export] Instance confined_preorder : PreOrder (confined known P).
Proof.
  split.
  - intros s H. by split.
  - intros x y z H1 H2 H. destruct (H1 H) as [I1 E1], (H2 I1) as [I2 E2].
    split; [done|by transitivity y].
Qed.

Lemma confined_intro {A} (m : M St A) :
  preserves (keeps s_drain) m -> preserves (emits P) m -> preserves (confined known P) m.
Proof.
  intros HD HE s H. split; [|apply HE]. specialize (HD s). unfold keeps, running_ids in *. by rewrite HD.
Qed.

Lemma elem_of_running (s : St) (id : string) :
  id ∈ running_ids s <->
  exists i w, dm_workers (s_drain s) !! i = Some w /\ is_done w = false /\ dw_instanceID w = id.
Proof.
  unfold running_ids. rewrite list_elem_of_fmap. setoid_rewrite list_elem_of_In. setoid_rewrite filter_In.
  setoid_rewrite negb_true_iff. setoid_rewrite <- list_elem_of_In. setoid_rewrite list_elem_of_lookup.
  naive_solver.
Qed.

Lemma set_worker_pc_confined (i : nat) (pc : DrainPc) (w : DrainWorker) (s : St) :
  dm_workers (s_drain s) !! i = Some w -> is_done w = false ->
  confined known P s (set_worker_pc i pc s).2.
Proof.
  intros Hw Hd H. split; [|apply set_worker_pc_emits].
  intros id (j & v & Hv & Hl & <-)%elem_of_running. revert Hv. unfold set_worker_pc, modify. cbn [snd].
  rewrite Hw. cbn [s_drain set_drain dm_workers]. destruct (decide (i = j)) as [->|Hij].
  - rewrite list_lookup_insert_eq by (by eapply lookup_lt_Some). intros [= <-]. apply H.
    apply elem_of_running. by exists j, w.
  - rewrite list_lookup_insert_ne by done. intros Hv. apply H, elem_of_running. by exists j, v.
Qed.

Context (P_worker : forall id c, id ∈ known -> worker_call id c -> P c).

Lemma run_worker_confined (i : nat) : preserves (confined known P) (run_worker i).
Proof.
  intros s H. unfold run_worker. rewrite (bind_val _ _ s s s) by done.
  destruct (dm_workers (s_drain s) !! i) as [w|] eqn:Ew; [|by split].
  destruct (runnable (dw_pc w)) eqn:Er; [|by split]. apply runnable_live in Er. revert H.
  change (confined known P s ((worker_body w ≫= set_worker_pc i) s).2).
  assert (confined known P s (worker_body w s).2) as H1.
  { intros H. split.
    - pose proof (worker_body_keeps_drain w s) as HK. unfold keeps, running_ids in *. by rewrite HK.
    - destruct (worker_body_call w s) as (new & Hn & HF). exists new. split; [done|].
      eapply Forall_impl; [exact HF|]. intros c. apply P_worker, H, elem_of_running. eauto. }
  apply run_bind; [typeclasses eauto|done|]. intros pc s1 E1.
  apply (set_worker_pc_confined i pc w); [|done].
  pose proof (worker_body_keeps_drain w s) as HK. rewrite E1 in HK. unfold keeps in HK. cbn in HK.
  by rewrite HK.
Qed.

Lemma recv_worker_confined (i : nat) : preserves (confined known P) (recv_worker i).
Proof.
  intros s. unfold recv_worker. rewrite (bind_val _ _ s s s) by done.
  destruct (dm_workers (s_drain s) !! i) as [w|] eqn:Ew; [|by split].
  destruct (sending (dw_pc w)) as [[e pc]|] eqn:Es; [|by split].
  apply run_bind; [typeclasses eauto|apply (set_worker_pc_confined i pc w); [done|by eapply sending_live]|].
  intros [] s1 _. by split.
Qed.

Hint Resolve run_worker_confined recv_worker_confined : frame.

Lemma await_confined (l : list SchedEvent) : preserves (confined known P) (await l).
Proof. induction l as [|[i|i| |] l IH]; cbn [await]; frame; exact IH. Qed.

Lemma background_confined : preserves (confined known P) background.
Proof. unfold background. frame. apply confined_intro; frame. Qed.

Lemma launch_confined (cfg : Config) (c : nat) (batch : list Instance_) :
  (forall t, t ∈ batch -> instance_id t ∈ known) -> preserves (confined known P) (launch cfg c batch).
Proof.
  intros HB. unfold launch, launch_one. frame. apply preserves_modify. intros s' Hs'.
  split; [|exists []; cbn; by rewrite app_nil_r]. intros id. unfold running_ids in *.
  cbn [s_drain set_drain dm_workers]. rewrite List.filter_app, map_app. cbn. set_solver.
Qed.
End confined_lemmas.

Lemma ReplaceNodeBatch_emits `{E : Env} (cfg : Config) (batch : list Instance_) (s : St) :
  emits (batch_call batch (running_ids s)) s (ReplaceNodeBatch cfg batch s).2.
Proof.
  set (left := running_ids s). set (known := map instance_id batch ++ left).
  assert (preserves (confined known (batch_call batch left)) (ReplaceNodeBatch cfg batch)) as H;
    [|apply (H s); intros id; unfold known, left; set_solver].
  pose proof (fun id c => worker_call_batch batch left id c) as HW. fold known in HW.
  assert (forall t, t ∈ batch -> instance_id t ∈ known) as HB
    by (intros t Ht; apply elem_of_app; left; by apply list_elem_of_fmap_2).
  pose proof (mode_phase_emits cfg) as HM.
  unfold ReplaceNodeBatch, prepare_batch, drain_phase, start_drains, wait_and_terminate. frame;
    first [by apply background_confined | by apply launch_confined | by apply await_confined
          | apply confined_intro; frame];
    [by apply early_cordon_emits|].
  apply (emits_weaken (fun call => batch_call batch left call /\ ~ disruptive call)); [tauto|apply HM].
Qed.

(** *** What stays as it is *)
Section quiet_lemmas.
Context `{E : Env} `{!CordonLaws E, !NodeApiLaws E}.

Lemma modify_quiet (f : St -> St) :
  (forall s, s_nodes (f s) = s_nodes s) -> (forall s, s_cloud (f s) = s_cloud s) ->
  (forall s, ru_Spec (s_ru (f s)) = ru_Spec (s_ru s)) ->
  (forall s, ru_CreationTimestamp (s_ru (f s)) = ru_CreationTimestamp (s_ru s)) ->
  (forall s, s_calls (f s) = s_calls s) -> preserves quiet (modify f).
Proof.
  intros H1 H2 H3 H4 H5 s. apply quiet_same_nodes; [apply H1|apply H2|apply H3|apply H4|apply H5].
Qed.

Hint Extern 2 (preserves quiet (modify _)) => apply modify_quiet; reflexivity : frame.
Hint Extern 2 (preserves quiet (upd_ru _)) => apply modify_quiet; reflexivity : frame.

Lemma CordonUncordonAllNodes_quiet (b : bool) : preserves quiet (CordonUncordonAllNodes b).
Proof.
  intros s. destruct (CordonUncordonAllNodes_triple s b) as [[H1 H2 H3 H4 H5] (new & Hc & _)].
  split; [done|done|by rewrite H1|by rewrite H1|]. rewrite Hc. by eexists.
Qed.

Lemma DoNodeStepAt_quiet (c : nat) (g n st : string) (t : Time) :
  preserves quiet (DoNodeStepAt c g n st t).
Proof.
  unfold DoNodeStepAt, Now. frame. apply modify_quiet; intros s; apply store_steps_keeps.
Qed.

Lemma set_worker_pc_quiet (i : nat) (pc : DrainPc) : preserves quiet (set_worker_pc i pc).
Proof.
  apply modify_quiet; intros s; cbv beta; destruct (dm_workers (s_drain s) !! i); reflexivity.
Qed.

Hint Resolve worker_body_quiet set_worker_pc_quiet : frame.

Lemma run_worker_quiet (i : nat) : preserves quiet (run_worker i).
Proof. unfold run_worker. frame. Qed.

Lemma recv_worker_quiet (i : nat) : preserves quiet (recv_worker i).
Proof. unfold recv_worker. frame. Qed.

Hint Resolve run_worker_quiet recv_worker_quiet : frame.

Lemma await_quiet (l : list SchedEvent) : preserves quiet (await l).
Proof. induction l as [|[i|i| |] l IH]; cbn [await]; frame; exact IH. Qed.

Hint Resolve CordonUncordonAllNodes_quiet DoNodeStepAt_quiet await_quiet : frame.

Lemma ReplaceNodeBatch_quiet (cfg : Config) (batch : list Instance_) :
  preserves quiet (ReplaceNodeBatch cfg batch).
Proof.
  unfold ReplaceNodeBatch, prepare_batch, mode_phase, new_call, early_cordon, eager_phase, lazy_phase,
    drain_phase, start_drains, background, launch, launch_one,
    wait_and_terminate, terminate_batch, terminate_one, turn_onto, ClusterBallooning,
    release_replacement, upd_replacementNodes, SetBatchStandBy, SetInstancesStandBy, TagEC2instances,
    UntagEC2instances, TerminateInstance, DesiredNodesReady, ListClusterNodes, still_waiting,
    PostTerminate, run_hook, runScript, Now. frame.
Qed.
End quiet_lemmas.

(** *** With no goroutine left over *)
Section idle_lemmas.
Context `{E : Env}.

(** With no goroutine left, nothing happens in the background. *)
Lemma run_worker_idle (i : nat) (s : St) :
  group_idle s -> run_worker i s = (Val tt, s).
Proof.
  intros [HG H0]. unfold run_worker. rewrite (bind_val _ _ s s s) by done.
  destruct (dm_workers (s_drain s) !! i) as [w|] eqn:Ew; [|done].
  by rewrite (group_zero_done s i w HG H0 Ew).
Qed.

Lemma background_idle (s : St) :
  group_idle s -> background s = (Val tt, set_world (svc_background (s_world s)).2 s).
Proof.
  intros [HG H0]. unfold background, ask, mbind at 1, M_bind at 1.
  destruct (svc_background (s_world s)) as [order w]. cbn [snd].
  induction order as [|i l IH]; [done|]. cbn [for_each].
  by rewrite (bind_val _ _ _ _ _ (run_worker_idle i (set_world w s) (conj HG H0))).
Qed.

Context (R : relation St) `{!PreOrder R}.
Context (R_drain : forall s s', R s s' -> s_drain s' = s_drain s).
Context (R_world : forall w s, R s (set_world w s)).

Lemma idle_same (s s' : St) : R s s' -> group_idle s -> group_idle s'.
Proof. intros H%R_drain. unfold group_idle, group_ok. by rewrite H. Qed.

Lemma from_idle_preorder : PreOrder (from_idle R).
Proof.
  split.
  - intros s _. reflexivity.
  - intros x y z H1 H2 Hx. transitivity y; [by apply H1|]. apply H2, (idle_same x); auto.
Qed.

Lemma from_idle_intro {A} (m : M St A) : preserves R m -> preserves (from_idle R) m.
Proof. intros H s _. apply H. Qed.

Lemma background_from_idle : preserves (from_idle R) background.
Proof. intros s H. rewrite background_idle by done. apply R_world. Qed.

(** Up to the interval checks. *)
Lemma prepare_batch_from_idle (cfg : Config) (batch : list Instance_) (s : St) :
  preserves R new_call -> preserves R (early_cordon cfg) ->
  (forall c mode, preserves R (mode_phase cfg c mode batch)) ->
  group_idle s -> R s (prepare_batch cfg batch s).2.
Proof.
  intros H1 H2 H3. revert s. change (preserves (from_idle R) (prepare_batch cfg batch)).
  pose proof from_idle_preorder. pose proof background_from_idle as H4. unfold prepare_batch.
  frame; first [apply H4 | apply from_idle_intro; auto].
Qed.
End idle_lemmas.

(** *** Termination comes after the drain *)
Section after_drain.
Context `{E : Env} `{!CordonLaws E, !NodeApiLaws E}.

Lemma prepares_intro {A} (m : M St A) :
  preserves (keeps s_drain) m -> preserves quiet m -> preserves (emits (fun c => ~ terminates c)) m ->
  preserves prepares m.
Proof. intros H1 H2 H3 s. split; [apply H1|apply H2|apply H3]. Qed.

Lemma not_disruptive_terminates (batch : list Instance_) (left : list string) (c : Call) :
  batch_call batch left c /\ ~ disruptive c -> ~ terminates c.
Proof. intros [_ H]. by destruct c. Qed.

Hint Resolve CordonUncordonAllNodes_quiet DoNodeStepAt_quiet : frame.
Hint Extern 2 (preserves quiet (modify _)) => apply modify_quiet; reflexivity : frame.
Hint Extern 2 (preserves quiet (upd_ru _)) => apply modify_quiet; reflexivity : frame.

Lemma new_call_prepares : preserves prepares new_call.
Proof. apply prepares_intro; [frame| |frame]. unfold new_call. frame. Qed.

Lemma early_cordon_prepares (cfg : Config) : preserves prepares (early_cordon cfg).
Proof.
  apply prepares_intro; [frame| |apply early_cordon_emits; intros; cbn; tauto]. unfold early_cordon. frame.
Qed.

Lemma mode_phase_prepares (cfg : Config) (c : nat) (batch : list Instance_) (mode : string) :
  preserves prepares (mode_phase cfg c mode batch).
Proof.
  apply prepares_intro.
  - frame.
  - unfold mode_phase, eager_phase, lazy_phase, turn_onto, ClusterBallooning, upd_replacementNodes,
      SetBatchStandBy, SetInstancesStandBy, TagEC2instances, DesiredNodesReady, ListClusterNodes. frame.
  - eapply emits_weaken; [apply (not_disruptive_terminates batch [])|apply mode_phase_emits].
Qed.

Lemma still_waiting_prepares (t : option Time) (n : Z) : preserves prepares (still_waiting t n).
Proof. apply prepares_intro; [frame| |frame]. unfold still_waiting, Now. frame. Qed.

#[export] Instance prepares_preorder : PreOrder prepares.
Proof.
  split.
  - intros s. split; [done|reflexivity|reflexivity].
  - intros x y z [A1 A2 A3] [B1 B2 B3]. split; [congruence|by transitivity y|by transitivity y].
Qed.

(** Up to the interval checks, when no goroutine is left over. *)
Lemma prepare_batch_prepares' (cfg : Config) (batch : list Instance_) (s : St) :
  preserves prepares (early_cordon cfg) -> group_idle s -> prepares s (prepare_batch cfg batch s).2.
Proof.
  intros HC. apply (prepare_batch_from_idle prepares).
  - intros s1 s2 H. apply H.
  - intros w s1. split; [done|by apply quiet_same_nodes|]. exists []. by rewrite app_nil_r.
  - apply new_call_prepares.
  - exact HC.
  - intros c mode. apply mode_phase_prepares.
Qed.

Lemma prepare_batch_prepares (cfg : Config) (batch : list Instance_) (s : St) :
  group_idle s -> prepares s (prepare_batch cfg batch s).2.
Proof. apply prepare_batch_prepares', early_cordon_prepares. Qed.

(** The instances the terminating loop can reach have a node in the cache. *)
Lemma terminate_batch_nodes (c : nat) (batch : list Instance_) (s : St) :
  emits (fun call => forall id d, call = CallTerminateInstance id d ->
           exists t p, t ∈ batch /\ instance_id t = id /\ select_node id s = Some p)
    s (terminate_batch c batch s).2.
Proof.
  set (P := fun call => forall id d, call = CallTerminateInstance id d -> _).
  assert (forall A (m : M St A), preserves quiet m -> preserves (emits P) m ->
    triple (quiet s) P m (fun _ => True)) as HT.
  { intros A m HQ HE s1 H1. split; [transitivity s1; [done|apply HQ]|]. split; [apply HE|done]. }
  assert (triple (quiet s) P (terminate_batch c batch) (fun _ => True)) as H;
    [|by destruct (H s (reflexivity s)) as (_ & ? & _)].
  unfold terminate_batch.
  eapply triple_bind; [apply HT; unfold Now; frame|]. intros now _.
  eapply triple_bind; [apply HT; frame|]. intros [] _.
  eapply (triple_bind _ _ _ _ (fun _ => True)).
  - apply triple_for_return; [done|]. intros t Ht s1 H1. unfold terminate_one.
    rewrite (bind_val _ _ s1 s1 s1) by done.
    destruct (select_node (instance_id t) s1) as [p|] eqn:Ep; [|by apply (triple_ret _ _ None)].
    assert (P (CallTerminateInstance (instance_id t) false)) as HP.
    { intros id d [= <- <-]. exists t, p. split; [done|]. split; [done|].
      unfold select_node in *. rewrite <- (quiet_select s s1) by done.
      by rewrite <- (q_cloud _ _ H1). }
    refine (HT _ _ _ _ s1 H1); unfold TerminateInstance, UntagEC2instances, PostTerminate,
      release_replacement, upd_replacementNodes, run_hook, runScript, Now; frame;
      apply call_emits; unfold P; done || discriminate.
  - intros [r|] _; [by apply triple_ret|].
    eapply triple_bind; [apply HT; frame|]. intros _ _. by apply triple_ret.
Qed.

(** The state the terminating loop starts in, when the batch was launched by
    this call. *)
Lemma drained_batch (cfg : Config) (c : nat) (batch : list Instance_) (s s2 s3 : St)
    (l : list SchedEvent) (t : Instance_) (p : node_ptr) :
  group_ok s -> DrainGroup (s_drain s) = 0%Z -> ignore_drain_failures cfg (s_ru s) = false ->
  start_drains cfg c batch s = (Val tt, s2) -> quiet s2 s3 -> s_drain s3 = s_drain s2 ->
  forall s4, await l s3 = (Val Drained, s4) ->
  t ∈ batch -> select_node (instance_id t) s = Some p ->
  CallDrain (node_Name (read_node (s_nodes s) p)) (seconds (drain_timeout cfg (s_ru s)))
    ∈ drop (length (s_calls s)) (s_calls s4).
Proof.
  intros HG H0 Hig Hs HQ3 HD3 s4 Ha Ht Hp. unfold start_drains in Hs.
  rewrite (bind_val _ _ s s s) in Hs by done. rewrite H0 in Hs. cbn [Z.eqb] in Hs.
  set (k := length (dm_workers (s_drain s))).
  destruct (launch_inv cfg c batch (length (s_calls s)) k s)
    as (s2' & Hl & HI & HQ & _ & _ & _ & _ & _ & HW); [|done|done|].
  { intros i w Hi Hw. apply lookup_lt_Some in Hw. lia. }
  rewrite Hs in Hl. injection Hl as <-.
  assert (group_ok s2) as HG2 by (pose proof (launch_group cfg c batch s HG) as H; by rewrite Hs in H).
  assert (drained_inv (length (s_calls s)) k s3) as HI3.
  { intros i w Hi. rewrite HD3. intros Hw. apply (worker_inv_quiet _ s2); [done|]. by apply (HI i). }
  destruct (await_drained _ k l s3 s4 HI3 Ha) as (HI4 & HQ4 & HZ).
  assert (group_ok s4) as HG4.
  { pose proof (await_group l s3) as H. rewrite Ha in H. apply H. unfold group_ok. by rewrite HD3. }
  destruct (HW t p Ht Hp) as (i & w & Hi & Hw & Hn & Htm & Hgn).
  assert (exists w', dm_workers (s_drain s4) !! i = Some w' /\ dw_nodeName w' = dw_nodeName w /\
    dw_drainTimeout w' = dw_drainTimeout w /\
    dw_ignoreDrainFailures w' = dw_ignoreDrainFailures w) as (w' & Hw' & E1 & E2 & E3).
  { apply (await_workers l s3 s4 _ Ha eq_refl i w). by rewrite HD3. }
  destruct (HI4 i w' Hi Hw') as [_ _ Hd]. rewrite E1, E2, E3, Hn, Htm in Hd. apply Hd.
  - by rewrite (group_zero_done s4 i w' HG4 HZ Hw').
  - congruence.
Qed.

Lemma prepares_bind {A B} (m : M St A) (f : A -> M St B) (s0 s : St) :
  prepares s0 s -> preserves prepares m ->
  (exists a s1, prepares s0 s1 /\ (m ≫= f) s = f a s1) \/ prepares s0 ((m ≫= f) s).2.
Proof.
  intros H Hm. destruct (bind_cases prepares m f s0 s H Hm) as [(a & s1 & ? & _ & ?)|[? ->]]; eauto.
Qed.

Lemma no_terminate_position (s s' : St) (pre post : list Call) (id : string) (d : bool) :
  emits (fun c => ~ terminates c) s s' ->
  s_calls s' = s_calls s ++ pre ++ CallTerminateInstance id d :: post -> False.
Proof.
  intros (new & Hn & HF) H. rewrite Hn in H. apply app_inv_head in H as ->.
  apply Forall_app in HF as [_ HF]. inversion_clear HF as [|? ? Hc _]. by apply Hc.
Qed.

(** A termination comes after everything that holds none. *)
Lemma terminate_split (l rest pre post : list Call) (id : string) (d : bool) :
  Forall (fun c => ~ terminates c) l ->
  l ++ rest = pre ++ CallTerminateInstance id d :: post ->
  exists pre', pre = l ++ pre' /\ rest = pre' ++ CallTerminateInstance id d :: post.
Proof.
  intros HF H. destruct (app_eq_inv _ _ _ _ H) as [(k & -> & Hk)|(k & -> & Hk)]; [|by exists k].
  destruct k as [|x k]; cbn in Hk.
  - exists []. by rewrite !app_nil_r.
  - injection Hk as <- _. apply Forall_app in HF as [_ HF].
    inversion_clear HF as [|? ? Hx _]. by destruct Hx.
Qed.

(** The last part: the select and the terminating loop. *)
Lemma wait_and_terminate_drained (cfg : Config) (c : nat) (batch : list Instance_) (s s2 : St)
    (pre post : list Call) (id : string) (d : bool) :
  group_ok s -> DrainGroup (s_drain s) = 0%Z -> ignore_drain_failures cfg (s_ru s) = false ->
  start_drains cfg c batch s = (Val tt, s2) -> quiet s s2 -> s_calls s2 = s_calls s ->
  s_calls (wait_and_terminate c batch s2).2
    = s_calls s ++ pre ++ CallTerminateInstance id d :: post ->
  exists p, select_node id s = Some p /\
    CallDrain (node_Name (read_node (s_nodes s) p)) (seconds (drain_timeout cfg (s_ru s))) ∈ pre.
Proof.
  intros HG H0 Hig Hs HQ2 Hc2 Hpos. revert Hpos. unfold wait_and_terminate.
  unfold ask, mbind at 1, M_bind at 1. destruct (svc_schedule (s_world s2)) as [l w].
  set (s3 := set_world w s2).
  assert (emits (fun c => ~ terminates c) s s3) as HE3 by (exists []; cbn; by rewrite app_nil_r).
  pose proof (await_emits l s3) as HE4.
  assert (emits (fun c => ~ terminates c) s (await l s3).2) as HE5.
  { transitivity s3; [done|]. destruct HE4 as (new & Hn & HF). exists new. split; [done|].
    eapply Forall_impl; [exact HF|]. intros call Hc. by apply drain_call_terminates. }
  unfold mbind at 1, M_bind at 1. destruct (await l s3) as [[r|] s4] eqn:Ea; cbn [snd] in HE5;
    [|intros Hpos; by destruct (no_terminate_position _ _ _ _ _ _ HE5 Hpos)].
  assert (forall A (m : M St A), preserves (emits (fun c => ~ terminates c)) m ->
    s_calls (m s4).2 = s_calls s ++ pre ++ CallTerminateInstance id d :: post -> False) as HN.
  { intros A m Hm. apply no_terminate_position. transitivity s4; [done|apply Hm]. }
  destruct r as [e| |]; [intros Hpos; apply HN in Hpos; [done|frame]| |
    intros Hpos; apply HN in Hpos; [done|frame]].
  intros Hpos.
  destruct (terminate_batch_nodes c batch s4) as (new & Hn & HF).
  destruct HE5 as (new1 & Hn1 & HF1). rewrite Hn, Hn1, <- app_assoc in Hpos.
  apply app_inv_head in Hpos.
  apply terminate_split in Hpos as (pre' & -> & ->); [|done].
  apply Forall_app in HF as [_ HF]. inversion_clear HF as [|? ? Ht _].
  destruct (Ht id d eq_refl) as (t & p & Htb & Hid & Hp).
  destruct (await_drained (length (s_calls s)) (length (dm_workers (s_drain s2))) l s3 s4)
    as (_ & HQ4 & _).
  { intros i v Hi Hv. apply lookup_lt_Some in Hv. cbn in Hv. lia. }
  { done. }
  assert (quiet s s4) as HQ by (transitivity s2; [done|]; transitivity s3; [by apply quiet_same_nodes|done]).
  assert (select_node id s = Some p) as Hp0.
  { unfold select_node in *. by rewrite <- (quiet_select s s4), <- (q_cloud _ _ HQ). }
  exists p. split; [done|]. apply elem_of_app. left.
  pose proof (drained_batch cfg c batch s s2 s3 l t p HG H0 Hig Hs ltac:(by apply quiet_same_nodes)
    eq_refl s4 Ea Htb) as HD.
  rewrite Hid in HD. specialize (HD Hp0). by rewrite Hn1, drop_app_length in HD.
Qed.

Lemma drain_phase_drained (cfg : Config) (c : nat) (batch : list Instance_) (s0 s : St)
    (pre post : list Call) (id : string) (d : bool) :
  prepares s0 s ->
  group_ok s0 -> DrainGroup (s_drain s0) = 0%Z -> ignore_drain_failures cfg (s_ru s0) = false ->
  s_calls (drain_phase cfg c batch s).2 = s_calls s0 ++ pre ++ CallTerminateInstance id d :: post ->
  exists p, select_node id s0 = Some p /\
    CallDrain (node_Name (read_node (s_nodes s0) p)) (seconds (drain_timeout cfg (s_ru s0))) ∈ pre.
Proof.
  intros HP HG H0 Hig. unfold drain_phase. rewrite (bind_val _ _ s s s) by done.
  match goal with |- s_calls ((?m ≫= ?f) s).2 = _ -> _ =>
    destruct (prepares_bind m f s0 s HP (still_waiting_prepares _ _)) as [(w1 & s1 & HP1 & ->)|HE] end;
    [|intros Hpos; by destruct (no_terminate_position _ _ _ _ _ _ (pr_calls _ _ HE) Hpos)].
  destruct w1; [intros Hpos; by destruct (no_terminate_position _ _ _ _ _ _ (pr_calls _ _ HP1) Hpos)|].
  match goal with |- s_calls ((?m ≫= ?f) s1).2 = _ -> _ =>
    destruct (prepares_bind m f s0 s1 HP1 (still_waiting_prepares _ _)) as [(w2 & s2 & HP2 & ->)|HE] end;
    [|intros Hpos; by destruct (no_terminate_position _ _ _ _ _ _ (pr_calls _ _ HE) Hpos)].
  destruct w2; [intros Hpos; by destruct (no_terminate_position _ _ _ _ _ _ (pr_calls _ _ HP2) Hpos)|].
  assert (group_idle s2) as Hb%background_idle by (unfold group_idle, group_ok; by rewrite (pr_drain _ _ HP2)).
  rewrite (bind_val _ _ _ _ _ Hb). set (s3 := set_world _ s2).
  destruct HP2 as [HD2 HQ2 HE2].
  assert (quiet s0 s3) as HQ3 by (transitivity s2; [done|by apply quiet_same_nodes]).
  assert (s_drain s3 = s_drain s0) as HD3 by done.
  destruct (launch_inv cfg c batch (length (s_calls s3)) (length (dm_workers (s_drain s3))) s3)
    as (s4 & Hl & _ & HQ4 & _ & _ & Hc4 & _); [|done|done|].
  { intros i v Hi Hv. apply lookup_lt_Some in Hv. lia. }
  assert (start_drains cfg c batch s3 = (Val tt, s4)) as Hs.
  { unfold start_drains. rewrite (bind_val _ _ s3 s3 s3) by done. rewrite HD3, H0. exact Hl. }
  rewrite (bind_val _ _ _ _ _ Hs). intros Hpos.
  destruct HE2 as (new2 & Hn2 & HF2).
  assert (ru_Spec (s_ru s3) = ru_Spec (s_ru s0)) as Hsp by apply HQ3.
  assert (exists pre', pre = new2 ++ pre') as [pre' ->].
  { assert (preserves (emits (fun _ => True)) (wait_and_terminate c batch)) as HW.
    { unfold wait_and_terminate. frame.
      - apply (emits_weaken drain_call); [done|apply await_emits].
      - apply (emits_weaken (batch_call batch [])); [done|apply terminate_batch_emits]. }
    destruct (HW s4) as (new4 & Hn4 & _).
    rewrite Hpos, Hc4 in Hn4. change (s_calls s3) with (s_calls s2) in Hn4.
    rewrite Hn2, <- app_assoc in Hn4. apply app_inv_head in Hn4.
    apply eq_sym, terminate_split in Hn4 as (pre' & -> & _); [by exists pre'|done]. }
  destruct (wait_and_terminate_drained cfg c batch s3 s4 pre' post id d) as (p & Hp & HD).
  - unfold group_ok. by rewrite HD3.
  - by rewrite HD3.
  - unfold ignore_drain_failures, IsIgnoreDrainFailures in *. by rewrite Hsp.
  - exact Hs.
  - exact HQ4.
  - exact Hc4.
  - rewrite Hpos. change (s_calls s3) with (s_calls s2). by rewrite Hn2, <- !app_assoc.
  - exists p. unfold select_node in *. rewrite (quiet_select s0 s3), (q_cloud _ _ HQ3) in Hp by done.
    split; [done|]. apply elem_of_app. right.
    rewrite (quiet_name s0 s3) in HD by done. unfold drain_timeout, DrainTimeout in *.
    by rewrite Hsp in HD.
Qed.
End after_drain.

(** *** Cordoning, for any relation the calls about nodes and the writes to nodes keep *)
Section cordoning.
Context `{E : Env} (R : relation St) `{!PreOrder R}.
Context (R_cordon : forall n b,
  preserves R (call (CallCordon (node_Name n) b) (svc_RunCordonOrUncordon n b))).
Context (R_get : forall name, preserves R (NodesGet name)).
Context (R_update : forall n, preserves R (NodesUpdate n)).
Context (R_write : forall p n, preserves R (write_node p n)).
Hint Resolve R_cordon R_get R_update R_write : frame.

Lemma RunCordonOrUncordon_preserves (o : NodeObj) (b : bool) : preserves R (RunCordonOrUncordon o b).
Proof. unfold RunCordonOrUncordon, read_obj, write_obj, node_at. frame. Qed.
Hint Resolve RunCordonOrUncordon_preserves : frame.

Lemma CordonUncordonAllNodes_preserves (b : bool) : preserves R (CordonUncordonAllNodes b).
Proof.
  assert (forall n nm, preserves R (remove_loop n nm)) as HR.
  { induction n as [|n IH]; intros nm; cbn [remove_loop]; frame; apply IH. }
  assert (forall o, preserves R (uncordonAndRemoveAnnotation o)) as HU.
  { intros o. unfold uncordonAndRemoveAnnotation, CordonUncordonNode, read_obj, node_at. frame; apply HR. }
  assert (forall n p, preserves R (annotate_loop n p)) as HA.
  { induction n as [|n IH]; intros p; cbn [annotate_loop]; unfold node_at; frame;
      first [apply IH | apply HU]. }
  unfold CordonUncordonAllNodes, cordon_instance, instance_drifted, cordon_node,
    cordonAndAnnotateNode, CordonUncordonNode, node_at.
  frame; first [apply HA | apply HU].
Qed.
End cordoning.

(** *** Fields of the resource *)

Section fields.
Context `{E : Env} {A : Type} (g : RollingUpgrade -> A).

(** [g] does not look at the bookkeeping of the steps. *)
Context (g_steps : forall r st, st_CurrentStatus st = st_CurrentStatus (ru_Status r) ->
  st_LastNodeTerminationTime st = st_LastNodeTerminationTime (ru_Status r) ->
  st_LastNodeDrainTime st = st_LastNodeDrainTime (ru_Status r) ->
  g (with_Status (fun _ => st) r) = g r).

Abbreviation K := (keeps (fun s : St => g (s_ru s))).

Lemma memory_keeps_ru {B} (m : M St B) : preserves same_memory m -> preserves K m.
Proof. intros H s. unfold keeps. by rewrite (sm_ru _ _ (H s)). Qed.

Lemma modify_keeps_ru (f : St -> St) :
  (forall s, g (s_ru (f s)) = g (s_ru s)) -> preserves K (modify f).
Proof. intros H s. apply H. Qed.

Lemma ask_keeps_ru {B} (f : World -> B * World) : preserves K (ask f).
Proof. apply memory_keeps_ru, ask_memory. Qed.

Lemma call_keeps_ru {B} (c : Call) (f : World -> B * World) : preserves K (call c f).
Proof. apply memory_keeps_ru, call_memory. Qed.

Hint Resolve ask_keeps_ru call_keeps_ru : frame.
Hint Extern 3 (preserves K (modify _)) => apply modify_keeps_ru; reflexivity : frame.
Hint Extern 3 (preserves K (write_node _ _)) => apply modify_keeps_ru; reflexivity : frame.

Lemma DoNodeStepAt_keeps_ru (c : nat) (gr n st : string) (t : Time) :
  preserves K (DoNodeStepAt c gr n st t).
Proof.
  unfold DoNodeStepAt, Now. frame. apply modify_keeps_ru. intros s. unfold store_steps.
  destruct (cm_inProcessing _); [done|]. by apply g_steps.
Qed.

Lemma NodeStep_keeps_ru (c : nat) (gr n st : string) : preserves K (NodeStep c gr n st).
Proof. unfold NodeStep, Now. frame. apply DoNodeStepAt_keeps_ru. Qed.

Lemma UpdateMetricsStatus_keeps_ru (c : nat) : preserves K (UpdateMetricsStatus c).
Proof.
  unfold UpdateMetricsStatus, range_map. frame. apply modify_keeps_ru. intros s. by apply g_steps.
Qed.

Lemma RunCordonOrUncordon_keeps_ru (o : NodeObj) (b : bool) :
  preserves K (RunCordonOrUncordon o b).
Proof. apply RunCordonOrUncordon_preserves; [typeclasses eauto|..]; frame. Qed.

Hint Resolve DoNodeStepAt_keeps_ru NodeStep_keeps_ru UpdateMetricsStatus_keeps_ru
  RunCordonOrUncordon_keeps_ru : frame.

Lemma CordonUncordonAllNodes_keeps_ru (b : bool) : preserves K (CordonUncordonAllNodes b).
Proof.
  apply CordonUncordonAllNodes_preserves; [typeclasses eauto|..]; unfold NodesGet, NodesUpdate; frame.
Qed.

Hint Resolve CordonUncordonAllNodes_keeps_ru : frame.

Lemma new_call_keeps_ru : preserves K new_call.
Proof. unfold new_call. frame. Qed.

Lemma early_cordon_keeps_ru (cfg : Config) : preserves K (early_cordon cfg).
Proof. unfold early_cordon. frame. Qed.

Lemma mode_phase_keeps_ru (cfg : Config) (c : nat) (batch : list Instance_) (mode : string) :
  preserves K (mode_phase cfg c mode batch).
Proof.
  unfold mode_phase, eager_phase, lazy_phase, turn_onto, ClusterBallooning, upd_replacementNodes,
      SetBatchStandBy, SetInstancesStandBy, TagEC2instances, DesiredNodesReady, ListClusterNodes. frame.
Qed.

Lemma set_worker_pc_keeps_ru (i : nat) (pc : DrainPc) : preserves K (set_worker_pc i pc).
Proof. apply modify_keeps_ru. intros s. by destruct (dm_workers (s_drain s) !! i). Qed.

Lemma worker_body_keeps_ru (w : DrainWorker) : preserves K (worker_body w).
Proof.
  unfold worker_body, worker_step, PreDrain, PostDrain, PostWait, run_hook, runScript, drain_part,
    worker_step, DrainNode, read_obj, node_at, TagEC2instances. frame.
Qed.

Hint Resolve set_worker_pc_keeps_ru worker_body_keeps_ru : frame.

Lemma await_keeps_ru (l : list SchedEvent) : preserves K (await l).
Proof.
  induction l as [|[i|i| |] l IH]; cbn [await]; unfold run_worker, recv_worker; frame; exact IH.
Qed.

Lemma background_keeps_ru : preserves K background.
Proof. unfold background, run_worker. frame. Qed.

Lemma prepare_batch_keeps_ru (cfg : Config) (batch : list Instance_) :
  preserves K (prepare_batch cfg batch).
Proof.
  pose proof new_call_keeps_ru. pose proof background_keeps_ru.
  pose proof (early_cordon_keeps_ru cfg). pose proof (mode_phase_keeps_ru cfg).
  unfold prepare_batch. frame.
Qed.

Lemma launch_keeps_ru (cfg : Config) (c : nat) (batch : list Instance_) :
  preserves K (launch cfg c batch).
Proof. unfold launch, launch_one. frame. Qed.
End fields.

Section status_kept.
Context `{E : Env}.

(** A projection that ignores the times of the last drain and termination. *)
Lemma ReplaceNodeBatch_keeps_ru {A} (g : RollingUpgrade -> A) (cfg : Config) (batch : list Instance_) :
  (forall r st, st_CurrentStatus st = st_CurrentStatus (ru_Status r) ->
     g (with_Status (fun _ => st) r) = g r) ->
  preserves (keeps (fun s : St => g (s_ru s))) (ReplaceNodeBatch cfg batch).
Proof.
  intros HF.
  assert (forall r st, st_CurrentStatus st = st_CurrentStatus (ru_Status r) ->
    st_LastNodeTerminationTime st = st_LastNodeTerminationTime (ru_Status r) ->
    st_LastNodeDrainTime st = st_LastNodeDrainTime (ru_Status r) ->
    g (with_Status (fun _ => st) r) = g r) as HG by (intros; by apply HF).
  pose proof (fun c => UpdateMetricsStatus_keeps_ru g HG c) as H1.
  pose proof (fun c gr n st => NodeStep_keeps_ru g HG c gr n st) as H2.
  pose proof (fun c gr n st t => DoNodeStepAt_keeps_ru g HG c gr n st t) as H3.
  pose proof (await_keeps_ru g HG) as H4.
  unfold ReplaceNodeBatch. apply preserves_bind; [typeclasses eauto|by apply prepare_batch_keeps_ru|].
  intros [c [r|]]; [frame|].
  unfold drain_phase, start_drains, still_waiting, wait_and_terminate, terminate_batch, terminate_one,
    release_replacement, upd_replacementNodes, UntagEC2instances, TerminateInstance, PostTerminate,
    run_hook, runScript, Now.
  frame; first [apply H1 | apply H2 | apply H3 | apply H4 | by apply background_keeps_ru
    | by apply launch_keeps_ru | apply ask_keeps_ru | apply call_keeps_ru
    | by apply modify_keeps_ru | apply modify_keeps_ru; intros; by apply HF].
Qed.

(** [ReplaceNodeBatch] never sets the status of the resource. *)
Lemma ReplaceNodeBatch_keeps_status (cfg : Config) (batch : list Instance_) :
  preserves (keeps (fun s : St => CurrentStatus (s_ru s))) (ReplaceNodeBatch cfg batch).
Proof. by apply ReplaceNodeBatch_keeps_ru. Qed.
End status_kept.
