(* ===== verification/Rotate.v ===== *)
(** * What a rotation guarantees: theorems on [ReplaceNodeBatch] and [RotateNodes]
      (controllers/upgrade.go)

    The definitions are those of [Replace]; this file proves the safety of a
    rotation for every environment, and collects the witnesses. *)
From S2P Require Import Prelude GoStrings GoTime Common Types AwsProvider KubeProvider Metrics Env SampleEnv.
From S2P Require Import AwsClient KubeClient Cloud Steps Drift Uniform Targets Balloon Cordon Drain.
From S2P Require Import Replace.

(** ** Specification *)
Section specification.
Context `{E : Env}.

(** A rotation may terminate this instance: it is a live instance of the group
    that is tagged in-progress or drifted. *)
Record may_terminate (s : St) (id : string) : Prop := {
  mt_decided : exists i, i ∈ asg_Instances (scaling_group s) /\ instance_id i = id /\
    is_terminating i = false /\
    ((exists x, x ∈ InProgressInstances (s_cloud s) /\ EqualFold x id = true) \/
     IsInstanceDrifted (s_ru s) (s_cloud s) (cluster_nodes s) i = Val true);
}.

(** Every termination in the trace satisfies [P]. *)
Definition terminating (P : string -> bool -> Prop) (c : Call) : Prop :=
  forall id d, c = CallTerminateInstance id d -> P id d.
(** Steps that disrupt nothing and keep the status. *)
Definition calm (s s' : St) : Prop :=
  keeps (fun s : St => CurrentStatus (s_ru s)) s s' /\ emits (fun c => ~ disruptive c) s s'.

(** How a rotation ends. *)
Inductive rotation_way (cfg : Config) (s : St) (o : outcome (option error)) (s' : St) : Prop :=
| WayStopped :
    (* an error before any node was looked at, or a panic *)
    o <> Val None -> emits (fun c => ~ disruptive c) s s' ->
    (o <> Panic -> CurrentStatus (s_ru s') ∈ [StatusRunning; StatusError]) ->
    rotation_way cfg s o s'
| WayComplete (s3 : St) :
    (* the group is not drifted *)
    o = Val None -> emits (fun c => ~ disruptive c) s s' -> CurrentStatus (s_ru s') = StatusComplete ->
    (IsScalingGroupDrifted s3).1 = Val false -> quiet s3 s' ->
    rotation_way cfg s o s'
| WayBatch (failed : list string) (s3 : St) :
    (* a batch is rotated *)
    CurrentStatus (s_ru s3) = StatusRunning -> emits (fun c => ~ disruptive c) s s3 ->
    (o, s') = rotate_batch cfg (scaling_group s3) failed s3 ->
    rotation_way cfg s o s'.
(** At time [now], the interval after the time [last] is not over. *)
Definition within (now : Time) (last : option Time) (interval : Z) : Prop :=
  exists t, last = Some t /\ IsZero t = false /\ since_less_than now t interval = true.

(** The world in which the second interval check reads the clock: after the reading
    of the first, if that had a time to compare with. *)
Definition second_reading (last : option Time) (w : World) : World :=
  match last with Some t => if IsZero t then w else (svc_Now w).2 | None => w end.

(** Nothing is terminated and no goroutine is started; and with no goroutine left
    over from earlier calls, nothing is drained either and the goroutines are as before. *)
Record holds_back (s s' : St) : Prop := {
  hb_calls : emits (fun c => ~ terminates c) s s';
  hb_workers : length (dm_workers (s_drain s')) = length (dm_workers (s_drain s));
  hb_idle : group_ok s -> DrainGroup (s_drain s) = 0%Z ->
    s_drain s' = s_drain s /\ emits (fun c => ~ disruptive c) s s';
}.

(** Calls of a batch that is treated with care: tagged in-progress, sent to
    standby, waited for. *)
Definition careful (c : Call) : Prop :=
  match c with
  | CallEnterStandby _ _ _ | CallNodesList => True
  | CallCreateTags _ _ value => value = inProgressTagValue
  | _ => False
  end.
End specification.

(** Does a trace drain this node, or terminate this instance? *)
Definition drains (name : string) (calls : list Call) : bool :=
  existsb (fun c => match c with CallDrain n _ => String.eqb n name | _ => false end) calls.
Definition terminates_id (id : string) (calls : list Call) : bool :=
  existsb (fun c => match c with CallTerminateInstance i _ => String.eqb i id | _ => false end) calls.


(** ** Lemmas *)
Section rotation_lemmas.
Context `{E : Env} `{!CordonLaws E, !NodeApiLaws E}.

Lemma quiet_scaling_group (s s' : St) : quiet s s' -> scaling_group s' = scaling_group s.
Proof.
  intros H. unfold scaling_group, ScalingGroupName. by rewrite (q_spec _ _ H), (q_cloud _ _ H).
Qed.

Lemma IsInstanceDrifted_quiet (s s' : St) (i : Instance_) :
  quiet s s' ->
  IsInstanceDrifted (s_ru s') (s_cloud s') (cluster_nodes s') i =
  IsInstanceDrifted (s_ru s) (s_cloud s) (cluster_nodes s) i.
Proof.
  intros H. unfold IsInstanceDrifted, cluster_nodes, ScalingGroupName, IsForceRefresh.
  rewrite (q_spec _ _ H), (q_cloud _ _ H), (q_created _ _ H), !SelectNode_map.
  rewrite (select_node_ext (id ∘ read_node (s_nodes s)) (id ∘ read_node (s_nodes s'))).
  - destruct (SelectNodeByInstanceID _ _ (ClusterNodes (s_cloud s))) as [p|]; [|done]. cbn.
    by destruct (q_nodes _ _ H p) as [b ->].
  - intros p. unfold compose. by destruct (q_nodes _ _ H p) as [b ->].
Qed.

Lemma may_terminate_quiet (s s' : St) (id : string) :
  quiet s s' -> may_terminate s id -> may_terminate s' id.
Proof.
  intros H [(i & H1 & H2 & H3 & H4)]. split. exists i. rewrite (quiet_scaling_group _ _ H).
  rewrite (IsInstanceDrifted_quiet _ _ _ H), (q_cloud _ _ H). done.
Qed.

Lemma quiet_of_memory {A} (m : M St A) (P : Call -> Prop) :
  preserves same_memory m -> preserves (emits P) m -> preserves quiet m.
Proof.
  intros HM HE s. apply quiet_memory; [apply HM|]. destruct (HE s) as (new & -> & _). by eexists.
Qed.

Lemma SelectTargets_quiet (g : Group) (ex : list string) : preserves quiet (SelectTargets g ex).
Proof.
  apply (quiet_of_memory _ (fun _ => True)); [frame|]. by apply SelectTargets_emits.
Qed.

(** Members of a selected batch may be terminated. *)
Lemma SelectTargets_may_terminate (ex : list string) (s s' : St) (l : list Instance_)
    (i : Instance_) :
  SelectTargets (scaling_group s) ex s = (Val l, s') -> i ∈ l -> may_terminate s (instance_id i).
Proof.
  intros H Hi. apply SelectTargets_members in H as [_ H]. split. exists i.
  destruct (H i Hi) as [[H1 H2 (x & Hx & Ex) _]|[H1 H2 H3 _]].
  - split; [done|]. split; [done|]. split; [done|]. left. by exists x.
  - split; [done|]. split; [done|]. split; [done|]. by right.
Qed.

Lemma rotate_batch_terminates (cfg : Config) (failed : list string) (s : St) :
  quiet s (rotate_batch cfg (scaling_group s) failed s).2 /\
  emits (terminating (fun id d => d = false /\ may_terminate s id)) s
    (rotate_batch cfg (scaling_group s) failed s).2.
Proof.
  set (P := terminating _).
  assert (forall g ex, preserves (emits P) (SelectTargets g ex)) as HS
    by (intros; apply SelectTargets_emits; discriminate).
  set (R := fun s s' : St => quiet s s' /\ emits P s s').
  assert (forall g ex s, R s (SelectTargets g ex s).2) as HR
    by (intros; split; [apply SelectTargets_quiet|apply HS]).
  unfold rotate_batch. apply (run_bind R); [apply HR|]. intros l1 s1 H1.
  pose proof (SelectTargets_memory (scaling_group s) failed s) as M. rewrite H1 in M. cbn in M.
  pose proof (proj1 (HR (scaling_group s) failed s)) as Q1. rewrite H1 in Q1. cbn in Q1.
  apply (run_bind R); [destruct (_ && _); [apply HR|by split]|]. intros l2 s2 H2.
  assert (forall i, i ∈ l2 -> may_terminate s (instance_id i)) as HM.
  { intros i Hi. revert H2. destruct (_ && _).
    - rewrite <- (scaling_group_same _ _ M). intros H2.
      pose proof (SelectTargets_may_terminate [] s1 s2 l2 i H2 Hi) as [(j & J1 & J2 & J3 & J4)].
      split. exists j. rewrite (scaling_group_same _ _ M) in J1.
      rewrite (IsInstanceDrifted_quiet s s1), (sm_cloud _ _ M) in J4 by done. done.
    - intros [= <- <-]. by eapply SelectTargets_may_terminate. }
  apply (run_bind R).
  - split; [apply ReplaceNodeBatch_quiet|].
    destruct (ReplaceNodeBatch_emits cfg l2 s2) as (new & Hn & HF). exists new. split; [done|].
    eapply Forall_impl; [exact HF|].
    intros c Hc id d ->. destruct Hc as [-> (i & -> & Hi)%list_elem_of_fmap]. split; [done|]. by apply HM.
  - intros [ok err] s3 _. by split.
Qed.
End rotation_lemmas.

(** *** The three ways a rotation can go *)
Section ways.
Context `{E : Env} `{!CordonLaws E, !NodeApiLaws E}.

#[local] Instance calm_preorder : PreOrder calm.
Proof. unfold calm. apply both_preorder; typeclasses eauto. Qed.

Lemma calm_intro {A} (m : M St A) :
  preserves (keeps (fun s : St => CurrentStatus (s_ru s))) m ->
  preserves (emits (fun c => ~ disruptive c)) m -> preserves calm m.
Proof. intros H1 H2 s. split; [apply H1|apply H2]. Qed.

Lemma modify_calm (f : St -> St) :
  (forall s, CurrentStatus (s_ru (f s)) = CurrentStatus (s_ru s)) ->
  (forall s, s_calls (f s) = s_calls s) -> preserves calm (modify f).
Proof. intros H1 H2. apply calm_intro; [intros s; apply H1|by apply modify_emits]. Qed.

Lemma ask_calm {A} (f : World -> A * World) : preserves calm (ask f).
Proof. apply calm_intro; [apply ask_keeps_ru|frame]. Qed.

Lemma call_calm {A} (c : Call) (f : World -> A * World) :
  ~ disruptive c -> preserves calm (call c f).
Proof. intros H. apply calm_intro; [apply call_keeps_ru|by apply call_emits]. Qed.

Lemma cleanup_calm (cfg : Config) : preserves calm (cleanup_if_early cfg).
Proof.
  unfold cleanup_if_early, cleanupEarlyCordonedNodes. destruct (cfg_EarlyCordonNodes cfg); [|frame].
  apply preserves_bind; [typeclasses eauto| |intros; frame].
  apply calm_intro; [by apply CordonUncordonAllNodes_keeps_ru|].
  apply CordonUncordonAllNodes_emits; intros; cbn; tauto.
Qed.

Lemma cleanup_quiet (cfg : Config) : preserves quiet (cleanup_if_early cfg).
Proof.
  unfold cleanup_if_early, cleanupEarlyCordonedNodes. destruct (cfg_EarlyCordonNodes cfg); [|frame].
  apply preserves_bind; [typeclasses eauto|apply CordonUncordonAllNodes_quiet|intros; frame].
Qed.

Hint Resolve ask_calm : frame.
Hint Extern 2 (preserves calm (call _ _)) => apply call_calm; cbn; tauto : frame.
Hint Extern 2 (preserves calm (modify _)) => apply modify_calm; reflexivity : frame.
Hint Extern 2 (preserves calm (upd_ru _)) => apply modify_calm; reflexivity : frame.
Hint Extern 2 (preserves calm (upd_metrics _)) => apply modify_calm; reflexivity : frame.
Hint Extern 2 (preserves calm (upd_cloud _)) => apply modify_calm; reflexivity : frame.

Lemma Discover_calm : preserves calm Discover.
Proof.
  unfold Discover, DescribeLaunchTemplates, DescribeScalingGroups, DescribeTaggedInstanceIDs. frame.
Qed.

Lemma IsScalingGroupDrifted_calm : preserves calm IsScalingGroupDrifted.
Proof. unfold IsScalingGroupDrifted, SetProgress. frame. Qed.

Lemma endTimeUpdate_calm : preserves calm endTimeUpdate.
Proof. unfold endTimeUpdate, Now. frame. Qed.

Lemma endTimeUpdate_quiet : preserves quiet endTimeUpdate.
Proof. unfold endTimeUpdate, Now. frame; by apply modify_quiet. Qed.

(** The status set, and what comes after it. *)
Lemma set_status_run (status : string) (s : St) :
  exists r, set_status status s = (Val tt, set_ru r s) /\ CurrentStatus r = status /\
    ru_Spec r = ru_Spec (s_ru s) /\ ru_CreationTimestamp r = ru_CreationTimestamp (s_ru s) /\
    ru_Name r = ru_Name (s_ru s).
Proof. eexists. split; [reflexivity|]. done. Qed.

Lemma SetProgress_quiet (a b : Z) : preserves quiet (SetProgress a b).
Proof. unfold SetProgress. frame; by apply modify_quiet. Qed.

Lemma IsScalingGroupDrifted_quiet : preserves quiet IsScalingGroupDrifted.
Proof. unfold IsScalingGroupDrifted. frame; apply SetProgress_quiet. Qed.

(** Finishing after the group was found not drifted. *)
Lemma completion_run (cfg : Config) (name : string) (s : St) :
  let r := (set_status StatusComplete ;;; upd_metrics (SetMetricRollupCompleted name) ;;;
            endTimeUpdate ;;; cleanup_if_early cfg ;;; mret (M := M St) (@None error)) s in
  emits (fun c => ~ disruptive c) s r.2 /\ quiet s r.2 /\ CurrentStatus (s_ru r.2) = StatusComplete /\
  (r.1 = Val None \/ r.1 = Panic).
Proof.
  intros r. subst r. destruct (set_status_run StatusComplete s) as (ru & Hr & Hst & Hsp & Hcr & _).
  rewrite (bind_val _ _ _ _ _ Hr). set (s1 := set_ru ru s).
  assert (quiet s s1) as Q1 by by apply quiet_same_nodes.
  assert (emits (fun c => ~ disruptive c) s s1) as E1 by (exists []; cbn; by rewrite app_nil_r).
  match goal with |- context [ (upd_metrics ?f ;;; ?k) s1 ] =>
    set (m := (upd_metrics f ;;; k)) end.
  assert (preserves calm m) as HC.
  { subst m. frame; [apply endTimeUpdate_calm|apply cleanup_calm]. }
  assert (preserves quiet m) as HQ.
  { subst m. frame; [by apply modify_quiet|apply endTimeUpdate_quiet|apply cleanup_quiet]. }
  specialize (HC s1) as [HK HE]. specialize (HQ s1). unfold keeps in HK.
  split; [by transitivity s1|]. split; [by transitivity s1|]. split; [by rewrite HK|].
  subst m. clear. destruct ((upd_metrics _ ;;; _) s1) as [[r|] s2] eqn:Em; cbn; [|by right].
  left. apply bind_inv in Em as (? & ? & _ & Em). apply bind_inv in Em as (? & ? & _ & Em).
  apply bind_inv in Em as (? & ? & _ & Em). by injection Em as <- _.
Qed.

Lemma rotate_discovered_way (cfg : Config) (failed : list string) (s0 s : St) :
  emits (fun c => ~ disruptive c) s0 s -> CurrentStatus (s_ru s) = StatusRunning ->
  rotation_way cfg s0 (rotate_discovered cfg failed s).1 (rotate_discovered cfg failed s).2.
Proof.
  intros HE HS. unfold rotate_discovered. rewrite (bind_val _ _ s s s) by done.
  destruct (is_empty_group (scaling_group s)).
  { apply WayStopped; [done|done|]. intros _. cbn. rewrite HS. left. }
  erewrite bind_val by reflexivity. set (s1 := set_ru _ s).
  assert (calm s s1) as C1 by (split; [done|]; exists []; cbn; by rewrite app_nil_r).
  assert (quiet s s1) as Q1 by by apply quiet_same_nodes.
  assert (calm s (IsScalingGroupDrifted s1).2) as C2 by (transitivity s1; [done|apply IsScalingGroupDrifted_calm]).
  assert (quiet s1 (IsScalingGroupDrifted s1).2) as Q2 by apply IsScalingGroupDrifted_quiet.
  destruct (IsScalingGroupDrifted s1) as [[b|] s2] eqn:Ed; cbn [snd] in C2, Q2.
  2: { rewrite (bind_panic _ _ _ _ Ed). cbn. apply WayStopped; [done| |done].
       transitivity s; [done|apply C2]. }
  rewrite (bind_val _ _ _ _ _ Ed). destruct C2 as [K2 E2]. unfold keeps in K2.
  destruct b; cbn [negb].
  - apply (WayBatch _ _ _ _ failed s2).
    + congruence.
    + by transitivity s.
    + rewrite (quiet_scaling_group s s2) by (by transitivity s1).
      by rewrite <- surjective_pairing.
  - destruct (completion_run cfg (ru_Name (s_ru s)) s2) as (E3 & Q3 & S3 & Ho).
    destruct Ho as [Ho|Ho].
    + apply (WayComplete _ _ _ _ s1); [done| |done|by rewrite Ed|by transitivity s2].
      transitivity s; [done|by transitivity s2].
    + apply WayStopped; [by rewrite Ho| |by rewrite Ho].
      transitivity s; [done|by transitivity s2].
Qed.

Lemma RotateNodes_way (cfg : Config) (s : St) :
  rotation_way cfg s (RotateNodes cfg s).1 (RotateNodes cfg s).2.
Proof.
  unfold RotateNodes.
  match goal with |- context [ (?m ≫= ?f) s ] =>
    destruct (bind_cases (emits (fun c => ~ disruptive c)) m f s s) as
      [([failed e] & s1 & E1 & _ & ->)|[E1 ->]] end; [reflexivity| | |].
  { unfold DescribeTaggedInstanceIDs. frame. }
  2: { by apply WayStopped. }
  destruct (set_status_run StatusRunning s1) as (ru & Hr & Hst & _).
  rewrite (bind_val _ _ _ _ _ Hr). set (s2 := set_ru ru s1).
  assert (CurrentStatus (s_ru s2) = StatusRunning /\ emits (fun c => ~ disruptive c) s s2) as [S2 E2]
    by (split; [done|transitivity s1; [done|exists []; cbn; by rewrite app_nil_r]]).
  rewrite (bind_val _ _ s2 s2 s2) by done. erewrite bind_val by reflexivity. set (s3 := set_metrics _ s2).
  match goal with |- context [ (?m ≫= ?f) s3 ] =>
    destruct (bind_cases calm m f s2 s3) as [([] & s4 & [K4 E4] & _ & ->)|[[K4 E4] ->]] end.
  { split; [done|]. exists []. cbn. by rewrite app_nil_r. }
  { unfold Now. frame. }
  2: { apply WayStopped; [done|by transitivity s2|done]. }
  match goal with |- context [ (?m ≫= ?f) s4 ] =>
    destruct (bind_cases calm m f s4 s4) as [(err & s5 & [K5 E5] & _ & ->)|[[K5 E5] ->]] end.
  { reflexivity. }
  { apply Discover_calm. }
  2: { apply WayStopped; [done| |done]. transitivity s2; [done|by transitivity s4]. }
  unfold keeps in K4, K5.
  assert (emits (fun c => ~ disruptive c) s s5) as E6 by (transitivity s2; [done|by transitivity s4]).
  destruct err as [err|].
  - destruct (set_status_run StatusError s5) as (ru5 & Hr5 & Hst5 & _).
    rewrite (bind_val _ _ _ _ _ Hr5). erewrite bind_val by reflexivity. set (s6 := set_metrics _ _).
    assert (emits (fun c => ~ disruptive c) s s6) as E7
      by (transitivity s5; [done|exists []; cbn; by rewrite app_nil_r]).
    match goal with |- context [ (?m ≫= ?f) s6 ] =>
      destruct (bind_cases calm m f s6 s6) as [([] & s7 & [K7 E8] & _ & ->)|[[K7 E8] ->]] end.
    { reflexivity. }
    { apply cleanup_calm. }
    + apply WayStopped; [done|by transitivity s6|]. intros _. cbn. unfold keeps in K7. rewrite K7.
      cbn. rewrite Hst5. right. left.
    + apply WayStopped; [done|by transitivity s6|done].
  - apply rotate_discovered_way; [done|congruence].
Qed.
End ways.

(** *** Waiting *)
Section waiting.
Context `{E : Env}.

(** The eager phase never goes on to the drain while an instance is in service. *)
Lemma eager_phase_in_service (cfg : Config) (c : nat) (batch : list Instance_) (s : St) :
  GetInServiceInstanceIDs batch <> [] -> (eager_phase cfg c batch s).1 <> Val None.
Proof.
  intros HN H. apply run_val in H. revert H. unfold eager_phase.
  intros (x & s1 & _ & H)%bind_inv. revert H. cbv zeta.
  assert (0 < zlen (GetInServiceInstanceIDs batch))%Z as HL.
  { unfold zlen. destruct (GetInServiceInstanceIDs batch); [done|]. cbn [length]. lia. }
  rewrite (proj2 (Z.ltb_lt _ _) HL).
  intros ([b n] & s2 & _ & H)%bind_inv. revert H. destruct (b || (n =? 0)%Z); [done|].
  intros (sub & s3 & _ & H)%bind_inv. apply bind_inv in H as (err & s4 & _ & H).
  destruct err as [err|].
  - apply bind_inv in H as (? & ? & _ & H). done.
  - apply bind_inv in H as (? & ? & _ & H). apply bind_inv in H as (? & ? & _ & H). done.
Qed.

Lemma still_waiting_spec (last : option Time) (interval : Z) (s : St) :
  exists b, still_waiting last interval s = (Val b, set_world (second_reading last (s_world s)) s) /\
    (within (svc_Now (s_world s)).1 last interval -> b = true).
Proof.
  unfold still_waiting, second_reading, Now, ask, mbind, M_bind, within.
  destruct last as [t|]; [|exists false; split; [by destruct s|naive_solver]].
  destruct (IsZero t) eqn:Ez; [exists false; split; [by destruct s|naive_solver]|].
  destruct (svc_Now (s_world s)) as [now w]. eexists. split; [done|]. cbn. naive_solver.
Qed.

Lemma drain_phase_waits (cfg : Config) (c : nat) (batch : list Instance_) (s : St) :
  within (svc_Now (s_world s)).1 (LastNodeTerminationTime (s_ru s)) (NodeIntervalSeconds (s_ru s)) \/
  within (svc_Now (second_reading (LastNodeTerminationTime (s_ru s)) (s_world s))).1
    (LastNodeDrainTime (s_ru s)) (PostDrainDelaySeconds (s_ru s)) ->
  exists w, drain_phase cfg c batch s = (Val (true, None), set_world w s).
Proof.
  intros H. unfold drain_phase. rewrite (bind_val _ _ s s s) by done.
  destruct (still_waiting_spec (LastNodeTerminationTime (s_ru s)) (NodeIntervalSeconds (s_ru s)) s)
    as (b & E1 & H1). rewrite (bind_val _ _ _ _ _ E1). destruct b; [by eexists|].
  set (s2 := set_world _ s).
  destruct (still_waiting_spec (LastNodeDrainTime (s_ru s)) (PostDrainDelaySeconds (s_ru s)) s2)
    as (b & E2 & H2). rewrite (bind_val _ _ _ _ _ E2). destruct b; [by eexists|].
  destruct H as [H|H]; [by specialize (H1 H)|by specialize (H2 H)].
Qed.

(** What happens before the interval checks. *)
#[export] Instance holds_back_preorder : PreOrder holds_back.
Proof.
  split.
  - intros s. by split.
  - intros x y z [A1 A2 A3] [B1 B2 B3]. split; [by transitivity y|congruence|]. intros HG H0.
    destruct (A3 HG H0) as [D1 E1]. destruct B3 as [D2 E2]; [unfold group_ok; by rewrite D1|by rewrite D1|].
    split; [congruence|by transitivity y].
Qed.

Lemma holds_back_intro {A} (m : M St A) :
  preserves (keeps s_drain) m -> preserves (emits (fun c => ~ disruptive c)) m -> preserves holds_back m.
Proof.
  intros HD HE s. specialize (HD s). specialize (HE s). unfold keeps in HD. split; [|by rewrite HD|done].
  destruct HE as (new & Hn & HF). exists new. split; [done|]. eapply Forall_impl; [exact HF|].
  intros c H Ht. apply H. by destruct c.
Qed.

Lemma run_worker_length (i : nat) :
  preserves (keeps (fun s : St => length (dm_workers (s_drain s)))) (run_worker i).
Proof.
  intros s. unfold run_worker. rewrite (bind_val _ _ s s s) by done.
  destruct (dm_workers (s_drain s) !! i) as [w|] eqn:Ew; [|done].
  destruct (runnable (dw_pc w)) eqn:Er; [|done].
  apply run_bind; [typeclasses eauto|unfold keeps; by rewrite worker_body_keeps_drain|].
  intros pc s1 _. unfold keeps, set_worker_pc, modify. cbn [snd].
  destruct (dm_workers (s_drain s1) !! i); [|done]. cbn. by rewrite length_insert.
Qed.

Lemma background_holds_back : preserves holds_back background.
Proof.
  intros s. split.
  - apply (emits_weaken drain_call); [apply drain_call_terminates|apply background_emits].
  - assert (preserves (keeps (fun s : St => length (dm_workers (s_drain s)))) background) as H; [|apply H].
    pose proof run_worker_length as HR. unfold background. frame. intros s'. unfold keeps.
    by rewrite ask_keeps_drain.
  - intros HG H0. rewrite (background_idle s (conj HG H0)). split; [done|].
    exists []. by rewrite app_nil_r.
Qed.

Lemma prepare_batch_holds_back (cfg : Config) (batch : list Instance_) :
  preserves holds_back (prepare_batch cfg batch).
Proof.
  pose proof background_holds_back as HB. unfold prepare_batch. frame; apply holds_back_intro; frame.
  - apply early_cordon_emits; intros; cbn; tauto.
  - apply (emits_weaken (fun call => batch_call batch [] call /\ ~ disruptive call)); [by intros ? []|].
    apply mode_phase_emits.
Qed.
End waiting.

(** ** Theorems *)
Section theorems.
Context `{E : Env}.

(** C17: whatever the cloud, the cluster and the
    scheduler do, [ReplaceNodeBatch] terminates only instances of its batch, and
    without lowering the desired capacity; it tags in-progress and sends to
    standby only in-service instances of the batch; it tags failed-drain only single
    instances of the batch or of a goroutine that was running at the call; it
    removes only in-progress tags, of single instances of the batch; and besides
    cordons, drains, scripts and node requests it makes no other call. *)
Theorem ReplaceNodeBatch_only_batch (cfg : Config) (batch : list Instance_) (s : St) :
  emits (batch_call batch (running_ids s)) s (ReplaceNodeBatch cfg batch s).2.
Proof. apply ReplaceNodeBatch_emits. Qed.

(** C2: when no goroutine of an earlier reconcile is
    running and drain failures are not ignored, every instance that
    [ReplaceNodeBatch] terminates has a node in the cache, and that node's drain was
    requested, with the timeout of the resource or of the controller, earlier in the
    same call, under every schedule of the goroutines. *)
Theorem terminated_after_drain `{!CordonLaws E, !NodeApiLaws E} (cfg : Config)
    (batch : list Instance_) (s : St) (pre post : list Call) (id : string) (d : bool) :
  group_ok s -> DrainGroup (s_drain s) = 0%Z -> ignore_drain_failures cfg (s_ru s) = false ->
  s_calls (ReplaceNodeBatch cfg batch s).2
    = s_calls s ++ pre ++ CallTerminateInstance id d :: post ->
  exists p, select_node id s = Some p /\
    CallDrain (node_Name (read_node (s_nodes s) p)) (seconds (drain_timeout cfg (s_ru s))) ∈ pre.
Proof.
  intros HG H0 Hig. pose proof (prepare_batch_prepares cfg batch s (conj HG H0)) as HP.
  unfold ReplaceNodeBatch, mbind, M_bind.
  destruct (prepare_batch cfg batch s) as [[[c [r|]]|] s1]; cbn [snd] in HP; [| |];
    [intros Hpos; by destruct (no_terminate_position _ _ _ _ _ _ (pr_calls _ _ HP) Hpos)| |
     intros Hpos; by destruct (no_terminate_position _ _ _ _ _ _ (pr_calls _ _ HP) Hpos)].
  by apply drain_phase_drained.
Qed.

(** C10: in eager mode, as long as some instance of
    the batch is in service, [ReplaceNodeBatch] terminates no instance and starts no
    goroutine; and when no goroutine of an earlier call is left over, it drains no node
    either: it only moves instances to standby, so that their replacements can
    join first. *)
Theorem eager_waits_for_standby (cfg : Config) (batch : list Instance_) (s : St) :
  StrategyMode (s_ru s) = UpdateStrategyModeEager -> GetInServiceInstanceIDs batch <> [] ->
  holds_back s (ReplaceNodeBatch cfg batch s).2.
Proof.
  intros Hm HN. unfold ReplaceNodeBatch. apply run_bind; [typeclasses eauto|apply prepare_batch_holds_back|].
  intros [c [r|]] s1 H; [done|]. exfalso. revert H. unfold prepare_batch.
  rewrite (bind_val _ _ s s s) by done. cbv zeta. rewrite Hm. unfold mode_phase.
  rewrite String.eqb_refl. intros (c1 & s2 & _ & H)%bind_inv. apply bind_inv in H as ([] & s3 & _ & H).
  apply bind_inv in H as ([r|] & s4 & _ & H); [done|]. apply bind_inv in H as ([] & s5 & _ & H).
  apply bind_inv in H as (r & s6 & He & H). apply bind_inv in H as ([] & s7 & _ & [= -> -> ->]).
  apply (eager_phase_in_service cfg c batch s5 HN). by rewrite He.
Qed.

(** C18: when [ReplaceNodeBatch] reads the clock and the
    termination interval (nodeIntervalSeconds after the last termination) or the drain
    delay (postDrainDelaySeconds after the last drain) is not over, it terminates
    nothing and starts no goroutine, and drains nothing when no goroutine of an
    earlier call is left over; unless it returned before the checks, it asks to be
    called again. *)
Theorem intervals_respected (cfg : Config) (batch : list Instance_) (s : St) :
  let w := s_world (prepare_batch cfg batch s).2 in
  let last := LastNodeTerminationTime (s_ru s) in
  within (svc_Now w).1 last (NodeIntervalSeconds (s_ru s)) \/
  within (svc_Now (second_reading last w)).1 (LastNodeDrainTime (s_ru s)) (PostDrainDelaySeconds (s_ru s)) ->
  holds_back s (ReplaceNodeBatch cfg batch s).2 /\
  forall c, (prepare_batch cfg batch s).1 = Val (c, None) ->
    (ReplaceNodeBatch cfg batch s).1 = Val (true, None).
Proof.
  intros w last HW. pose proof (prepare_batch_holds_back cfg batch s) as HB.
  pose proof (prepare_batch_keeps_ru core core_steps cfg batch s) as HC.
  unfold ReplaceNodeBatch, mbind, M_bind. subst w last.
  destruct (prepare_batch cfg batch s) as [[[c [r|]]|] s1]; cbn [fst snd] in *; [by split| |by split].
  unfold keeps, core in HC. cbn beta in HC. injection HC as Csp _ C4 C5.
  unfold NodeIntervalSeconds, PostDrainDelaySeconds in HW. rewrite <- Csp, <- C4, <- C5 in HW.
  destruct (drain_phase_waits cfg c batch s1 HW) as [w ->]. split; [|done].
  transitivity s1; [done|]. split; [|done|split; [done|]]; exists []; by rewrite app_nil_r.
Qed.

(** C9: the counter of the wait group is the number of drain
    goroutines that have not returned, before and after every
    [ReplaceNodeBatch], under every schedule and also when it panics; so it is never
    negative (which would panic), and it is zero exactly when all have returned. *)
Theorem wait_group_counts (cfg : Config) (batch : list Instance_) (s : St) :
  DrainGroup (s_drain s) = Z.of_nat (live_workers (dm_workers (s_drain s))) ->
  let s' := (ReplaceNodeBatch cfg batch s).2 in
  DrainGroup (s_drain s') = Z.of_nat (live_workers (dm_workers (s_drain s'))) /\
  (0 <= DrainGroup (s_drain s'))%Z.
Proof.
  intros HG s'. pose proof (ReplaceNodeBatch_group cfg batch s HG) as H. fold s' in H.
  unfold group_ok in H. split; [done|lia].
Qed.

(** C1: whatever the services answer, an instance
    that a rotation terminates is a live instance of the discovered scaling group
    of its own resource and is tagged in-progress or drifted; nothing else is
    ever terminated, and the desired capacity is never lowered. *)
Theorem RotateNodes_only_drifted `{!CordonLaws E, !NodeApiLaws E} (cfg : Config) (s : St)
    (new : list Call) (id : string) (d : bool) :
  let s' := (RotateNodes cfg s).2 in
  s_calls s' = s_calls s ++ new -> CallTerminateInstance id d ∈ new ->
  d = false /\ may_terminate s' id.
Proof.
  intros s' Hc Hin.
  assert (forall c, ~ disruptive c -> terminating (fun id d => d = false /\ may_terminate s' id) c) as HW.
  { intros c Hd id' d' ->. by destruct Hd. }
  assert (emits (terminating (fun id d => d = false /\ may_terminate s' id)) s s') as HE.
  { pose proof (RotateNodes_way cfg s) as HR. fold s' in HR.
    destruct HR as [_ He _|s3 _ He _ _ _|failed s3 _ He Hb].
    - destruct He as (n & Hn & HF). exists n. split; [done|]. by eapply Forall_impl.
    - destruct He as (n & Hn & HF). exists n. split; [done|]. by eapply Forall_impl.
    - destruct (rotate_batch_terminates cfg failed s3) as [HQ HT]. rewrite <- Hb in HQ, HT. cbn in HQ, HT.
      transitivity s3.
      + destruct He as (n & Hn & HF). exists n. split; [done|]. by eapply Forall_impl.
      + destruct HT as (n & Hn & HF). exists n. split; [done|]. eapply Forall_impl; [exact HF|].
        intros c Hcc id' d' Hcd. destruct (Hcc id' d' Hcd) as [? ?]. split; [done|].
        by apply (may_terminate_quiet s3). }
  destruct HE as (n & Hn & HF). rewrite Hn in Hc. apply app_inv_head in Hc as ->.
  by apply (proj1 (Forall_forall _ _) HF _ Hin).
Qed.

(** C6: after a rotation that returns, the status is
    running, completed or error; it is completed only if no instance of the
    discovered group is drifted, and then nothing was drained or terminated and no
    error is returned. *)
Theorem RotateNodes_status `{!CordonLaws E, !NodeApiLaws E} (cfg : Config) (s s' : St)
    (r : option error) :
  RotateNodes cfg s = (Val r, s') -> policy_complete (scaling_group s') ->
  CurrentStatus (s_ru s') ∈ [StatusRunning; StatusError; StatusComplete] /\
  (CurrentStatus (s_ru s') = StatusComplete ->
   r = None /\ emits (fun c => ~ disruptive c) s s' /\
   Forall (fun i => IsInstanceDrifted (s_ru s') (s_cloud s') (cluster_nodes s') i = Val false)
     (asg_Instances (scaling_group s'))).
Proof.
  intros HR HP. pose proof (RotateNodes_way cfg s) as HW. rewrite HR in HW. cbn in HW.
  destruct HW as [Hn He Hs|s3 Hr He Hs Hd HQ|failed s3 Hs He Hb].
  - specialize (Hs ltac:(done)). split; [set_solver|]. intros Hc. rewrite Hc in Hs. set_solver.
  - rewrite Hs. split; [set_solver|]. intros _. split; [by injection Hr|]. split; [done|].
    rewrite (quiet_scaling_group _ _ HQ) in HP |- *. apply Forall_forall. intros i Hi.
    rewrite (IsInstanceDrifted_quiet _ _ _ HQ).
    assert (List.filter (is_drifted (s_ru s3) (s_cloud s3) (cluster_nodes s3))
              (asg_Instances (scaling_group s3)) = []) as HF.
    { apply run_val in Hd. revert Hd. unfold IsScalingGroupDrifted.
      rewrite (bind_val _ _ s3 s3 s3) by done. unfold scaling_group at 1.
      rewrite count_drifted_spec by done. fold (scaling_group s3).
      destruct (List.filter _ _) as [|x l]; [done|]. intros (n & s4 & Hn & H)%bind_inv.
      injection Hn as <- <-. unfold zlen in H. cbn [length] in H.
      rewrite (proj2 (Z.eqb_neq _ 0)) in H by lia. cbn [negb] in H.
      by apply bind_inv in H as (? & ? & _ & H). }
    destruct (IsInstanceDrifted_ok (s_ru s3) (s_cloud s3) (cluster_nodes s3) i HP) as [b Hb].
    destruct b; [|done]. exfalso.
    assert (In i (List.filter (is_drifted (s_ru s3) (s_cloud s3) (cluster_nodes s3))
              (asg_Instances (scaling_group s3)))) as Hin.
    { apply filter_In. unfold is_drifted. rewrite Hb. split; [|done]. by apply list_elem_of_In. }
    by rewrite HF in Hin.
  - assert (CurrentStatus (s_ru s') = StatusRunning) as Hrun.
    { assert (preserves (keeps (fun s : St => CurrentStatus (s_ru s)))
        (rotate_batch cfg (scaling_group s3) failed)) as HK.
      { unfold rotate_batch. frame;
          first [apply ReplaceNodeBatch_keeps_status | apply memory_keeps_ru, SelectTargets_memory]. }
      specialize (HK s3). rewrite <- Hb in HK. unfold keeps in HK. cbn in HK. congruence. }
    rewrite Hrun. split; [set_solver|done].
Qed.

(** The strategy mode is compared exactly, so a mode that
    [Validate] accepts up to letter case only, such as Eager, skips both modes: the
    batch is drained and terminated without the in-progress tag, without standby and
    without waiting for replacements. *)
Theorem mode_letter_case (cfg : Config) (batch : list Instance_) (s : St) :
  StrategyMode (s_ru s) <> UpdateStrategyModeEager ->
  StrategyMode (s_ru s) <> UpdateStrategyModeLazy ->
  emits (fun c => ~ careful c) s (ReplaceNodeBatch cfg batch s).2.
Proof.
  intros N1 N2.
  assert (forall c, drain_call c -> ~ careful c) as HD by (intros []; cbn; try tauto; by intros ->).
  assert (preserves (emits (fun c => ~ careful c)) background) as HB
    by (apply (emits_weaken drain_call); [exact HD|apply background_emits]).
  unfold ReplaceNodeBatch. apply run_bind; [typeclasses eauto| |].
  - unfold prepare_batch. rewrite (bind_val _ _ s s s) by done. cbv zeta. unfold mode_phase.
    rewrite (proj2 (String.eqb_neq _ _) N1), (proj2 (String.eqb_neq _ _) N2).
    match goal with |- emits ?P s (?m s).2 => assert (preserves (emits P) m) as HP; [|apply HP] end.
    frame. apply early_cordon_emits; intros; cbn; tauto.
  - intros [c r] s1 _.
    match goal with |- emits ?P s1 (?m s1).2 => assert (preserves (emits P) m) as HP; [|apply HP] end.
    unfold drain_phase, start_drains, wait_and_terminate, terminate_batch, terminate_one,
      TerminateInstance, UntagEC2instances, PostTerminate, Now. frame;
      first [apply (emits_weaken drain_call); [exact HD|apply await_emits]
            | apply call_emits; cbn; tauto
            | apply run_hook_emits; cbn; tauto].
Qed.
End theorems.

(** An example: a target whose node is not cached when its
    batch is launched, but is when a later reconcile finds the goroutines of that batch
    finished, is terminated without ever having been drained.  Here node-2 joins the cache
    between two calls of [ReplaceNodeBatch] on the same batch, with drain
    failures not ignored. *)
Example late_target_undrained :
  let s := sample_state slow_scenario (sample_upgrade sample_strategy) in
  let batch := sample_batch ["i-1"; "i-2"] in
  let s0 := set_cloud (mkDiscovered [0] [] (sc_groups slow_scenario) []) s in
  let s1 := (@ReplaceNodeBatch (sample_env slow_scenario) sample_config batch s0).2 in
  let s2 := set_cloud (sample_cloud slow_scenario) s1 in
  let s3 := (@ReplaceNodeBatch (sample_env slow_scenario) sample_config batch s2).2 in
  terminates_id "i-2" (s_calls s3) = true /\ drains "node-2" (s_calls s3) = false /\
  ignore_drain_failures sample_config (s_ru s0) = false.
Proof. vm_compute. done. Qed.

(** ** Witnesses *)
Lemma terminated_after_drain_witness :
  let s := sample_state rotation_scenario (sample_upgrade sample_strategy) in
  exists pre post p,
    s_calls (@ReplaceNodeBatch (sample_env rotation_scenario) sample_config (sample_batch ["i-1"]) s).2
      = pre ++ CallTerminateInstance "i-1" false :: post /\
    select_node "i-1" s = Some p /\ CallDrain "node-1" (seconds 900) ∈ pre.
Proof.
  intros s.
  set (pre := [CallCreateTags ["i-1"] instanceStateTagKey inProgressTagValue;
               CallCordon "node-1" true; CallDrain "node-1" (seconds 900)]).
  set (post := [CallDeleteTags ["i-1"] instanceStateTagKey inProgressTagValue]).
  destruct (@terminated_after_drain (sample_env rotation_scenario) _ _ sample_config
    (sample_batch ["i-1"]) s pre post "i-1" false) as (p & Hp & HD).
  - reflexivity.
  - reflexivity.
  - reflexivity.
  - vm_compute. reflexivity.
  - exists pre, post, p. split; [vm_compute; reflexivity|]. split; [exact Hp|].
    right. right. left.
Defined.

Lemma eager_waits_for_standby_witness :
  let s := sample_state rotation_scenario (sample_upgrade (eager_strategy UpdateStrategyModeEager)) in
  holds_back (E := sample_env rotation_scenario) s
    (@ReplaceNodeBatch (sample_env rotation_scenario) sample_config (sample_batch ["i-1"]) s).2 /\
  (group_ok s /\ DrainGroup (s_drain s) = 0%Z) /\
  s_calls (@ReplaceNodeBatch (sample_env rotation_scenario) sample_config (sample_batch ["i-1"]) s).2
    = [CallCreateTags ["i-1"] instanceStateTagKey inProgressTagValue;
       CallEnterStandby "asg-1" ["i-1"] false].
Proof.
  intros s. split; [|split; [split; reflexivity|vm_compute; reflexivity]].
  apply (@eager_waits_for_standby (sample_env rotation_scenario) sample_config
    (sample_batch ["i-1"]) s); [reflexivity|discriminate].
Defined.

(** The clock advances with every reading; the last termination was seconds ago. *)
Lemma intervals_respected_witness :
  let ru := with_Status (with_LastNodeTerminationTime (Some (995 * Second)%Z))
              (sample_upgrade_interval 60) in
  let s0 := sample_state rotation_scenario ru in
  (@ReplaceNodeBatch (sample_env rotation_scenario) sample_config (sample_batch ["i-1"]) s0).1
    = Val (true, None) /\
  emits (fun c => ~ disruptive c) s0
    (@ReplaceNodeBatch (sample_env rotation_scenario) sample_config (sample_batch ["i-1"]) s0).2.
Proof.
  intros ru s0.
  destruct (@intervals_respected (sample_env rotation_scenario) sample_config
    (sample_batch ["i-1"]) s0) as [H1 H2].
  - left. exists (995 * Second)%Z. split; [reflexivity|]. split; [reflexivity|].
    vm_compute. reflexivity.
  - split; [apply (H2 0%nat); vm_compute; reflexivity|].
    apply (hb_idle _ _ H1); reflexivity.
Defined.

Lemma wait_group_counts_witness :
  let s := sample_state slow_scenario (sample_upgrade sample_strategy) in
  DrainGroup (s_drain (@ReplaceNodeBatch (sample_env slow_scenario) sample_config
    (sample_batch ["i-1"; "i-2"]) s).2) = 2%Z /\
  (0 <= DrainGroup (s_drain (@ReplaceNodeBatch (sample_env slow_scenario) sample_config
    (sample_batch ["i-1"; "i-2"]) s).2))%Z.
Proof.
  intros s. split; [vm_compute; reflexivity|].
  apply (@wait_group_counts (sample_env slow_scenario) sample_config (sample_batch ["i-1"; "i-2"]) s).
  reflexivity.
Defined.

Lemma RotateNodes_only_drifted_witness :
  let s := sample_state rotation_scenario (sample_upgrade sample_strategy) in
  let s' := (@RotateNodes (sample_env rotation_scenario) sample_config s).2 in
  terminates_id "i-1" (s_calls s') = true /\ may_terminate s' "i-1".
Proof.
  intros s s'. split; [vm_compute; reflexivity|].
  refine (proj2 (@RotateNodes_only_drifted (sample_env rotation_scenario) _ _ sample_config s
    (s_calls s') "i-1" false eq_refl _)).
  apply list_elem_of_In, (nth_error_In (s_calls s') 8). vm_compute. reflexivity.
Defined.

Lemma RotateNodes_status_witness :
  let s := sample_state ready_scenario (sample_upgrade sample_strategy) in
  let s' := (@RotateNodes (sample_env ready_scenario) sample_config s).2 in
  CurrentStatus (s_ru s') = StatusComplete /\
  Forall (fun i => IsInstanceDrifted (UC := ascii_fold) (s_ru s') (s_cloud s') (cluster_nodes s') i
                   = Val false) (asg_Instances (scaling_group s')).
Proof.
  intros s s'.
  destruct (@RotateNodes_status (sample_env ready_scenario) _ _ sample_config s s' None) as [_ H].
  - refine (run_val (@RotateNodes (sample_env ready_scenario) sample_config) s None _).
    vm_compute. reflexivity.
  - vm_compute. exact I.
  - destruct H as (_ & _ & H).
    + vm_compute. reflexivity.
    + split; [vm_compute; reflexivity|exact H].
Defined.

Lemma mode_letter_case_witness :
  let s := sample_state rotation_scenario (sample_upgrade (eager_strategy "Eager")) in
  let s' := (@ReplaceNodeBatch (sample_env rotation_scenario) sample_config (sample_batch ["i-1"]) s).2 in
  (Validate (UC := ascii_fold) (sample_upgrade (eager_strategy "Eager"))).2 = None /\
  emits (fun c => ~ careful c) s s' /\ terminates_id "i-1" (s_calls s') = true.
Proof.
  intros s s'. split; [vm_compute; reflexivity|]. split; [|vm_compute; reflexivity].
  apply (@mode_letter_case (sample_env rotation_scenario) sample_config (sample_batch ["i-1"]) s);
    discriminate.
Defined.
