(* ===== verification/Progress.v ===== *)
(** * Progress: what a rotation achieves when everything works

    The safety theorems say what a rotation never does; here is what it does.  In an environment in
    which the requests succeed ([Cooperative]) and the scheduler lets every drain goroutine run to its
    end before the select times out ([fair]), a [ReplaceNodeBatch] that gets past the checks of its mode terminates every
    instance of its batch that has a node, in one call.  [gives] is total correctness: an operation that
    gives [P] returns from every state, with a value in [P]. *)
From S2P Require Import Prelude GoStrings GoTime Common Types AwsProvider KubeProvider Metrics Env SampleEnv.
From S2P Require Import AwsClient KubeClient Cloud Steps Drift Uniform Targets Balloon Cordon Drain.
From S2P Require Import Replace Rotate.

(** The requests of a batch succeed. *)
Class Cooperative (E : Env) : Prop := {
  co_tag : forall ids k v w, (svc_CreateTags ids k v w).1 = None;
  co_terminate : forall id b w, (svc_TerminateInstance id b w).1 = None;
  co_cordon : forall n b w, (svc_RunCordonOrUncordon n b w).1.1 = None;
  co_drain : forall name t w, (svc_RunNodeDrain name t w).1 = None;
  co_exec : forall cmd env w, (svc_Exec cmd env w).1 = None;
}.

(** ** Fairness *)

(** How often goroutine [i] runs. *)
Definition runs (i : nat) (l : list SchedEvent) : nat :=
  length (List.filter (fun e => match e with EvRun j => Nat.eqb i j | _ => false end) l).

(** The select finds the group done before it times out, and by then each of the goroutines
    numbered from [k] up to [k + n] has run its four parts. *)
Definition fair (k n : nat) (schedule : list SchedEvent) : Prop :=
  exists before after, schedule = before ++ EvDone :: after /\ (EvTimeout ∉ before) /\
    forall i, (k <= i < k + n)%nat -> (4 <= runs i before)%nat.

(** Where a goroutine goes when nothing fails, and how many parts it still has to run. *)
Definition next_pc (pc : DrainPc) : DrainPc :=
  match pc with
  | PcPreDrain => PcDrain
  | PcDrain => PcPostDrain
  | PcPostDrain => PcPostWait
  | PcPostWait => PcDone
  | pc => pc
  end.

Definition work (pc : DrainPc) : option nat :=
  match pc with
  | PcPreDrain => Some 4
  | PcDrain => Some 3
  | PcPostDrain => Some 2
  | PcPostWait => Some 1
  | PcDone => Some 0
  | _ => None
  end%nat.

(** Every goroutine has an error-free way to its end that fits in the schedule. *)
Definition enough `{Env} (before : list SchedEvent) (s : St) : Prop :=
  forall i w, dm_workers (s_drain s) !! i = Some w ->
    exists n, work (dw_pc w) = Some n /\ (n <= runs i before)%nat.

(** ** Total correctness *)
Definition gives {S A} (m : M S A) (P : A -> Prop) : Prop :=
  forall s, exists a s', m s = (Val a, s') /\ P a.

Section gives_rules.
Context {S : Type}.

Lemma gives_ret {A} (a : A) (P : A -> Prop) : P a -> gives (S := S) (mret a) P.
Proof. intros H s. by exists a, s. Qed.

Lemma gives_bind {A B} (m : M S A) (f : A -> M S B) (P : A -> Prop) (Q : B -> Prop) :
  gives m P -> (forall a, P a -> gives (f a) Q) -> gives (m ≫= f) Q.
Proof.
  intros Hm Hf s. destruct (Hm s) as (a & s1 & E1 & Ha). destruct (Hf a Ha s1) as (b & s2 & E2 & Hb).
  exists b, s2. by rewrite (bind_val _ _ _ _ _ E1).
Qed.

Lemma gives_get : gives (S := S) get (fun _ => True).
Proof. intros s. by exists s, s. Qed.

Lemma gives_gets {A} (f : S -> A) : gives (gets f) (fun _ => True).
Proof. intros s. by exists (f s), s. Qed.

Lemma gives_modify (f : S -> S) : gives (modify f) (fun _ => True).
Proof. intros s. by exists tt, (f s). Qed.

Lemma gives_for_each {A} (l : list A) (body : A -> M S unit) :
  (forall x, gives (body x) (fun _ => True)) -> gives (for_each l body) (fun _ => True).
Proof.
  intros H. induction l as [|x l IH]; [by apply gives_ret|].
  eapply gives_bind; [apply H|]. by intros [] _.
Qed.
End gives_rules.

Section gives_env.
Context `{E : Env}.

Lemma gives_ask {A} (f : World -> A * World) : gives (ask f) (fun _ => True).
Proof. intros s. unfold ask. destruct (f (s_world s)). eauto. Qed.

Lemma gives_call {A} (c : Call) (f : World -> A * World) (P : A -> Prop) :
  (forall w, P (f w).1) -> gives (call c f) P.
Proof. intros H s. unfold call. specialize (H (s_world s)). destruct (f (s_world s)). eauto. Qed.

Lemma gives_any_call {A} (c : Call) (f : World -> A * World) : gives (call c f) (fun _ => True).
Proof. by apply gives_call. Qed.
End gives_env.

(** Follows the text of an operation, as [frame] does; the operations it calls are closed with the
    [total] hints. *)
Create HintDb total.
#[export] Hint Resolve gives_get gives_gets gives_modify gives_ask gives_any_call : total.

Ltac total_step :=
  lazymatch goal with
  | |- gives (mret _) _ => apply gives_ret; done
  | |- gives (match ?x with _ => _ end) _ => destruct x eqn:?
  | |- gives (let _ := _ in _) _ => cbv zeta
  | |- gives (mbind _ _) _ => eapply gives_bind; [solve [eauto 3 with total]|intros ? ?; simplify_eq/=]
  | |- gives _ _ => solve [eauto 3 with total]
  end.
Ltac total := intros; repeat total_step.

Section bookkeeping.
Context `{E : Env}.

Lemma DoNodeStepAt_gives (c : nat) (g n st : string) (t : Time) :
  gives (DoNodeStepAt c g n st t) (fun _ => True).
Proof.
  assert (forall o : option NodeInProcessing, gives (S := St)
    (match o with None => ask svc_Now | Some _ => mret zero_time end) (fun _ => True)) as H
    by (intros [x|]; total).
  unfold DoNodeStepAt, Now. total.
Qed.
Hint Resolve DoNodeStepAt_gives : total.

Lemma NodeStep_gives (c : nat) (g n st : string) : gives (NodeStep c g n st) (fun _ => True).
Proof. unfold NodeStep, Now. total. Qed.

Lemma range_map_gives {V} (m : gmap string V) : gives (range_map m) (fun _ => True).
Proof. unfold range_map. total. Qed.
Hint Resolve range_map_gives : total.

Lemma UpdateMetricsStatus_gives (c : nat) : gives (UpdateMetricsStatus c) (fun _ => True).
Proof. unfold UpdateMetricsStatus. total. Qed.

Lemma release_replacement_gives : gives release_replacement (fun _ => True).
Proof. unfold release_replacement, upd_replacementNodes. total. Qed.
End bookkeeping.
#[export] Hint Resolve DoNodeStepAt_gives NodeStep_gives UpdateMetricsStatus_gives
  release_replacement_gives : total.

(** ** The goroutines *)
Section goroutines.
Context `{E : Env} `{!Cooperative E}.

Lemma run_hook_gives (script : string) (t : ScriptTarget) : gives (run_hook script t) (fun e => e = None).
Proof.
  unfold run_hook, runScript. destruct (String.eqb script ""); [by apply gives_ret|].
  apply gives_call. intros w. apply co_exec.
Qed.

Lemma RunCordonOrUncordon_gives (p : node_ptr) (b : bool) :
  gives (RunCordonOrUncordon (Cached p) b) (fun e => e = None).
Proof.
  unfold RunCordonOrUncordon, read_obj, write_obj, node_at, write_node.
  eapply gives_bind; [apply gives_gets|]. intros n _.
  eapply (gives_bind _ _ (fun r => r.1 = None)); [apply gives_call; intros w; apply co_cordon|].
  intros [err n'] Herr. cbn in Herr. subst err. total.
Qed.

Lemma drain_call_gives (name : string) (t : Duration) :
  gives (call (CallDrain name t) (svc_RunNodeDrain name t)) (fun e => e = None).
Proof. apply gives_call. intros w. apply co_drain. Qed.
Hint Resolve run_hook_gives RunCordonOrUncordon_gives drain_call_gives | 0 : total.

Lemma DrainNode_gives (p : node_ptr) (t : Z) : gives (DrainNode (Some (Cached p)) t true) (fun e => e = None).
Proof. unfold DrainNode, read_obj, node_at. cbn [negb]. total. Qed.
Hint Resolve DrainNode_gives : total.

Lemma worker_body_gives (w : DrainWorker) : gives (worker_body w) (fun pc => pc = next_pc (dw_pc w)).
Proof.
  unfold worker_body, worker_step, PreDrain, PostDrain, PostWait, drain_part, worker_step.
  destruct (dw_pc w); total.
Qed.

(** A goroutine that can run takes one part off its work, and no other goroutine changes. *)
Lemma run_worker_advances (i : nat) (s : St) :
  exists s', run_worker i s = (Val tt, s') /\
    forall j w', dm_workers (s_drain s') !! j = Some w' -> exists w, dm_workers (s_drain s) !! j = Some w /\
      dw_pc w' = if Nat.eqb i j then (if runnable (dw_pc w) then next_pc (dw_pc w) else dw_pc w) else dw_pc w.
Proof.
  unfold run_worker. rewrite (bind_val _ _ s s s) by done.
  assert (forall j w', dm_workers (s_drain s) !! j = Some w' ->
    (i <> j \/ runnable (dw_pc w') = false) ->
    dw_pc w' = if Nat.eqb i j then (if runnable (dw_pc w') then next_pc (dw_pc w') else dw_pc w')
               else dw_pc w') as Hsame.
  { intros j w' _ [Hj|Hr]; [by rewrite (proj2 (Nat.eqb_neq i j) Hj)|]. by destruct (Nat.eqb i j); rewrite ?Hr. }
  destruct (dm_workers (s_drain s) !! i) as [w|] eqn:Ew.
  2:{ exists s. split; [done|]. intros j w' Hw'. exists w'. split; [done|]. apply Hsame; [done|].
      left. intros ->. congruence. }
  destruct (runnable (dw_pc w)) eqn:Er.
  2:{ exists s. split; [done|]. intros j w' Hw'. exists w'. split; [done|]. apply Hsame; [done|].
      destruct (decide (i = j)) as [->|]; [right; congruence|by left]. }
  destruct (worker_body_gives w s) as (pc & s1 & E1 & ->). rewrite (bind_val _ _ _ _ _ E1).
  pose proof (worker_body_keeps_drain w s) as HK. rewrite E1 in HK. unfold keeps in HK. cbn in HK.
  eexists. split; [reflexivity|]. intros j w'. rewrite HK, Ew. cbn.
  destruct (decide (i = j)) as [<-|Hj].
  - rewrite list_lookup_insert_eq by (by eapply lookup_lt_Some). intros [= <-]. exists w.
    rewrite Nat.eqb_refl, Er. done.
  - rewrite list_lookup_insert_ne by done. intros Hw'. exists w'. split; [done|]. apply Hsame; [done|by left].
Qed.

Lemma next_pc_work (pc : DrainPc) (n : nat) :
  work pc = Some n -> runnable pc = true -> work (next_pc pc) = Some (pred n).
Proof. destruct pc; cbn; intros [= <-]; done. Qed.

Lemma idle_work (pc : DrainPc) (n : nat) : work pc = Some n -> runnable pc = false -> n = 0%nat.
Proof. destruct pc; cbn; intros [= <-]; done. Qed.
End goroutines.

(** ** The select *)
Section select.
Context `{E : Env} `{!Cooperative E}.

Lemma run_worker_enough (i : nat) (before : list SchedEvent) (s : St) :
  enough (EvRun i :: before) s -> exists s', run_worker i s = (Val tt, s') /\ enough before s'.
Proof.
  intros H. destruct (run_worker_advances i s) as (s' & E1 & Hs'). exists s'. split; [done|].
  intros j w' Hw'. destruct (Hs' j w' Hw') as (w & Hw & ->). destruct (H j w Hw) as (n & Hn & Hle).
  unfold runs in Hle. cbn in Hle. fold (runs j before) in Hle.
  destruct (Nat.eqb_spec i j) as [->|Hij].
  - rewrite Nat.eqb_refl in Hle. cbn in Hle. fold (runs j before) in Hle.
    destruct (runnable (dw_pc w)) eqn:Er.
    + exists (pred n). split; [by apply next_pc_work|lia].
    + exists n. split; [done|]. rewrite (idle_work _ _ Hn Er). lia.
  - rewrite (proj2 (Nat.eqb_neq j i)) in Hle by done. by exists n.
Qed.

Lemma enough_skip (e : SchedEvent) (before : list SchedEvent) (s : St) :
  (forall i, e <> EvRun i) -> enough (e :: before) s -> enough before s.
Proof.
  intros He H i w Hw. destruct (H i w Hw) as (n & Hn & Hle). exists n. split; [done|].
  destruct e as [j|j| |]; [by destruct (He j)|exact Hle..].
Qed.

(** No goroutine has an error to send. *)
Lemma recv_worker_nothing (i : nat) (before : list SchedEvent) (s : St) :
  enough before s -> recv_worker i s = (Val None, s).
Proof.
  intros H. unfold recv_worker. rewrite (bind_val _ _ s s s) by done.
  destruct (dm_workers (s_drain s) !! i) as [w|] eqn:Ew; [|done].
  destruct (H i w Ew) as (n & Hn & _). by destruct (dw_pc w).
Qed.

(** With no work left, every goroutine has returned. *)
Lemma enough_done (s : St) : group_ok s -> enough [] s -> DrainGroup (s_drain s) = 0%Z.
Proof.
  intros HG H. rewrite HG. unfold live_workers. rewrite (proj2 (length_zero_iff_nil _)); [done|].
  destruct (List.filter _ _) as [|w l] eqn:Ef; [done|]. exfalso.
  assert (w ∈ List.filter (fun w => negb (is_done w)) (dm_workers (s_drain s))) as Hin
    by (rewrite Ef; left).
  apply list_elem_of_In, filter_In in Hin as [Hin Hd]. apply list_elem_of_In, list_elem_of_lookup in Hin as [i Hi].
  destruct (H i w Hi) as (n & Hn & Hle). unfold is_done in Hd. unfold runs in Hle. cbn in Hle.
  destruct (dw_pc w); cbn in *; try done; injection Hn as <-; lia.
Qed.

Lemma await_fair (before after : list SchedEvent) (s : St) :
  (EvTimeout ∉ before) -> group_ok s -> enough before s ->
  exists s', await (before ++ EvDone :: after) s = (Val Drained, s') /\ DrainGroup (s_drain s') = 0%Z.
Proof.
  induction before as [|e before IH] in s |- *; intros HT HG HE; cbn [await app].
  - rewrite (bind_val _ _ s s s) by done. rewrite (enough_done s HG HE). exists s.
    split; [done|by apply enough_done].
  - apply not_elem_of_cons in HT as [HT1 HT]. destruct e as [i|i| |].
    + destruct (run_worker_enough i before s HE) as (s1 & E1 & HE1). rewrite (bind_val _ _ _ _ _ E1).
      apply IH; [done| |done]. pose proof (run_worker_group i s HG) as HG1. by rewrite E1 in HG1.
    + rewrite (bind_val _ _ _ _ _ (recv_worker_nothing i _ s HE)).
      apply IH; [done|done|]. eapply enough_skip; [|exact HE]. discriminate.
    + rewrite (bind_val _ _ s s s) by done. destruct (Z.eqb_spec (DrainGroup (s_drain s)) 0); [by exists s|].
      apply IH; [done|done|]. eapply enough_skip; [|exact HE]. discriminate.
    + done.
Qed.

(** The select starts no goroutine. *)
Definition goroutines (s : St) : nat := length (dm_workers (s_drain s)).

Lemma await_goroutines (l : list SchedEvent) : preserves (keeps goroutines) (await l).
Proof.
  assert (forall A (m : M St A), preserves (keeps s_drain) m -> preserves (keeps goroutines) m) as HK.
  { intros A m H s. specialize (H s). unfold keeps, goroutines in *. by rewrite H. }
  assert (forall i pc, preserves (keeps goroutines) (set_worker_pc i pc)) as HS.
  { intros i pc s. unfold keeps, goroutines, set_worker_pc, modify. cbn.
    destruct (dm_workers (s_drain s) !! i); [|done]. cbn. by rewrite length_insert. }
  induction l as [|[i|i| |] l IH]; cbn [await]; unfold run_worker, recv_worker; frame;
    first [apply HS | exact IH | apply HK, worker_body_keeps_drain].
Qed.

(** The new goroutines are at their start. *)
Lemma launch_new (cfg : Config) (c : nat) (batch : list Instance_) (s : St) :
  exists s' new, launch cfg c batch s = (Val tt, s') /\
    dm_workers (s_drain s') = dm_workers (s_drain s) ++ new /\ (length new <= length batch)%nat /\
    Forall (fun w => dw_pc w = PcPreDrain) new.
Proof.
  unfold launch. induction batch as [|t batch IH] in s |- *; cbn [for_each].
  - exists s, []. by rewrite app_nil_r.
  - assert (exists s1 new, launch_one cfg c t s = (Val tt, s1) /\
      dm_workers (s_drain s1) = dm_workers (s_drain s) ++ new /\ (length new <= 1)%nat /\
      Forall (fun w => dw_pc w = PcPreDrain) new) as (s1 & n1 & E1 & W1 & L1 & F1).
    { unfold launch_one. rewrite (bind_val _ _ s s s) by done.
      destruct (select_node _ s) as [p|]; [|by exists s, []; rewrite app_nil_r; repeat split; [cbn; lia|constructor]].
      eexists _, [_]. split; [reflexivity|]. split; [reflexivity|]. split; [cbn; lia|by constructor]. }
    rewrite (bind_val _ _ _ _ _ E1). destruct (IH s1) as (s2 & n2 & E2 & W2 & L2 & F2).
    exists s2, (n1 ++ n2). rewrite W2, W1, <- app_assoc. split; [done|]. split; [done|].
    rewrite length_app. split; [cbn; lia|by apply Forall_app].
Qed.

Lemma launch_enough (cfg : Config) (c : nat) (batch : list Instance_) (before : list SchedEvent) (s : St) :
  let k := length (dm_workers (s_drain s)) in
  group_ok s -> DrainGroup (s_drain s) = 0%Z ->
  (forall i, (k <= i < k + length batch)%nat -> (4 <= runs i before)%nat) ->
  exists s', launch cfg c batch s = (Val tt, s') /\ enough before s'.
Proof.
  intros k HG H0 Hr. destruct (launch_new cfg c batch s) as (s' & new & E1 & W1 & L1 & F1).
  exists s'. split; [done|]. intros i w. rewrite W1. intros [Hw|[Hi Hw]]%lookup_app_Some.
  - rewrite (group_zero_done s i w HG H0 Hw). exists 0%nat. split; [done|lia].
  - rewrite (Forall_lookup_1 _ _ _ _ F1 Hw). exists 4%nat. split; [done|]. apply Hr.
    apply lookup_lt_Some in Hw. lia.
Qed.
End select.

(** ** The batch *)
Section batch.
Context `{E : Env} `{!Cooperative E, !CordonLaws E}.

Hint Resolve run_hook_gives | 0 : total.
Hint Resolve DoNodeStepAt_quiet await_quiet : frame.
Hint Extern 2 (preserves quiet (modify _)) => apply modify_quiet; reflexivity : frame.
Hint Extern 2 (preserves quiet (upd_ru _)) => apply modify_quiet; reflexivity : frame.

(** A target with a node is terminated, and the loop goes on. *)
Lemma terminate_one_works (c : nat) (t : Instance_) (s : St) :
  exists s', terminate_one c t s = (Val None, s') /\
    (is_Some (select_node (instance_id t) s) ->
     exists pre post, s_calls s' = s_calls s ++ pre ++ CallTerminateInstance (instance_id t) false :: post).
Proof.
  unfold terminate_one. rewrite (bind_val _ _ s s s) by done.
  destruct (select_node (instance_id t) s) as [p|]; [|by exists s; split; [|intros [? ?]]].
  cbv zeta. set (asg := spec_AsgName _). set (name := node_Name _).
  destruct (NodeStep_gives c asg name NodeRotationTerminate s) as ([] & s1 & E1 & _).
  rewrite (bind_val _ _ _ _ _ E1).
  destruct (NodeStep_emits (fun _ => True) c asg name NodeRotationTerminate s) as (pre & H1 & _).
  rewrite E1 in H1. cbn in H1. unfold TerminateInstance, call at 1, mbind at 1, M_bind at 1.
  pose proof (co_terminate (instance_id t) false (s_world s1)) as Hco. unfold instance_id in Hco.
  destruct (svc_TerminateInstance _ false (s_world s1)) as [err w]. cbn in Hco. subst err. cbv beta iota.
  match goal with |- context [ ?m (set_calls ?l ?s0) = _ ] => set (s2 := set_calls l s0); set (rest := m) end.
  assert (gives rest (fun r => r = None)) as HG.
  { unfold rest, UntagEC2instances, upd_ru, PostTerminate, Now. total. }
  assert (preserves (emits (fun _ => True)) rest) as HE.
  { unfold rest, UntagEC2instances, release_replacement, upd_replacementNodes, PostTerminate, Now. frame. }
  destruct (HG s2) as (r & s3 & E3 & ->). exists s3. split; [done|]. intros _.
  destruct (HE s2) as (post & H3 & _). rewrite E3 in H3. exists pre, post.
  cbn [snd] in H3. rewrite H3. unfold s2. cbn. rewrite H1, <- !app_assoc. done.
Qed.

Lemma terminate_one_quiet (c : nat) (t : Instance_) : preserves quiet (terminate_one c t).
Proof.
  unfold terminate_one, release_replacement, upd_replacementNodes, UntagEC2instances, TerminateInstance,
    PostTerminate, run_hook, runScript, Now. frame.
Qed.

(** The loop terminates every target with a node. *)
Lemma terminate_loop_works (c : nat) (batch : list Instance_) (s : St) :
  exists s', for_return batch (terminate_one c) s = (Val None, s') /\ quiet s s' /\
    forall t, t ∈ batch -> is_Some (select_node (instance_id t) s) ->
      CallTerminateInstance (instance_id t) false ∈ drop (length (s_calls s)) (s_calls s').
Proof.
  induction batch as [|t batch IH] in s |- *; cbn [for_return].
  { exists s. split; [done|]. split; [done|]. by intros t Ht%not_elem_of_nil. }
  destruct (terminate_one_works c t s) as (s1 & E1 & H1). pose proof (terminate_one_quiet c t s) as Q1.
  rewrite E1 in Q1. cbn in Q1. rewrite (bind_val _ _ _ _ _ E1). destruct (IH s1) as (s2 & E2 & Q2 & H2).
  exists s2. split; [done|]. split; [by transitivity s1|].
  destruct (q_calls _ _ Q1) as [n1 C1]. destruct (q_calls _ _ Q2) as [n2 C2].
  rewrite C2, C1, <- app_assoc, drop_app_length. rewrite C2, drop_app_length in H2.
  intros t' [->|Ht]%elem_of_cons Hs; apply elem_of_app.
  - left. destruct (H1 Hs) as (pre & post & Hc). rewrite C1 in Hc. apply app_inv_head in Hc as ->.
    apply elem_of_app. right. left.
  - right. apply H2; [done|]. unfold select_node in *. by rewrite (quiet_select s s1), (q_cloud _ _ Q1).
Qed.

(** The last time is unset or long enough ago, whenever the clock is read in a world of [I]. *)
Definition interval_over (I : World -> Prop) (last : option Time) (n : Z) : Prop :=
  match last with
  | None => True
  | Some t => IsZero t = true \/ forall w, I w -> since_less_than (svc_Now w).1 t n = false
  end.

Lemma still_waiting_over (I : World -> Prop) (last : option Time) (n : Z) (s : St) :
  (forall w, I w -> I (svc_Now w).2) -> interval_over I last n -> I (s_world s) ->
  exists s', still_waiting last n s = (Val false, s') /\ I (s_world s').
Proof.
  unfold interval_over, still_waiting. intros HN H HI. destruct last as [t|]; [|by exists s].
  destruct (IsZero t); [by exists s|]. destruct H as [H|H]; [done|]. specialize (H _ HI). specialize (HN _ HI).
  unfold Now, ask, mbind, M_bind. destruct (svc_Now (s_world s)) as [now w]. eexists. cbn in *. by rewrite H.
Qed.

(** What was terminated after a later point was terminated after an earlier one. *)
Definition terminated_since (s s' : St) (batch : list Instance_) : Prop :=
  forall t, t ∈ batch -> is_Some (select_node (instance_id t) s) ->
    CallTerminateInstance (instance_id t) false ∈ drop (length (s_calls s)) (s_calls s').

Lemma terminated_earlier (s s1 s' : St) (batch : list Instance_) :
  quiet s s1 -> terminated_since s1 s' batch -> terminated_since s s' batch.
Proof.
  intros Q H t Ht Hs. specialize (H t Ht). unfold select_node in *.
  rewrite (quiet_select s s1), (q_cloud _ _ Q) in H by done. specialize (H Hs).
  destruct (q_calls _ _ Q) as [new Hn]. rewrite Hn, length_app in H.
  rewrite <- drop_drop in H. exact (subseteq_drop _ _ _ H).
Qed.

(** No goroutine is left, and there was at most one for each instance of the batch. *)
Definition idle_again (s s' : St) (batch : list Instance_) : Prop :=
  DrainGroup (s_drain s') = 0%Z /\ (goroutines s' <= goroutines s + length batch)%nat.

(** The goroutines are started, run to their ends, and the select sees them done. *)
Lemma drains_complete (cfg : Config) (c : nat) (batch : list Instance_) (s : St) :
  group_ok s -> DrainGroup (s_drain s) = 0%Z ->
  (forall w, fair (length (dm_workers (s_drain s))) (length batch) (svc_schedule w).1) ->
  exists s1 l s2 s3, start_drains cfg c batch s = (Val tt, s1) /\ ask svc_schedule s1 = (Val l, s2) /\
    await l s2 = (Val Drained, s3) /\ quiet s s3 /\ idle_again s s3 batch.
Proof.
  intros HG H0 HF. destruct (launch_new cfg c batch s) as (s1 & new & E1 & W1 & L1 & _).
  assert (quiet s s1) as Q1.
  { assert (preserves quiet (launch cfg c batch)) as HQ by (unfold launch, launch_one; frame).
    specialize (HQ s). by rewrite E1 in HQ. }
  pose proof (launch_group cfg c batch s HG) as HG1. rewrite E1 in HG1. cbn in HG1.
  destruct (svc_schedule (s_world s1)) as [l w] eqn:El.
  destruct (HF (s_world s1)) as (before & after & Hl & HT & Hr). rewrite El in Hl. cbn in Hl. subst l.
  destruct (launch_enough cfg c batch before s HG H0 Hr) as (s1' & E1' & HE).
  rewrite E1 in E1'. injection E1' as <-.
  destruct (await_fair before after (set_world w s1) HT HG1 HE) as (s3 & E3 & Z3).
  exists s1, (before ++ EvDone :: after), (set_world w s1), s3. split; [|split; [|split; [done|split]]].
  - unfold start_drains. rewrite (bind_val _ _ s s s) by done. by rewrite H0.
  - unfold ask. by rewrite El.
  - pose proof (await_quiet (before ++ EvDone :: after) (set_world w s1)) as Q3. rewrite E3 in Q3.
    transitivity s1; [done|]. transitivity (set_world w s1); [by apply quiet_same_nodes|exact Q3].
  - pose proof (await_goroutines (before ++ EvDone :: after) (set_world w s1)) as HN. rewrite E3 in HN.
    unfold keeps, goroutines in HN. cbn in HN. split; [done|]. unfold goroutines. rewrite HN, W1, length_app. lia.
Qed.

(** The last part: the loop over the batch and the bookkeeping. *)
Lemma terminate_batch_works (c : nat) (batch : list Instance_) (s : St) :
  exists s', terminate_batch c batch s = (Val (true, None), s') /\ terminated_since s s' batch.
Proof.
  unfold terminate_batch, Now, ask, mbind at 1, M_bind at 1. destruct (svc_Now (s_world s)) as [now w].
  unfold upd_ru, modify, mbind at 1, M_bind at 1.
  match goal with |- context [ (for_return _ _ ≫= _) ?s0 ] => set (s1 := s0) end.
  destruct (terminate_loop_works c batch s1) as (s2 & E2 & _ & H2). rewrite (bind_val _ _ _ _ _ E2).
  destruct (UpdateMetricsStatus_gives c s2) as ([] & s3 & E3 & _). rewrite (bind_val _ _ _ _ _ E3).
  exists s3. split; [done|].
  destruct (UpdateMetricsStatus_emits (fun _ => True) c s2) as (n3 & H3 & _). rewrite E3 in H3. cbn in H3.
  apply (terminated_earlier s s1); [by apply quiet_same_nodes|]. intros t Ht Hs. specialize (H2 t Ht Hs).
  rewrite H3, drop_app. apply elem_of_app. by left.
Qed.

Lemma still_waiting_quiet (last : option Time) (n : Z) : preserves quiet (still_waiting last n).
Proof. unfold still_waiting, Now. frame. Qed.

(** From the interval checks on. *)
Lemma drain_phase_works (I : World -> Prop) (cfg : Config) (c : nat) (batch : list Instance_) (s : St) :
  (forall w, I w -> I (svc_Now w).2) -> I (s_world s) ->
  group_ok s -> DrainGroup (s_drain s) = 0%Z ->
  (forall w, fair (length (dm_workers (s_drain s))) (length batch) (svc_schedule w).1) ->
  interval_over I (LastNodeTerminationTime (s_ru s)) (NodeIntervalSeconds (s_ru s)) ->
  interval_over I (LastNodeDrainTime (s_ru s)) (PostDrainDelaySeconds (s_ru s)) ->
  exists s', drain_phase cfg c batch s = (Val (true, None), s') /\ terminated_since s s' batch /\
    idle_again s s' batch.
Proof.
  intros HN HI HG H0 HF HT HD. unfold drain_phase. rewrite (bind_val _ _ s s s) by done.
  destruct (still_waiting_over I _ _ s HN HT HI) as (s1 & E1 & HI1). rewrite (bind_val _ _ _ _ _ E1).
  destruct (still_waiting_over I _ _ s1 HN HD HI1) as (s2 & E2 & _). rewrite (bind_val _ _ _ _ _ E2).
  assert (quiet s s2 /\ s_drain s2 = s_drain s) as [Q2 D2].
  { pose proof (still_waiting_quiet (LastNodeTerminationTime (s_ru s)) (NodeIntervalSeconds (s_ru s)) s) as A1.
    pose proof (still_waiting_quiet (LastNodeDrainTime (s_ru s)) (PostDrainDelaySeconds (s_ru s)) s1) as A2.
    pose proof (still_waiting_keeps_drain (LastNodeTerminationTime (s_ru s)) (NodeIntervalSeconds (s_ru s)) s) as B1.
    pose proof (still_waiting_keeps_drain (LastNodeDrainTime (s_ru s)) (PostDrainDelaySeconds (s_ru s)) s1) as B2.
    rewrite E1 in A1, B1. rewrite E2 in A2, B2. unfold keeps in *. cbn in *.
    split; [by transitivity s1|congruence]. }
  assert (group_idle s2) as Hb%background_idle by (unfold group_idle, group_ok; by rewrite D2).
  rewrite (bind_val _ _ _ _ _ Hb). set (s3 := set_world _ s2).
  destruct (drains_complete cfg c batch s3) as (s4 & l & s5 & s6 & E4 & E5 & E6 & Q6 & I6);
    [unfold group_ok; cbn; by rewrite D2|cbn; by rewrite D2|cbn; by rewrite D2|].
  rewrite (bind_val _ _ _ _ _ E4). unfold wait_and_terminate.
  rewrite (bind_val _ _ _ _ _ E5), (bind_val _ _ _ _ _ E6).
  destruct (terminate_batch_works c batch s6) as (s7 & E7 & H7). exists s7. split; [done|]. split.
  - apply (terminated_earlier s s6); [|done]. transitivity s2; [done|].
    transitivity s3; [by apply quiet_same_nodes|done].
  - pose proof (terminate_batch_keeps_drain c batch s6) as D7. rewrite E7 in D7. unfold keeps in D7. cbn in D7.
    unfold idle_again, goroutines in *. rewrite D7. cbn in I6. by rewrite D2 in I6.
Qed.

Lemma new_call_gives : gives new_call (fun _ => True).
Proof. unfold new_call. total. Qed.

Lemma turn_onto_gives (c : nat) (step : string) (batch : list Instance_) :
  gives (turn_onto c step batch) (fun _ => True).
Proof. unfold turn_onto. apply gives_for_each. total. Qed.

Lemma lazy_phase_gives (c : nat) (batch : list Instance_) : gives (lazy_phase c batch) (fun r => r = None).
Proof.
  unfold lazy_phase, TagEC2instances. eapply gives_bind; [apply turn_onto_gives|]. intros _ _.
  eapply (gives_bind _ _ (fun e => e = None)); [apply gives_call; intros w; apply co_tag|].
  intros err ->. total.
Qed.

(** The batch may be drained: in lazy mode always, in eager mode once none of its instances is in service and
    the nodes the group wants are ready. *)
Definition let_through (s : St) (batch : list Instance_) : Prop :=
  StrategyMode (s_ru s) = UpdateStrategyModeLazy \/
  (StrategyMode (s_ru s) = UpdateStrategyModeEager /\ GetInServiceInstanceIDs batch = [] /\
   forall s1, quiet s s1 -> exists s2, DesiredNodesReady s1 = (Val true, s2)).

Lemma mode_phase_passes (cfg : Config) (c : nat) (batch : list Instance_) (s s1 : St) :
  let_through s batch -> quiet s s1 ->
  exists s2, mode_phase cfg c (StrategyMode (s_ru s)) batch s1 = (Val None, s2).
Proof.
  intros [HM|(HM & HI & HR)] HQ; rewrite HM; unfold mode_phase.
  - replace (String.eqb UpdateStrategyModeLazy UpdateStrategyModeEager) with false by done.
    replace (String.eqb UpdateStrategyModeLazy UpdateStrategyModeLazy) with true by done.
    destruct (lazy_phase_gives c batch s1) as (r & s2 & E2 & ->). by exists s2.
  - replace (String.eqb UpdateStrategyModeEager UpdateStrategyModeEager) with true by done.
    unfold eager_phase. rewrite HI. change (0 <? zlen (@nil string))%Z with false. cbv iota zeta.
    destruct (turn_onto_gives c NodeRotationKickoff batch s1) as ([] & s2 & E2 & _). rewrite (bind_val _ _ _ _ _ E2).
    destruct (turn_onto_gives c NodeRotationDesiredNodeReady batch s2) as ([] & s3 & E3 & _).
    rewrite (bind_val _ _ _ _ _ E3).
    assert (forall step, preserves quiet (turn_onto c step batch)) as HT by (intros step; unfold turn_onto; frame).
    pose proof (HT NodeRotationKickoff s1) as Q2. rewrite E2 in Q2.
    pose proof (HT NodeRotationDesiredNodeReady s2) as Q3. rewrite E3 in Q3.
    destruct (HR s3) as (s4 & E4); [by transitivity s1; [|transitivity s2]|]. rewrite (bind_val _ _ _ _ _ E4). by exists s4.
Qed.

(** A batch that is let through reaches the interval checks. *)
Lemma prepare_batch_passes (I : World -> Prop) (cfg : Config) (batch : list Instance_) (s : St) :
  (forall w, I w -> I (svc_background w).2) -> I (s_world s) ->
  (forall c s1, I (s_world s1) -> I (s_world (mode_phase cfg c (StrategyMode (s_ru s)) batch s1).2)) ->
  cfg_EarlyCordonNodes cfg = false -> let_through s batch -> group_idle s ->
  exists c s1, prepare_batch cfg batch s = (Val (c, None), s1) /\ I (s_world s1).
Proof.
  intros HB HI HP HC HM H0. unfold prepare_batch, early_cordon. rewrite HC.
  rewrite (bind_val _ _ s s s) by done. cbv zeta.
  destruct (new_call_gives s) as (c & s1 & E1 & _). rewrite (bind_val _ _ _ _ _ E1). exists c.
  pose proof (new_call_prepares s) as P1. rewrite E1 in P1. cbn in P1. destruct P1 as [D1 Q1 _].
  assert (s_world s1 = s_world s) as Hw by (unfold new_call, mbind, M_bind in E1; cbn in E1; by injection E1 as _ <-).
  assert (group_idle s1) as H1 by (unfold group_idle, group_ok in *; by rewrite D1).
  rewrite (bind_val _ _ _ _ _ (background_idle s1 H1)). set (s2 := set_world _ s1). rewrite (bind_val _ _ s2 s2 None) by done.
  rewrite (bind_val _ _ _ _ _ (background_idle s2 H1)). set (s3 := set_world _ s2).
  destruct (mode_phase_passes cfg c batch s s3 HM) as (s4 & E4).
  { transitivity s1; [done|]. by apply quiet_same_nodes. }
  rewrite (bind_val _ _ _ _ _ E4).
  pose proof (mode_phase_keeps_drain cfg c (StrategyMode (s_ru s)) batch s3) as D4. rewrite E4 in D4.
  unfold keeps in D4. cbn in D4. assert (group_idle s4) as H4 by (unfold group_idle, group_ok in *; by rewrite D4).
  rewrite (bind_val _ _ _ _ _ (background_idle s4 H4)). eexists. split; [done|]. cbn. apply HB.
  specialize (HP c s3). rewrite E4 in HP. apply HP. cbn. rewrite Hw. auto.
Qed.

(** A batch that is let through is terminated in one call. *)
Lemma batch_works (I : World -> Prop) (cfg : Config) (batch : list Instance_) (s : St) :
  (forall w, I w -> I (svc_Now w).2) -> (forall w, I w -> I (svc_background w).2) -> I (s_world s) ->
  (forall c s1, I (s_world s1) -> I (s_world (mode_phase cfg c (StrategyMode (s_ru s)) batch s1).2)) ->
  cfg_EarlyCordonNodes cfg = false -> let_through s batch ->
  group_ok s -> DrainGroup (s_drain s) = 0%Z ->
  (forall w, fair (goroutines s) (length batch) (svc_schedule w).1) ->
  interval_over I (LastNodeTerminationTime (s_ru s)) (NodeIntervalSeconds (s_ru s)) ->
  interval_over I (LastNodeDrainTime (s_ru s)) (PostDrainDelaySeconds (s_ru s)) ->
  exists s', ReplaceNodeBatch cfg batch s = (Val (true, None), s') /\ terminated_since s s' batch /\
    idle_again s s' batch.
Proof.
  intros HN HB HI HP HC HM HG H0 HF HT HD.
  destruct (prepare_batch_passes I cfg batch s HB HI HP HC HM (conj HG H0)) as (c & s2 & E2 & HI2).
  unfold ReplaceNodeBatch. rewrite (bind_val _ _ _ _ _ E2).
  assert (preserves prepares (early_cordon cfg)) as HE by (unfold early_cordon; rewrite HC; frame).
  pose proof (prepare_batch_prepares' cfg batch s HE (conj HG H0)) as P2. rewrite E2 in P2. cbn in P2.
  destruct P2 as [D2 Q2 _].
  pose proof (prepare_batch_keeps_ru core core_steps cfg batch s) as T2. rewrite E2 in T2.
  unfold keeps in T2. cbn in T2. injection T2 as Ta Tb Tc Td. unfold goroutines in HF.
  destruct (drain_phase_works I cfg c batch s2) as (s3 & E3 & H3 & I3);
    [done|done|unfold group_ok; by rewrite D2|by rewrite D2|by rewrite D2
    |unfold NodeIntervalSeconds; by rewrite Tc, Ta
    |unfold PostDrainDelaySeconds; by rewrite Td, Ta|].
  exists s3. split; [done|]. split; [by apply (terminated_earlier s s2)|].
  unfold idle_again, goroutines in *. by rewrite D2 in I3.
Qed.

(** C16: when the requests succeed, no early cordon is
    configured, no goroutine of an earlier call is left, the intervals since the last drain and termination
    are over and the scheduler is fair to the goroutines it starts, one call of
    ReplaceNodeBatch on a batch that is let through (in lazy mode always; in eager mode when the batch is in standby and the
    desired nodes are ready) returns without an error, has requested the termination of
    every instance of the batch that has a node in the cache, and leaves no goroutine behind. *)
Theorem batch_progress (cfg : Config) (batch : list Instance_) (s : St) :
  cfg_EarlyCordonNodes cfg = false -> let_through s batch ->
  group_ok s -> DrainGroup (s_drain s) = 0%Z ->
  (forall w, fair (goroutines s) (length batch) (svc_schedule w).1) ->
  interval_over (fun _ => True) (LastNodeTerminationTime (s_ru s)) (NodeIntervalSeconds (s_ru s)) ->
  interval_over (fun _ => True) (LastNodeDrainTime (s_ru s)) (PostDrainDelaySeconds (s_ru s)) ->
  exists s', ReplaceNodeBatch cfg batch s = (Val (true, None), s') /\ terminated_since s s' batch /\
    DrainGroup (s_drain s') = 0%Z.
Proof.
  intros HC HM HG H0 HF HT HD. destruct (batch_works (fun _ => True) cfg batch s (fun _ _ => I) (fun _ _ => I) I (fun _ _ _ => I) HC HM HG H0 HF HT HD) as (s' & E1 & H1 & I1 & _).
  by exists s'.
Qed.
End batch.

(** ** Witness: two goroutines that take turns *)
Definition pair_scenario : Scenario :=
  mkScenario [sample_group] [] (map (fun id => sample_ec2 id []) ["i-1"; "i-2"; "i-3"])
    sample_nodes [] no_failure
    [EvRun 0; EvRun 1; EvRun 1; EvDone; EvRun 0; EvRun 0; EvRun 1; EvRun 0; EvRun 1; EvDone] [] [].

#[local] Instance pair_cooperative : Cooperative (sample_env pair_scenario).
Proof. by constructor. Qed.

Lemma batch_progress_witness :
  let s := sample_state pair_scenario (sample_upgrade sample_strategy) in
  exists s', @ReplaceNodeBatch (sample_env pair_scenario) sample_config (sample_batch ["i-1"; "i-2"]) s
      = (Val (true, None), s') /\
    CallTerminateInstance "i-1" false ∈ s_calls s' /\ CallTerminateInstance "i-2" false ∈ s_calls s'.
Proof.
  intros s. destruct (@batch_progress (sample_env pair_scenario) _ _ sample_config
    (sample_batch ["i-1"; "i-2"]) s) as (s' & E1 & H1 & _); [reflexivity|by left|reflexivity|reflexivity| |exact I|exact I|].
  - intros w. exists [EvRun 0; EvRun 1; EvRun 1; EvDone; EvRun 0; EvRun 0; EvRun 1; EvRun 0; EvRun 1], [].
    split; [reflexivity|]. split; [by rewrite !not_elem_of_cons; repeat split; [..|apply not_elem_of_nil]|].
    cbn. intros [|[|i]] Hi; vm_compute; lia.
  - exists s'. split; [done|]. split.
    + apply (H1 (sample_instance "i-1" "az-1" "lc-1" "InService")); [left|by vm_compute; eexists].
    + apply (H1 (sample_instance "i-2" "az-1" "lc-1" "InService")); [right; left|by vm_compute; eexists].
Defined.
