(* ===== verification/Fleet.v ===== *)
(** * The fleet: what the cloud does with a scaling group

    The liveness theorems need to know how the cloud answers and reacts.  [Fleet] is what AWS keeps about
    scaling groups and tags, [CloudView] reads it (and the clock) off a world of the environment, and
    [CloudLaws] are the documented reactions: descriptions return what is there, tagging changes tags, a
    terminated instance leaves the group and whatever replaces it runs the configuration of the group; nothing
    else the controller calls touches the fleet.  [pending] is what is left to do, and
    [shrinks] is how an operation may change it: nothing becomes pending, and what a termination was requested
    for is not pending afterwards. *)
From S2P Require Import Prelude GoStrings GoTime Common Types AwsProvider KubeProvider Metrics Env SampleEnv.
From S2P Require Import AwsClient KubeClient Cloud Steps Drift Uniform Targets Balloon Cordon Drain.
From S2P Require Import Replace Rotate.

Record Fleet := mkFleet {
  fl_templates : list LaunchTemplate;
  fl_groups : list Group;
  fl_tagged : list string;       (* the instances tagged as in progress *)
}.

Definition with_Instances (l : list Instance_) (g : Group) : Group :=
  mkGroup (asg_AutoScalingGroupName g) (asg_LaunchConfigurationName g) (asg_LaunchTemplate g)
    (asg_MixedInstancesPolicy g) (asg_DesiredCapacity g) l (asg_other g).

(** The view of a world: the fleet and the time. *)
Class CloudView (E : Env) := {
  fleet : World -> Fleet;
  clock : World -> Time;
}.

Section pending.
Context {UC : UnicodeCase}.

Definition is_tagged (f : Fleet) (i : Instance_) : bool := ContainsEqualFold (fl_tagged f) (instance_id i).

Definition runs_old (f : Fleet) (g : Group) (i : Instance_) : bool :=
  match config_drifted (fl_templates f) g i with Val b => b | Panic => false end.

(** An instance the rotation still has to replace: it is drifted, or already tagged. *)
Definition is_pending (f : Fleet) (g : Group) (i : Instance_) : bool :=
  if is_terminating i then false else if runs_old f g i then true else is_tagged f i.

Definition group_named (name : string) (f : Fleet) : Group := SelectScalingGroup name (fl_groups f).

Definition pending (name : string) (f : Fleet) : list Instance_ :=
  List.filter (is_pending f (group_named name f)) (asg_Instances (group_named name f)).

(** The terminated instance leaves its group; what comes in is on its way out, or new and untouched. *)
Definition replaces (id : string) (f f' : Fleet) (g g' : Group) : Prop :=
  exists new, g' = with_Instances (List.filter (fun i => negb (String.eqb (instance_id i) id)) (asg_Instances g) ++ new) g /\
    Forall (fun i => is_terminating i = true \/
                     (config_drifted (fl_templates f') g' i = Val false /\ is_tagged f' i = false)) new.
End pending.

(** A request that leaves the fleet alone. *)
Definition idle {E : Env} {V : CloudView E} {A} (f : World -> A * World) : Prop :=
  forall w, fleet (f w).2 = fleet w /\ (clock w <= clock (f w).2)%Z.

(** The instances of all pages of an answer. *)
Definition listed {A} (pages : list (Page (list A))) : list A := concat (map (fun p => concat (pg_items p)) pages).

Class CloudLaws (E : Env) (V : CloudView E) : Prop := {
  (* instances have ids, and no two of a group the same *)
  cl_ids : forall w g, g ∈ fl_groups (fleet w) -> distinct_ids (asg_Instances g) /\
    Forall (fun i => is_Some (inst_InstanceId i)) (asg_Instances g);
  (* descriptions *)
  cl_templates : forall w, exists pages, (svc_DescribeLaunchTemplatesPages w).1 = (pages, None) /\
    well_paged pages /\ concat (map pg_items pages) = fl_templates (fleet w);
  cl_groups : forall w, exists pages, (svc_DescribeAutoScalingGroupsPages w).1 = (pages, None) /\
    well_paged pages /\ concat (map pg_items pages) = fl_groups (fleet w);
  cl_tagged : forall w, exists pages,
    (svc_DescribeInstancesPages (tagged_filters instanceStateTagKey inProgressTagValue) w).1 = (pages, None) /\
    well_paged pages /\
    forall x, x ∈ map (fun i => StringValue (ec2_InstanceId i)) (listed pages) <-> x ∈ fl_tagged (fleet w);
  cl_instances : forall w, exists pages, (svc_DescribeInstancesPages [] w).1 = (pages, None) /\
    well_paged pages /\ Forall (fun p => Forall tags_ok (concat (pg_items p))) pages /\
    forall g i, g ∈ fl_groups (fleet w) -> i ∈ asg_Instances g -> is_terminating i = false ->
      is_tagged (fleet w) i = false -> exists e, e ∈ listed pages /\
        StringValue (ec2_InstanceId e) = instance_id i /\
        carries_tag instanceStateTagKey inProgressTagValue e = false;
  (* changes *)
  cl_create_tags : forall ids k v w, let f := fleet w in let r := svc_CreateTags ids k v w in
    fl_groups (fleet r.2) = fl_groups f /\ fl_templates (fleet r.2) = fl_templates f /\
    (forall x, x ∈ fl_tagged (fleet r.2) -> x ∈ fl_tagged f \/ (v = inProgressTagValue /\ x ∈ ids)) /\
    (clock w <= clock r.2)%Z;
  cl_delete_tags : forall ids k v w, let f := fleet w in let r := svc_DeleteTags ids k v w in
    fl_groups (fleet r.2) = fl_groups f /\ fl_templates (fleet r.2) = fl_templates f /\
    fl_tagged (fleet r.2) ⊆ fl_tagged f /\ (clock w <= clock r.2)%Z;
  cl_terminate : forall id w, let f := fleet w in let r := svc_TerminateInstance id false w in
    fl_templates (fleet r.2) = fl_templates f /\ fl_tagged (fleet r.2) ⊆ fl_tagged f /\
    Forall2 (replaces id f (fleet r.2)) (fl_groups f) (fl_groups (fleet r.2)) /\ (clock w <= clock r.2)%Z;
  (* the rest *)
  cl_now : forall w, (svc_Now w).1 = clock w;
  cl_idle_now : idle svc_Now;
  cl_idle_shuffle : idle svc_shuffle;
  cl_idle_background : idle svc_background;
  cl_idle_schedule : idle svc_schedule;
  cl_idle_templates : idle svc_DescribeLaunchTemplatesPages;
  cl_idle_groups : idle svc_DescribeAutoScalingGroupsPages;
  cl_idle_instances : forall fs, idle (svc_DescribeInstancesPages fs);
  cl_idle_cordon : forall n b, idle (svc_RunCordonOrUncordon n b);
  cl_idle_drain : forall name t, idle (svc_RunNodeDrain name t);
  cl_idle_exec : forall cmd env, idle (svc_Exec cmd env);
}.

Section relations.
Context `{E : Env} {V : CloudView E} (name : string).

Definition to_do (s : St) : list Instance_ := pending name (fleet (s_world s)).
Definition current_group (s : St) : Group := group_named name (fleet (s_world s)).

Record shrinks (s s' : St) : Prop := {
  sh_calls : exists new, s_calls s' = s_calls s ++ new /\
    forall id, CallTerminateInstance id false ∈ new -> forall i, i ∈ to_do s' -> instance_id i <> id;
  sh_to_do : to_do s' ⊆ to_do s;
  sh_group : with_Instances [] (current_group s') = with_Instances [] (current_group s);
  sh_clock : (clock (s_world s) <= clock (s_world s'))%Z;
}.

#[export] Instance shrinks_preorder : PreOrder shrinks.
Proof.
  split.
  - intros s. split; [|done|done|lia]. exists []. rewrite app_nil_r. split; [done|].
    by intros id H%not_elem_of_nil.
  - intros x y z [(n1 & C1 & G1) T1 S1 K1] [(n2 & C2 & G2) T2 S2 K2].
    split; [|by transitivity (to_do y)|congruence|lia].
    exists (n1 ++ n2). rewrite C2, C1, <- app_assoc. split; [done|].
    intros id [H|H]%elem_of_app i Hi; [|by apply (G2 id)]. apply (G1 id H i), T2, Hi.
Qed.

(** Before the batch is tagged: no termination, the groups as they were, no new tags. *)
Record settles (s s' : St) : Prop := {
  se_calls : emits (fun c => ~ terminates c) s s';
  se_groups : fl_groups (fleet (s_world s')) = fl_groups (fleet (s_world s));
  se_templates : fl_templates (fleet (s_world s')) = fl_templates (fleet (s_world s));
  se_tagged : fl_tagged (fleet (s_world s')) ⊆ fl_tagged (fleet (s_world s));
  se_clock : (clock (s_world s) <= clock (s_world s'))%Z;
}.

#[export] Instance settles_preorder : PreOrder settles.
Proof.
  split.
  - intros s. split; [reflexivity|done|done|done|lia].
  - intros x y z [C1 G1 P1 T1 K1] [C2 G2 P2 T2 K2].
    split; [by transitivity y|congruence|congruence|by etransitivity|lia].
Qed.
End relations.

(** The times in the status are in the past. *)
Definition times_ok `{E : Env} {V : CloudView E} (s : St) : Prop :=
  forall t, LastNodeTerminationTime (s_ru s) = Some t \/ LastNodeDrainTime (s_ru s) = Some t ->
    (t <= clock (s_world s))%Z.

(** The clock goes on, and the times stay in the past. *)
Definition stamps `{E : Env} {V : CloudView E} (s s' : St) : Prop :=
  (clock (s_world s) <= clock (s_world s'))%Z /\ (times_ok s -> times_ok s').

#[export] Instance stamps_preorder `{E : Env} {V : CloudView E} : PreOrder stamps.
Proof. split; [done|]. intros x y z [K1 T1] [K2 T2]. split; [lia|auto]. Qed.

(** ** Lemmas *)
Section pending_lemmas.
Context {UC : UnicodeCase}.

Lemma elem_pending (name : string) (f : Fleet) (i : Instance_) :
  i ∈ pending name f <-> i ∈ asg_Instances (group_named name f) /\ is_pending f (group_named name f) i = true.
Proof. unfold pending. by rewrite list_elem_of_In, filter_In, <- list_elem_of_In. Qed.

Lemma is_tagged_mono (f f' : Fleet) (i : Instance_) :
  fl_tagged f' ⊆ fl_tagged f -> is_tagged f' i = true -> is_tagged f i = true.
Proof.
  unfold is_tagged. intros H. rewrite !ContainsEqualFold_spec. intros (x & Hx & Hi). exists x. split; [by apply H|done].
Qed.

Lemma is_pending_true (f : Fleet) (g : Group) (i : Instance_) :
  is_pending f g i = true <-> is_terminating i = false /\ (runs_old f g i = true \/ is_tagged f i = true).
Proof. unfold is_pending. destruct (is_terminating i); [naive_solver|]. destruct (runs_old f g i); naive_solver. Qed.

(** Less tags and the same groups: less to do. *)
Lemma pending_mono (name : string) (f f' : Fleet) :
  fl_groups f' = fl_groups f -> fl_templates f' = fl_templates f -> fl_tagged f' ⊆ fl_tagged f ->
  pending name f' ⊆ pending name f.
Proof.
  intros HG HT Hx i. rewrite !elem_pending, !is_pending_true. unfold group_named, runs_old. rewrite HG, HT.
  intros (Hi & H1 & H2). split; [done|]. split; [done|]. destruct H2 as [H2|H2]; [by left|right].
  by apply (is_tagged_mono _ _ _ Hx).
Qed.

(** What drift means does not depend on the instances of the group. *)
Lemma config_drifted_Instances (ts : list LaunchTemplate) (l : list Instance_) (g : Group) (i : Instance_) :
  config_drifted ts (with_Instances l g) i = config_drifted ts g i.
Proof. done. Qed.

Lemma group_replaced (name id : string) (f f' : Fleet) :
  Forall2 (replaces id f f') (fl_groups f) (fl_groups f') ->
  replaces id f f' (group_named name f) (group_named name f').
Proof.
  unfold group_named. induction 1 as [|g g' gs gs' Hg _ IH]; cbn.
  - exists []. split; [done|constructor].
  - destruct Hg as (new & -> & Hn). cbn [asg_AutoScalingGroupName with_Instances].
    destruct (EqualFold _ _); [|exact IH]. by exists new.
Qed.

Lemma replaced_pending (id : string) (f f' : Fleet) (g g' : Group) (i : Instance_) :
  fl_templates f' = fl_templates f -> fl_tagged f' ⊆ fl_tagged f -> replaces id f f' g g' ->
  i ∈ asg_Instances g' -> is_pending f' g' i = true ->
  i ∈ asg_Instances g /\ is_pending f g i = true /\ instance_id i <> id.
Proof.
  intros HT Hx (new & -> & Hn) Hi. rewrite !is_pending_true. unfold runs_old.
  rewrite config_drifted_Instances, HT. intros [H1 H2]. apply elem_of_app in Hi as [Hi|Hi].
  - apply list_elem_of_In, filter_In in Hi as [Hi Hne]. apply list_elem_of_In in Hi.
    apply negb_true_iff, String.eqb_neq in Hne. split; [done|]. split; [|done]. split; [done|].
    destruct H2 as [H2|H2]; [by left|right]. by apply (is_tagged_mono _ _ _ Hx).
  - exfalso. apply (proj1 (Forall_forall _ _) Hn) in Hi as [Ht|[Hc Ht]]; [congruence|].
    rewrite config_drifted_Instances, HT in Hc. rewrite Hc in H2. destruct H2 as [H2|H2]; congruence.
Qed.

Lemma pending_replaced (name id : string) (f f' : Fleet) :
  fl_templates f' = fl_templates f -> fl_tagged f' ⊆ fl_tagged f ->
  Forall2 (replaces id f f') (fl_groups f) (fl_groups f') ->
  with_Instances [] (group_named name f') = with_Instances [] (group_named name f) /\
  forall i, i ∈ pending name f' -> i ∈ pending name f /\ instance_id i <> id.
Proof.
  intros HT Hx HF. apply (group_replaced name) in HF. split.
  - destruct HF as (new & -> & _). done.
  - intros i. rewrite !elem_pending. intros [Hi H].
    destruct (replaced_pending _ _ _ _ _ _ HT Hx HF Hi H) as (? & ? & ?). done.
Qed.
End pending_lemmas.

Section relation_lemmas.
Context `{E : Env} {V : CloudView E} `{!CloudLaws E V} (name : string).
Implicit Types (s : St).

Lemma settles_shrinks s s' : settles s s' -> shrinks name s s'.
Proof.
  intros [(new & HC & HN) HG HT Hx HK]. split; [|by apply pending_mono| |done].
  - exists new. split; [done|]. intros id Hid. by destruct (proj1 (Forall_forall _ _) HN _ Hid).
  - unfold current_group, group_named. by rewrite HG.
Qed.

Lemma settles_weaken {A} (m : M St A) : preserves settles m -> preserves (shrinks name) m.
Proof. intros H s. apply settles_shrinks, H. Qed.

(** *** Primitive operations *)
Lemma ask_settles {A} (f : World -> A * World) : idle f -> preserves settles (ask f).
Proof.
  intros H s. pose proof (ask_emits (fun c => ~ terminates c) f s) as HE. unfold ask in *.
  destruct (H (s_world s)) as [HF HK]. destruct (f (s_world s)) as [a w]. cbn in *.
  split; [done|cbn; by rewrite HF..|done].
Qed.

Lemma call_settles {A} (c : Call) (f : World -> A * World) :
  ~ terminates c -> idle f -> preserves settles (call c f).
Proof.
  intros Hc H s. pose proof (call_emits (fun c => ~ terminates c) c f Hc s) as HE. unfold call in *.
  destruct (H (s_world s)) as [HF HK]. destruct (f (s_world s)) as [a w]. cbn in *.
  split; [done|cbn; by rewrite HF..|done].
Qed.

Lemma modify_settles (f : St -> St) :
  (forall s, s_world (f s) = s_world s) -> (forall s, s_calls (f s) = s_calls s) -> preserves settles (modify f).
Proof.
  intros HW HC s. cbn. split; rewrite ?HW; [|done|done|done|lia]. exists []. by rewrite HC, app_nil_r.
Qed.

Lemma Untag_settles (ids : list string) (k v : string) : preserves settles (UntagEC2instances ids k v).
Proof.
  intros s. pose proof (call_emits (fun c => ~ terminates c) (CallDeleteTags ids k v) (svc_DeleteTags ids k v)
    (fun H => H) s) as HE. unfold UntagEC2instances, call in *.
  destruct (cl_delete_tags ids k v (s_world s)) as (HG & HT & Hx & HK).
  destruct (svc_DeleteTags ids k v (s_world s)) as [a w]. by split.
Qed.

(** A tag with another value than in-progress. *)
Lemma Tag_settles (ids : list string) (k v : string) :
  v <> inProgressTagValue -> preserves settles (TagEC2instances ids k v).
Proof.
  intros Hv s. pose proof (call_emits (fun c => ~ terminates c) (CallCreateTags ids k v) (svc_CreateTags ids k v)
    (fun H => H) s) as HE. unfold TagEC2instances, call in *.
  destruct (cl_create_tags ids k v (s_world s)) as (HG & HT & Hx & HK).
  destruct (svc_CreateTags ids k v (s_world s)) as [a w]. split; [done..| |done].
  intros x Hin. by destruct (Hx x Hin) as [|[? _]].
Qed.

Lemma Terminate_shrinks (t : Instance_) : preserves (shrinks name) (TerminateInstance t).
Proof.
  intros s. unfold TerminateInstance, call.
  destruct (cl_terminate (StringValue (inst_InstanceId t)) (s_world s)) as (HT & Hx & HR & HK).
  destruct (svc_TerminateInstance _ _ (s_world s)) as [a w]. cbn in *.
  destruct (pending_replaced name _ _ _ HT Hx HR) as [HG HP]. split; [|by intros i [? _]%HP|exact HG|done].
  eexists. split; [reflexivity|]. intros id [= ->]%list_elem_of_singleton i Hi. by apply HP.
Qed.

(** The batch is tagged: what is tagged was pending before. *)
Lemma Tag_batch_shrinks (batch : list Instance_) (k v : string) (s0 s : St) :
  settles s0 s -> (forall i, i ∈ batch -> i ∈ to_do name s0) ->
  shrinks name s0 (TagEC2instances (GetInServiceInstanceIDs batch) k v s).2.
Proof.
  intros [(new & HC & HN) HG HT Hx HK] HB. unfold TagEC2instances, call.
  set (ids := GetInServiceInstanceIDs batch). set (c := CallCreateTags ids k v).
  destruct (cl_create_tags ids k v (s_world s)) as (HG' & HT' & Hx' & HK').
  destruct (svc_CreateTags ids k v (s_world s)) as [a w]. cbn in *. split; cbn.
  - exists (new ++ [c]). rewrite HC, app_assoc. split; [done|]. intros id [Hid|Hid%list_elem_of_singleton]%elem_of_app; [|done].
    by destruct (proj1 (Forall_forall _ _) HN _ Hid).
  - intros i. unfold to_do. rewrite !elem_pending, !is_pending_true. cbn.
    unfold group_named, runs_old. rewrite HG', HT', HG, HT. intros (Hi & H1 & H2). split; [done|]. split; [done|].
    destruct H2 as [H2|H2]; [by left|]. unfold is_tagged in H2. apply ContainsEqualFold_spec in H2 as (x & Hin & Hxi).
    destruct (Hx' x Hin) as [Ho|[_ Hid]].
    + right. apply ContainsEqualFold_spec. exists x. split; [by apply Hx|done].
    + subst ids. rewrite GetInServiceInstanceIDs_filter in Hid.
      apply list_elem_of_fmap in Hid as (j & -> & [_ Hj]%list_elem_of_filter). specialize (HB j Hj).
      unfold to_do in HB. rewrite elem_pending, is_pending_true in HB. destruct HB as (Hjg & _ & Hj2).
      assert (i = j) as ->; [|exact Hj2]. fold (group_named name (fleet (s_world s0))) in Hi.
      assert (distinct_ids (asg_Instances (group_named name (fleet (s_world s0))))) as HD.
      { destruct (is_empty_group (group_named name (fleet (s_world s0)))) eqn:Ee.
        - unfold is_empty_group in Ee. apply bool_decide_eq_true in Ee. rewrite Ee. apply NoDup_nil_2.
        - apply SelectScalingGroup_found in Ee as [Ee _]. by apply (cl_ids _ _ Ee). }
      apply list_elem_of_lookup in Hi as [n Hn]. apply list_elem_of_lookup in Hjg as [m Hm].
      assert (n = m) as ->; [|congruence].
      apply (NoDup_lookup _ n m (fold_string (instance_id i)) HD); rewrite list_lookup_fmap, ?Hn, ?Hm; [done|].
      cbn. f_equal. by apply EqualFold_spec.
  - unfold current_group, group_named. cbn. by rewrite HG', HG.
  - lia.
Qed.
End relation_lemmas.

(** *** Times *)
Section times.
Context `{E : Env} {V : CloudView E} `{!CloudLaws E V}.

Definition last_times (r : RollingUpgrade) := (LastNodeTerminationTime r, LastNodeDrainTime r).

Lemma stamps_intro {A} (m : M St A) :
  preserves settles m -> preserves (keeps (fun s => last_times (s_ru s))) m -> preserves stamps m.
Proof.
  intros HS HK s. specialize (HS s). specialize (HK s). pose proof (se_clock _ _ HS) as Hc. split; [done|].
  intros HT t Ht. injection HK as K1 K2. rewrite K1, K2 in Ht. specialize (HT t Ht). lia.
Qed.

(** Reading the clock and recording what it says. *)
Lemma stamp_bind {A} (set : option Time -> RollingUpgrade -> RollingUpgrade) (f : Time -> M St A) :
  set = SetLastNodeTerminationTime \/ set = SetLastNodeDrainTime ->
  (forall now, preserves stamps (f now)) ->
  preserves stamps (now ← Now; upd_ru (set (Some now)) ;;; f now).
Proof.
  intros Hset Hf s. unfold Now, ask, upd_ru, modify, mbind, M_bind.
  pose proof (cl_now (s_world s)) as Hn. destruct (cl_idle_now (s_world s)) as [_ HK].
  destruct (svc_Now (s_world s)) as [now w]. cbn in Hn, HK. subst now.
  set (s1 := set_ru _ _). transitivity s1; [|apply Hf]. split; [done|]. intros HT t Ht.
  specialize (HT t). cbn in *.
  destruct Hset as [-> | ->]; unfold LastNodeTerminationTime, LastNodeDrainTime in *; cbn in *;
    destruct Ht as [Ht|Ht]; try (injection Ht as <-; lia); specialize (HT ltac:(auto)); lia.
Qed.

Lemma Terminate_stamps (t : Instance_) : preserves stamps (TerminateInstance t).
Proof.
  intros s. unfold TerminateInstance, call.
  destruct (cl_terminate (StringValue (inst_InstanceId t)) (s_world s)) as (_ & _ & _ & HK).
  destruct (svc_TerminateInstance _ _ (s_world s)) as [a w]. cbn in *. split; [done|].
  intros HT x Hx. specialize (HT x Hx). cbn. lia.
Qed.
End times.

(** *** The operations of a lazy rotation *)
Section operations.
Context `{E : Env} {V : CloudView E} `{!CloudLaws E V} (name : string).

Create HintDb fleet.
Hint Resolve cl_idle_now cl_idle_shuffle cl_idle_background cl_idle_schedule cl_idle_templates cl_idle_groups
  cl_idle_instances cl_idle_cordon cl_idle_drain cl_idle_exec : fleet.
Hint Extern 2 (preserves settles (ask _)) => apply ask_settles; solve [auto with fleet] : frame.
Hint Extern 2 (preserves settles (call _ _)) => apply call_settles; [exact (fun H => H)|solve [auto with fleet]] : frame.
Hint Extern 2 (preserves settles (modify _)) => apply modify_settles; reflexivity : frame.
Hint Extern 2 (preserves settles (upd_ru _)) => apply modify_settles; reflexivity : frame.
Hint Extern 2 (preserves settles (upd_cloud _)) => apply modify_settles; reflexivity : frame.
Hint Extern 2 (preserves settles (upd_metrics _)) => apply modify_settles; reflexivity : frame.
Hint Extern 2 (preserves settles (write_node _ _)) => apply modify_settles; reflexivity : frame.
Hint Extern 2 (preserves settles (UntagEC2instances _ _ _)) => apply Untag_settles : frame.
Hint Extern 2 (preserves settles (TagEC2instances _ _ failedDrainTagValue)) => apply Tag_settles; discriminate : frame.

Lemma DoNodeStepAt_settles (c : nat) (group node step : string) (t : Time) :
  preserves settles (DoNodeStepAt c group node step t).
Proof.
  unfold DoNodeStepAt, Now. frame. apply modify_settles; intros s; unfold store_steps; by destruct (cm_inProcessing _).
Qed.
Hint Resolve DoNodeStepAt_settles : frame.

Lemma UpdateMetricsStatus_settles (c : nat) : preserves settles (UpdateMetricsStatus c).
Proof. unfold UpdateMetricsStatus, range_map. frame. Qed.

Lemma set_worker_pc_settles (i : nat) (pc : DrainPc) : preserves settles (set_worker_pc i pc).
Proof. apply modify_settles; intros s; by destruct (dm_workers (s_drain s) !! i). Qed.

Lemma worker_body_settles (w : DrainWorker) : preserves settles (worker_body w).
Proof.
  unfold worker_body, worker_step, NodeStep, PreDrain, PostDrain, PostWait, run_hook, runScript, drain_part,
    worker_step, NodeStep, DrainNode, read_obj, node_at, RunCordonOrUncordon, read_obj, write_obj, node_at, Now. frame.
Qed.
Hint Resolve UpdateMetricsStatus_settles set_worker_pc_settles worker_body_settles : frame.

Lemma await_settles (l : list SchedEvent) : preserves settles (await l).
Proof. induction l as [|[i|i| |] l IH]; cbn [await]; unfold run_worker, recv_worker; frame; exact IH. Qed.

Lemma uniform_targets_settles (l : list Instance_) : preserves settles (uniform_targets l).
Proof.
  assert (forall fuel n m acc, preserves settles (uniform_loop fuel n m acc)) as H.
  { induction fuel as [|fuel IH]; intros n m acc; cbn [uniform_loop]; unfold range_map; frame; apply IH. }
  unfold uniform_targets. frame.
Qed.
Hint Resolve await_settles uniform_targets_settles : frame.

Lemma SelectTargets_settles (g : Group) (ex : list string) : preserves settles (SelectTargets g ex).
Proof. unfold SelectTargets, untag_orphaned, order_targets, DescribeInstancesWithoutTagValue. frame. Qed.

Lemma Discover_settles : preserves settles Discover.
Proof. unfold Discover, DescribeTaggedInstanceIDs, DescribeLaunchTemplates, DescribeScalingGroups. frame. Qed.

Lemma turn_onto_settles (c : nat) (step : string) (batch : list Instance_) : preserves settles (turn_onto c step batch).
Proof. unfold turn_onto, NodeStep, Now. frame. Qed.

Lemma new_call_settles : preserves settles new_call.
Proof. unfold new_call. frame. Qed.
Hint Resolve turn_onto_settles : frame.

Hint Extern 1 (preserves (shrinks _) (TerminateInstance _)) => apply Terminate_shrinks : frame.
Hint Extern 3 (preserves (shrinks _) _) => apply settles_weaken; solve [eauto 3 with frame] : frame.

Lemma terminate_batch_shrinks (c : nat) (batch : list Instance_) : preserves (shrinks name) (terminate_batch c batch).
Proof.
  unfold terminate_batch, terminate_one, release_replacement, upd_replacementNodes, NodeStep, PostTerminate,
    run_hook, runScript, Now. frame.
Qed.
Hint Resolve terminate_batch_shrinks : frame.

Lemma drain_phase_shrinks (cfg : Config) (c : nat) (batch : list Instance_) :
  preserves (shrinks name) (drain_phase cfg c batch).
Proof.
  unfold drain_phase, still_waiting, background, start_drains, launch, launch_one, run_worker, wait_and_terminate, Now.
  frame.
Qed.

(** **** The times *)
Lemma last_times_steps (r : RollingUpgrade) (st : RollingUpgradeStatus) :
  st_CurrentStatus st = st_CurrentStatus (ru_Status r) ->
  st_LastNodeTerminationTime st = st_LastNodeTerminationTime (ru_Status r) ->
  st_LastNodeDrainTime st = st_LastNodeDrainTime (ru_Status r) ->
  last_times (with_Status (fun _ => st) r) = last_times r.
Proof. unfold last_times, LastNodeTerminationTime, LastNodeDrainTime. cbn. congruence. Qed.

Abbreviation KT := (keeps (fun s : St => last_times (s_ru s))).
Hint Resolve last_times_steps : frame.
Hint Resolve ask_keeps_ru call_keeps_ru NodeStep_keeps_ru DoNodeStepAt_keeps_ru UpdateMetricsStatus_keeps_ru
  await_keeps_ru background_keeps_ru launch_keeps_ru new_call_keeps_ru : frame.
Hint Extern 3 (preserves KT (modify _)) => apply modify_keeps_ru; reflexivity : frame.
Hint Extern 2 (preserves KT (UntagEC2instances _ _ _)) => apply call_keeps_ru : frame.
Hint Extern 2 (preserves KT (TagEC2instances _ _ _)) => apply call_keeps_ru : frame.
Hint Extern 1 (preserves stamps (TerminateInstance _)) => apply Terminate_stamps : frame.
Hint Extern 3 (preserves stamps _) => apply stamps_intro; [solve [eauto 3 with frame]|solve [eauto 3 with frame]] : frame.

Lemma Now_stamps : preserves stamps Now.
Proof. unfold Now. frame. Qed.
Hint Resolve Now_stamps : frame.

Lemma terminate_batch_stamps (c : nat) (batch : list Instance_) : preserves stamps (terminate_batch c batch).
Proof.
  unfold terminate_batch, terminate_one, release_replacement, upd_replacementNodes, NodeStep, PostTerminate, run_hook, runScript.
  repeat first [ apply stamp_bind; [first [by left|by right]|intros ?] | frame_step | solve [eauto 4 with frame]].
Qed.
Hint Resolve terminate_batch_stamps : frame.

Lemma Tag_stamps (ids : list string) (k v : string) : preserves stamps (TagEC2instances ids k v).
Proof.
  intros s. unfold TagEC2instances, call. destruct (cl_create_tags ids k v (s_world s)) as (_ & _ & _ & HK).
  destruct (svc_CreateTags ids k v (s_world s)) as [a w]. cbn in *. split; [done|].
  intros HT x Hx. specialize (HT x Hx). cbn. lia.
Qed.
Hint Resolve Tag_stamps : frame.

Lemma background_settles : preserves settles background.
Proof. unfold background, run_worker. frame. Qed.
Hint Resolve background_settles : frame.

Lemma background_stamps : preserves stamps background.
Proof. frame. Qed.

Lemma drain_phase_stamps (cfg : Config) (c : nat) (batch : list Instance_) : preserves stamps (drain_phase cfg c batch).
Proof.
  unfold drain_phase, still_waiting, start_drains, wait_and_terminate.
  assert (preserves settles (launch cfg c batch)) as HL by (unfold launch, launch_one; frame).
  frame.
Qed.

Lemma lazy_phase_stamps (c : nat) (batch : list Instance_) : preserves stamps (lazy_phase c batch).
Proof.
  unfold lazy_phase, turn_onto. frame. unfold NodeStep. frame.
Qed.
End operations.
