(* ===== verification/Converge.v ===== *)
(** * Convergence: a lazy rotation makes progress until nothing is left to replace

    One call of [RotateNodes] in lazy mode, in an environment that cooperates ([Cooperative]), whose cloud
    reacts as documented ([CloudLaws]) and whose scheduler is fair, either finds the group up to date and completes
    the upgrade, or leaves strictly less to replace.  The argument follows the code: the discovery reads
    the fleet, the selection finds a target whenever something is drifted, the batch is terminated, and what
    was terminated is gone. *)
From S2P Require Import Prelude GoStrings GoTime Common Types AwsProvider KubeProvider Metrics Env SampleEnv.
From S2P Require Import AwsClient KubeClient Cloud Steps Drift Uniform Targets Balloon Cordon Drain.
From S2P Require Import Replace Rotate Progress Fleet.

(** ** The discovery *)
Lemma append_pages {A} (pages : list (Page A)) :
  well_paged pages -> each_page append_page pages None [] = Val (concat (map pg_items pages), None).
Proof.
  intros HW. destruct (each_page_all pg_items app append_page pages None [] ltac:(done) HW) as (e & -> & He).
  by rewrite He, foldl_app_concat.
Qed.

Lemma append_ids_val (pages : list (Page (list Ec2Instance))) (err : option error) (acc : list string) :
  exists r, each_page append_ids pages err acc = Val r.
Proof.
  induction pages as [|p pages IH] in acc |- *; cbn; [eauto|]. destruct (has_next p); [apply IH|eauto].
Qed.

Lemma append_ids_all (pages : list (Page (list Ec2Instance))) :
  well_paged pages -> each_page append_ids pages None [] =
    Val (map (fun i => StringValue (ec2_InstanceId i)) (listed pages), None).
Proof.
  intros HW. destruct (each_page_all
    (fun p => map (fun i => StringValue (ec2_InstanceId i)) (concat (pg_items p))) app
    append_ids pages None [] ltac:(done) HW) as (e & -> & He).
  rewrite He by done. rewrite foldl_app_concat. unfold listed. cbn [app]. by rewrite concat_map, !map_map.
Qed.

Section discovery.
Context `{E : Env} {V : CloudView E} `{!CloudLaws E V}.

(** What the rotation stands on: the node cache, the goroutines, the spec and the recorded times. *)
Definition footing (s : St) :=
  (s_nodes s, s_drain s, ClusterNodes (s_cloud s), ru_Spec (s_ru s), last_times (s_ru s)).

(** Nothing but bookkeeping happened. *)
Record still (s s' : St) : Prop := {
  st_footing : footing s' = footing s;
  st_settles : settles s s';
  st_fleet : fleet (s_world s') = fleet (s_world s);
}.

#[export] Instance still_preorder : PreOrder still.
Proof.
  split; [by split|]. intros x y z [F1 S1 T1] [F2 S2 T2]. split; [congruence|by transitivity y|congruence].
Qed.

Lemma call_still {A} (c : Call) (f : World -> A * World) : ~ terminates c -> idle f -> preserves still (call c f).
Proof.
  intros Hc Hf s. split; [|by apply call_settles|].
  - pose proof (call_memory c f s) as HM. unfold footing.
    by rewrite (sm_nodes _ _ HM), (sm_drain _ _ HM), (sm_cloud _ _ HM), (sm_ru _ _ HM).
  - unfold call. destruct (Hf (s_world s)) as [HF _]. by destruct (f (s_world s)).
Qed.

Lemma ask_still {A} (f : World -> A * World) : idle f -> preserves still (ask f).
Proof.
  intros Hf s. split; [|by apply ask_settles|].
  - pose proof (ask_memory f s) as HM. unfold footing.
    by rewrite (sm_nodes _ _ HM), (sm_drain _ _ HM), (sm_cloud _ _ HM), (sm_ru _ _ HM).
  - unfold ask. destruct (Hf (s_world s)) as [HF _]. by destruct (f (s_world s)).
Qed.

Lemma modify_still (f : St -> St) :
  (forall s, s_world (f s) = s_world s) -> (forall s, s_calls (f s) = s_calls s) ->
  (forall s, footing (f s) = footing s) -> preserves still (modify f).
Proof. intros HW HC HF s. split; [apply HF|by apply modify_settles|]. cbn. by rewrite HW. Qed.

Hint Extern 2 (preserves still (ask _)) => apply ask_still; first [apply cl_idle_now] : frame.
Hint Extern 2 (preserves still (call _ _)) =>
  apply call_still; [exact (fun H => H)|first [apply cl_idle_templates|apply cl_idle_groups|apply cl_idle_instances]] : frame.
Hint Extern 2 (preserves still (modify _)) => apply modify_still; reflexivity : frame.
Hint Extern 2 (preserves still (upd_ru _)) => apply modify_still; reflexivity : frame.
Hint Extern 2 (preserves still (upd_cloud _)) => apply modify_still; reflexivity : frame.
Hint Extern 2 (preserves still (upd_metrics _)) => apply modify_still; reflexivity : frame.

Lemma Discover_still : preserves still Discover.
Proof. unfold Discover, DescribeTaggedInstanceIDs, DescribeLaunchTemplates, DescribeScalingGroups. frame. Qed.

Lemma DescribeTagged_still (k v : string) : preserves still (DescribeTaggedInstanceIDs k v).
Proof. unfold DescribeTaggedInstanceIDs. frame. Qed.

(** The cloud as it was discovered. *)
Record discovered (s : St) : Prop := {
  di_templates : LaunchTemplates (s_cloud s) = fl_templates (fleet (s_world s));
  di_groups : ScalingGroups (s_cloud s) = fl_groups (fleet (s_world s));
  di_tagged : forall x, x ∈ InProgressInstances (s_cloud s) <-> x ∈ fl_tagged (fleet (s_world s));
}.

Lemma Discover_run (s : St) : exists s', Discover s = (Val None, s') /\ discovered s'.
Proof.
  unfold Discover, DescribeLaunchTemplates, DescribeScalingGroups, DescribeTaggedInstanceIDs, call, lift, upd_cloud, modify,
    mbind, M_bind, mret, M_ret.
  destruct (cl_templates (s_world s)) as (p1 & H1 & W1 & C1). destruct (cl_idle_templates (s_world s)) as [F1 _].
  destruct (svc_DescribeLaunchTemplatesPages (s_world s)) as [? w1]. cbn in H1, F1. subst. rewrite append_pages by done. cbn.
  destruct (cl_groups w1) as (p2 & H2 & W2 & C2). destruct (cl_idle_groups w1) as [F2 _].
  destruct (svc_DescribeAutoScalingGroupsPages w1) as [? w2]. cbn in H2, F2. subst. rewrite append_pages by done. cbn.
  destruct (cl_tagged w2) as (p3 & H3 & W3 & C3).
  destruct (cl_idle_instances (tagged_filters instanceStateTagKey inProgressTagValue) w2) as [F3 _].
  destruct (svc_DescribeInstancesPages _ w2) as [? w3]. cbn in H3, F3. subst. rewrite append_ids_all by done. cbn.
  eexists. split; [reflexivity|]. split; cbn.
  - congruence.
  - rewrite C2. congruence.
  - intros x. rewrite C3. by rewrite F3.
Qed.

(** The rotation up to the discovery. *)
Lemma RotateNodes_discovers (cfg : Config) (s : St) :
  exists failed s1, RotateNodes cfg s = rotate_discovered cfg failed s1 /\ still s s1 /\ discovered s1 /\
    CurrentStatus (s_ru s1) = StatusRunning.
Proof.
  unfold RotateNodes.
  assert (exists failed e s1, DescribeTaggedInstanceIDs instanceStateTagKey failedDrainTagValue s = (Val (failed, e), s1))
    as (failed & e & s1 & E1).
  { unfold DescribeTaggedInstanceIDs, call, mbind, M_bind, lift. destruct (svc_DescribeInstancesPages _ _) as [[pages err] w].
    destruct (append_ids_val pages err []) as [[l e] ->]. eauto. }
  pose proof (DescribeTagged_still instanceStateTagKey failedDrainTagValue s) as S1. rewrite E1 in S1. cbn in S1.
  rewrite (bind_val _ _ _ _ _ E1).
  destruct (set_status_run StatusRunning s1) as (ru & Hr & Hst & Hsp & _). rewrite (bind_val _ _ _ _ _ Hr).
  assert (still s1 (set_ru ru s1)) as S2.
  { assert (preserves still (set_status StatusRunning)) as H by (unfold set_status; frame).
    specialize (H s1). by rewrite Hr in H. }
  set (s2 := set_ru ru s1) in *. rewrite (bind_val _ _ s2 s2 s2) by done.
  erewrite bind_val by reflexivity. set (s3 := set_metrics _ s2).
  assert (still s2 s3) as S3 by (split; [done| |done]; by apply (modify_settles (fun s => set_metrics (SetMetricRollupInitOrRunning (ru_Name (s_ru s2)) (s_metrics s2)) s))).
  match goal with |- context [ (?m ≫= ?f) s3 ] =>
    assert (preserves still m /\ preserves (keeps (fun s => CurrentStatus (s_ru s))) m) as [H4 K4] end.
  { split; [unfold Now; frame|]. destruct (String.eqb _ ""); [|frame]. unfold Now. frame; first [apply ask_keeps_ru|by apply modify_keeps_ru]. }
  match goal with |- context [ (?m ≫= ?f) s3 ] => assert (exists s4, m s3 = (Val tt, s4)) as (s4 & E4) end.
  { destruct (String.eqb _ ""); [|by eexists]. unfold Now, ask, mbind, M_bind. destruct (svc_Now _). by eexists. }
  specialize (H4 s3). specialize (K4 s3). rewrite E4 in H4, K4. rewrite (bind_val _ _ _ _ _ E4).
  destruct (Discover_run s4) as (s5 & E5 & D5). pose proof (Discover_still s4) as S5. rewrite E5 in S5.
  rewrite (bind_val _ _ _ _ _ E5). exists failed, s5. split; [done|]. split; [|split; [done|]].
  - cbn in *. transitivity s1; [done|]. transitivity s2; [done|]. transitivity s3; [done|]. by transitivity s4.
  - pose proof (Discover_calm s4) as [K5 _]. rewrite E5 in K5. unfold keeps in *. cbn in *. congruence.
Qed.
End discovery.

(** ** The selection *)
Lemma scan_unprocessed_extends {UC : UnicodeCase} (drifted : Instance_ -> outcome bool) (g : Group)
    (ex l : list string) (acc r : list Instance_) :
  scan_unprocessed drifted g ex l acc = Val r -> acc `prefix_of` r.
Proof.
  induction l as [|x l IH] in acc |- *; cbn [scan_unprocessed]; [by intros [= <-]|].
  destruct (consider_cases drifted g ex acc x) as [_ [->|[->|(-> & _ & _)]]]; cbn [mbind outcome_bind]; [done|apply IH|].
  intros H. etransitivity; [|exact (IH _ H)]. by apply prefix_app_r.
Qed.

(** A drifted instance whose id is listed is found, or another one is. *)
Lemma scan_unprocessed_finds {UC : UnicodeCase} (drifted : Instance_ -> outcome bool) (g : Group)
    (l : list string) (x : string) (r : list Instance_) :
  let i := SelectScalingGroupInstance x g in
  x ∈ l -> is_empty_instance i = false -> drifted i = Val true -> is_terminating i = false ->
  scan_unprocessed drifted g [] l [] = Val r -> r <> [].
Proof.
  intros i Hx He Hd Ht. induction l as [|y l IH]; [by apply not_elem_of_nil in Hx|]. cbn [scan_unprocessed].
  apply elem_of_cons in Hx as [<-|Hx].
  - unfold consider. fold i. rewrite He, Hd. cbn [negb mbind outcome_bind]. rewrite Ht. cbn [negb andb].
    replace (ContainsEqualFold (GetInstanceIDs []) _) with false by done. cbn [negb andb ContainsEqualFold app].
    intros H%scan_unprocessed_extends ->. by destruct H as [k H].
  - destruct (consider_cases drifted g [] [] y) as [_ [->|[->|(-> & _ & _)]]]; cbn [mbind outcome_bind]; [done|by apply IH|].
    intros H%scan_unprocessed_extends ->. by destruct H as [k H].
Qed.

Section selection.
Context `{E : Env} {V : CloudView E} `{!CloudLaws E V} (name : string).

(** Everything that is to be replaced has a node in the cache. *)
Definition covered (s : St) : Prop := forall i, i ∈ to_do name s -> is_Some (select_node (instance_id i) s).

(** The settings under which the selection finds what is pending. *)
Record eligible (s : St) : Prop := {
  so_name : ScalingGroupName (s_ru s) = name;
  so_force : IsForceRefresh (s_ru s) = false;
  so_policy : policy_complete (current_group name s);
  so_covered : covered s;
  so_type : UpdateStrategyType (s_ru s) ∈ [RandomUpdateStrategy; UniformAcrossAzUpdateStrategy];
  so_bound : (1 <= CalculateMaxUnavailable (MaxUnavailable (s_ru s))
                    (Int64Value (asg_DesiredCapacity (current_group name s))))%Z;
}.

Definition selectable (s : St) : Prop := discovered s /\ eligible s.

Definition batch_bound (s : St) : nat :=
  Z.to_nat (CalculateMaxUnavailable (MaxUnavailable (s_ru s)) (Int64Value (asg_DesiredCapacity (current_group name s)))).

Lemma group_ids (s : St) :
  distinct_ids (asg_Instances (current_group name s)) /\
  Forall (fun i => is_Some (inst_InstanceId i)) (asg_Instances (current_group name s)).
Proof.
  destruct (is_empty_group (current_group name s)) eqn:Ee.
  - unfold is_empty_group in Ee. apply bool_decide_eq_true in Ee. rewrite Ee. split; [apply NoDup_nil_2|constructor].
  - apply SelectScalingGroup_found in Ee as [Ee _]. by apply (cl_ids (s_world s)).
Qed.

Context (s0 : St) (HS : selectable s0).

Lemma selectable_group : scaling_group s0 = current_group name s0.
Proof. unfold scaling_group, current_group, group_named. by rewrite (so_name _ (proj2 HS)), (di_groups _ (proj1 HS)). Qed.

Lemma selectable_drifted (i : Instance_) :
  IsInstanceDrifted (s_ru s0) (s_cloud s0) (cluster_nodes s0) i =
  Val (if is_terminating i then false else runs_old (fleet (s_world s0)) (current_group name s0) i).
Proof.
  unfold IsInstanceDrifted. fold (scaling_group s0). rewrite selectable_group, (so_force _ (proj2 HS)), (di_templates _ (proj1 HS)).
  unfold is_terminating. destruct (ContainsEqualFold TerminatingInstanceStates _); [done|]. unfold runs_old.
  destruct (config_drifted_spec (fl_templates (fleet (s_world s0))) _ i (so_policy _ (proj2 HS))) as (b & -> & _). done.
Qed.

(** Members of a batch are pending. *)
Lemma selected_pending (ex : list string) (i : Instance_) :
  resumed_target (cluster_nodes s0) (current_group name s0) (InProgressInstances (s_cloud s0)) i \/
  fresh_target (IsInstanceDrifted (s_ru s0) (s_cloud s0) (cluster_nodes s0)) (current_group name s0) ex i ->
  i ∈ to_do name s0.
Proof.
  unfold to_do. rewrite elem_pending, is_pending_true. fold (current_group name s0).
  intros [[H1 H2 (x & Hx & Hi) _]|[H1 H2 H3 _]].
  - split; [done|]. split; [done|]. right. apply ContainsEqualFold_spec. exists x.
    split; [by apply (di_tagged _ (proj1 HS))|done].
  - split; [done|]. split; [done|]. left. rewrite selectable_drifted, H3 in H2. by injection H2.
Qed.

(** A tagged instance that is drifted is taken up again. *)
Lemma tagged_selected (d : Instance_) :
  d ∈ to_do name s0 -> is_tagged (fleet (s_world s0)) d = true ->
  d ∈ (scan_in_progress (cluster_nodes s0) (current_group name s0) (InProgressInstances (s_cloud s0)) ([], [])).1.
Proof.
  intros Hd Ht. destruct (so_covered _ (proj2 HS) d Hd) as [p Hp].
  unfold to_do in Hd. rewrite elem_pending, is_pending_true in Hd. destruct Hd as (Hg & Hl & _).
  fold (current_group name s0) in Hg.
  apply ContainsEqualFold_spec in Ht as (x & Hx & Hi).
  apply scan_in_progress_in. exists x. split; [by apply (di_tagged _ (proj1 HS))|].
  destruct (group_ids s0) as [HD HI]. unfold classify_in_progress, SelectScalingGroupInstance.
  rewrite (select_instance_unique _ d x HD Hg Hi).
  assert (is_empty_instance d = false) as ->.
  { unfold is_empty_instance. apply bool_decide_eq_false. intros ->. apply (proj1 (Forall_forall _ _) HI) in Hg. by destruct Hg. }
  cbn [negb]. rewrite Hl. cbn [negb]. unfold cluster_nodes. rewrite SelectNode_map, (SelectNode_congr _ x (instance_id d)) by done.
  unfold select_node in Hp. change (id ∘ read_node (s_nodes s0)) with (read_node (s_nodes s0)). by rewrite Hp.
Qed.

(** The ids without the tag, as they are listed once the orphans are untagged. *)
Definition untagged_ids (pages : list (Page (list Ec2Instance))) : list string :=
  map (fun i => StringValue (ec2_InstanceId i))
    (filter (fun i => carries_tag instanceStateTagKey inProgressTagValue i = false)
       (concat (map (fun p => concat (pg_items p)) pages))).

(** The listing that follows a settled state. *)
Lemma untagged_run (s1 : St) :
  settles s0 s1 ->
  exists pages s2, DescribeInstancesWithoutTagValue instanceStateTagKey inProgressTagValue s1
      = (Val (untagged_ids pages, None), s2) /\
    forall d, d ∈ to_do name s0 -> is_tagged (fleet (s_world s0)) d = false -> instance_id d ∈ untagged_ids pages.
Proof.
  intros S1. destruct (cl_instances (s_world s1)) as (pages & HP & HW & HT & HL).
  destruct (svc_DescribeInstancesPages [] (s_world s1)) as [r w] eqn:Er. cbn in HP. subst r.
  destruct (DescribeInstancesWithoutTagValue_run instanceStateTagKey inProgressTagValue s1 pages w Er HW HT) as (s2 & E2).
  exists pages, s2. split; [done|]. intros d Hd Ht. unfold to_do in Hd. rewrite elem_pending, is_pending_true in Hd.
  destruct Hd as (Hg & Hl & _). destruct (HL (current_group name s0) d) as (e & He & Hid & Hc); [|done|done| |].
  - rewrite (se_groups _ _ S1). destruct (is_empty_group (current_group name s0)) eqn:Ee;
      [|by apply SelectScalingGroup_found in Ee as [? _]].
    unfold is_empty_group in Ee. apply bool_decide_eq_true in Ee. fold (current_group name s0) in Hg.
    rewrite Ee in Hg. by apply not_elem_of_nil in Hg.
  - destruct (is_tagged (fleet (s_world s1)) d) eqn:Et1; [|done]. rewrite <- Ht. symmetry.
    exact (is_tagged_mono _ _ d (se_tagged _ _ S1) Et1).
  - apply list_elem_of_fmap. exists e. split; [done|]. by apply list_elem_of_filter.
Qed.

(** A drifted instance is selected, by its tag or by its drift. *)
Lemma drifted_selected (d : Instance_) (ids : list string) (un : list Instance_) :
  d ∈ to_do name s0 -> runs_old (fleet (s_world s0)) (current_group name s0) d = true ->
  (is_tagged (fleet (s_world s0)) d = false -> instance_id d ∈ ids) ->
  scan_unprocessed (IsInstanceDrifted (s_ru s0) (s_cloud s0) (cluster_nodes s0)) (current_group name s0) [] ids [] = Val un ->
  (scan_in_progress (cluster_nodes s0) (current_group name s0) (InProgressInstances (s_cloud s0)) ([], [])).1 ++ un <> [].
Proof.
  intros Hd Hro Hids Hun [Hs ->]%app_eq_nil. destruct (is_tagged (fleet (s_world s0)) d) eqn:Et.
  { pose proof (tagged_selected d Hd Et) as Hin. rewrite Hs in Hin. by apply not_elem_of_nil in Hin. }
  unfold to_do in Hd. rewrite elem_pending, is_pending_true in Hd. destruct Hd as (Hdg & Hdl & _).
  fold (current_group name s0) in Hdg. destruct (group_ids s0) as [HD HN].
  assert (SelectScalingGroupInstance (instance_id d) (current_group name s0) = d) as Hsel
    by (apply select_instance_unique; auto using EqualFold_refl).
  eapply (scan_unprocessed_finds _ _ _ (instance_id d)) in Hun; [done|by apply Hids|..]; rewrite Hsel.
  - unfold is_empty_instance. apply bool_decide_eq_false. intros ->.
    apply (proj1 (Forall_forall _ _) HN) in Hdg. by destruct Hdg.
  - by rewrite selectable_drifted, Hdl, Hro.
  - done.
Qed.

(** The selection returns a batch of pending instances, and not the empty one when something is drifted
    and nothing is excluded. *)
Lemma SelectTargets_finds (ex : list string) (s : St) :
  same_memory s0 s -> settles s0 s ->
  exists batch s', SelectTargets (current_group name s0) ex s = (Val batch, s') /\
    (forall i, i ∈ batch -> i ∈ to_do name s0) /\ (length batch <= batch_bound s0)%nat /\
    (ex = [] -> (exists d, d ∈ to_do name s0 /\ runs_old (fleet (s_world s0)) (current_group name s0) d = true) ->
     batch <> []).
Proof.
  intros HM HE.
  set (scan := scan_in_progress (cluster_nodes s) (current_group name s0) (InProgressInstances (s_cloud s)) ([], [])).
  assert (exists s1, untag_orphaned scan.2 s = (Val tt, s1)) as (s1 & E1).
  { unfold untag_orphaned, UntagEC2instances, call. destruct (0 <? _)%Z; [|by exists s].
    unfold mbind, M_bind. destruct (svc_DeleteTags _ _ _ _). by eexists. }
  assert (settles s s1) as S1.
  { assert (preserves settles (untag_orphaned scan.2)) as H
      by (unfold untag_orphaned; frame; apply Untag_settles). specialize (H s). by rewrite E1 in H. }
  destruct (untagged_run s1) as (pages & s2 & E2 & HL); [by transitivity s|].
  destruct (SelectTargets_run (current_group name s0) ex s s1 s2 (untagged_ids pages))
    as (fresh & s' & E3 & _ & un & Hun & HF); [| | |exact E1|exact E2|].
  { rewrite (scaling_group_same _ _ HM), selectable_group. apply (so_policy _ (proj2 HS)). }
  { rewrite (sm_ru _ _ HM). pose proof (so_bound _ (proj2 HS)). lia. }
  { rewrite (sm_ru _ _ HM). apply (so_type _ (proj2 HS)). }
  fold scan in E3. pose proof E3 as HI. apply SelectTargets_members in HI as [_ HI]. rewrite (sm_ru _ _ HM) in E3.
  fold (batch_bound s0) in E3. eexists _, s'. split; [exact E3|].
  rewrite (cluster_nodes_same _ _ HM), (sm_cloud _ _ HM), (sm_ru _ _ HM) in HI, Hun.
  unfold scan in *. rewrite (cluster_nodes_same _ _ HM), (sm_cloud _ _ HM) in *.
  split; [intros i Hi; by eapply selected_pending, HI|]. split; [rewrite length_take; lia|].
  intros -> (d & Hd & Hro) Hnil. apply (drifted_selected d _ _ Hd Hro (HL d Hd) Hun).
  assert (batch_bound s0 <> 0%nat) as Hb by (pose proof (so_bound _ (proj2 HS)); unfold batch_bound; lia).
  apply Permutation_nil_r. rewrite <- HF. destruct (_ ++ fresh); [done|]. by destruct (batch_bound s0).
Qed.
End selection.

(** ** The rotation *)
Section rotation.
Context `{E : Env} {V : CloudView E} `{!CloudLaws E V, !Cooperative E, !CordonLaws E, !NodeApiLaws E} (name : string).

(** A lazy batch of pending instances only shrinks what is to do. *)
Lemma lazy_phase_shrinks (c : nat) (batch : list Instance_) (s0 s : St) :
  settles s0 s -> (forall i, i ∈ batch -> i ∈ to_do name s0) -> shrinks name s0 (lazy_phase c batch s).2.
Proof.
  intros HS HB. unfold lazy_phase. destruct (turn_onto_gives c NodeRotationKickoff batch s) as ([] & s2 & E2 & _).
  rewrite (bind_val _ _ _ _ _ E2). pose proof (turn_onto_settles c NodeRotationKickoff batch s) as S2. rewrite E2 in S2. cbn in S2.
  pose proof (Tag_batch_shrinks name batch instanceStateTagKey inProgressTagValue s0 s2) as H.
  specialize (H ltac:(by transitivity s) HB).
  unfold mbind, M_bind. destruct (TagEC2instances _ _ _ s2) as [[err|] s3]; cbn in *; [|done].
  destruct err; [|done].
  match goal with |- shrinks _ _ (match ?m ?s with _ => _ end).2 =>
    pose proof (settles_weaken name _ (UpdateMetricsStatus_settles c) s) as H4; destruct (m s) as [[[]|] s4] end;
    cbn in *; by transitivity s3.
Qed.

(** The same for everything before the interval checks, whatever goroutines are left over. *)
Lemma prepare_batch_shrinks (cfg : Config) (batch : list Instance_) (s0 s : St) :
  cfg_EarlyCordonNodes cfg = false -> StrategyMode (s_ru s) = UpdateStrategyModeLazy ->
  settles s0 s -> (forall i, i ∈ batch -> i ∈ to_do name s0) ->
  shrinks name s0 (prepare_batch cfg batch s).2 /\ stamps s (prepare_batch cfg batch s).2.
Proof.
  intros HC HM HS HB. unfold prepare_batch, early_cordon. rewrite HC, (bind_val _ _ s s s) by done. cbv zeta. rewrite HM.
  assert (forall {A B} (m : M St A) (f : A -> M St B) s1, preserves settles m -> preserves stamps m ->
    (forall a s2, settles s0 s2 -> shrinks name s0 (f a s2).2 /\ stamps s2 (f a s2).2) -> settles s0 s1 ->
    shrinks name s0 ((m ≫= f) s1).2 /\ stamps s1 ((m ≫= f) s1).2) as Hbind.
  { intros A B m f s1 H1 H2 H3 H4. specialize (H1 s1). specialize (H2 s1). unfold mbind, M_bind.
    assert (shrinks name s0 (m s1).2) as H5 by (apply settles_shrinks; by transitivity s1).
    destruct (m s1) as [[a|] s2]; cbn in *; [|done].
    destruct (H3 a s2) as [H6 H7]; [by transitivity s1|]. split; [done|by transitivity s2]. }
  assert (preserves stamps new_call) as HN
    by (apply stamps_intro; [apply new_call_settles|unfold new_call; frame; by apply modify_keeps_ru]).
  apply Hbind; [apply new_call_settles|done| |done]. intros c s1 S1.
  apply Hbind; [apply background_settles|apply background_stamps| |done]. intros [] s2 S2.
  rewrite (bind_val _ _ s2 s2 None) by done.
  apply Hbind; [apply background_settles|apply background_stamps| |done]. intros [] s3 S3.
  unfold mode_phase. replace (String.eqb UpdateStrategyModeLazy UpdateStrategyModeEager) with false by done.
  rewrite String.eqb_refl.
  pose proof (lazy_phase_shrinks c batch s0 s3 S3 HB) as S4. pose proof (lazy_phase_stamps c batch s3) as T4.
  unfold mbind, M_bind. destruct (lazy_phase c batch s3) as [[r|] s4]; cbn in *; [|done].
  pose proof (settles_weaken name _ background_settles s4) as S5. pose proof (background_stamps s4) as T5.
  destruct (background s4) as [[[]|] s5]; cbn in *; (split; [by transitivity s4|by transitivity s4]).
Qed.

Lemma ReplaceNodeBatch_shrinks (cfg : Config) (batch : list Instance_) (s0 s : St) :
  cfg_EarlyCordonNodes cfg = false -> StrategyMode (s_ru s) = UpdateStrategyModeLazy ->
  settles s0 s -> (forall i, i ∈ batch -> i ∈ to_do name s0) ->
  shrinks name s0 (ReplaceNodeBatch cfg batch s).2 /\ stamps s (ReplaceNodeBatch cfg batch s).2.
Proof.
  intros HC HM HS HB. destruct (prepare_batch_shrinks cfg batch s0 s HC HM HS HB) as [S1 T1].
  unfold ReplaceNodeBatch, mbind, M_bind.
  destruct (prepare_batch cfg batch s) as [[[c [r|]]|] s1]; cbn in *; [done| |done].
  split.
  - transitivity s1; [done|]. apply drain_phase_shrinks.
  - transitivity s1; [done|]. apply drain_phase_stamps.
Qed.

Lemma fair_sub (k n N : nat) (l : list SchedEvent) : (k + n <= N)%nat -> fair 0 N l -> fair k n l.
Proof.
  intros H (before & after & HE & HT & HR). exists before, after. split; [done|]. split; [done|].
  intros i Hi. apply HR. lia.
Qed.

(** The recorded times are far enough in the past, now and later. *)
Definition intervals_over (s : St) : Prop :=
  let later := fun w => (clock (s_world s) <= clock w)%Z in
  interval_over later (LastNodeTerminationTime (s_ru s)) (NodeIntervalSeconds (s_ru s)) /\
  interval_over later (LastNodeDrainTime (s_ru s)) (PostDrainDelaySeconds (s_ru s)).

(** The settings of the theorem: a lazy upgrade without early cordon, nothing running, and a
    scheduler that has room for [N] goroutines. *)
Record lazy_and_idle (cfg : Config) (N : nat) (s : St) : Prop := {
  li_early : cfg_EarlyCordonNodes cfg = false;
  li_mode : StrategyMode (s_ru s) = UpdateStrategyModeLazy;
  li_group : group_ok s;
  li_idle : DrainGroup (s_drain s) = 0%Z;
  li_fair : forall w, fair 0 N (svc_schedule w).1;
  li_intervals : intervals_over s;
}.

(** The two tries at a selection. *)
Lemma selection_run (failed : list string) (s0 : St) :
  selectable name s0 ->
  (exists d, d ∈ to_do name s0 /\ runs_old (fleet (s_world s0)) (current_group name s0) d = true) ->
  exists batch s1, (rotationTargets ← SelectTargets (current_group name s0) failed;
      (if (zlen rotationTargets =? 0)%Z && (0 <? zlen failed)%Z
       then SelectTargets (current_group name s0) [] else mret rotationTargets)) s0 = (Val batch, s1) /\
    same_memory s0 s1 /\ settles s0 s1 /\ (forall i, i ∈ batch -> i ∈ to_do name s0) /\
    (length batch <= batch_bound name s0)%nat /\ batch <> [].
Proof.
  intros HS Hd.
  assert (forall ex s s' b, SelectTargets (current_group name s0) ex s = (Val b, s') -> same_memory s0 s -> settles s0 s ->
    same_memory s0 s' /\ settles s0 s') as HK.
  { intros ex s s' b Hr HM HE. pose proof (SelectTargets_memory (current_group name s0) ex s) as HM'.
    pose proof (SelectTargets_settles (current_group name s0) ex s) as HE'. rewrite Hr in HM', HE'.
    split; by transitivity s. }
  destruct (SelectTargets_finds name s0 HS failed s0) as (b1 & s1 & E1 & B1 & L1 & N1); [done|done|].
  rewrite (bind_val _ _ _ _ _ E1). destruct (HK _ _ _ _ E1) as [M1 S1]; [done|done|].
  destruct ((zlen b1 =? 0)%Z && (0 <? zlen failed)%Z) eqn:Et; [|exists b1, s1; repeat (split; [done|])].
  - destruct (SelectTargets_finds name s0 HS [] s1 M1 S1) as (b2 & s2 & E2 & B2 & L2 & N2).
    destruct (HK _ _ _ _ E2 M1 S1) as [M2 S2]. exists b2, s2. repeat (split; [done|]). by apply N2.
  - destruct failed as [|x failed]; [by apply N1|]. intros ->. apply andb_false_iff in Et as [Et|Et]; [done|].
    unfold zlen in Et. cbn [length] in Et. zbool. lia.
Qed.

(** Once one of them is not pending any more, there is less to do. *)
Lemma to_do_smaller (s s' : St) (i : Instance_) :
  to_do name s' ⊆ to_do name s -> i ∈ to_do name s -> (i ∉ to_do name s') ->
  (length (to_do name s') < length (to_do name s))%nat.
Proof.
  intros HS Hi Hn. assert (NoDup (to_do name s')) as HD.
  { destruct (group_ids name s') as [HD _]. unfold to_do, pending. apply NoDup_ListNoDup, List.NoDup_filter, NoDup_ListNoDup.
    by apply NoDup_fmap_1 in HD. }
  assert (i :: to_do name s' ⊆+ to_do name s) as H%submseteq_length; [|cbn in H; lia].
  apply NoDup_submseteq; [by constructor|]. intros j [->|Hj]%elem_of_cons; [done|by apply HS].
Qed.

Lemma rotate_batch_progress (cfg : Config) (N : nat) (failed : list string) (s0 : St) :
  selectable name s0 -> lazy_and_idle cfg N s0 -> (goroutines s0 + batch_bound name s0 <= N)%nat ->
  (exists d, d ∈ to_do name s0 /\ runs_old (fleet (s_world s0)) (current_group name s0) d = true) ->
  exists s', rotate_batch cfg (current_group name s0) failed s0 = (Val None, s') /\
    shrinks name s0 s' /\ stamps s0 s' /\ quiet s0 s' /\ DrainGroup (s_drain s') = 0%Z /\
    (goroutines s' <= goroutines s0 + batch_bound name s0)%nat /\
    (length (to_do name s') < length (to_do name s0))%nat.
Proof.
  intros HS [HC HM HG H0 HF [HT HD]] HN Hd.
  destruct (selection_run failed s0 HS Hd) as (batch & s1 & E1 & M1 & S1 & B1 & L1 & Hne).
  unfold rotate_batch. rewrite <- bind_assoc, (bind_val _ _ _ _ _ E1).
  assert (quiet s0 s1) as Q1.
  { apply quiet_memory; [done|]. destruct (se_calls _ _ S1) as (new & -> & _). by eexists. }
  assert (stamps s0 s1) as T1.
  { split; [apply (se_clock _ _ S1)|]. intros Ht t. rewrite (sm_ru _ _ M1). intros H%Ht. pose proof (se_clock _ _ S1). lia. }
  pose proof (ReplaceNodeBatch_shrinks cfg batch s0 s1 HC) as HR. rewrite (sm_ru _ _ M1) in HR.
  specialize (HR HM S1 B1) as [R1 R2].
  destruct (batch_works (fun w => (clock (s_world s0) <= clock w)%Z) cfg batch s1) as (s2 & E2 & H2 & I2 & I3).
  { intros w Hw. pose proof (cl_idle_now w) as [_ H]. lia. }
  { intros w Hw. pose proof (cl_idle_background w) as [_ H]. lia. }
  { apply (se_clock _ _ S1). }
  { intros c s2 Hs2. rewrite (sm_ru _ _ M1), HM. cbn. pose proof (lazy_phase_stamps c batch s2) as [H _]. lia. }
  { done. }
  { left. by rewrite (sm_ru _ _ M1). }
  { unfold group_ok. by rewrite (sm_drain _ _ M1). }
  { by rewrite (sm_drain _ _ M1). }
  { intros w. apply (fair_sub _ _ N); [|apply HF]. unfold goroutines in *. rewrite (sm_drain _ _ M1). lia. }
  { by rewrite (sm_ru _ _ M1). }
  { by rewrite (sm_ru _ _ M1). }
  rewrite E2 in R1, R2. cbn in R1, R2. rewrite (bind_val _ _ _ _ _ E2). exists s2.
  pose proof (ReplaceNodeBatch_quiet cfg batch s1) as Q2. rewrite E2 in Q2.
  split; [done|]. split; [done|]. split; [by transitivity s1|]. split; [by transitivity s1|]. split; [done|].
  split; [unfold goroutines in *; rewrite (sm_drain _ _ M1) in I3; lia|].
  destruct batch as [|t batch]; [done|]. specialize (B1 t ltac:(left)).
  apply (to_do_smaller _ _ t); [apply (sh_to_do _ _ _ R1)|done|]. intros Hin.
  destruct (so_covered _ _ (proj2 HS) t B1) as [p Hp].
  specialize (H2 t ltac:(left)). unfold select_node in H2, Hp. rewrite (quiet_select s0 s1), (q_cloud _ _ Q1) in H2 by done.
  specialize (H2 ltac:(by exists p)). destruct (sh_calls _ _ _ R1) as (new & HC2 & HG2).
  destruct (se_calls _ _ S1) as (new1 & HC1 & _). apply (HG2 (instance_id t)) with (i := t); [|done|done].
  rewrite HC1, HC2, length_app, <- drop_drop, drop_app_length in H2. exact (subseteq_drop _ _ _ H2).
Qed.

(** *** From the discovery on *)

Lemma still_fields (s s' : St) :
  still s s' -> s_nodes s' = s_nodes s /\ s_drain s' = s_drain s /\ ClusterNodes (s_cloud s') = ClusterNodes (s_cloud s) /\
    ru_Spec (s_ru s') = ru_Spec (s_ru s) /\ last_times (s_ru s') = last_times (s_ru s) /\
    fleet (s_world s') = fleet (s_world s) /\ (clock (s_world s) <= clock (s_world s'))%Z.
Proof. intros [HF HS HT]. injection HF as H1 H2 H3 H4 H5 H6. unfold last_times. rewrite H5, H6. by repeat split; [..|apply (se_clock _ _ HS)]. Qed.

Lemma eligible_still (s s' : St) : still s s' -> eligible name s -> eligible name s'.
Proof.
  intros HS [H1 H2 H3 H4 H5 H6]. destruct (still_fields s s' HS) as (F1 & _ & F3 & F4 & _ & F6 & _).
  assert (current_group name s' = current_group name s) as Hg by (unfold current_group; by rewrite F6).
  split; rewrite ?Hg; unfold ScalingGroupName, IsForceRefresh, UpdateStrategyType, MaxUnavailable in *; rewrite ?F4; try done.
  intros i. unfold to_do, select_node. rewrite F6, F1, F3. apply H4.
Qed.

Lemma batch_bound_still (s s' : St) : still s s' -> batch_bound name s' = batch_bound name s.
Proof.
  intros HS. destruct (still_fields s s' HS) as (_ & _ & _ & F4 & _ & F6 & _).
  unfold batch_bound, current_group, MaxUnavailable. by rewrite F4, F6.
Qed.

Lemma lazy_and_idle_still (cfg : Config) (N : nat) (s s' : St) :
  still s s' -> lazy_and_idle cfg N s -> lazy_and_idle cfg N s'.
Proof.
  intros HS [H1 H2 H3 H4 H5 [H6 H7]]. destruct (still_fields s s' HS) as (_ & F2 & _ & F4 & F5 & _ & F7).
  injection F5 as F5 F5'.
  split; [done|unfold StrategyMode in *; by rewrite F4|unfold group_ok; by rewrite F2|by rewrite F2|done|].
  assert (forall t n, interval_over (fun w => (clock (s_world s) <= clock w)%Z) t n ->
    interval_over (fun w => (clock (s_world s') <= clock w)%Z) t n) as HW.
  { intros [t|] n; [|done]. intros [H|H]; [by left|right]. intros w Hw. apply H. lia. }
  unfold intervals_over, NodeIntervalSeconds, PostDrainDelaySeconds in *. rewrite F4, F5, F5'. split; by apply HW.
Qed.

Lemma stamps_still (s s' : St) : still s s' -> stamps s s'.
Proof.
  intros HS. destruct (still_fields s s' HS) as (_ & _ & _ & _ & F5 & _ & F7). split; [done|].
  injection F5 as F5 F5'. intros H t. rewrite F5, F5'. intros Ht%H. lia.
Qed.

Lemma discovered_same (s s' : St) : s_cloud s' = s_cloud s -> fleet (s_world s') = fleet (s_world s) -> discovered s -> discovered s'.
Proof. intros HC HF [H1 H2 H3]. split; by rewrite HC, HF. Qed.

(** The end of an upgrade. *)
Lemma completion_works (cfg : Config) (rname : string) (s : St) :
  cfg_EarlyCordonNodes cfg = false ->
  exists s', (set_status StatusComplete ;;; upd_metrics (SetMetricRollupCompleted rname) ;;;
      endTimeUpdate ;;; cleanup_if_early cfg ;;; mret (M := M St) (@None error)) s = (Val None, s') /\
    still s s' /\ CurrentStatus (s_ru s') = StatusComplete.
Proof.
  intros HC. set (m := (set_status StatusComplete ;;; _)).
  assert (preserves still m) as HS.
  { unfold m, set_status, endTimeUpdate, cleanup_if_early, Now, upd_ru, upd_metrics. rewrite HC.
    frame; first [by apply modify_still|apply ask_still, cl_idle_now]. }
  assert (exists s', m s = (Val None, s')) as (s' & Em).
  { unfold m, cleanup_if_early. rewrite HC. destruct (set_status_run StatusComplete s) as (ru & Hr & _).
    rewrite (bind_val _ _ _ _ _ Hr). erewrite bind_val by reflexivity.
    unfold endTimeUpdate, Now, ask, upd_ru, upd_metrics, modify, mbind, M_bind, get, mret, M_ret.
    destruct (svc_Now _) as [now w]. cbn. repeat case_match; simplify_eq; eauto. }
  exists s'. split; [done|]. split; [specialize (HS s); by rewrite Em in HS|].
  pose proof (completion_run cfg rname s) as (_ & _ & H & _). fold m in H. by rewrite Em in H.
Qed.

(** What a rotation leaves behind. *)
Record rotated (s s' : St) : Prop := {
  rd_shrinks : shrinks name s s';
  rd_stamps : stamps s s';
  rd_nodes : forall p, exists b, read_node (s_nodes s') p = with_Unschedulable b (read_node (s_nodes s) p);
  rd_spec : ru_Spec (s_ru s') = ru_Spec (s_ru s);
  rd_idle : DrainGroup (s_drain s') = 0%Z;
}.

(** Nothing of the group is drifted. *)
Definition up_to_date (f : Fleet) : Prop :=
  forall i, i ∈ asg_Instances (group_named name f) -> is_terminating i = false -> runs_old f (group_named name f) i = false.

(** The check for drift, up to the branch. *)
Lemma drift_check (s : St) :
  selectable name s ->
  exists b s2, IsScalingGroupDrifted s = (Val b, s2) /\ still s s2 /\ s_cloud s2 = s_cloud s /\
    CurrentStatus (s_ru s2) = CurrentStatus (s_ru s) /\
    (b = false -> up_to_date (fleet (s_world s))) /\
    (b = true -> exists d, d ∈ to_do name s /\ runs_old (fleet (s_world s)) (current_group name s) d = true).
Proof.
  intros HS. destruct (IsScalingGroupDrifted_run s) as (m & E2).
  { rewrite (selectable_group name s HS). apply (so_policy _ _ (proj2 HS)). }
  set (drifted := List.filter _ _) in E2. eexists _, _. split; [exact E2|].
  assert (forall i, i ∈ drifted <-> i ∈ asg_Instances (current_group name s) /\ is_terminating i = false /\
    runs_old (fleet (s_world s)) (current_group name s) i = true) as Hdr.
  { intros i. unfold drifted. rewrite list_elem_of_In, filter_In, <- list_elem_of_In, (selectable_group name s HS).
    unfold is_drifted. rewrite (selectable_drifted name s HS). destruct (is_terminating i); naive_solver. }
  split; [|split; [done|split; [|split]]].
  - unfold with_progress. split; [|split; [|done|done|done|cbn; lia]|done].
    + destruct (_ && _); reflexivity.
    + exists []. cbn. by rewrite app_nil_r.
  - cbn. unfold with_progress. by destruct (_ && _).
  - destruct drifted as [|d l]; [|done]. intros _ i Hi Ht. destruct (runs_old _ _ i) eqn:Er; [|done].
    destruct (Hdr i) as [_ H]. by apply not_elem_of_nil in H.
  - destruct drifted as [|d l]; [done|]. intros _. exists d. destruct (proj1 (Hdr d) ltac:(left)) as (H1 & H2 & H3).
    unfold to_do. rewrite elem_pending, is_pending_true. eauto 6.
Qed.

Lemma rotated_still (s s' : St) : still s s' -> DrainGroup (s_drain s) = 0%Z -> rotated s s'.
Proof.
  intros HS H0. destruct (still_fields s s' HS) as (F1 & F2 & F3 & F4 & F5 & F6 & F7).
  split; [apply settles_shrinks, (st_settles _ _ HS)|by apply stamps_still| |done|by rewrite F2].
  intros p. exists (node_Unschedulable (read_node (s_nodes s) p)). rewrite F1. by destruct (read_node (s_nodes s) p).
Qed.

Lemma rotated_after (s s1 s' : St) : still s s1 -> rotated s1 s' -> rotated s s'.
Proof.
  intros HS [R1 R2 R3 R4 R5]. destruct (still_fields s s1 HS) as (F1 & F2 & F3 & F4 & F5 & F6 & F7).
  split; [transitivity s1; [apply settles_shrinks, (st_settles _ _ HS)|done]|transitivity s1; [by apply stamps_still|done]
    |by rewrite <- F1|congruence|done].
Qed.

(** The two outcomes of a rotation: the upgrade is complete, or less is to do. *)
Definition advances (s s' : St) : Prop :=
  (CurrentStatus (s_ru s') = StatusComplete /\ up_to_date (fleet (s_world s')) /\ goroutines s' = goroutines s) \/
  (CurrentStatus (s_ru s') = StatusRunning /\ (length (to_do name s') < length (to_do name s))%nat /\
   (goroutines s' <= goroutines s + batch_bound name s)%nat).

Lemma advances_after (s s1 s' : St) : still s s1 -> advances s1 s' -> advances s s'.
Proof.
  intros HS. destruct (still_fields s s1 HS) as (F1 & F2 & F3 & F4 & F5 & F6 & F7). unfold advances, goroutines, to_do.
  by rewrite (batch_bound_still s s1 HS), F2, F6.
Qed.

Lemma rotate_discovered_progress (cfg : Config) (N : nat) (failed : list string) (s : St) :
  discovered s -> eligible name s -> is_empty_group (current_group name s) = false ->
  lazy_and_idle cfg N s -> (goroutines s + batch_bound name s <= N)%nat ->
  CurrentStatus (s_ru s) = StatusRunning ->
  exists s', rotate_discovered cfg failed s = (Val None, s') /\ rotated s s' /\ advances s s'.
Proof.
  intros HD HE Hne HL HN Hrun. unfold rotate_discovered. rewrite (bind_val _ _ s s s) by done.
  rewrite (selectable_group name s (conj HD HE)), Hne. erewrite bind_val by reflexivity. set (s1 := set_ru _ s).
  assert (still s s1) as S1 by (apply (modify_still (fun s => set_ru (SetTotalNodes (zlen (asg_Instances (current_group name s1))) (s_ru s)) s)); done).
  destruct (drift_check s1) as (b & s2 & E2 & S12 & C2 & R2 & Hno & Hyes);
    [split; [by apply (discovered_same s)|by apply (eligible_still s)]|].
  rewrite (bind_val _ _ _ _ _ E2). assert (still s s2) as S2 by (by transitivity s1).
  destruct (still_fields s s2 S2) as (F1 & F2 & F3 & F4 & F5 & F6 & F7).
  destruct b; cbn [negb].
  - destruct (rotate_batch_progress cfg N failed s2) as (s3 & E3 & R & T & Q & Z3 & G3 & L3).
    { split; [by apply (discovered_same s)|by apply (eligible_still s)]. }
    { by apply (lazy_and_idle_still cfg N s). }
    { unfold goroutines in *. by rewrite (batch_bound_still s s2 S2), F2. }
    { unfold to_do, current_group. rewrite F6. by apply Hyes. }
    unfold current_group in E3. rewrite F6 in E3. exists s3. split; [exact E3|].
    split; [apply (rotated_after s s2 s3 S2); split; [done|done|apply (q_nodes _ _ Q)|apply (q_spec _ _ Q)|done]|].
    apply (advances_after s s2 s3 S2). right. split; [|done].
    assert (preserves (keeps (fun s : St => CurrentStatus (s_ru s))) (rotate_batch cfg (group_named name (fleet (s_world s))) failed)) as HK.
    { unfold rotate_batch. frame; first [apply ReplaceNodeBatch_keeps_status | apply memory_keeps_ru, SelectTargets_memory]. }
    specialize (HK s2). rewrite E3 in HK. unfold keeps in HK. cbn [snd] in HK. rewrite HK, R2. exact Hrun.
  - destruct (completion_works cfg (ru_Name (s_ru s)) s2 (li_early _ _ _ HL)) as (s3 & E3 & S3 & R3).
    exists s3. split; [exact E3|]. assert (still s s3) as S by (by transitivity s2).
    split; [apply rotated_still; [done|apply (li_idle _ _ _ HL)]|]. left. split; [done|].
    destruct (still_fields s s3 S) as (_ & G2 & _ & _ & _ & G6 & _). unfold goroutines. rewrite G2, G6. split; [|done].
    by apply Hno.
Qed.

(** A rotation of an idle lazy upgrade completes it or leaves less to do. *)
Lemma RotateNodes_advances (cfg : Config) (N : nat) (s : St) :
  eligible name s -> is_empty_group (current_group name s) = false ->
  lazy_and_idle cfg N s -> (goroutines s + batch_bound name s <= N)%nat ->
  exists s', RotateNodes cfg s = (Val None, s') /\ rotated s s' /\ advances s s'.
Proof.
  intros HE Hne HL HN. destruct (RotateNodes_discovers cfg s) as (failed & s1 & -> & S1 & D1 & R1).
  destruct (still_fields s s1 S1) as (F1 & F2 & F3 & F4 & F5 & F6 & F7).
  destruct (rotate_discovered_progress cfg N failed s1) as (s2 & E2 & R2 & A2); [done|by apply (eligible_still s)
    |unfold current_group; by rewrite F6|by apply (lazy_and_idle_still cfg N s)
    |unfold goroutines in *; by rewrite (batch_bound_still s s1 S1), F2|done|].
  exists s2. split; [done|]. split; [by apply (rotated_after s s1)|by apply (advances_after s s1)].
Qed.
End rotation.
