(* ===== verification/Reconciler.v ===== *)
(** * The reconciler: controllers/rollingupgrade_controller.go

    [Reconciler] holds the fields of RollingUpgradeReconciler that change (the
    sync.Maps, the limits) with what the contexts share (the world, the trace, the
    metrics, the heap of nodes, the replacement counter).  [rc_ru] is the
    object the running handler works on.  A context is run by [in_context],
    which builds the state of [Env.St] from the reconciler's and writes the shared
    parts back.  A handler runs as a whole here; the interleaving of concurrent handlers is
    the subject of [Admission]. *)
From S2P Require Import Prelude GoStrings GoTime Common Types AwsProvider KubeProvider Metrics Env SampleEnv.
From S2P Require Import AwsClient KubeClient Cloud Steps Drift Uniform Targets Balloon Cordon Drain.
From S2P Require Import Replace Rotate.

Record Reconciler `{Env} := mkReconciler {
  rc_world : World;
  rc_calls : list Call;
  rc_metrics : Metrics;
  rc_nodes : gmap node_ptr Node;
  rc_AdmissionMap : gmap string string;
  rc_ReconcileMap : gmap string string;
  rc_ClusterNodesMap : gmap string node_ptr;
  rc_drains : gmap string (DrainManager * list CallMaps);
      (* DrainGroupMapper and DrainErrorMapper, with the goroutines they belong to *)
  rc_replacementNodes : gmap string Z;
  rc_maxParallel : Z;
  rc_MaxReplacementNodes : Z;
  rc_DrainTimeout : Z;
  rc_IgnoreDrainFailures : bool;
  rc_EarlyCordonNodes : bool;
  rc_ru : RollingUpgrade;
}.

(** [ctrl.Result]: the requeue delay, 0 for none. *)
Abbreviation Result := Duration (only parsing).
Definition no_requeue : Result := 0%Z.

(** An object delivered by a watch: a node or something else. *)
Inductive WatchedObject :=
| NodeObject (n : Node)
| OtherObject.

(** A deferred call runs also when the body panics. *)
Definition deferred {S A} (m : M S A) (d : M S unit) : M S A := fun s =>
  let '(o, s1) := m s in
  let '(o', s2) := d s1 in
  (match o' with Val _ => o | Panic => Panic end, s2).

Section reconciler.
Context `{E : Env}.

(** ** Field updates *)
Definition upd_AdmissionMap (f : gmap string string -> gmap string string) (r : Reconciler) : Reconciler :=
  mkReconciler _ (rc_world r) (rc_calls r) (rc_metrics r) (rc_nodes r) (f (rc_AdmissionMap r))
    (rc_ReconcileMap r) (rc_ClusterNodesMap r) (rc_drains r) (rc_replacementNodes r) (rc_maxParallel r)
    (rc_MaxReplacementNodes r) (rc_DrainTimeout r) (rc_IgnoreDrainFailures r) (rc_EarlyCordonNodes r)
    (rc_ru r).
Definition upd_ReconcileMap (f : gmap string string -> gmap string string) (r : Reconciler) : Reconciler :=
  mkReconciler _ (rc_world r) (rc_calls r) (rc_metrics r) (rc_nodes r) (rc_AdmissionMap r)
    (f (rc_ReconcileMap r)) (rc_ClusterNodesMap r) (rc_drains r) (rc_replacementNodes r) (rc_maxParallel r)
    (rc_MaxReplacementNodes r) (rc_DrainTimeout r) (rc_IgnoreDrainFailures r) (rc_EarlyCordonNodes r)
    (rc_ru r).
Definition upd_ClusterNodesMap (heap : gmap node_ptr Node) (m : gmap string node_ptr) (r : Reconciler)
  : Reconciler :=
  mkReconciler _ (rc_world r) (rc_calls r) (rc_metrics r) heap (rc_AdmissionMap r)
    (rc_ReconcileMap r) m (rc_drains r) (rc_replacementNodes r) (rc_maxParallel r)
    (rc_MaxReplacementNodes r) (rc_DrainTimeout r) (rc_IgnoreDrainFailures r) (rc_EarlyCordonNodes r)
    (rc_ru r).
Definition upd_current (f : RollingUpgrade -> RollingUpgrade) (g : Metrics -> Metrics) (r : Reconciler)
  : Reconciler :=
  mkReconciler _ (rc_world r) (rc_calls r) (g (rc_metrics r)) (rc_nodes r) (rc_AdmissionMap r)
    (rc_ReconcileMap r) (rc_ClusterNodesMap r) (rc_drains r) (rc_replacementNodes r) (rc_maxParallel r)
    (rc_MaxReplacementNodes r) (rc_DrainTimeout r) (rc_IgnoreDrainFailures r) (rc_EarlyCordonNodes r)
    (f (rc_ru r)).
Definition set_trace (w : World) (calls : list Call) (r : Reconciler) : Reconciler :=
  mkReconciler _ w calls (rc_metrics r) (rc_nodes r) (rc_AdmissionMap r)
    (rc_ReconcileMap r) (rc_ClusterNodesMap r) (rc_drains r) (rc_replacementNodes r) (rc_maxParallel r)
    (rc_MaxReplacementNodes r) (rc_DrainTimeout r) (rc_IgnoreDrainFailures r) (rc_EarlyCordonNodes r)
    (rc_ru r).

(** ** Calls *)
Definition rcall {A} (c : Call) (f : World -> A * World) : M Reconciler A := fun r =>
  let '(a, w) := f (rc_world r) in (Val a, set_trace w (rc_calls r ++ [c]) r).

Definition FlushCache (service : string) : M Reconciler unit :=
  rcall (CallFlushCache service) (fun w => (tt, w)).

(** ** Limits *)
Definition SetMaxParallel (n : Z) (r : Reconciler) : Reconciler :=
  if (1 <=? n)%Z then
    mkReconciler _ (rc_world r) (rc_calls r) (rc_metrics r) (rc_nodes r) (rc_AdmissionMap r)
      (rc_ReconcileMap r) (rc_ClusterNodesMap r) (rc_drains r) (rc_replacementNodes r) n
      (rc_MaxReplacementNodes r) (rc_DrainTimeout r) (rc_IgnoreDrainFailures r) (rc_EarlyCordonNodes r)
      (rc_ru r)
  else r.
Definition SetMaxReplacementNodes (n : Z) (r : Reconciler) : Reconciler :=
  if (1 <=? n)%Z then
    mkReconciler _ (rc_world r) (rc_calls r) (rc_metrics r) (rc_nodes r) (rc_AdmissionMap r)
      (rc_ReconcileMap r) (rc_ClusterNodesMap r) (rc_drains r) (rc_replacementNodes r) (rc_maxParallel r)
      n (rc_DrainTimeout r) (rc_IgnoreDrainFailures r) (rc_EarlyCordonNodes r) (rc_ru r)
  else r.

(** ** The node cache *)

(** Store a node under its name: a new object on the heap. *)
Definition store_node (n : Node) (r : Reconciler) : Reconciler :=
  let p := fresh (dom (rc_nodes r)) in
  upd_ClusterNodesMap (<[p := n]> (rc_nodes r)) (Store (rc_ClusterNodesMap r) (node_Name n) p) r.

Definition delete_node (name : string) (r : Reconciler) : Reconciler :=
  upd_ClusterNodesMap (rc_nodes r) (Delete (rc_ClusterNodesMap r) name) r.

(** The functions of [NodeEventsHandler]; [GenericFunc] is not set, so the
    predicate lets generic events through. *)
Definition CreateFunc (obj : WatchedObject) : M Reconciler bool :=
  match obj with
  | NodeObject n => modify (store_node n) ;;; mret false
  | OtherObject => mret true
  end.
Definition UpdateFunc (obj : WatchedObject) : M Reconciler bool := CreateFunc obj.
Definition DeleteFunc (obj : WatchedObject) : M Reconciler bool :=
  match obj with
  | NodeObject n => modify (delete_node (node_Name n)) ;;; mret false
  | OtherObject => mret true
  end.
Definition GenericFunc (obj : WatchedObject) : M Reconciler bool := mret true.

(** The function [SetupWithManager] maps every node event with, whatever its
    kind: the names of the requests it enqueues. *)
Definition map_node_event (obj : WatchedObject) : M Reconciler (list string) :=
  create ← CreateFunc obj;
  if (create : bool) then mret ["/"]
  else
    update ← UpdateFunc obj;
    if (update : bool) then mret ["/"]
    else
      del ← DeleteFunc obj;
      if (del : bool) then mret ["/"]
      else
        gen ← GenericFunc obj;
        mret (if (gen : bool) then ["/"] else []).

(** [getClusterNodes]: the pointers in the order Go ranges over the copy. *)
Definition getClusterNodes : M Reconciler (list node_ptr) := fun r =>
  let '(code, w) := svc_shuffle (rc_world r) in
  (Val (map snd (permute code (map_to_list (rc_ClusterNodesMap r)))), set_trace w (rc_calls r) r).

(** Run an operation of a context on the reconciler's own clients. *)
Definition with_client {A} (m : M St A) : M Reconciler A := fun r =>
  let s := mkSt _ (rc_world r) (rc_calls r) (rc_metrics r) (rc_nodes r) (rc_ru r) NewDiscoveredState
             (rc_replacementNodes r) false new_DrainManager [] in
  let '(o, s') := m s in (o, set_trace (s_world s') (s_calls s') r).

Definition ensureClusterNodesMapPopulated : M Reconciler (option error) :=
  r ← get;
  let populated := Range (rc_ClusterNodesMap r) (fun _ _ _ => (true, false)) false in
  if populated then mret None
  else
    err ← rcall CallKubeClient svc_KubeClient;
    match err with
    | Some err => mret (Some (mkError ("failed to create kubernetes client: " +:+ Error err)
                                (err_not_found err)))
    | None =>
        '(nodes, err) ← with_client ListClusterNodes;
        match err with
        | Some err => mret (Some (mkError ("failed to list cluster nodes: " +:+ Error err)
                                    (err_not_found err)))
        | None => for_each nodes (fun n => modify (store_node n)) ;;; mret None
        end
    end.

(** ** The context *)
Definition context_config (r : Reconciler) : Config :=
  mkConfig (rc_DrainTimeout r) (rc_IgnoreDrainFailures r) (rc_MaxReplacementNodes r)
    (rc_EarlyCordonNodes r).

(** Build the context of the current object on these nodes, run, and write the
    shared parts back; the goroutines keep the maps they write to, which are no
    longer those of the status of the next object. *)
Definition in_context {A} (nodes : list node_ptr) (m : Config -> M St A) : M Reconciler A := fun r =>
  let name := NamespacedName (rc_ru r) in
  let '(drain, maps) := default (new_DrainManager, []) (rc_drains r !! name) in
  let s := mkSt _ (rc_world r) (rc_calls r) (rc_metrics r) (rc_nodes r) (rc_ru r)
             (mkDiscovered nodes [] [] []) (rc_replacementNodes r) false drain maps in
  let '(o, s') := m (context_config r) s in
  (o, mkReconciler _ (s_world s') (s_calls s') (s_metrics s') (s_nodes s') (rc_AdmissionMap r)
        (rc_ReconcileMap r) (rc_ClusterNodesMap r)
        (<[name := (s_drain s', detach s' (s_maps s'))]> (rc_drains r))
        (s_replacementNodes s') (rc_maxParallel r) (rc_MaxReplacementNodes r) (rc_DrainTimeout r)
        (rc_IgnoreDrainFailures r) (rc_EarlyCordonNodes r) (s_ru s')).

(** [RotateNodes], and what [Reconcile] does with its error on the same context. *)
Definition rotate_in_context (cfg : Config) : M St (option error) :=
  err ← RotateNodes cfg;
  match err with
  | None => mret None
  | Some err =>
      set_status StatusError ;;;
      s ← get;
      upd_metrics (SetMetricRollupFailed (ru_Name (s_ru s))) ;;;
      _ ← CordonUncordonAllNodes false;
      mret (Some err)
  end.

(** ** Reconcile *)
Definition set_init : M Reconciler unit :=
  modify (fun r => upd_current
    (fun u => SetLabel LabelKeyRollingUpgradeCurrentStatus StatusInit (SetCurrentStatus StatusInit u))
    (SetMetricRollupInitOrRunning (ru_Name (rc_ru r))) r).

(** When the admission map is empty, the running resources are fetched. *)
Definition recover_admitted : M Reconciler (option error) :=
  r ← get;
  if (GetSyncMapLen (rc_AdmissionMap r) =? 0)%Z then
    l ← rcall (CallListRollingUpgrades LabelKeyRollingUpgradeCurrentStatus StatusRunning)
          (svc_ListRollingUpgrades LabelKeyRollingUpgradeCurrentStatus StatusRunning);
    match l with
    | inr err => mret (Some err)
    | inl items =>
        for_each items (fun cr =>
          if String.eqb (CurrentStatus cr) StatusRunning
          then modify (upd_AdmissionMap (fun m => Store m (NamespacedName cr) (ScalingGroupName cr)))
          else mret tt) ;;;
        mret None
    end
  else mret None.

(** The callback of the conflict check. *)
Definition conflicts (name scalingGroupName resource val : string) : bool :=
  EqualFold val scalingGroupName && negb (EqualFold resource name).

Definition in_progress_elsewhere (m : gmap string string) (name scalingGroupName : string) : bool :=
  Range m (fun resource val inProgress =>
    if conflicts name scalingGroupName resource val then (true, false) else (inProgress, true)) false.

(** From the store in the admission map on: flush the caches for a new resource, fill
    the node cache, build the context and rotate. *)
Definition rotate_admitted (present : bool) : M Reconciler (Result * option error) :=
  (if negb present then FlushCache "autoscaling" ;;; FlushCache "ec2" else mret tt) ;;;
  err ← ensureClusterNodesMapPopulated;
  match err with
  | Some err => mret (no_requeue, Some err)
  | None =>
      nodes ← getClusterNodes;
      err ← in_context nodes rotate_in_context;
      match err with
      | Some err => mret (no_requeue, Some err)
      | None => mret (DefaultRequeueTime, None)
      end
  end.

(** Store the resource in the admission map and rotate. *)
Definition reconcile_admitted (scalingGroupName : string) : M Reconciler (Result * option error) :=
  r ← get;
  let '(_, present, m) := LoadOrStore (rc_AdmissionMap r) (NamespacedName (rc_ru r)) scalingGroupName in
  modify (upd_AdmissionMap (fun _ => m)) ;;;
  rotate_admitted present.

(** The conflict check and the limit. *)
Definition admit_or_requeue (scalingGroupName : string) : M Reconciler (Result * option error) :=
  r ← get;
  let name := NamespacedName (rc_ru r) in
  if in_progress_elsewhere (rc_AdmissionMap r) name scalingGroupName
  then mret (DefaultRequeueTime, None)
  else
    let runningCRs := GetSyncMapLen (rc_AdmissionMap r) in
    if (rc_maxParallel r <=? runningCRs)%Z
       && (match Load (rc_AdmissionMap r) name with None => true | Some _ => false end)
    then mret (DefaultRequeueTime, None)
    else reconcile_admitted scalingGroupName.

(** From the reconcile lock on: everything the deferred update is deferred over. *)
Definition reconcile_valid (currentStatus : string) : M Reconciler (Result * option error) :=
  (if String.eqb currentStatus "" then set_init else mret tt) ;;;
  r ← get;
  let scalingGroupName := ScalingGroupName (rc_ru r) in
  let '(_, present, m) := LoadOrStore (rc_ReconcileMap r) (NamespacedName (rc_ru r)) scalingGroupName in
  modify (upd_ReconcileMap (fun _ => m)) ;;;
  if (present : bool) then mret (DefaultRequeueTime, None)
  else
    err ← recover_admitted;
    match err with
    | Some err => mret (no_requeue, Some err)
    | None => admit_or_requeue scalingGroupName
    end.

(** [Update], deferred: it frees the lock, then writes the status and the label. *)
Definition Update : M Reconciler unit :=
  r ← get;
  let name := NamespacedName (rc_ru r) in
  modify (upd_ReconcileMap (fun m => Delete m name)) ;;;
  err ← rcall (CallStatusUpdate (rc_ru r)) (svc_StatusUpdate (rc_ru r));
  match err with
  | Some _ => mret tt
  | None =>
      let status := CurrentStatus (rc_ru r) in
      _ ← rcall (CallPatchLabel name LabelKeyRollingUpgradeCurrentStatus status)
            (svc_PatchLabel name LabelKeyRollingUpgradeCurrentStatus status);
      mret tt
  end.

Definition is_deleted (ru : RollingUpgrade) : bool :=
  match ru_DeletionTimestamp ru with Some t => negb (IsZero t) | None => false end.

Definition Reconcile (req : string) : M Reconciler (Result * option error) :=
  fetched ← rcall (CallGetRollingUpgrade req) (svc_GetRollingUpgrade req);
  match fetched with
  | inr err =>
      if err_not_found err then
        modify (upd_AdmissionMap (fun m => Delete m req)) ;;; mret (no_requeue, None)
      else mret (no_requeue, Some err)
  | inl ru =>
      let name := NamespacedName ru in
      if is_deleted ru then
        modify (upd_AdmissionMap (fun m => Delete m name)) ;;; mret (no_requeue, None)
      else if ContainsEqualFold FiniteStates (CurrentStatus ru) then
        modify (upd_AdmissionMap (fun m => Delete m name)) ;;; mret (no_requeue, None)
      else
        match Validate ru with
        | (_, Some err) => mret (no_requeue, Some err)
        | (ru', None) =>
            modify (upd_current (fun _ => ru') id) ;;;
            deferred (reconcile_valid (CurrentStatus ru)) Update
        end
  end.
End reconciler.

(** ** Specification *)

(** *** Admission: the abstract controller

    The set of admitted resources with their scaling groups, and what may happen
    to it. *)
Definition recovered (items : list RollingUpgrade) : gmap string string :=
  foldl (fun m cr => if String.eqb (CurrentStatus cr) StatusRunning
                     then Store m (NamespacedName cr) (ScalingGroupName cr) else m) ∅ items.

Inductive admission_step `{Env} (maxParallel : Z) : relation (gmap string string) :=
| AdmitRemove m name : admission_step maxParallel m (delete name m)
| AdmitRecover items w w' :
    svc_ListRollingUpgrades LabelKeyRollingUpgradeCurrentStatus StatusRunning w = (inl items, w') ->
    admission_step maxParallel ∅ (recovered items)
| AdmitNew m name asg :
    m !! name = None -> (Z.of_nat (size m) < maxParallel)%Z ->
    (forall k v, m !! k = Some v -> conflicts name asg k v = false) ->
    admission_step maxParallel m (<[name := asg]> m).

(** At most one resource per scaling group, and no more than the limit. *)
Record admission_inv {UC : UnicodeCase} (maxParallel : Z) (m : gmap string string) : Prop := {
  ai_unique : forall k v k' v', m !! k = Some v -> m !! k' = Some v' ->
    EqualFold v v' = true -> EqualFold k k' = true;
  ai_bounded : (Z.of_nat (size m) <= maxParallel)%Z;
}.

(** The controller with one worker: handlers one after the other, and anything
    may happen to the cluster and the cloud between them. *)
Inductive controller_step `{Env} : relation Reconciler :=
| StepReconcile req r : controller_step r (Reconcile req r).2
| StepNodeEvent obj r : controller_step r (map_node_event obj r).2
| StepWorld w r : controller_step r (set_trace w (rc_calls r) r).

(** A resource that [Reconcile] works on: live, not ended, valid. *)
Definition workable {UC : UnicodeCase} (ru : RollingUpgrade) : Prop :=
  is_deleted ru = false /\ ContainsEqualFold FiniteStates (CurrentStatus ru) = false /\
  (Validate ru).2 = None.

(** The trace of the reconciler grows by calls in [P]. *)
Definition rc_emits `{Env} (P : Call -> Prop) (r r' : Reconciler) : Prop :=
  exists new, rc_calls r' = rc_calls r ++ new /\ Forall P new.

(** No resource is running, as the API server sees it. *)
Definition nothing_running `{Env} : Prop := forall w, exists items w',
  svc_ListRollingUpgrades LabelKeyRollingUpgradeCurrentStatus StatusRunning w = (inl items, w') /\
  recovered items = ∅.

(** Requests about resources and nodes that change nothing of the cluster or the cloud. *)
Definition bookkeeping (c : Call) : Prop :=
  match c with
  | CallGetRollingUpgrade _ | CallListRollingUpgrades _ _ | CallStatusUpdate _ | CallPatchLabel _ _ _
  | CallFlushCache _ | CallKubeClient | CallNodesList => True
  | _ => False
  end.

(** *** Vocabulary of the lemmas *)
Section vocabulary.
Context `{E : Env}.

(** What decides about admission. *)
Definition admission (r : Reconciler) := (rc_AdmissionMap r, rc_maxParallel r).

(** The admission map moves by abstract steps. *)
Definition admits (r r' : Reconciler) : Prop :=
  rtc (admission_step (rc_maxParallel r)) (rc_AdmissionMap r) (rc_AdmissionMap r') /\
  rc_maxParallel r' = rc_maxParallel r.

(** The checks passed, so the resource may enter. *)
Definition may_enter (scalingGroupName : string) (r : Reconciler) : Prop :=
  in_progress_elsewhere (rc_AdmissionMap r) (NamespacedName (rc_ru r)) scalingGroupName = false /\
  ((Z.of_nat (size (rc_AdmissionMap r)) < rc_maxParallel r)%Z \/
   is_Some (rc_AdmissionMap r !! NamespacedName (rc_ru r))).

(** What a reconcile never changes of a resource. *)
Definition identity (ru : RollingUpgrade) := (ru_Name ru, ru_Namespace ru, ru_Spec ru).

Definition rc_identity (r : Reconciler) := identity (rc_ru r).

(** The state and the object the part under the lock starts from. *)
Definition initialised (status : string) (r : Reconciler) : Reconciler :=
  if String.eqb status "" then
    upd_current (fun u => SetLabel LabelKeyRollingUpgradeCurrentStatus StatusInit
                            (SetCurrentStatus StatusInit u))
      (SetMetricRollupInitOrRunning (ru_Name (rc_ru r))) r
  else r.

(** The state with the lock taken. *)
Definition locked (status : string) (r : Reconciler) : Reconciler :=
  upd_ReconcileMap (fun m => <[NamespacedName (rc_ru r) := ScalingGroupName (rc_ru r)]> m)
    (initialised status r).

(** The resource has its place in the admission map, and no other resource has one
    for the same scaling group. *)
Definition holds_place (name asg : string) (r : Reconciler) : Prop :=
  is_Some (rc_AdmissionMap r !! name) /\
  forall k v, rc_AdmissionMap r !! k = Some v -> conflicts name asg k v = false.

(** The state the deferred update is deferred in. *)
Definition fetched (req : string) (w : World) (ru : RollingUpgrade) (r : Reconciler) : Reconciler :=
  upd_current (fun _ => ru) id (set_trace w (rc_calls r ++ [CallGetRollingUpgrade req]) r).

(** From [r] to [r'] the resource was reported: the status was written and, when that
    succeeded, the label of [name] was patched to the same status; nothing else
    was called, and the world is the one these calls leave. *)
Definition reported (name : string) (r r' : Reconciler) : Prop :=
  let ru := rc_ru r' in
  let patch := CallPatchLabel name LabelKeyRollingUpgradeCurrentStatus (CurrentStatus ru) in
  match svc_StatusUpdate ru (rc_world r) with
  | (Some _, w) => rc_calls r' = rc_calls r ++ [CallStatusUpdate ru] /\ rc_world r' = w
  | (None, w) =>
      rc_calls r' = rc_calls r ++ [CallStatusUpdate ru; patch] /\
      rc_world r' = (svc_PatchLabel name LabelKeyRollingUpgradeCurrentStatus (CurrentStatus ru) w).2
  end.

(** The admission map after a reconcile of [name] with its scaling group. *)
Definition admitted_map (mp : Z) (m : gmap string string) (name asg : string) : gmap string string :=
  if in_progress_elsewhere m name asg then m
  else match m !! name with
       | Some _ => m
       | None => if (mp <=? Z.of_nat (size m))%Z then m else <[name := asg]> m
       end.
End vocabulary.

(** A controller in the sample environment with these maps, one resource at a time. *)
Definition sample_reconciler (m locks : gmap string string) : @Reconciler (sample_env upgrades_scenario) :=
  @mkReconciler (sample_env upgrades_scenario) 1000%Z [] empty_metrics ∅ m locks ∅ ∅ ∅ 1 2 900 false false
    (named_upgrade "" "").

(** ** Lemmas *)
Section reconciler_lemmas.
Context `{E : Env}.

#[export] Instance rc_emits_preorder (P : Call -> Prop) : PreOrder (rc_emits P).
Proof.
  split.
  - intros s. exists []. by rewrite app_nil_r.
  - intros x y z (n1 & H1 & F1) (n2 & H2 & F2). exists (n1 ++ n2).
    rewrite H2, H1, <- app_assoc. split; [done|]. by apply Forall_app.
Qed.

Lemma rcall_keeps {A B} (f : Reconciler -> B) (c : Call) (g : World -> A * World) :
  (forall w l r, f (set_trace w l r) = f r) -> preserves (keeps f) (rcall c g).
Proof. intros H r. unfold rcall. destruct (g (rc_world r)). apply H. Qed.

Lemma rcall_emits {A} (P : Call -> Prop) (c : Call) (g : World -> A * World) :
  P c -> preserves (rc_emits P) (rcall c g).
Proof.
  intros HP r. unfold rcall. destruct (g (rc_world r)). exists [c]. split; [done|]. by constructor.
Qed.

Lemma modify_rc_emits (P : Call -> Prop) (f : Reconciler -> Reconciler) :
  (forall r, rc_calls (f r) = rc_calls r) -> preserves (rc_emits P) (modify f).
Proof. intros H r. exists []. cbn. by rewrite app_nil_r. Qed.

Lemma in_context_admission {A} (nodes : list node_ptr) (m : Config -> M St A) :
  preserves (keeps admission) (in_context nodes m).
Proof.
  intros r. unfold in_context. destruct (default _ _) as [d maps].
  by destruct (m _ _) as [o s'].
Qed.

Lemma in_context_emits {A} (P : Call -> Prop) (nodes : list node_ptr) (m : Config -> M St A) :
  (forall cfg, preserves (emits P) (m cfg)) -> preserves (rc_emits P) (in_context nodes m).
Proof.
  intros H r. unfold in_context. destruct (default _ _) as [d maps].
  match goal with |- context [ m ?c ?s ] => pose proof (H c s) as HE; destruct (m c s) as [o s'] end.
  destruct HE as (new & Hn & HF). by exists new.
Qed.

Lemma getClusterNodes_admission : preserves (keeps admission) getClusterNodes.
Proof. intros r. unfold getClusterNodes. by destruct (svc_shuffle (rc_world r)). Qed.

Lemma getClusterNodes_emits (P : Call -> Prop) : preserves (rc_emits P) getClusterNodes.
Proof.
  intros r. unfold getClusterNodes. destruct (svc_shuffle (rc_world r)). exists [].
  cbn. by rewrite app_nil_r.
Qed.

Lemma with_client_admission {A} (m : M St A) : preserves (keeps admission) (with_client m).
Proof. intros r. unfold with_client. by destruct (m _) as [o s']. Qed.

Lemma with_client_emits {A} (P : Call -> Prop) (m : M St A) :
  preserves (emits P) m -> preserves (rc_emits P) (with_client m).
Proof.
  intros H r. unfold with_client.
  match goal with |- context [ m ?s ] => pose proof (H s) as HE; destruct (m s) as [o s'] end.
  destruct HE as (new & Hn & HF). by exists new.
Qed.

Lemma modify_admission (f : Reconciler -> Reconciler) :
  (forall r, admission (f r) = admission r) -> preserves (keeps admission) (modify f).
Proof. intros H r. apply H. Qed.

Lemma ensure_admission : preserves (keeps admission) ensureClusterNodesMapPopulated.
Proof.
  unfold ensureClusterNodesMapPopulated. frame;
    first [by apply rcall_keeps | apply with_client_admission | by apply modify_admission].
Qed.

Lemma ensure_emits (P : Call -> Prop) :
  P CallKubeClient -> P CallNodesList -> preserves (rc_emits P) ensureClusterNodesMapPopulated.
Proof.
  intros H1 H2. unfold ensureClusterNodesMapPopulated. frame;
    first [by apply rcall_emits | apply with_client_emits; by apply ListClusterNodes_emits
          | by apply modify_rc_emits].
Qed.

Lemma Update_admission : preserves (keeps admission) Update.
Proof. unfold Update. frame; first [by apply rcall_keeps | by apply modify_admission]. Qed.

(** The conflict check is a search. *)
Lemma range_conflict (name asg : string) (l : list (string * string)) (b : bool) :
  range_list (fun resource val inProgress =>
    if conflicts name asg resource val then (true, false) else (inProgress, true)) l b = false ->
  b = false /\ forall k v, (k, v) ∈ l -> conflicts name asg k v = false.
Proof.
  revert b. induction l as [|[k v] l IH]; intros b; cbn [range_list].
  - intros ->. split; [done|]. by intros k v H%not_elem_of_nil.
  - destruct (conflicts name asg k v) eqn:Ec; [done|]. intros [-> H]%IH. split; [done|].
    intros k' v' [[= -> ->]|Hin]%elem_of_cons; [done|by apply H].
Qed.

Lemma in_progress_elsewhere_false (m : gmap string string) (name asg : string) :
  in_progress_elsewhere m name asg = false ->
  forall k v, m !! k = Some v -> conflicts name asg k v = false.
Proof.
  unfold in_progress_elsewhere, Range. intros [_ H]%range_conflict k v Hk.
  apply H. by apply elem_of_map_to_list.
Qed.

(** *** The admission map moves by abstract steps *)
#[export] Instance admits_preorder : PreOrder admits.
Proof.
  split.
  - by intros r.
  - intros x y z [S1 M1] [S2 M2]. split; [|congruence].
    transitivity (rc_AdmissionMap y); [done|]. by rewrite <- M1.
Qed.

Lemma admission_admits {A} (m : M Reconciler A) : preserves (keeps admission) m -> preserves admits m.
Proof. intros H r. specialize (H r). injection H as H1 H2. split; [by rewrite H1|done]. Qed.

Lemma remove_admits (name : string) (r : Reconciler) :
  admits r (upd_AdmissionMap (fun m => Delete m name) r).
Proof. split; [|done]. apply rtc_once, AdmitRemove. Qed.

Lemma recover_stores (items : list RollingUpgrade) (r : Reconciler) :
  for_each items (fun cr =>
    if String.eqb (CurrentStatus cr) StatusRunning
    then modify (upd_AdmissionMap (fun m => Store m (NamespacedName cr) (ScalingGroupName cr)))
    else mret tt) r
  = (Val tt, upd_AdmissionMap (fun _ => foldl (fun m cr =>
       if String.eqb (CurrentStatus cr) StatusRunning
       then Store m (NamespacedName cr) (ScalingGroupName cr) else m) (rc_AdmissionMap r) items) r).
Proof.
  revert r. induction items as [|cr items IH]; intros r; cbn [for_each foldl].
  - by destruct r.
  - destruct (String.eqb _ _).
    + rewrite (bind_val _ _ r (upd_AdmissionMap _ r) tt) by reflexivity. by rewrite IH.
    + rewrite (bind_val _ _ r r tt) by reflexivity. by rewrite IH.
Qed.

Lemma map_len_0 (m : gmap string string) : GetSyncMapLen m = 0%Z -> m = ∅.
Proof. rewrite GetSyncMapLen_size. intros H. apply map_size_empty_inv. lia. Qed.

Lemma recover_admits : preserves admits recover_admitted.
Proof.
  intros r. unfold recover_admitted. rewrite (bind_val _ _ r r r) by done.
  destruct (_ =? 0)%Z eqn:E0; [|done]. zbool. apply map_len_0 in E0.
  unfold rcall, mbind at 1, M_bind at 1.
  destruct (svc_ListRollingUpgrades _ _ (rc_world r)) as [[items|err] w] eqn:El; [|done].
  unfold mbind, M_bind. rewrite recover_stores. split; [|done]. cbn. rewrite E0.
  apply rtc_once. by apply (AdmitRecover _ items (rc_world r) w).
Qed.

Lemma recover_keeps {B} (f : Reconciler -> B) :
  (forall w l r, f (set_trace w l r) = f r) -> (forall g r, f (upd_AdmissionMap g r) = f r) ->
  preserves (keeps f) recover_admitted.
Proof.
  intros H1 H2. unfold recover_admitted. frame; [by apply rcall_keeps|].
  intros r. apply H2.
Qed.

Lemma admit_cases (asg : string) (r : Reconciler) :
  admit_or_requeue asg r = (Val (DefaultRequeueTime, None), r) \/
  (may_enter asg r /\ admit_or_requeue asg r = reconcile_admitted asg r).
Proof.
  unfold admit_or_requeue, may_enter. rewrite (bind_val _ _ r r r) by done.
  destruct (in_progress_elsewhere _ _ _) eqn:Ei; [by left|].
  rewrite GetSyncMapLen_size. unfold Load.
  destruct (_ && _)%bool eqn:El; [by left|]. right. split; [|done]. split; [done|].
  zbool. destruct El as [El|El]; zbool; [by left|]. right.
  by destruct (rc_AdmissionMap r !! _) eqn:Em.
Qed.

Lemma reconcile_admitted_rest (asg : string) (r : Reconciler) :
  let '(_, present, m) := LoadOrStore (rc_AdmissionMap r) (NamespacedName (rc_ru r)) asg in
  reconcile_admitted asg r = rotate_admitted present (upd_AdmissionMap (fun _ => m) r).
Proof.
  unfold reconcile_admitted. destruct (LoadOrStore _ _ _) as [[v present] m] eqn:El.
  rewrite (bind_val _ _ r r r) by done. by rewrite El.
Qed.

Lemma rotate_admitted_admission (present : bool) : preserves (keeps admission) (rotate_admitted present).
Proof.
  unfold rotate_admitted, FlushCache. frame;
    first [by apply rcall_keeps | apply ensure_admission | apply getClusterNodes_admission
          | apply in_context_admission].
Qed.

Lemma reconcile_admitted_admits (asg : string) (r : Reconciler) :
  may_enter asg r -> admits r (reconcile_admitted asg r).2.
Proof.
  intros [Hi Hl]. pose proof (reconcile_admitted_rest asg r) as HR. unfold LoadOrStore in HR.
  destruct (rc_AdmissionMap r !! _) as [v|] eqn:Em; rewrite HR;
    (etransitivity; [|apply admission_admits, rotate_admitted_admission]); [done|].
  split; [|done]. apply rtc_once, AdmitNew; [done| |].
  - destruct Hl as [Hl|[v Hv]]; [done|congruence].
  - by apply in_progress_elsewhere_false.
Qed.

Lemma reconcile_valid_admits (status : string) : preserves admits (reconcile_valid status).
Proof.
  unfold reconcile_valid, set_init. frame;
    first [apply recover_admits | by apply preserves_modify; intros; split | idtac].
  match goal with |- preserves _ (admit_or_requeue ?g) => intros r; destruct (admit_cases g r) as [->|[H ->]] end;
    [done|by apply reconcile_admitted_admits].
Qed.

(** *** The identity of the resource *)
Lemma identity_names (u v : RollingUpgrade) :
  identity u = identity v ->
  NamespacedName u = NamespacedName v /\ ScalingGroupName u = ScalingGroupName v.
Proof. intros [= H1 H2 H3]. unfold NamespacedName, ScalingGroupName. by rewrite H1, H2, H3. Qed.

Abbreviation keeps_identity := (keeps (fun s : St => identity (s_ru s))).

Lemma cleanup_identity (cfg : Config) : preserves keeps_identity (cleanup_if_early cfg).
Proof.
  unfold cleanup_if_early, cleanupEarlyCordonedNodes. frame. by apply CordonUncordonAllNodes_keeps_ru.
Qed.

Lemma RotateNodes_identity (cfg : Config) : preserves keeps_identity (RotateNodes cfg).
Proof.
  pose proof (fun b => ReplaceNodeBatch_keeps_ru identity cfg b ltac:(done)) as H1.
  pose proof (cleanup_identity cfg) as H2.
  unfold RotateNodes, rotate_discovered, rotate_batch, Discover, DescribeTaggedInstanceIDs,
    DescribeLaunchTemplates, DescribeScalingGroups, IsScalingGroupDrifted, SetProgress, endTimeUpdate,
    set_status, Now.
  frame; first [apply H1 | apply H2 | apply memory_keeps_ru, SelectTargets_memory
    | apply ask_keeps_ru | apply call_keeps_ru | by apply modify_keeps_ru].
Qed.

Lemma rotate_in_context_identity (cfg : Config) : preserves keeps_identity (rotate_in_context cfg).
Proof.
  unfold rotate_in_context, set_status. frame;
    first [apply RotateNodes_identity | by apply modify_keeps_ru
          | by apply CordonUncordonAllNodes_keeps_ru].
Qed.

(** *** What the body of [Reconcile] keeps *)
Lemma in_context_keeps {A B} (f : RollingUpgrade -> B) (nodes : list node_ptr) (m : Config -> M St A) :
  (forall cfg, preserves (keeps (fun s : St => f (s_ru s))) (m cfg)) ->
  preserves (keeps (fun r => f (rc_ru r))) (in_context nodes m).
Proof.
  intros H r. unfold in_context. destruct (default _ _) as [d maps].
  match goal with |- context [ m ?c ?s ] => pose proof (H c s) as HE; destruct (m c s) as [o s'] end.
  exact HE.
Qed.

Lemma ensure_keeps {B} (f : Reconciler -> B) :
  (forall w l r, f (set_trace w l r) = f r) ->
  (forall h m r, f (upd_ClusterNodesMap h m r) = f r) ->
  preserves (keeps f) ensureClusterNodesMapPopulated.
Proof.
  intros H1 H2. unfold ensureClusterNodesMapPopulated, with_client. frame; [by apply rcall_keeps| |].
  - intros r. destruct (ListClusterNodes _). apply H1.
  - intros r. apply H2.
Qed.

Lemma getClusterNodes_keeps {B} (f : Reconciler -> B) :
  (forall w l r, f (set_trace w l r) = f r) -> preserves (keeps f) getClusterNodes.
Proof. intros H r. unfold getClusterNodes. destruct (svc_shuffle _). apply H. Qed.

Lemma rotate_admitted_identity (b : bool) : preserves (keeps rc_identity) (rotate_admitted b).
Proof.
  unfold rotate_admitted, FlushCache. frame;
    first [by apply rcall_keeps | by apply ensure_keeps | by apply getClusterNodes_keeps
          | apply (in_context_keeps identity), rotate_in_context_identity].
Qed.

Lemma rotate_admitted_lock (b : bool) : preserves (keeps rc_ReconcileMap) (rotate_admitted b).
Proof.
  unfold rotate_admitted, FlushCache. frame;
    first [by apply rcall_keeps | by apply ensure_keeps | by apply getClusterNodes_keeps | idtac].
  intros r. unfold in_context. destruct (default _ _) as [d maps]. by destruct (rotate_in_context _ _).
Qed.

Lemma recover_identity : preserves (keeps rc_identity) recover_admitted.
Proof. by apply recover_keeps. Qed.

Lemma reconcile_admitted_identity (asg : string) : preserves (keeps rc_identity) (reconcile_admitted asg).
Proof.
  unfold reconcile_admitted. frame; first [apply rotate_admitted_identity | by intros r].
Qed.

Lemma reconcile_valid_identity (status : string) :
  preserves (keeps rc_identity) (reconcile_valid status).
Proof.
  unfold reconcile_valid, set_init, admit_or_requeue. frame;
    first [apply recover_identity | apply reconcile_admitted_identity | by intros r].
Qed.

(** A reconcile that finds the lock taken stops at once. *)
Lemma reconcile_valid_busy (status : string) (r : Reconciler) (asg : string) :
  rc_ReconcileMap r !! NamespacedName (rc_ru r) = Some asg ->
  reconcile_valid status r = (Val (DefaultRequeueTime, None),
    upd_ReconcileMap (fun _ => rc_ReconcileMap r) (initialised status r)).
Proof.
  intros HL. unfold reconcile_valid, set_init, initialised, LoadOrStore.
  destruct (String.eqb status "").
  - rewrite (bind_val _ _ r _ tt) by reflexivity. cbn [modify].
    rewrite (bind_val _ _ _ _ _) by reflexivity. cbn [rc_ReconcileMap rc_ru upd_current].
    change (NamespacedName (SetLabel _ _ _)) with (NamespacedName (rc_ru r)). by rewrite HL.
  - rewrite (bind_val _ _ r r tt) by reflexivity. rewrite (bind_val _ _ r r r) by reflexivity.
    by rewrite HL.
Qed.

(** A free lock is taken, then the running resources are recovered and the checks made. *)
Lemma reconcile_valid_free (status : string) (r : Reconciler) :
  rc_ReconcileMap r !! NamespacedName (rc_ru r) = None ->
  reconcile_valid status r
  = (recover_admitted ≫= (fun err => match err with
       | Some err => mret (no_requeue, Some err)
       | None => admit_or_requeue (ScalingGroupName (rc_ru r))
       end)) (locked status r).
Proof.
  intros HL. unfold reconcile_valid, set_init, locked, initialised, LoadOrStore.
  destruct (String.eqb status "").
  - rewrite (bind_val _ _ r _ tt) by reflexivity. cbn [modify].
    rewrite (bind_val _ _ _ _ _) by reflexivity. cbn [rc_ReconcileMap rc_ru upd_current].
    change (NamespacedName (SetLabel _ _ _)) with (NamespacedName (rc_ru r)). by rewrite HL.
  - rewrite (bind_val _ _ r r tt) by reflexivity. rewrite (bind_val _ _ r r r) by reflexivity.
    by rewrite HL.
Qed.

Lemma initialised_same (status : string) (r : Reconciler) :
  rc_identity (initialised status r) = rc_identity r /\
  rc_calls (initialised status r) = rc_calls r /\
  rc_AdmissionMap (initialised status r) = rc_AdmissionMap r /\
  rc_maxParallel (initialised status r) = rc_maxParallel r /\
  rc_world (initialised status r) = rc_world r /\
  rc_ReconcileMap (initialised status r) = rc_ReconcileMap r.
Proof. unfold initialised. by destruct (String.eqb status ""). Qed.

(** Past the lock, nothing but the lock of the resource is touched. *)
Lemma checks_keep_lock (asg : string) :
  preserves (keeps rc_ReconcileMap)
    (recover_admitted ≫= (fun err => match err with
       | Some err => mret (no_requeue, Some err)
       | None => admit_or_requeue asg
       end)).
Proof.
  unfold admit_or_requeue, reconcile_admitted. frame;
    first [by apply recover_keeps | apply rotate_admitted_lock | by intros r].
Qed.

Lemma reconcile_valid_lock (status : string) (r : Reconciler) :
  delete (NamespacedName (rc_ru r)) (rc_ReconcileMap (reconcile_valid status r).2)
  = delete (NamespacedName (rc_ru r)) (rc_ReconcileMap r).
Proof.
  destruct (rc_ReconcileMap r !! NamespacedName (rc_ru r)) as [asg|] eqn:HL.
  - rewrite (reconcile_valid_busy _ _ _ HL). unfold initialised. by destruct (String.eqb _ _).
  - rewrite reconcile_valid_free by done. rewrite (checks_keep_lock _ (locked status r)).
    unfold locked. cbn. destruct (initialised_same status r) as (_ & _ & _ & _ & _ & ->).
    apply delete_insert_eq.
Qed.

(** *** The trace *)
Lemma Update_emits (P : Call -> Prop) :
  (forall u, P (CallStatusUpdate u)) -> (forall n l v, P (CallPatchLabel n l v)) ->
  preserves (rc_emits P) Update.
Proof. intros H1 H2. unfold Update. frame; first [by apply rcall_emits | by apply modify_rc_emits]. Qed.

Lemma recover_emits : preserves (rc_emits bookkeeping) recover_admitted.
Proof.
  unfold recover_admitted. frame; first [by apply rcall_emits | by apply modify_rc_emits].
Qed.

Lemma reconcile_admitted_place (asg : string) (r : Reconciler) :
  may_enter asg r -> holds_place (NamespacedName (rc_ru r)) asg (reconcile_admitted asg r).2.
Proof.
  intros [Hi _]. pose proof (in_progress_elsewhere_false _ _ _ Hi) as HC.
  pose proof (reconcile_admitted_rest asg r) as HR. unfold LoadOrStore in HR.
  destruct (rc_AdmissionMap r !! _) as [v|] eqn:Em; rewrite HR;
    match goal with |- holds_place _ _ (rotate_admitted ?b ?r0).2 =>
      pose proof (rotate_admitted_admission b r0) as HK end;
    injection HK as HK _; unfold holds_place; rewrite HK; cbn; [by split|].
  rewrite lookup_insert_eq. split; [done|]. intros k v [[<- <-]|[_ Hk]]%lookup_insert_Some.
  - unfold conflicts. by rewrite !EqualFold_refl.
  - by apply HC.
Qed.

(** Either nothing but bookkeeping, or the lock was free and the resource holds its place. *)
Lemma reconcile_valid_rotates (status : string) (r : Reconciler) :
  let r' := (reconcile_valid status r).2 in
  rc_emits bookkeeping r r' \/
  (rc_ReconcileMap r !! NamespacedName (rc_ru r) = None /\
   holds_place (NamespacedName (rc_ru r)) (ScalingGroupName (rc_ru r)) r').
Proof.
  intros r'. unfold r'. destruct (rc_ReconcileMap r !! NamespacedName (rc_ru r)) as [asg|] eqn:HL.
  - left. rewrite (reconcile_valid_busy _ _ _ HL).
    exists []. cbn. rewrite app_nil_r. by destruct (initialised_same status r) as (_ & -> & _).
  - rewrite reconcile_valid_free by done. set (r1 := locked status r).
    destruct (initialised_same status r) as (Hid & Hc & _).
    assert (rc_emits bookkeeping r r1) as H1 by (exists []; cbn; by rewrite app_nil_r).
    pose proof (recover_emits r1) as H2. pose proof (recover_identity r1) as H3.
    unfold mbind at 1 2, M_bind at 1 2. destruct (recover_admitted r1) as [[[err|]|] r2];
      [left; by transitivity r1| |left; by transitivity r1].
    assert (NamespacedName (rc_ru r2) = NamespacedName (rc_ru r)) as Hn.
    { apply identity_names. transitivity (rc_identity r1); [exact H3|exact Hid]. }
    destruct (admit_cases (ScalingGroupName (rc_ru r)) r2) as [->|[Hm ->]];
      [left; by transitivity r1|right]. split; [done|]. rewrite <- Hn.
    by apply reconcile_admitted_place.
Qed.

(** *** The whole handler *)
Lemma deferred_run {S A} (m : M S A) (d : M S unit) (s : S) : (deferred m d s).2 = (d (m s).2).2.
Proof. unfold deferred. destruct (m s) as [o s1]. cbn. by destruct (d s1). Qed.

Lemma Validate_identity (ru ru' : RollingUpgrade) :
  Validate ru = (ru', None) ->
  NamespacedName ru' = NamespacedName ru /\ ScalingGroupName ru' = ScalingGroupName ru.
Proof. by intros [_ ->]%Validate_ok. Qed.

Lemma Reconcile_workable (req : string) (r : Reconciler) (ru : RollingUpgrade) (w : World) :
  svc_GetRollingUpgrade req (rc_world r) = (inl ru, w) -> workable ru ->
  exists ru', Validate ru = (ru', None) /\
    Reconcile req r = deferred (reconcile_valid (CurrentStatus ru)) Update (fetched req w ru' r).
Proof.
  intros HG (Hd & Hf & Hv). destruct (Validate ru) as [ru' err] eqn:Ev. cbn in Hv. subst err.
  exists ru'. split; [done|]. unfold Reconcile, rcall, mbind, M_bind. rewrite HG, Hd, Hf, Ev. done.
Qed.

(** A resource that is not worked on costs one request and its place. *)
Lemma Reconcile_idle (req : string) (r : Reconciler) :
  (forall ru w, svc_GetRollingUpgrade req (rc_world r) = (inl ru, w) -> ~ workable ru) ->
  exists w, let r1 := set_trace w (rc_calls r ++ [CallGetRollingUpgrade req]) r in
    (Reconcile req r).2 = r1 \/
    exists name, (Reconcile req r).2 = upd_AdmissionMap (fun m => Delete m name) r1.
Proof.
  unfold Reconcile, rcall, mbind, M_bind.
  destruct (svc_GetRollingUpgrade req (rc_world r)) as [[ru|err] w] eqn:HG; intros HW; exists w.
  - specialize (HW ru w eq_refl). unfold workable in HW. cbv beta iota zeta.
    destruct (is_deleted ru); [right; by eexists|].
    destruct (ContainsEqualFold _ _); [right; by eexists|].
    destruct (Validate ru) as [ru' [e|]]; [by left|]. by destruct HW.
  - cbn. destruct (err_not_found err); [right; by eexists|by left].
Qed.

Lemma workable_dec (req : string) (r : Reconciler) :
  (exists ru w, svc_GetRollingUpgrade req (rc_world r) = (inl ru, w) /\ workable ru) \/
  (forall ru w, svc_GetRollingUpgrade req (rc_world r) = (inl ru, w) -> ~ workable ru).
Proof.
  destruct (svc_GetRollingUpgrade req (rc_world r)) as [[ru|err] w]; [|by right].
  assert (workable ru \/ ~ workable ru) as [H|H].
  { unfold workable. destruct (is_deleted ru), (ContainsEqualFold _ _), ((Validate ru).2);
      first [by left | right; by intros (? & ? & ?)]. }
  - left. by exists ru, w.
  - right. by intros ? ? [= -> ->].
Qed.

Lemma Reconcile_admits (req : string) : preserves admits (Reconcile req).
Proof.
  intros r. destruct (workable_dec req r) as [(ru & w & HG & HW)|HN].
  - destruct (Reconcile_workable req r ru w HG HW) as (ru' & _ & ->). rewrite deferred_run.
    transitivity (fetched req w ru' r); [by split|].
    etransitivity; [apply reconcile_valid_admits|]. apply admission_admits, Update_admission.
  - destruct (Reconcile_idle req r HN) as (w & [->|(name & ->)]); [by split|].
    transitivity (set_trace w (rc_calls r ++ [CallGetRollingUpgrade req]) r); [by split|].
    apply remove_admits.
Qed.

(** *** The invariant of the abstract controller *)
Lemma admission_inv_delete (mp : Z) (m : gmap string string) (name : string) :
  admission_inv mp m -> admission_inv mp (delete name m).
Proof.
  intros [HU HB]. split.
  - intros k v k' v' [_ H1]%lookup_delete_Some [_ H2]%lookup_delete_Some. by apply (HU k v k' v').
  - enough (size (delete name m) <= size m)%nat by lia.
    destruct (m !! name) as [v|] eqn:Em.
    + rewrite map_size_delete_Some by (by exists v). lia.
    + by rewrite delete_id.
Qed.

Lemma admission_inv_insert (mp : Z) (m : gmap string string) (name asg : string) :
  m !! name = None -> (Z.of_nat (size m) < mp)%Z ->
  (forall k v, m !! k = Some v -> conflicts name asg k v = false) ->
  admission_inv mp m -> admission_inv mp (<[name := asg]> m).
Proof.
  intros Hn Hs HC [HU HB].
  assert (forall k v, m !! k = Some v -> EqualFold v asg = true -> EqualFold k name = true) as HA.
  { intros k v Hk Hv. specialize (HC k v Hk). unfold conflicts in HC. rewrite Hv in HC. cbn in HC.
    by apply negb_false_iff in HC. }
  split; [|rewrite map_size_insert_None by done; lia].
  intros k v k' v' [[<- <-]|[_ H1]]%lookup_insert_Some [[<- <-]|[_ H2]]%lookup_insert_Some He.
  - apply EqualFold_refl.
  - rewrite EqualFold_sym. apply (HA k' v' H2). by rewrite EqualFold_sym.
  - by apply (HA k v H1).
  - by apply (HU k v k' v').
Qed.

Lemma map_node_event_admission (obj : WatchedObject) : preserves (keeps admission) (map_node_event obj).
Proof.
  unfold map_node_event, UpdateFunc, CreateFunc, DeleteFunc, GenericFunc. frame; by intros r.
Qed.

Lemma controller_step_admits (r r' : Reconciler) : controller_step r r' -> admits r r'.
Proof.
  intros [req r0|obj r0|w r0]; [apply Reconcile_admits| |by split].
  apply admission_admits, map_node_event_admission.
Qed.

(** *** The decision *)
Lemma range_conflict_true (name asg : string) (l : list (string * string)) (k v : string) :
  (k, v) ∈ l -> conflicts name asg k v = true ->
  range_list (fun resource val inProgress =>
    if conflicts name asg resource val then (true, false) else (inProgress, true)) l false = true.
Proof.
  intros Hin Hc. destruct (range_list _ l false) eqn:Er; [done|].
  apply range_conflict in Er as [_ Er]. by rewrite (Er k v Hin) in Hc.
Qed.

Lemma in_progress_elsewhere_spec (m : gmap string string) (name asg : string) :
  in_progress_elsewhere m name asg = true <->
  exists k v, m !! k = Some v /\ conflicts name asg k v = true.
Proof.
  split.
  - intros H. destruct (decide (map_Exists (fun k v => conflicts name asg k v = true) m)) as [Hm|Hm];
      [exact Hm|]. exfalso.
    assert (forall l b, (forall k v, (k, v) ∈ l -> conflicts name asg k v = false) ->
      range_list (fun resource val inProgress =>
        if conflicts name asg resource val then (true, false) else (inProgress, true)) l b = b) as HL.
    { induction l as [|[k v] l IH]; intros b HC; cbn [range_list]; [done|].
      rewrite HC by left. apply IH. intros k' v' Hin. apply HC. by right. }
    unfold in_progress_elsewhere, Range in H. rewrite HL in H; [done|].
    intros k v Hin%elem_of_map_to_list. destruct (conflicts name asg k v) eqn:Ec; [|done].
    destruct Hm. by exists k, v.
  - intros (k & v & Hk & Hc). unfold in_progress_elsewhere, Range.
    apply (range_conflict_true name asg _ k v); [by apply elem_of_map_to_list|done].
Qed.

(** The running resources are not fetched while some resource is admitted, and it
    makes no difference when there are none. *)
Lemma recover_nothing (r : Reconciler) :
  rc_AdmissionMap r <> ∅ \/ nothing_running ->
  exists r', recover_admitted r = (Val None, r') /\ admission r' = admission r /\
    rc_identity r' = rc_identity r.
Proof.
  intros HN. unfold recover_admitted. rewrite (bind_val _ _ r r r) by done.
  destruct (_ =? 0)%Z eqn:E0; [|by exists r]. zbool. apply map_len_0 in E0.
  destruct HN as [HN|HN]; [done|]. destruct (HN (rc_world r)) as (items & w & Hl & Hr).
  unfold rcall, mbind, M_bind. rewrite Hl. cbv beta iota. rewrite recover_stores. eexists.
  split; [done|]. split; [|done]. unfold admission. cbn. rewrite E0. by f_equal.
Qed.

Lemma admit_or_requeue_map (asg : string) (r : Reconciler) :
  rc_AdmissionMap (admit_or_requeue asg r).2
  = admitted_map (rc_maxParallel r) (rc_AdmissionMap r) (NamespacedName (rc_ru r)) asg.
Proof.
  unfold admit_or_requeue, admitted_map. rewrite (bind_val _ _ r r r) by done. cbv zeta.
  destruct (in_progress_elsewhere _ _ _); [done|]. rewrite GetSyncMapLen_size. unfold Load.
  pose proof (reconcile_admitted_rest asg r) as HR. unfold LoadOrStore in HR.
  assert (forall b m, rc_AdmissionMap (rotate_admitted b (upd_AdmissionMap (fun _ => m) r)).2 = m) as HK.
  { intros b m. pose proof (rotate_admitted_admission b (upd_AdmissionMap (fun _ => m) r)) as H.
    by injection H. }
  destruct (rc_AdmissionMap r !! _) as [v|]; [rewrite andb_false_r, HR; apply HK|].
  rewrite andb_true_r. destruct (_ <=? _)%Z; [done|]. rewrite HR. apply HK.
Qed.

Lemma Reconcile_map (req : string) (r : Reconciler) (ru : RollingUpgrade) (w : World) :
  svc_GetRollingUpgrade req (rc_world r) = (inl ru, w) -> workable ru ->
  rc_ReconcileMap r !! NamespacedName ru = None -> rc_AdmissionMap r <> ∅ \/ nothing_running ->
  rc_AdmissionMap (Reconcile req r).2
  = admitted_map (rc_maxParallel r) (rc_AdmissionMap r) (NamespacedName ru) (ScalingGroupName ru).
Proof.
  intros HG HW HL HN. destruct (Reconcile_workable req r ru w HG HW) as (ru' & Hv & ->).
  destruct (Validate_identity ru ru' Hv) as [Hn Ha]. rewrite deferred_run.
  set (r1 := fetched req w ru' r).
  pose proof (Update_admission (reconcile_valid (CurrentStatus ru) r1).2) as HU. injection HU as HU _.
  rewrite HU, reconcile_valid_free by (cbn; by rewrite Hn).
  set (r2 := locked (CurrentStatus ru) r1).
  destruct (initialised_same (CurrentStatus ru) r1) as (Hid & _ & Hm & Hp & _).
  destruct (recover_nothing r2) as (r3 & HR & HA & HI); [cbn; by rewrite Hm|].
  rewrite (bind_val _ _ r2 r3 None) by done. rewrite admit_or_requeue_map.
  injection HA as -> ->. apply identity_names in HI as [-> _]. apply identity_names in Hid as [Hid _].
  cbn in Hid |- *. rewrite Hid, Hm, Hp. cbn. by rewrite Hn, Ha.
Qed.

(** A reconcile that does more than bookkeeping holds its place. *)
Lemma Reconcile_rotates (req : string) (r : Reconciler) :
  let r' := (Reconcile req r).2 in
  rc_emits bookkeeping r r' \/
  exists ru w, svc_GetRollingUpgrade req (rc_world r) = (inl ru, w) /\ workable ru /\
    rc_ReconcileMap r !! NamespacedName ru = None /\
    holds_place (NamespacedName ru) (ScalingGroupName ru) r'.
Proof.
  intros r'. unfold r'. destruct (workable_dec req r) as [(ru & w & HG & HW)|HN].
  - destruct (Reconcile_workable req r ru w HG HW) as (ru' & Hv & ->). rewrite deferred_run.
    destruct (Validate_identity ru ru' Hv) as [Hn Ha]. set (r1 := fetched req w ru' r).
    destruct (reconcile_valid_rotates (CurrentStatus ru) r1) as [HE|[HL HP]].
    + left. transitivity r1; [by exists [CallGetRollingUpgrade req]; split; [|constructor]|].
      transitivity (reconcile_valid (CurrentStatus ru) r1).2; [done|]. by apply Update_emits.
    + right. exists ru, w. cbn in HL, HP. rewrite Hn in HL. rewrite Hn, Ha in HP. repeat (split; [done|]).
      pose proof (Update_admission (reconcile_valid (CurrentStatus ru) r1).2) as HU.
      injection HU as HU _. unfold holds_place in *. by rewrite HU.
  - left. destruct (Reconcile_idle req r HN) as (w & [->|(name & ->)]);
      exists [CallGetRollingUpgrade req]; (split; [done|by constructor]).
Qed.

(** *** Errors and the status *)
Lemma rotate_in_context_error (cfg : Config) (s s' : St) (err : error) :
  rotate_in_context cfg s = (Val (Some err), s') -> CurrentStatus (s_ru s') = StatusError.
Proof.
  unfold rotate_in_context. intros (r & s1 & _ & H)%bind_inv. destruct r as [e|]; [|done].
  apply bind_inv in H as (u & s2 & H2 & H). apply bind_inv in H as (s3 & s3' & H3 & H).
  injection H3 as <- <-. apply bind_inv in H as (u' & s4 & H4 & H).
  apply bind_inv in H as (res & s5 & H5 & H). injection H as _ <-.
  pose proof (CordonUncordonAllNodes_keeps_ru CurrentStatus false s4) as HK. rewrite H5 in HK.
  transitivity (CurrentStatus (s_ru s4)); [exact HK|].
  injection H4 as _ <-. unfold set_status in H2. apply bind_inv in H2 as (u2 & s6 & H6 & H2).
  injection H6 as _ <-. injection H2 as _ <-. done.
Qed.

Lemma rotate_admitted_error (b : bool) (r r' : Reconciler) (d : Result) (err : error) :
  rotate_admitted b r = (Val (d, Some err), r') ->
  rc_emits bookkeeping r r' \/ CurrentStatus (rc_ru r') = StatusError.
Proof.
  unfold rotate_admitted. intros (u & r1 & H1 & H)%bind_inv.
  assert (rc_emits bookkeeping r r1) as HE.
  { replace r1 with ((if negb b then FlushCache "autoscaling" ;;; FlushCache "ec2" else mret tt) r).2
      by (by rewrite H1). unfold FlushCache.
    match goal with |- rc_emits _ r (?m r).2 => assert (preserves (rc_emits bookkeeping) m) as HP; [|apply HP] end.
    frame; by apply rcall_emits. }
  apply bind_inv in H as (e & r2 & H2 & H). pose proof (ensure_emits bookkeeping I I r1) as HE2.
  rewrite H2 in HE2. destruct e as [e|].
  - left. injection H as _ _ <-. by transitivity r1.
  - right. apply bind_inv in H as (nodes & r3 & _ & H). apply bind_inv in H as (e & r4 & H4 & H).
    destruct e as [e|]; [|done]. injection H as _ _ <-. revert H4.
    unfold in_context. destruct (default _ _) as [dm maps].
    match goal with |- context [ rotate_in_context ?c ?s ] =>
      destruct (rotate_in_context c s) as [o s'] eqn:Er end.
    intros [= -> <-]. exact (rotate_in_context_error _ _ _ _ Er).
Qed.

Lemma reconcile_valid_error (status : string) (r r' : Reconciler) (d : Result) (err : error) :
  reconcile_valid status r = (Val (d, Some err), r') ->
  rc_emits bookkeeping r r' \/ CurrentStatus (rc_ru r') = StatusError.
Proof.
  intros H. destruct (rc_ReconcileMap r !! NamespacedName (rc_ru r)) as [asg|] eqn:HL.
  - rewrite (reconcile_valid_busy _ _ _ HL) in H. done.
  - rewrite reconcile_valid_free in H by done. set (r1 := locked status r) in H.
    destruct (initialised_same status r) as (_ & Hc & _).
    assert (rc_emits bookkeeping r r1) as H1 by (exists []; cbn; by rewrite app_nil_r).
    apply bind_inv in H as (e & r2 & H2 & H). pose proof (recover_emits r1) as HE. rewrite H2 in HE.
    destruct e as [e|]; [injection H as _ _ <-; left; by transitivity r1|].
    destruct (admit_cases (ScalingGroupName (rc_ru r)) r2) as [Ha|[_ Ha]]; rewrite Ha in H; [done|].
    pose proof (reconcile_admitted_rest (ScalingGroupName (rc_ru r)) r2) as HR.
    destruct (LoadOrStore _ _ _) as [[v b] m]. rewrite HR in H.
    apply rotate_admitted_error in H as [H|H]; [left|by right].
    transitivity r1; [done|]. transitivity r2; [done|]. exact H.
Qed.

(** What [Update] leaves: the last calls, and the lock. *)
Lemma Update_run (r : Reconciler) :
  let r' := (Update r).2 in
  reported (NamespacedName (rc_ru r)) r r' /\ rc_ru r' = rc_ru r /\
  rc_ReconcileMap r' = delete (NamespacedName (rc_ru r)) (rc_ReconcileMap r).
Proof.
  unfold Update, reported, rcall, modify, mbind, M_bind, get. cbn.
  destruct (svc_StatusUpdate (rc_ru r) (rc_world r)) as [[err|] w] eqn:Es; cbn; [by rewrite Es|].
  destruct (svc_PatchLabel _ _ _ _) as [err' w'] eqn:Ep. cbn. rewrite Es, <- app_assoc, Ep. auto.
Qed.

Lemma reported_calls (name : string) (r r' : Reconciler) :
  reported name r r' ->
  exists post, rc_calls r' = rc_calls r ++ CallStatusUpdate (rc_ru r') :: post /\
    (post = [] \/
     post = [CallPatchLabel name LabelKeyRollingUpgradeCurrentStatus (CurrentStatus (rc_ru r'))]).
Proof. unfold reported. destruct (svc_StatusUpdate _ _) as [[err|] w]; intros [-> _]; eauto. Qed.
End reconciler_lemmas.

(** ** Theorems *)
Section reconciler_theorems.
Context `{E : Env}.

(** C5: whatever a reconcile does to the admission
    map is a sequence of abstract steps: it removes a resource, recovers the
    running resources into an empty map, or admits a new resource when there is room
    and no admitted resource has its scaling group. *)
Theorem Reconcile_refines_admission (req : string) (r : Reconciler) :
  rtc (admission_step (rc_maxParallel r)) (rc_AdmissionMap r) (rc_AdmissionMap (Reconcile req r).2).
Proof. apply (Reconcile_admits req r). Qed.

(** C7: a reconcile that does more than bookkeeping
    (fetching resources and nodes, flushing caches, writing the status) was asked about a
    live, unfinished and valid resource whose lock was free, and that resource
    then has its place in the admission map while no other admitted resource has
    its scaling group. *)
Theorem Reconcile_rotates_admitted (req : string) (r : Reconciler) :
  let r' := (Reconcile req r).2 in
  rc_emits bookkeeping r r' \/
  exists ru w, svc_GetRollingUpgrade req (rc_world r) = (inl ru, w) /\ workable ru /\
    rc_ReconcileMap r !! NamespacedName ru = None /\
    holds_place (NamespacedName ru) (ScalingGroupName ru) r'.
Proof. apply Reconcile_rotates. Qed.

(** For a workable resource whose lock is free, while some
    resource is admitted or none is running, the admission map afterwards is
    decided by the map before: unchanged when another admitted resource has the
    scaling group, when the resource is in it already, or when maxParallel resources
    are admitted; with the resource added otherwise. *)
Theorem Reconcile_decision (req : string) (r : Reconciler) (ru : RollingUpgrade) (w : World) :
  svc_GetRollingUpgrade req (rc_world r) = (inl ru, w) -> workable ru ->
  rc_ReconcileMap r !! NamespacedName ru = None -> rc_AdmissionMap r <> ∅ \/ nothing_running ->
  rc_AdmissionMap (Reconcile req r).2
  = admitted_map (rc_maxParallel r) (rc_AdmissionMap r) (NamespacedName ru) (ScalingGroupName ru).
Proof. apply Reconcile_map. Qed.

(** C27: when the resource that holds a scaling group has ended or
    is being deleted, the reconcile that sees it frees its place, and the next
    reconcile of a resource waiting for that group admits it. *)
Theorem group_handover (a b : string) (r : Reconciler) (ru1 ru2 : RollingUpgrade) (w1 w2 : World) :
  svc_GetRollingUpgrade a (rc_world r) = (inl ru1, w1) ->
  is_deleted ru1 = true \/ ContainsEqualFold FiniteStates (CurrentStatus ru1) = true ->
  is_Some (rc_AdmissionMap r !! NamespacedName ru1) ->
  (Z.of_nat (size (rc_AdmissionMap r)) <= rc_maxParallel r)%Z ->
  svc_GetRollingUpgrade b w1 = (inl ru2, w2) -> workable ru2 ->
  rc_ReconcileMap r !! NamespacedName ru2 = None -> NamespacedName ru2 <> NamespacedName ru1 ->
  delete (NamespacedName ru1) (rc_AdmissionMap r) <> ∅ \/ nothing_running ->
  (forall k v, rc_AdmissionMap r !! k = Some v ->
     conflicts (NamespacedName ru2) (ScalingGroupName ru2) k v = true -> k = NamespacedName ru1) ->
  let r' := (Reconcile b (Reconcile a r).2).2 in
  rc_AdmissionMap r' !! NamespacedName ru1 = None /\
  is_Some (rc_AdmissionMap r' !! NamespacedName ru2).
Proof.
  intros HG1 HF HI HB HG2 HW HL HN HR HC r'.
  assert ((Reconcile a r).2 = upd_AdmissionMap (fun m => Delete m (NamespacedName ru1))
            (set_trace w1 (rc_calls r ++ [CallGetRollingUpgrade a]) r)) as H1.
  { unfold Reconcile, rcall, mbind, M_bind. rewrite HG1. destruct HF as [->| ->]; [done|].
    by destruct (is_deleted ru1). }
  unfold r'. rewrite H1. set (r1 := upd_AdmissionMap _ _).
  rewrite (Reconcile_map b r1 ru2 w2) by done. cbn. unfold Delete, admitted_map.
  destruct (in_progress_elsewhere _ _ _) eqn:Ei.
  { apply in_progress_elsewhere_spec in Ei as (k & v & [Hk Hkv]%lookup_delete_Some & Hc).
    destruct Hk. symmetry. by apply (HC k v). }
  destruct (delete _ _ !! NamespacedName ru2) as [v|] eqn:E2.
  - split; [by rewrite lookup_delete_eq|by exists v].
  - rewrite (proj2 (Z.leb_gt _ _)).
    + rewrite lookup_insert_ne, lookup_delete_eq, lookup_insert_eq by done. done.
    + rewrite map_size_delete_Some by done. destruct HI as [v Hv].
      enough (size (rc_AdmissionMap r) <> 0)%nat by lia. intros H0%map_size_empty_inv.
      by rewrite H0 in Hv.
Qed.

(** C8: every reconcile of a workable resource, however it ends,
    a panic of the rotation included, ends by writing the resource's status and, exactly
    when that succeeds, the label with the same status, and calls nothing else then; it leaves the lock of the resource free, also when another reconcile
    held it; and when it returns an error then either the status written is error or
    it got no further than bookkeeping. *)
Theorem Reconcile_reports (req : string) (r : Reconciler) (ru : RollingUpgrade) (w : World) :
  svc_GetRollingUpgrade req (rc_world r) = (inl ru, w) -> workable ru ->
  let r1 := (reconcile_valid (CurrentStatus ru) (fetched req w (Validate ru).1 r)).2 in
  let r' := (Reconcile req r).2 in
  (reported (NamespacedName ru) r1 r' /\ rc_ru r' = rc_ru r1) /\
  rc_ReconcileMap r' = delete (NamespacedName ru) (rc_ReconcileMap r) /\
  (forall d err, (Reconcile req r).1 = Val (d, Some err) ->
     rc_emits bookkeeping r r' \/ CurrentStatus (rc_ru r') = StatusError).
Proof.
  intros HG HW r2 r'. unfold r', r2. clear r2 r'.
  destruct (Reconcile_workable req r ru w HG HW) as (ru' & Hv & ->).
  destruct (Validate_identity ru ru' Hv) as [Hn _]. rewrite deferred_run, Hv. cbn [fst].
  set (r1 := fetched req w ru' r). set (status := CurrentStatus ru).
  pose proof (reconcile_valid_identity status r1) as HI. apply identity_names in HI as [HI _].
  pose proof (reconcile_valid_lock status r1) as HL. change (rc_ru r1) with ru' in HI, HL.
  destruct (Update_run (reconcile_valid status r1).2) as (Hp & Hr & HM).
  rewrite HI, Hn in Hp, HM. rewrite Hn in HL. split; [done|].
  split; [rewrite HM; exact HL|]. intros d err Ho.
  assert ((reconcile_valid status r1).1 = Val (d, Some err)) as Hval.
  { revert Ho. unfold deferred. destruct (reconcile_valid status r1) as [o r2]. cbn.
    destruct (Update r2) as [[?|] ?]; cbn; congruence. }
  apply run_val, reconcile_valid_error in Hval as [HE|HE]; [left|right; by rewrite Hr].
  transitivity r1; [by exists [CallGetRollingUpgrade req]; split; [|constructor]|].
  transitivity (reconcile_valid status r1).2; [done|]. by apply Update_emits.
Qed.

(** C39: the function that maps node events calls the create, the
    update and the delete function of the predicate one after the other, so after
    any event about a node, creation and update included, the node is not in the
    cache of the controller; it enqueues a request for a resource with an empty name. *)
Theorem node_event_evicts (n : Node) (r : Reconciler) :
  exists r', map_node_event (NodeObject n) r = (Val ["/"], r') /\
    rc_ClusterNodesMap r' = delete (node_Name n) (rc_ClusterNodesMap r).
Proof.
  eexists. split; [reflexivity|]. cbn. unfold Delete, Store.
  by rewrite !delete_insert_eq.
Qed.
End reconciler_theorems.

(** ** Witnesses *)
Lemma sample_workable : workable (UC := ascii_fold) (named_upgrade "waiting" "").
Proof. repeat split. Qed.

Lemma Reconcile_decision_witness :
  rc_AdmissionMap (@Reconcile (sample_env upgrades_scenario) "default/waiting"
    (sample_reconciler {["default/other" := "ASG-1"]} ∅)).2 = {["default/other" := "ASG-1"]} /\
  rc_AdmissionMap (@Reconcile (sample_env upgrades_scenario) "default/waiting"
    (sample_reconciler ∅ ∅)).2 = {["default/waiting" := "asg-1"]}.
Proof.
  split.
  - rewrite (@Reconcile_decision (sample_env upgrades_scenario) "default/waiting"
      (sample_reconciler {["default/other" := "ASG-1"]} ∅) (named_upgrade "waiting" "") 1000%Z);
      [vm_compute; reflexivity|reflexivity|exact sample_workable|reflexivity|by left].
  - rewrite (@Reconcile_decision (sample_env upgrades_scenario) "default/waiting"
      (sample_reconciler ∅ ∅) (named_upgrade "waiting" "") 1000%Z);
      [vm_compute; reflexivity|reflexivity|exact sample_workable|reflexivity|].
    right. intros w. by exists (sc_upgrades upgrades_scenario), w.
Defined.

Lemma group_handover_witness :
  let r := sample_reconciler {["default/ended" := "asg-1"]} ∅ in
  let r' := (@Reconcile (sample_env upgrades_scenario) "default/waiting"
               (@Reconcile (sample_env upgrades_scenario) "default/ended" r).2).2 in
  rc_AdmissionMap r' !! "default/ended" = None /\ is_Some (rc_AdmissionMap r' !! "default/waiting").
Proof.
  intros r r'.
  apply (@group_handover (sample_env upgrades_scenario) "default/ended" "default/waiting" r
    (named_upgrade "ended" StatusComplete) (named_upgrade "waiting" "") 1000%Z 1000%Z).
  - reflexivity.
  - right. vm_compute. reflexivity.
  - by exists "asg-1".
  - vm_compute. discriminate.
  - reflexivity.
  - exact sample_workable.
  - reflexivity.
  - discriminate.
  - right. intros w. by exists (sc_upgrades upgrades_scenario), w.
  - intros k v Hk _. change (({["default/ended" := "asg-1"]} : gmap string string) !! k = Some v) in Hk.
    by apply lookup_singleton_Some in Hk as [<- _].
Defined.

(** The lock of another reconcile is released. *)
Lemma Reconcile_reports_witness :
  let r := sample_reconciler ∅ {["default/waiting" := "asg-1"]} in
  let ru := named_upgrade "waiting" "" in
  let r1 := (@reconcile_valid (sample_env upgrades_scenario) ""
               (@fetched (sample_env upgrades_scenario) "default/waiting" 1000%Z (Validate (UC := ascii_fold) ru).1 r)).2 in
  let r' := (@Reconcile (sample_env upgrades_scenario) "default/waiting" r).2 in
  rc_ReconcileMap r' = ∅ /\ reported "default/waiting" r1 r' /\
  rc_calls r' = [CallGetRollingUpgrade "default/waiting"; CallStatusUpdate (rc_ru r');
    CallPatchLabel "default/waiting" LabelKeyRollingUpgradeCurrentStatus StatusInit].
Proof.
  intros r ru r1 r'.
  destruct (@Reconcile_reports (sample_env upgrades_scenario) "default/waiting" r
    (named_upgrade "waiting" "") 1000%Z) as ((H1 & _) & H2 & _); [reflexivity|exact sample_workable|].
  split; [|split; [exact H1|vm_compute; reflexivity]]. transitivity (delete "default/waiting" (rc_ReconcileMap r)); [exact H2|].
  vm_compute. reflexivity.
Defined.
