(* ===== verification/Admission.v ===== *)
(** * Concurrent reconciles: the admission of resources by several workers

    SetupWithManager runs maxParallel workers.  The work queue never hands a
    resource to two of them at a time, so the running handlers are a map keyed by
    the resource; everything else interleaves.  Here a handler
    of [Reconcile] is a program counter over its operations on the two sync.Maps, in the order of
    the code.  Load, Store, LoadOrStore and Delete are atomic.  Range is not: it is a walk
    ([Walk]) that visits one key at a time, each at most once, with what the map holds then; it may miss
    a key that is stored or deleted meanwhile, and ends when it has seen every key that was there
    all the time.  GetSyncMapLen is such a walk.  What happens between the admission and the deferred
    update is one step.  [handler_alone] relates the steps to the sequential handler of
    [Reconciler]; the theorems say what several workers can and cannot do to the
    admission map. *)
From S2P Require Import Prelude GoStrings GoTime Common Types AwsProvider KubeProvider Metrics Env AwsClient.
From S2P Require Import KubeClient Cloud Steps Drift Uniform Targets Balloon Cordon Drain Replace.
From S2P Require Import Rotate SampleEnv Reconciler.

(** A call of Range: the keys it has visited, and those that have been in the map since it began. *)
Record Walk := mkWalk { wk_seen : gset string; wk_stable : gset string }.

Definition new_walk (m : gmap string string) : Walk := mkWalk ∅ (dom m).
Definition saw (k : string) (w : Walk) : Walk := mkWalk ({[k]} ∪ wk_seen w) (wk_stable w).
Definition wk_count (w : Walk) : Z := Z.of_nat (size (wk_seen w)).

(** What a walk does next, to a choice of the runtime's: it visits a key, or it ends. *)
Inductive RangeEvent :=
| Stays
| Visits (key val : string)
| Ends.

Definition range_next (visit : option string) (m : gmap string string) (w : Walk) : RangeEvent :=
  match visit with
  | Some k =>
      match m !! k with
      | Some v => if decide (k ∈ wk_seen w) then Stays else Visits k v
      | None => Stays
      end
  | None => if decide (wk_stable w ⊆ wk_seen w) then Ends else Stays
  end.

(** The next operation of a handler. *)
Inductive Pc :=
| PcRemove                               (* the resource is gone or ended: AdmissionMap.Delete *)
| PcLock                                 (* ReconcileMap.LoadOrStore *)
| PcLen (w : Walk)                       (* is the admission map empty? *)
| PcList                                 (* List of the running resources *)
| PcStore (items : list RollingUpgrade)  (* AdmissionMap.Store of those found *)
| PcCheck (w : Walk)                     (* AdmissionMap.Range: the conflict check *)
| PcLimit (w : Walk)                     (* runningCRs >= maxParallel *)
| PcLoad                                 (* AdmissionMap.Load at the limit *)
| PcAdmit (below : bool)                 (* AdmissionMap.LoadOrStore; was it below the limit? *)
| PcRotate                               (* RotateNodes *)
| PcUpdate.                              (* the deferred Update: ReconcileMap.LoadAndDelete *)

Record Handler := mkHandler { h_asg : string; h_pc : Pc }.

(** A walk that is under way when the map becomes [m]. *)
Definition still (m : gmap string string) (w : Walk) : Walk := mkWalk (wk_seen w) (wk_stable w ∩ dom m).
Definition forget (m : gmap string string) (h : Handler) : Handler :=
  mkHandler (h_asg h)
    match h_pc h with
    | PcLen w => PcLen (still m w)
    | PcCheck w => PcCheck (still m w)
    | PcLimit w => PcLimit (still m w)
    | pc => pc
    end.

Record Controller := mkController {
  ct_admission : gmap string string;
  ct_locks : gmap string string;
  ct_handlers : gmap string Handler;
}.

Section admission.
Context `{E : Env} (maxParallel : Z).

(** Where a handler starts, and for which resource: [Reconcile] before its first operation on the
    maps.  [None] when it returns without one. *)
Definition handler_entry (req : string) (fetched : RollingUpgrade + error) : option (string * Handler) :=
  match fetched with
  | inr err => if err_not_found err then Some (req, mkHandler "" PcRemove) else None
  | inl ru =>
      let at_pc pc := Some (NamespacedName ru, mkHandler (ScalingGroupName ru) pc) in
      if is_deleted ru then at_pc PcRemove
      else if ContainsEqualFold FiniteStates (CurrentStatus ru) then at_pc PcRemove
      else match Validate ru with
           | (_, Some _) => None
           | (_, None) => at_pc PcLock
           end
  end.

(** One operation of the handler of [name]: the maps after it and where it
    continues, [None] when it has returned.  [answer] is what List returns, [visit] what a walk visits. *)
Definition handler_step (answer : list RollingUpgrade + error) (visit : option string) (name asg : string) (pc : Pc)
    (m locks : gmap string string) : gmap string string * gmap string string * option Pc :=
  match pc with
  | PcRemove => (Delete m name, locks, None)
  | PcLock =>
      let '(_, present, locks') := LoadOrStore locks name asg in
      (m, locks', Some (if (present : bool) then PcUpdate else PcLen (new_walk m)))
  | PcLen w =>
      (m, locks, Some match range_next visit m w with
                      | Stays => PcLen w
                      | Visits k _ => PcLen (saw k w)
                      | Ends => if (wk_count w =? 0)%Z then PcList else PcCheck (new_walk m)
                      end)
  | PcList => (m, locks, Some match answer with inl items => PcStore items | inr _ => PcUpdate end)
  | PcStore [] => (m, locks, Some (PcCheck (new_walk m)))
  | PcStore (cr :: items) =>
      (if String.eqb (CurrentStatus cr) StatusRunning
       then Store m (NamespacedName cr) (ScalingGroupName cr) else m, locks, Some (PcStore items))
  | PcCheck w =>
      (m, locks, Some match range_next visit m w with
                      | Stays => PcCheck w
                      | Visits k v => if conflicts name asg k v then PcUpdate else PcCheck (saw k w)
                      | Ends => PcLimit (new_walk m)
                      end)
  | PcLimit w =>
      (m, locks, Some match range_next visit m w with
                      | Stays => PcLimit w
                      | Visits k _ => PcLimit (saw k w)
                      | Ends => if (maxParallel <=? wk_count w)%Z then PcLoad else PcAdmit true
                      end)
  | PcLoad =>
      (m, locks, Some match Load m name with Some _ => PcAdmit false | None => PcUpdate end)
  | PcAdmit _ => let '(_, _, m') := LoadOrStore m name asg in (m', locks, Some PcRotate)
  | PcRotate => (m, locks, Some PcUpdate)
  | PcUpdate => (m, Delete locks name, None)
  end.

(** The handler alone, to these choices of its walks; when it has returned, the maps and whether it
    has rotated. *)
Fixpoint run_alone (answer : list RollingUpgrade + error) (visits : list (option string)) (name asg : string) (pc : Pc)
    (rotated : bool) (m locks : gmap string string) : option (gmap string string * gmap string string * bool) :=
  match visits with
  | [] => None
  | visit :: visits' =>
      let rotated' := match pc with PcRotate => true | _ => rotated end in
      let '(m', locks', next) := handler_step answer visit name asg pc m locks in
      match next with
      | Some pc' => run_alone answer visits' name asg pc' rotated' m' locks'
      | None => Some (m', locks', rotated')
      end
  end.

(** The handlers after one of them has moved on or returned and the map is [m]. *)
Definition moved (m : gmap string string) (name : string) (h : Handler) (next : option Pc) (hs : gmap string Handler) :
    gmap string Handler :=
  forget m <$> match next with
               | Some pc => <[name := mkHandler (h_asg h) pc]> hs
               | None => delete name hs
               end.

(** ** The controller with [workers] workers; [listed] is what List may answer. *)
Inductive step (workers : nat) (listed : list RollingUpgrade -> Prop) : relation Controller :=
| StepStart c name asg pc :
    ct_handlers c !! name = None -> (size (ct_handlers c) < workers)%nat ->
    pc = PcLock \/ pc = PcRemove ->
    step workers listed c
      (mkController (ct_admission c) (ct_locks c) (<[name := mkHandler asg pc]> (ct_handlers c)))
| StepRun c name h answer visit m locks next :
    ct_handlers c !! name = Some h ->
    (forall items, answer = inl items -> listed items) ->
    handler_step answer visit name (h_asg h) (h_pc h) (ct_admission c) (ct_locks c) = (m, locks, next) ->
    step workers listed c (mkController m locks (moved m name h next (ct_handlers c))).

Definition empty_controller : Controller := mkController ∅ ∅ ∅.

(** Start the handler of a resource; run the next operation of a handler, when
    List finds nothing and a walk ends as soon as it may. *)
Definition start (name asg : string) (c : Controller) : Controller :=
  mkController (ct_admission c) (ct_locks c) (<[name := mkHandler asg PcLock]> (ct_handlers c)).

Definition advance (c : Controller) (name : string) : Controller :=
  match ct_handlers c !! name with
  | None => c
  | Some h =>
      let '(m, locks, next) :=
        handler_step (inl []) None name (h_asg h) (h_pc h) (ct_admission c) (ct_locks c) in
      mkController m locks (moved m name h next (ct_handlers c))
  end.

(** ** Specification *)

(** The resources of the list that are running are among [X]. *)
Definition reports (X : gset string) (items : list RollingUpgrade) : Prop :=
  Forall (fun cr => CurrentStatus cr = StatusRunning -> NamespacedName cr ∈ X) items.

(** What a handler that runs alone leaves: the maps, and whether it rotates. *)
Definition admit_outcome (name asg : string) (m locks : gmap string string) :=
  ((LoadOrStore m name asg).2, Delete locks name, true).
Definition stop_outcome (name : string) (m locks : gmap string string) := (m, Delete locks name, false).

Definition check_outcome (name asg : string) (m locks : gmap string string) :=
  if in_progress_elsewhere m name asg then stop_outcome name m locks
  else if (maxParallel <=? Z.of_nat (size m))%Z && bool_decide (m !! name = None)
  then stop_outcome name m locks else admit_outcome name asg m locks.

Definition store_all (m : gmap string string) (items : list RollingUpgrade) : gmap string string :=
  foldl (fun m cr => if String.eqb (CurrentStatus cr) StatusRunning
                     then Store m (NamespacedName cr) (ScalingGroupName cr) else m) m items.

Definition alone_outcome (answer : list RollingUpgrade + error) (name asg : string) (pc : Pc) (m locks : gmap string string) :=
  let listed l := match answer with
                  | inl items => check_outcome name asg (store_all m items) l
                  | inr _ => stop_outcome name m l
                  end in
  let counted l := if decide (m = ∅) then listed l else check_outcome name asg m l in
  match pc with
  | PcRemove => (Delete m name, locks, false)
  | PcLock => match locks !! name with
              | Some _ => stop_outcome name m locks
              | None => counted (<[name := asg]> locks)
              end
  | PcLen _ => counted locks
  | PcList => listed locks
  | PcStore items => check_outcome name asg (store_all m items) locks
  | PcCheck _ => check_outcome name asg m locks
  | PcLimit _ => if (maxParallel <=? Z.of_nat (size m))%Z && bool_decide (m !! name = None)
                 then stop_outcome name m locks else admit_outcome name asg m locks
  | PcLoad => if bool_decide (m !! name = None) then stop_outcome name m locks else admit_outcome name asg m locks
  | PcAdmit _ => admit_outcome name asg m locks
  | PcRotate => (m, Delete locks name, true)
  | PcUpdate => stop_outcome name m locks
  end.

(** A walk over a map nobody else changes. *)
Definition walk_ok (m : gmap string string) (w : Walk) : Prop := wk_stable w = dom m /\ wk_seen w ⊆ dom m.
Definition undisturbed (name asg : string) (pc : Pc) (m : gmap string string) : Prop :=
  match pc with
  | PcLen w | PcLimit w => walk_ok m w
  | PcCheck w => walk_ok m w /\ forall k v, k ∈ wk_seen w -> m !! k = Some v -> conflicts name asg k v = false
  | _ => True
  end.

(** The handler holds the lock: it is past its LoadOrStore and before the
    deferred Update has run. *)
Definition holds_lock (pc : Pc) : Prop :=
  match pc with PcLock | PcRemove => False | _ => True end.

(** A handler that has passed the limit and has not stored its resource yet, or that is still counting and has [k]
    keys at most to see, besides those of [X]. *)
Definition counts (X : gset string) (k : Z) (h : Handler) : bool :=
  match h_pc h with
  | PcAdmit true => true
  | PcLimit w => (Z.of_nat (size (wk_stable w ∖ X)) <=? k)%Z
  | _ => false
  end.
Definition entrants (X : gset string) (k : Z) (hs : gmap string Handler) : Z :=
  Z.of_nat (size (filter (fun kh => counts X k kh.2 = true) hs)).
Definition others (X : gset string) (m : gmap string string) : Z := Z.of_nat (size (dom m ∖ X)).

Record admission_bounds (X : gset string) (workers : nat) (c : Controller) : Prop := {
  ab_workers : (size (ct_handlers c) <= workers)%nat;
  ab_present : forall name h, ct_handlers c !! name = Some h -> h_pc h = PcAdmit false ->
    is_Some (ct_admission c !! name);
  ab_recover : forall name h items, ct_handlers c !! name = Some h -> h_pc h = PcStore items -> reports X items;
  ab_stable : forall name h w, ct_handlers c !! name = Some h -> h_pc h = PcLimit w -> wk_stable w ⊆ dom (ct_admission c);
  ab_size : forall k, (maxParallel - 1 <= k)%Z ->
    (others X (ct_admission c) + entrants X k (ct_handlers c) <= k + Z.of_nat workers)%Z;
  ab_locks : forall name, is_Some (ct_locks c !! name) ->
    exists h, ct_handlers c !! name = Some h /\ holds_lock (h_pc h);
}.
End admission.

(** ** Lemmas *)
Section admission_lemmas.
Context `{E : Env} (maxParallel : Z).

(** *** Counting handlers *)
Lemma entrants_le_size (X : gset string) (k : Z) (hs : gmap string Handler) : (entrants X k hs <= Z.of_nat (size hs))%Z.
Proof. unfold entrants. apply inj_le, map_subseteq_size, map_filter_subseteq. Qed.

Lemma entrants_delete (X : gset string) (k : Z) (hs : gmap string Handler) (name : string) :
  (entrants X k (delete name hs) <= entrants X k hs)%Z.
Proof. unfold entrants. rewrite map_filter_delete. apply inj_le, map_subseteq_size, delete_subseteq. Qed.

Lemma entrants_insert (X : gset string) (k : Z) (hs : gmap string Handler) (name : string) (h : Handler) :
  counts X k h = false -> (entrants X k (<[name := h]> hs) <= entrants X k hs)%Z.
Proof.
  intros HN. etransitivity; [|apply (entrants_delete X k hs name)]. unfold entrants. rewrite map_filter_insert.
  by rewrite decide_False by (cbn; congruence).
Qed.

(** A handler that counted is replaced. *)
Lemma entrants_replace (X : gset string) (k : Z) (hs : gmap string Handler) (name : string) (h h' : Handler) :
  hs !! name = Some h -> counts X k h = true ->
  (entrants X k (<[name := h']> hs) <= entrants X k hs - if counts X k h' then 0 else 1)%Z.
Proof.
  intros Hn Hc. unfold entrants. set (F := filter _ hs).
  assert (F !! name = Some h) as Hf by (by apply map_lookup_filter_Some_2).
  assert (size F <> 0)%nat as H0 by (intros H0%map_size_empty_inv; by rewrite H0 in Hf).
  assert (size (delete name F) = pred (size F)) as Hd by (apply map_size_delete_Some; by exists h).
  rewrite map_filter_insert. fold F. destruct (decide _) as [Hc'|Hc']; cbn in Hc'.
  - rewrite Hc', map_size_insert_Some by (by exists h). lia.
  - destruct (counts X k h'); [done|]. rewrite map_filter_delete. fold F. lia.
Qed.

Lemma entrants_fmap (X : gset string) (k k' : Z) (f : Handler -> Handler) (hs : gmap string Handler) :
  (forall name h, hs !! name = Some h -> counts X k (f h) = true -> counts X k' h = true) ->
  (entrants X k (f <$> hs) <= entrants X k' hs)%Z.
Proof.
  intros H. unfold entrants. rewrite <- !size_dom. apply inj_le, subseteq_size. intros name [h Hh]%elem_of_dom.
  apply map_lookup_filter_Some in Hh as [Hf Hc]. rewrite lookup_fmap in Hf.
  destruct (hs !! name) as [h0|] eqn:Hn; [|done]. injection Hf as <-. apply elem_of_dom. exists h0.
  apply map_lookup_filter_Some. split; [done|]. by apply (H name h0).
Qed.

Lemma size_disjoint (A B : gset string) : A ## B -> size (A ∪ B) = (size A + size B)%nat.
Proof. apply size_union. Qed.

(** Keys that leave the map leave the walks. *)
Lemma stable_shrinks (X K D D' : gset string) :
  K ⊆ D -> (Z.of_nat (size (K ∖ X)) <= Z.of_nat (size ((K ∩ D') ∖ X)) + Z.of_nat (size ((D ∖ D') ∖ X)))%Z.
Proof.
  intros HK. assert (K ∖ X ⊆ ((K ∩ D') ∖ X) ∪ ((D ∖ D') ∖ X)) as H.
  { intros x [Hx Hn]%elem_of_difference. destruct (decide (x ∈ D')); set_solver. }
  apply subseteq_size in H. rewrite size_disjoint in H by set_solver. lia.
Qed.

Lemma forget_counts (X : gset string) (k : Z) (m m' : gmap string string) (h : Handler) :
  (forall w, h_pc h = PcLimit w -> wk_stable w ⊆ dom m) -> counts X k (forget m' h) = true ->
  counts X (k + Z.of_nat (size ((dom m ∖ dom m') ∖ X))) h = true.
Proof.
  intros Hw. unfold counts, forget. cbn. destruct (h_pc h) as [| |w| | |w|w| |[|]| |]; try done. cbn.
  intros H. zbool. pose proof (stable_shrinks X (wk_stable w) (dom m) (dom m') (Hw w eq_refl)). lia.
Qed.

(** The size of the map and the entrants, after the handlers become [hs] and the map [m']. *)
Lemma size_moves (X : gset string) (workers : nat) (m m' : gmap string string) (hs : gmap string Handler) :
  (forall name h w, hs !! name = Some h -> h_pc h = PcLimit w -> wk_stable w ⊆ dom m) ->
  (forall k, (maxParallel - 1 <= k)%Z ->
     (others X m + Z.of_nat (size ((dom m' ∖ dom m) ∖ X)) + entrants X k hs <= k + Z.of_nat workers)%Z) ->
  forall k, (maxParallel - 1 <= k)%Z -> (others X m' + entrants X k (forget m' <$> hs) <= k + Z.of_nat workers)%Z.
Proof.
  intros HS HB k Hk. set (d := Z.of_nat (size ((dom m ∖ dom m') ∖ X))).
  pose proof (entrants_fmap X k (k + d) (forget m') hs) as HE.
  assert (entrants X k (forget m' <$> hs) <= entrants X (k + d) hs)%Z as HE'.
  { apply HE. intros name h Hh. apply forget_counts. by intros w; apply (HS name h w). }
  specialize (HB (k + d)%Z ltac:(lia)). unfold others in *.
  assert (dom m' ∖ X = ((dom m ∩ dom m') ∖ X) ∪ ((dom m' ∖ dom m) ∖ X)) as D1.
  { apply set_eq. intros x. destruct (decide (x ∈ dom m)); set_solver. }
  assert (dom m ∖ X = ((dom m ∩ dom m') ∖ X) ∪ ((dom m ∖ dom m') ∖ X)) as D2.
  { apply set_eq. intros x. destruct (decide (x ∈ dom m')); set_solver. }
  apply (f_equal size) in D1, D2. rewrite size_disjoint in D1, D2 by set_solver. lia.
Qed.

(** *** The invariant *)

(** A handler moves on: what is to be shown of its new place and of the maps. *)
Lemma bounds_move (X : gset string) (workers : nat) (c : Controller) (name : string) (h : Handler) (pc : Pc)
    (m locks : gmap string string) :
  admission_bounds maxParallel X workers c -> ct_handlers c !! name = Some h ->
  (pc = PcAdmit false -> is_Some (m !! name)) ->
  (forall items, pc = PcStore items -> reports X items) ->
  (forall w, pc = PcLimit w -> wk_stable w ⊆ dom (ct_admission c)) ->
  (forall k, is_Some (ct_admission c !! k) -> is_Some (m !! k)) ->
  (forall k, (maxParallel - 1 <= k)%Z ->
     (others X (ct_admission c) + Z.of_nat (size ((dom m ∖ dom (ct_admission c)) ∖ X))
      + entrants X k (<[name := mkHandler (h_asg h) pc]> (ct_handlers c)) <= k + Z.of_nat workers)%Z) ->
  holds_lock pc -> (forall k, is_Some (locks !! k) -> k = name \/ is_Some (ct_locks c !! k)) ->
  admission_bounds maxParallel X workers (mkController m locks (moved m name h (Some pc) (ct_handlers c))).
Proof.
  intros [Hw Hp Hr Hst Hs Hl] Hn H1 H2 H3 H4 H5 H6 H7. unfold moved. split; cbn [ct_handlers ct_admission ct_locks].
  - by rewrite map_size_fmap, map_size_insert_Some by (by exists h).
  - intros k h'. rewrite lookup_fmap. intros (h0 & [[<- <-]|[_ Hk]]%lookup_insert_Some & ->)%fmap_Some; cbn; intros He.
    + apply H1. by destruct pc.
    + apply H4, (Hp k h0); [done|]. by destruct (h_pc h0).
  - intros k h' items. rewrite lookup_fmap. intros (h0 & [[<- <-]|[_ Hk]]%lookup_insert_Some & ->)%fmap_Some; cbn; intros He.
    + apply H2. by destruct pc.
    + apply (Hr k h0); [done|]. by destruct (h_pc h0).
  - intros k h' w. rewrite lookup_fmap. intros (h0 & _ & ->)%fmap_Some. cbn. intros He.
    destruct (h_pc h0) as [| | | | | |w0| | | |]; try done. injection He as <-. cbn. set_solver.
  - apply (size_moves X workers (ct_admission c)); [|done].
    intros k h' w [[<- <-]|[_ Hk]]%lookup_insert_Some He; [by apply H3|by apply (Hst k h')].
  - intros k Hk. assert (exists h0, <[name := mkHandler (h_asg h) pc]> (ct_handlers c) !! k = Some h0 /\ holds_lock (h_pc h0))
      as (h0 & Hh0 & HL0).
    { destruct (decide (k = name)) as [->|Hne]; [eexists; by rewrite lookup_insert_eq|].
      apply H7 in Hk as [->|Hk]; [done|]. destruct (Hl k Hk) as (h' & Hh & HL). exists h'. by rewrite lookup_insert_ne. }
    exists (forget m h0). rewrite lookup_fmap, Hh0. split; [done|]. cbn. by destruct (h_pc h0).
Qed.

Lemma nothing_new (X D D' : gset string) : D' ⊆ D ∪ X -> size ((D' ∖ D) ∖ X) = 0%nat.
Proof. intros H. apply size_empty_iff. set_solver. Qed.

Lemma entrants_move (X : gset string) (workers : nat) (k : Z) (hs : gmap string Handler) (name : string) (h h' : Handler) (n : Z) :
  hs !! name = Some h -> (size hs <= workers)%nat -> (n + entrants X k hs <= k + Z.of_nat workers)%Z ->
  (counts X k h' = true -> counts X k h = true \/ (n <= k)%Z) ->
  (n + entrants X k (<[name := h']> hs) <= k + Z.of_nat workers)%Z.
Proof.
  intros Hn Hw Hb Hc. destruct (counts X k h') eqn:Hc'; [|pose proof (entrants_insert X k hs name h' Hc'); lia].
  destruct (Hc eq_refl) as [Hh|Hk].
  - pose proof (entrants_replace X k hs name h h' Hn Hh) as H. rewrite Hc' in H. lia.
  - pose proof (entrants_le_size X k (<[name := h']> hs)) as H. rewrite map_size_insert_Some in H by (by exists h). lia.
Qed.

(** The admission map gains no key but of [X], and the handler that counts afterwards counted before or may count. *)
Lemma bounds_stay (X : gset string) (workers : nat) (c : Controller) (name : string) (h : Handler) (pc : Pc)
    (m locks : gmap string string) :
  admission_bounds maxParallel X workers c -> ct_handlers c !! name = Some h ->
  dom (ct_admission c) ⊆ dom m -> dom m ⊆ dom (ct_admission c) ∪ X ->
  (forall k, (maxParallel - 1 <= k)%Z -> counts X k (mkHandler (h_asg h) pc) = true ->
     counts X k h = true \/ (others X (ct_admission c) <= k)%Z) ->
  (pc = PcAdmit false -> is_Some (m !! name)) -> (forall items, pc = PcStore items -> reports X items) ->
  (forall w, pc = PcLimit w -> wk_stable w ⊆ dom (ct_admission c)) ->
  holds_lock pc -> (forall k, is_Some (locks !! k) -> k = name \/ is_Some (ct_locks c !! k)) ->
  admission_bounds maxParallel X workers (mkController m locks (moved m name h (Some pc) (ct_handlers c))).
Proof.
  intros HB Hn HD1 HD2 Hc Ha Hs Hw HL Hk. apply bounds_move; try done.
  - intros k. rewrite <- !elem_of_dom. apply HD1.
  - intros k Hk'. rewrite (nothing_new X) by done. rewrite Z.add_0_r.
    apply (entrants_move X workers k (ct_handlers c) name h); [done|apply (ab_workers _ _ _ _ HB)|by apply (ab_size _ _ _ _ HB)|by apply Hc].
Qed.

(** A handler returns; it has given its lock back. *)
Lemma bounds_leave (X : gset string) (workers : nat) (c : Controller) (name : string) (h : Handler) (m locks : gmap string string) :
  admission_bounds maxParallel X workers c ->
  (forall k, k <> name -> is_Some (ct_admission c !! k) -> is_Some (m !! k)) ->
  dom m ⊆ dom (ct_admission c) -> locks !! name = None ->
  (forall k, is_Some (locks !! k) -> is_Some (ct_locks c !! k)) ->
  admission_bounds maxParallel X workers (mkController m locks (moved m name h None (ct_handlers c))).
Proof.
  intros [Hw Hp Hr Hst Hs Hl] Hm HD Hn Hk. unfold moved. split; cbn [ct_handlers ct_admission ct_locks].
  - rewrite map_size_fmap. transitivity (size (ct_handlers c)); [apply map_subseteq_size, delete_subseteq|done].
  - intros k h'. rewrite lookup_fmap. intros (h0 & [Hne Hh]%lookup_delete_Some & ->)%fmap_Some. cbn. intros He.
    apply Hm; [done|]. apply (Hp k h0); [done|]. by destruct (h_pc h0).
  - intros k h' items. rewrite lookup_fmap. intros (h0 & [_ Hh]%lookup_delete_Some & ->)%fmap_Some. cbn. intros He.
    apply (Hr k h0); [done|]. by destruct (h_pc h0).
  - intros k h' w. rewrite lookup_fmap. intros (h0 & _ & ->)%fmap_Some. cbn. intros He.
    destruct (h_pc h0) as [| | | | | |w0| | | |]; try done. injection He as <-. cbn. set_solver.
  - apply (size_moves X workers (ct_admission c)); [intros k h' w [_ Hh]%lookup_delete_Some; by apply (Hst k)|].
    intros k Hk'. rewrite (nothing_new X) by set_solver. rewrite Z.add_0_r.
    pose proof (entrants_delete X k (ct_handlers c) name). specialize (Hs k Hk'). lia.
  - intros k Hx. destruct (decide (k = name)) as [->|Hne]; [rewrite Hn in Hx; by destruct Hx|].
    destruct (Hl k (Hk k Hx)) as (h0 & Hh & HL). exists (forget m h0). rewrite lookup_fmap, lookup_delete_ne, Hh by done.
    split; [done|]. cbn. by destruct (h_pc h0).
Qed.

Lemma locks_subset (locks : gmap string string) (name asg : string) (k : string) :
  is_Some ((LoadOrStore locks name asg).2 !! k) -> k = name \/ is_Some (locks !! k).
Proof.
  unfold LoadOrStore. destruct (locks !! name); cbn; [by right|].
  intros [v [[-> _]|[_ Hk]]%lookup_insert_Some]; [by left|right; by exists v].
Qed.

(** The store of a resource that passed the limit. *)
Lemma bounds_admit (X : gset string) (workers : nat) (c : Controller) (name : string) (h : Handler) (below : bool) :
  admission_bounds maxParallel X workers c -> ct_handlers c !! name = Some h -> h_pc h = PcAdmit below ->
  let m := (LoadOrStore (ct_admission c) name (h_asg h)).2 in
  admission_bounds maxParallel X workers (mkController m (ct_locks c) (moved m name h (Some PcRotate) (ct_handlers c))).
Proof.
  intros HB Hn Hpc m. unfold m, LoadOrStore. destruct (ct_admission c !! name) as [v|] eqn:Em; cbn [snd].
  { apply bounds_stay; try done; [set_solver|by right]. }
  destruct below; [|destruct (ab_present _ _ _ _ HB name h Hn Hpc); congruence].
  apply bounds_move; try done; [intros k Hk; by apply lookup_insert_is_Some'; right| |by right].
  intros k Hk. pose proof (ab_size _ _ _ _ HB k Hk).
  assert (counts X k h = true) as Hc by (unfold counts; by rewrite Hpc).
  pose proof (entrants_replace X k (ct_handlers c) name h (mkHandler (h_asg h) PcRotate) Hn Hc) as HR. cbn in HR.
  assert (size ((dom (<[name := h_asg h]> (ct_admission c)) ∖ dom (ct_admission c)) ∖ X) <= 1)%nat as H1.
  { rewrite <- (size_singleton (C := gset string) name). apply subseteq_size. rewrite dom_insert. set_solver. }
  lia.
Qed.

(** A walk of a handler that is counting. *)
Lemma bounds_limit (X : gset string) (workers : nat) (c : Controller) (name : string) (h : Handler) (w : Walk) (visit : option string) :
  admission_bounds maxParallel X workers c -> ct_handlers c !! name = Some h -> h_pc h = PcLimit w ->
  let pc := match range_next visit (ct_admission c) w with
            | Stays => PcLimit w
            | Visits k _ => PcLimit (saw k w)
            | Ends => if (maxParallel <=? wk_count w)%Z then PcLoad else PcAdmit true
            end in
  admission_bounds maxParallel X workers
    (mkController (ct_admission c) (ct_locks c) (moved (ct_admission c) name h (Some pc) (ct_handlers c))).
Proof.
  intros HB Hn Hpc pc. pose proof (ab_stable _ _ _ _ HB name h w Hn Hpc) as Hst.
  assert (forall b : Z, counts X b h = (Z.of_nat (size (wk_stable w ∖ X)) <=? b)%Z) as Hh by (intros b; unfold counts; by rewrite Hpc).
  unfold pc, range_next. destruct visit as [key|].
  - destruct (ct_admission c !! key); [destruct (decide _)|];
      (apply bounds_stay; try done; [set_solver|intros b _ Hc; left; by rewrite Hh|by intros w' [= <-]|by right]).
  - destruct (decide (wk_stable w ⊆ wk_seen w)) as [Hs|];
      [|apply bounds_stay; try done; [set_solver|intros b _ Hc; left; by rewrite Hh|by intros w' [= <-]|by right]].
    destruct (Z.leb_spec maxParallel (wk_count w)) as [Hl|Hl]; [apply bounds_stay; try done; [set_solver|by right]|].
    apply bounds_stay; try done; [set_solver| |by right]. intros b Hb _. left. rewrite Hh. apply Z.leb_le.
    unfold wk_count in Hl. assert (size (wk_stable w ∖ X) <= size (wk_seen w))%nat by (apply subseteq_size; set_solver). lia.
Qed.

Lemma admission_bounds_run (X : gset string) (workers : nat) (c : Controller) (name : string) (h : Handler)
    (answer : list RollingUpgrade + error) (visit : option string) (m locks : gmap string string) (next : option Pc) :
  admission_bounds maxParallel X workers c -> ct_handlers c !! name = Some h ->
  (forall items, answer = inl items -> reports X items) ->
  handler_step maxParallel answer visit name (h_asg h) (h_pc h) (ct_admission c) (ct_locks c) = (m, locks, next) ->
  admission_bounds maxParallel X workers (mkController m locks (moved m name h next (ct_handlers c))).
Proof.
  intros HB Hn Ha. pose proof HB as [Hw Hp Hr _ Hs Hl].
  destruct (h_pc h) as [| |wk| |[|cr items]|wk|wk| |below| |] eqn:Epc; cbn [handler_step].
  - intros [= <- <- <-]. apply bounds_leave; [done| | | |done].
    + intros k Hk. unfold Delete. by rewrite lookup_delete_ne.
    + unfold Delete. rewrite dom_delete. set_solver.
    + apply eq_None_not_Some. intros (h' & Hh & HL)%Hl. rewrite Hn in Hh. injection Hh as <-.
      by rewrite Epc in HL.
  - pose proof (locks_subset (ct_locks c) name (h_asg h)) as HS.
    destruct (LoadOrStore _ _ _) as [[v present] locks']. intros [= <- <- <-].
    apply bounds_stay; try done; [set_solver|..]; by destruct present.
  - intros [= <- <- <-]. destruct (range_next visit (ct_admission c) wk);
      [..|destruct (_ =? _)%Z]; (apply bounds_stay; try done; [set_solver|by right]).
  - intros [= <- <- <-]. destruct answer as [items|err].
    + apply bounds_stay; try done; [set_solver|intros items' [= <-]; by apply Ha|by right].
    + apply bounds_stay; try done; [set_solver|by right].
  - intros [= <- <- <-]. apply bounds_stay; try done; [set_solver|by right].
  - specialize (Hr name h (cr :: items) Hn Epc). apply Forall_cons in Hr as [Hc Hi]. intros [= <- <- <-].
    destruct (String.eqb_spec (CurrentStatus cr) StatusRunning) as [He|_];
      (apply bounds_stay; try done; [..|by intros items' [= <-]|by right]).
    + unfold Store. rewrite dom_insert. set_solver.
    + unfold Store. rewrite dom_insert. specialize (Hc He). set_solver.
    + set_solver.
  - intros [= <- <- <-]. destruct (range_next visit (ct_admission c) wk);
      [|destruct (conflicts _ _ _ _)|]; (apply bounds_stay; try done; [set_solver|..|by right]).
    + intros k _ Hk. right. cbn in Hk. unfold others. by zbool.
    + by intros w [= <-].
  - intros [= <- <- <-]. by apply bounds_limit.
  - unfold Load. intros [= <- <- <-]. destruct (ct_admission c !! name) as [v|] eqn:Em;
      (apply bounds_stay; try done; [set_solver|..|by right]).
  - intros H. pose proof (bounds_admit X workers c name h below HB Hn Epc) as HA.
    destruct (LoadOrStore _ _ _) as [[v present] m']. by injection H as <- <- <-.
  - intros [= <- <- <-]. apply bounds_stay; try done; [set_solver|by right].
  - intros [= <- <- <-]. apply bounds_leave; [done|done|done|apply lookup_delete_eq|].
    unfold Delete. intros k [v [_ Hk]%lookup_delete_Some]. by exists v.
Qed.

Lemma admission_bounds_step (X : gset string) (workers : nat) (c c' : Controller) :
  step maxParallel workers (reports X) c c' ->
  admission_bounds maxParallel X workers c -> admission_bounds maxParallel X workers c'.
Proof.
  intros [c0 name asg pc Hf Hsz Hpc|c0 name h answer visit m locks next Hn Ha Hh] HB;
    [|by apply (admission_bounds_run X workers c0 name h answer visit)].
  destruct HB as [Hw Hp Hr Hst Hs Hl]. split; cbn.
  - rewrite map_size_insert_None by done. lia.
  - intros k h [[<- <-]|[_ Hk]]%lookup_insert_Some He; [by destruct Hpc as [-> | ->]|]. by apply (Hp k h).
  - intros k h items [[<- <-]|[_ Hk]]%lookup_insert_Some He; [by destruct Hpc as [-> | ->]|]. by apply (Hr k h).
  - intros k h w [[<- <-]|[_ Hk]]%lookup_insert_Some He; [by destruct Hpc as [-> | ->]|]. by apply (Hst k h).
  - intros k Hk. pose proof (entrants_insert X k (ct_handlers c0) name (mkHandler asg pc)
      ltac:(by destruct Hpc as [-> | ->])). specialize (Hs k Hk). lia.
  - intros k Hk. destruct (Hl k Hk) as (h & Hh & HL). exists h. split; [|done].
    rewrite lookup_insert_ne; [done|]. intros <-. congruence.
Qed.

Lemma admission_bounds_reachable (X : gset string) (workers : nat) (c : Controller) :
  (1 <= maxParallel + Z.of_nat workers)%Z ->
  rtc (step maxParallel workers (reports X)) empty_controller c ->
  admission_bounds maxParallel X workers c.
Proof.
  intros H1 HS. assert (admission_bounds maxParallel X workers empty_controller) as HI.
  { unfold empty_controller. split; cbn [ct_admission ct_locks ct_handlers].
    - rewrite map_size_empty. lia.
    - intros; simplify_map_eq.
    - intros; simplify_map_eq.
    - intros; simplify_map_eq.
    - intros k Hk. pose proof (entrants_le_size X k ∅) as HE. rewrite map_size_empty in HE. unfold others.
      replace (dom ∅ ∖ X) with (∅ : gset string) by set_solver. rewrite size_empty. lia.
    - intros name [v Hv]. simplify_map_eq. }
  induction HS as [c|c1 c2 c3 H12 _ IH]; [done|]. apply IH. by apply (admission_bounds_step X workers c1).
Qed.

Lemma advance_reach (X : gset string) (workers : nat) (c : Controller) (l : list string) :
  rtc (step maxParallel workers (reports X)) c (foldl (advance maxParallel) c l).
Proof.
  revert c. induction l as [|name l IH]; intros c; [done|]. cbn [foldl].
  transitivity (advance maxParallel c name); [|apply IH]. unfold advance.
  destruct (ct_handlers c !! name) as [h|] eqn:Hn; [|done].
  destruct (handler_step _ _ _ _ _ _ _ _) as [[m locks] next] eqn:Hs.
  apply rtc_once. apply (StepRun _ _ _ c name h (inl []) None); [done| |done]. intros items [= <-]. constructor.
Qed.

(** *** A handler alone *)
Lemma walk_complete (m : gmap string string) (w : Walk) : walk_ok m w -> wk_stable w ⊆ wk_seen w -> wk_seen w = dom m.
Proof. intros [H1 H2] H3. set_solver. Qed.

Lemma walk_complete_count (m : gmap string string) (w : Walk) :
  walk_ok m w -> wk_stable w ⊆ wk_seen w -> wk_count w = Z.of_nat (size m).
Proof. intros H1 H2. unfold wk_count. by rewrite (walk_complete m w H1 H2), size_dom. Qed.

Lemma new_walk_ok (m : gmap string string) : walk_ok m (new_walk m).
Proof. split; [done|]. cbn. set_solver. Qed.

Lemma saw_ok (m : gmap string string) (w : Walk) (k v : string) : m !! k = Some v -> walk_ok m w -> walk_ok m (saw k w).
Proof. intros Hk [H1 H2]. split; [done|]. cbn. assert (k ∈ dom m) by (by apply elem_of_dom; exists v). set_solver. Qed.

(** What a walk does next, when it is not disturbed. *)
Lemma range_next_cases (visit : option string) (m : gmap string string) (w : Walk) :
  walk_ok m w ->
  match range_next visit m w with
  | Stays => True
  | Visits k v => m !! k = Some v /\ walk_ok m (saw k w)
  | Ends => wk_seen w = dom m /\ wk_count w = Z.of_nat (size m)
  end.
Proof.
  intros Hw. unfold range_next. destruct visit as [k|].
  - destruct (m !! k) as [v|] eqn:Hk; [|done]. destruct (decide _); [done|]. split; [done|]. by apply (saw_ok m w k v).
  - destruct (decide _); [|done]. split; [by apply walk_complete|by apply walk_complete_count].
Qed.

Lemma no_conflict_seen (name asg : string) (m : gmap string string) (w : Walk) :
  wk_seen w = dom m -> (forall k v, k ∈ wk_seen w -> m !! k = Some v -> conflicts name asg k v = false) ->
  in_progress_elsewhere m name asg = false.
Proof.
  intros Hs HC. destruct (in_progress_elsewhere m name asg) eqn:Ei; [|done].
  apply in_progress_elsewhere_spec in Ei as (k & v & Hk & Hc). rewrite (HC k v) in Hc; [done| |done].
  rewrite Hs. apply elem_of_dom. by exists v.
Qed.

Lemma new_check_undisturbed (name asg : string) (m : gmap string string) : undisturbed name asg (PcCheck (new_walk m)) m.
Proof. split; [apply new_walk_ok|]. by intros k v ?%elem_of_empty. Qed.

(** An operation brings the handler nearer to the outcome it has in any case. *)
Lemma outcome_step (answer : list RollingUpgrade + error) (visit : option string) (name asg : string) (pc : Pc)
    (m locks : gmap string string) :
  undisturbed name asg pc m ->
  let '(m', locks', next) := handler_step maxParallel answer visit name asg pc m locks in
  match next with
  | Some pc' => undisturbed name asg pc' m' /\
      (alone_outcome maxParallel answer name asg pc m locks = alone_outcome maxParallel answer name asg pc' m' locks' \/
       pc = PcRotate /\ pc' = PcUpdate /\ m' = m /\ locks' = locks)
  | None => alone_outcome maxParallel answer name asg pc m locks = (m', locks', false)
  end.
Proof.
  intros HU. destruct pc as [| |w| |[|cr items]|w|w| |below| |]; cbn [handler_step undisturbed] in *.
  - done.
  - unfold LoadOrStore. cbn [alone_outcome]. destruct (locks !! name); [by split; [|left]|]. split; [apply new_walk_ok|by left].
  - pose proof (range_next_cases visit m w HU) as HR. destruct (range_next visit m w) as [|k v|]; [by split; [|left]|split; [apply HR|by left]|].
    destruct HR as [_ ->]. destruct (Z.eqb_spec (Z.of_nat (size m)) 0) as [H0|H0].
    + assert (m = ∅) as -> by (apply map_size_empty_inv; lia). split; [done|by left].
    + split; [apply new_check_undisturbed|left]. cbn. rewrite decide_False; [done|].
      intros ->. by rewrite map_size_empty in H0.
  - split; [by destruct answer|left; by destruct answer].
  - split; [apply new_check_undisturbed|by left].
  - split; [done|by left].
  - destruct HU as [HW HC]. pose proof (range_next_cases visit m w HW) as HR.
    destruct (range_next visit m w) as [|k v|]; [by split; [|left]|..].
    + destruct HR as [Hk HW']. destruct (conflicts name asg k v) eqn:Ec.
      * split; [done|left]. cbn. unfold check_outcome.
        by rewrite (proj2 (in_progress_elsewhere_spec m name asg)) by (by exists k, v).
      * split; [split; [done|]|by left]. cbn. intros k' v' [->%elem_of_singleton|Hs]%elem_of_union Hk'; [congruence|by apply HC].
    + destruct HR as [Hs _]. split; [apply new_walk_ok|left]. cbn. unfold check_outcome. by rewrite (no_conflict_seen name asg m w Hs HC).
  - pose proof (range_next_cases visit m w HU) as HR. destruct (range_next visit m w) as [|k v|]; [by split; [|left]|split; [apply HR|by left]|].
    destruct HR as [_ ->]. split; [by destruct (_ <=? _)%Z|left]. cbn. by destruct (_ <=? _)%Z.
  - split; [by destruct (Load m name)|left]. unfold Load. cbn. by destruct (m !! name).
  - unfold LoadOrStore. cbn. unfold admit_outcome, LoadOrStore. destruct (m !! name); by split; [|left].
  - split; [done|by right].
  - done.
Qed.

(** If it returns, the outcome is the one specified. *)
Lemma run_alone_outcome (answer : list RollingUpgrade + error) (visits : list (option string)) (name asg : string) (pc : Pc)
    (rotated : bool) (m locks : gmap string string) res :
  undisturbed name asg pc m -> run_alone maxParallel answer visits name asg pc rotated m locks = Some res ->
  let '(m', locks', b) := alone_outcome maxParallel answer name asg pc m locks in res = (m', locks', rotated || b).
Proof.
  revert pc rotated m locks. induction visits as [|visit visits IH]; intros pc rotated m locks HU HR; cbn [run_alone] in HR; [done|].
  pose proof (outcome_step answer visit name asg pc m locks HU) as HO.
  destruct (handler_step maxParallel answer visit name asg pc m locks) as [[m' locks'] [pc'|]] eqn:Eh.
  - destruct HO as [HU' HO]. specialize (IH pc' _ m' locks' HU' HR). destruct HO as [HO|(-> & -> & -> & ->)].
    + rewrite HO. destruct pc; try done. by injection Eh as <- <- <-.
    + cbn in IH |- *. by rewrite orb_true_r.
  - rewrite HO, orb_false_r. destruct pc; try done; by injection HR as <-.
Qed.

(** And it returns: some choices of its walks bring it to the end. *)
Definition finishes (answer : list RollingUpgrade + error) (name asg : string) (pc : Pc) (m locks : gmap string string) : Prop :=
  forall rotated, exists visits, is_Some (run_alone maxParallel answer visits name asg pc rotated m locks).

Lemma finishes_step (answer : list RollingUpgrade + error) (visit : option string) (name asg : string) (pc : Pc) (m locks : gmap string string) :
  (let '(m', locks', next) := handler_step maxParallel answer visit name asg pc m locks in
   match next with Some pc' => finishes answer name asg pc' m' locks' | None => True end) ->
  finishes answer name asg pc m locks.
Proof.
  intros H rotated. destruct (handler_step _ _ _ _ _ _ _ _) as [[m' locks'] [pc'|]] eqn:Eh.
  - destruct (H (match pc with PcRotate => true | _ => rotated end)) as (visits & Hv). exists (visit :: visits).
    cbn [run_alone]. by rewrite Eh.
  - exists [visit]. cbn [run_alone]. by rewrite Eh.
Qed.

(** A walk that visits what it has not seen ends. *)
Lemma finishes_walk (answer : list RollingUpgrade + error) (name asg : string) (W : Walk -> Pc) (m locks : gmap string string) (w : Walk) :
  (forall w, walk_ok m w -> wk_stable w ⊆ wk_seen w -> finishes answer name asg (W w) m locks) ->
  (forall w k v, m !! k = Some v -> k ∉ wk_seen w ->
     finishes answer name asg (W (saw k w)) m locks -> finishes answer name asg (W w) m locks) ->
  walk_ok m w -> finishes answer name asg (W w) m locks.
Proof.
  intros HE HV. remember (size (dom m ∖ wk_seen w)) as n eqn:Hn. revert w Hn.
  induction n as [|n IH]; intros w Hn Hw.
  - apply HE; [done|]. destruct Hw as [-> _]. symmetry in Hn. apply size_empty_iff in Hn. set_solver.
  - destruct (size_pos_elem_of (dom m ∖ wk_seen w)) as [k [Hk Hs]%elem_of_difference]; [lia|].
    pose proof Hk as [v Hv]%elem_of_dom. apply (HV w k v Hv Hs). apply IH; [|by apply (saw_ok m w k v)]. cbn.
    replace (dom m ∖ ({[k]} ∪ wk_seen w)) with ((dom m ∖ wk_seen w) ∖ {[k]}) by set_solver.
    rewrite size_difference by set_solver. rewrite size_singleton. lia.
Qed.

Lemma range_visits (m : gmap string string) (w : Walk) (k v : string) :
  m !! k = Some v -> k ∉ wk_seen w -> range_next (Some k) m w = Visits k v.
Proof. intros Hk Hs. unfold range_next. by rewrite Hk, decide_False. Qed.

Lemma range_ends (m : gmap string string) (w : Walk) : wk_stable w ⊆ wk_seen w -> range_next None m w = Ends.
Proof. intros Hs. unfold range_next. by rewrite decide_True. Qed.

Lemma finishes_check (answer : list RollingUpgrade + error) (name asg : string) (m locks : gmap string string) :
  finishes answer name asg (PcCheck (new_walk m)) m locks.
Proof.
  assert (finishes answer name asg PcUpdate m locks) as FU by (by apply (finishes_step answer None)).
  assert (forall m b, finishes answer name asg (PcAdmit b) m locks) as FA.
  { intros m0 b. apply (finishes_step answer None). cbn. destruct (LoadOrStore m0 name asg) as [[v p] m1].
    apply (finishes_step answer None). cbn. by apply (finishes_step answer None). }
  apply finishes_walk; [..|apply new_walk_ok].
  - intros w _ Hs. apply (finishes_step answer None). cbn [handler_step]. rewrite range_ends by done. apply finishes_walk; [..|apply new_walk_ok].
    + clear w Hs. intros w _ Hs. apply (finishes_step answer None). cbn [handler_step]. rewrite range_ends by done. destruct (_ <=? _)%Z; [|apply FA].
      apply (finishes_step answer None). cbn. unfold Load. by destruct (m !! name).
    + clear w Hs. intros w k v Hk Hs HF. apply (finishes_step answer (Some k)). cbn [handler_step]. by rewrite (range_visits m w k v).
  - intros w k v Hk Hs HF. apply (finishes_step answer (Some k)). cbn [handler_step]. rewrite (range_visits m w k v) by done. by destruct (conflicts _ _ _ _).
Qed.

Lemma finishes_store (answer : list RollingUpgrade + error) (name asg : string) (items : list RollingUpgrade) (m locks : gmap string string) :
  finishes answer name asg (PcStore items) m locks.
Proof.
  revert m. induction items as [|cr items IH]; intros m; apply (finishes_step answer None); cbn; [apply finishes_check|].
  destruct (String.eqb _ _); apply IH.
Qed.

Lemma finishes_entry (answer : list RollingUpgrade + error) (name asg : string) (pc : Pc) (m locks : gmap string string) :
  pc = PcLock \/ pc = PcRemove -> finishes answer name asg pc m locks.
Proof.
  intros [-> | ->]; [|by apply (finishes_step answer None)]. apply (finishes_step answer None). cbn.
  destruct (LoadOrStore locks name asg) as [[v [|]] locks']; [by apply (finishes_step answer None)|].
  apply finishes_walk; [..|apply new_walk_ok].
  - intros w _ Hs. apply (finishes_step answer None). cbn [handler_step]. rewrite range_ends by done. destruct (_ =? _)%Z; [|apply finishes_check].
    apply (finishes_step answer None). cbn. destruct answer; [apply finishes_store|by apply (finishes_step _ None)].
  - intros w k u Hk Hs HF. apply (finishes_step answer (Some k)). cbn [handler_step]. by rewrite (range_visits m w k u).
Qed.
End admission_lemmas.

(** *** The sequential handler *)
Section sequential.
Context `{E : Env}.

Lemma admit_alone (asg : string) (r : Reconciler) (locks : gmap string string) :
  let name := NamespacedName (rc_ru r) in
  let '(m, locks', rotated) := check_outcome (rc_maxParallel r) name asg (rc_AdmissionMap r) locks in
  locks' = Delete locks name /\ rc_AdmissionMap (admit_or_requeue asg r).2 = m /\
  if (rotated : bool) then is_Some (m !! name) /\ exists present, admit_or_requeue asg r = rotate_admitted present (upd_AdmissionMap (fun _ => m) r)
  else admit_or_requeue asg r = (Val (DefaultRequeueTime, None), r).
Proof.
  intros name. unfold check_outcome, admit_or_requeue. rewrite (bind_val _ _ r r r) by done. cbv zeta. fold name.
  destruct (in_progress_elsewhere _ _ _); [done|]. rewrite GetSyncMapLen_size. unfold Load.
  replace (bool_decide (rc_AdmissionMap r !! name = None)) with (match rc_AdmissionMap r !! name with None => true | Some _ => false end)
    by (by destruct (rc_AdmissionMap r !! name)).
  destruct (_ && _)%bool; [done|]. unfold admit_outcome. pose proof (reconcile_admitted_rest asg r) as HR. fold name in HR.
  destruct (LoadOrStore (rc_AdmissionMap r) name asg) as [[v present] m] eqn:El. cbn. rewrite HR. split; [done|].
  split; [|split; [|by exists present]].
  - pose proof (rotate_admitted_admission present (upd_AdmissionMap (fun _ => m) r)) as HK. by injection HK.
  - unfold LoadOrStore in El. destruct (rc_AdmissionMap r !! name) eqn:Em; injection El as _ _ <-; [by rewrite Em|by rewrite lookup_insert_eq].
Qed.

(** The recovery, in both cases. *)
Lemma recover_alone (r : Reconciler) :
  recover_admitted r =
    if decide (rc_AdmissionMap r = ∅) then
      let '(l, w) := svc_ListRollingUpgrades LabelKeyRollingUpgradeCurrentStatus StatusRunning (rc_world r) in
      let r' := set_trace w (rc_calls r ++ [CallListRollingUpgrades LabelKeyRollingUpgradeCurrentStatus StatusRunning]) r in
      match l with
      | inl items => (Val None, upd_AdmissionMap (fun _ => store_all (rc_AdmissionMap r) items) r')
      | inr err => (Val (Some err), r')
      end
    else (Val None, r).
Proof.
  unfold recover_admitted. rewrite (bind_val _ _ r r r) by done. destruct (decide _) as [H0|H0].
  - rewrite H0. change (GetSyncMapLen ∅ =? 0)%Z with true. cbv iota. unfold rcall, mbind, M_bind.
    destruct (svc_ListRollingUpgrades _ _ (rc_world r)) as [[items|err] w]; [|done].
    rewrite recover_stores. cbn. by rewrite H0.
  - destruct (_ =? 0)%Z eqn:E0; [|done]. zbool. by apply map_len_0 in E0.
Qed.

(** The reconcile that gave [x] left the map [m]; it rotated with the resource locked, or only kept the books. *)
Definition as_decided (name : string) (r : Reconciler) (m : gmap string string) (rotated : bool)
    (x : outcome (Result * option error) * Reconciler) : Prop :=
  rc_AdmissionMap x.2 = m /\
  if rotated then is_Some (m !! name) /\ exists present r1, x = rotate_admitted present r1 /\ rc_AdmissionMap r1 = m /\ is_Some (rc_ReconcileMap r1 !! name)
  else rc_emits bookkeeping r x.2.

(** The checks, on the map the recovery leaves. *)
Lemma checks_alone (asg : string) (r r3 : Reconciler) :
  let name := NamespacedName (rc_ru r) in
  recover_admitted r = (Val None, r3) -> is_Some (rc_ReconcileMap r !! name) ->
  let '(m, locks, rotated) := check_outcome (rc_maxParallel r3) name asg (rc_AdmissionMap r3) (rc_ReconcileMap r) in
  locks = Delete (rc_ReconcileMap r) name /\ as_decided name r m rotated (admit_or_requeue asg r3).
Proof.
  intros name HR HL. pose proof (recover_identity r) as Hi. pose proof (recover_emits r) as He.
  pose proof (recover_keeps rc_ReconcileMap ltac:(done) ltac:(done) r) as Hk. rewrite HR in Hi, He, Hk. cbn [snd] in Hi, He, Hk.
  apply identity_names in Hi as [Hi _]. pose proof (admit_alone asg r3 (rc_ReconcileMap r)) as HX. cbv zeta in HX.
  rewrite Hi in HX. fold name in HX. destruct (check_outcome _ _ _ _ _) as [[m locks] rotated]. destruct HX as (-> & HX1 & HX2).
  split; [done|]. split; [done|]. destruct rotated.
  - destruct HX2 as [HS [present ->]]. split; [done|]. exists present. eexists. split; [done|]. split; [done|]. cbn. by rewrite Hk.
  - by rewrite HX2.
Qed.

Lemma as_decided_from (name : string) (r r' : Reconciler) (m : gmap string string) (rotated : bool) x :
  rc_emits bookkeeping r r' -> as_decided name r' m rotated x -> as_decided name r m rotated x.
Proof. intros H1 [H2 H3]. split; [done|]. destruct rotated; [done|]. by transitivity r'. Qed.

(** The part under the lock does what the operations do, one after the other. *)
Lemma reconcile_valid_alone (status : string) (r : Reconciler) :
  let name := NamespacedName (rc_ru r) in
  let answer := (svc_ListRollingUpgrades LabelKeyRollingUpgradeCurrentStatus StatusRunning (rc_world r)).1 in
  let '(m, locks, rotated) :=
    alone_outcome (rc_maxParallel r) answer name (ScalingGroupName (rc_ru r)) PcLock (rc_AdmissionMap r) (rc_ReconcileMap r) in
  locks = delete name (rc_ReconcileMap r) /\ as_decided name r m rotated (reconcile_valid status r).
Proof.
  intros name answer. destruct (initialised_same status r) as (Hid & Hc & Hm & Hp & Hwd & Hrm). cbn [alone_outcome]. fold name.
  destruct (rc_ReconcileMap r !! name) as [asg0|] eqn:HL.
  { unfold stop_outcome. rewrite (reconcile_valid_busy status r asg0 HL). split; [done|]. split; [exact Hm|].
    exists []. cbn. by rewrite Hc, app_nil_r. }
  rewrite reconcile_valid_free by done. set (asg := ScalingGroupName (rc_ru r)). set (r2 := locked status r).
  assert (NamespacedName (rc_ru r2) = name) as Hn by (apply identity_names in Hid as [Hid _]; exact Hid).
  assert (rc_ReconcileMap r2 = <[name := asg]> (rc_ReconcileMap r)) as Hrm2 by (cbn; by rewrite Hrm).
  assert (rc_emits bookkeeping r r2) as Hr2 by (exists []; cbn; by rewrite Hc, app_nil_r).
  assert (rc_AdmissionMap r2 = rc_AdmissionMap r) as Hm2 by exact Hm. assert (rc_world r2 = rc_world r) as Hw2 by exact Hwd.
  pose proof (recover_alone r2) as HR. pose proof (recover_emits r2) as He.
  pose proof (fun r3 => checks_alone asg r2 r3) as HA. cbv zeta in HA. rewrite Hn, Hrm2 in HA.
  assert (forall r3, recover_admitted r2 = (Val None, r3) -> rc_maxParallel r3 = rc_maxParallel r ->
    let '(m, locks, rotated) := check_outcome (rc_maxParallel r) name asg (rc_AdmissionMap r3) (<[name := asg]> (rc_ReconcileMap r)) in
    locks = delete name (rc_ReconcileMap r) /\
    as_decided name r m rotated ((recover_admitted ≫= (fun err => match err with
      Some err => mret (no_requeue, Some err) | None => admit_or_requeue asg end)) r2)) as HB.
  { intros r3 HR3 Hp3. rewrite (bind_val _ _ r2 r3 None) by done. specialize (HA r3 HR3). rewrite Hp3 in HA.
    rewrite lookup_insert_eq in HA. destruct (check_outcome _ _ _ _ _) as [[m locks] rotated].
    destruct HA as [-> HD]; [by eexists|]. split; [apply delete_insert_eq|]. by apply (as_decided_from name r r2). }
  rewrite Hm2, Hw2 in HR. destruct (decide (rc_AdmissionMap r = ∅)) as [H0|H0].
  - unfold answer. destruct (svc_ListRollingUpgrades _ _ (rc_world r)) as [[items|err] w]; [exact (HB _ HR Hp)|].
    unfold stop_outcome. rewrite (bind_val _ _ r2 _ _ HR). split; [apply delete_insert_eq|]. split; [exact Hm2|].
    rewrite HR in He. by transitivity r2.
  - specialize (HB _ HR Hp). by rewrite Hm2 in HB.
Qed.

Lemma deferred_eq {S A} (m m' : M S A) (d : M S unit) (s s' : S) : m s = m' s' -> deferred m d s = deferred m' d s'.
Proof. intros H. unfold deferred. by rewrite H. Qed.
(** The deferred update changes neither the decision nor the map. *)
Lemma deferred_decided (name req status : string) (w : World) (ru : RollingUpgrade) (r : Reconciler) (m : gmap string string) (rotated : bool) :
  name = NamespacedName ru ->
  as_decided name (fetched req w ru r) m rotated (reconcile_valid status (fetched req w ru r)) ->
  let x := deferred (reconcile_valid status) Update (fetched req w ru r) in
  rc_AdmissionMap x.2 = m /\ rc_ReconcileMap x.2 = delete name (rc_ReconcileMap r) /\
  if rotated then exists present r1, x = deferred (rotate_admitted present) Update r1 /\
    rc_AdmissionMap r1 = m /\ is_Some (m !! name) /\ is_Some (rc_ReconcileMap r1 !! name)
  else rc_emits bookkeeping r x.2.
Proof.
  intros -> [H1 H2] x. unfold x. rewrite deferred_run. set (r1 := (reconcile_valid status (fetched req w ru r)).2) in *.
  pose proof (Update_admission r1) as HU. injection HU as HU _. destruct (Update_run r1) as (_ & _ & HL).
  assert (NamespacedName (rc_ru r1) = NamespacedName ru) as Hn
    by (pose proof (reconcile_valid_identity status (fetched req w ru r)) as Hi; apply identity_names in Hi as [Hi _]; exact Hi).
  pose proof (reconcile_valid_lock status (fetched req w ru r)) as HK. fold r1 in HK. cbn [fetched rc_ru upd_current] in HK.
  split; [by rewrite HU|]. split; [by rewrite HL, Hn, HK|]. destruct rotated.
  - destruct H2 as (HS & present & r2 & HE & HM & HL2). exists present, r2. split; [by apply deferred_eq|done].
  - transitivity (fetched req w ru r); [exists [CallGetRollingUpgrade req]; split; [done|by repeat constructor]|]. transitivity r1; [done|]. by apply Update_emits.
Qed.

Lemma one_request (req : string) (w : World) (f : gmap string string -> gmap string string) (r : Reconciler) :
  rc_emits bookkeeping r (set_trace w (rc_calls r ++ [CallGetRollingUpgrade req]) r) /\
  rc_emits bookkeeping r (upd_AdmissionMap f (set_trace w (rc_calls r ++ [CallGetRollingUpgrade req]) r)).
Proof. split; exists [CallGetRollingUpgrade req]; (split; [done|by repeat constructor]). Qed.

Lemma handler_entry_pc (req : string) (got : RollingUpgrade + error) (name : string) (h : Handler) :
  handler_entry req got = Some (name, h) -> h_pc h = PcLock \/ h_pc h = PcRemove.
Proof.
  unfold handler_entry. destruct got as [ru|err]; [|destruct (err_not_found err); [|done]; intros [= <- <-]; by right].
  destruct (is_deleted ru); [intros [= <- <-]; by right|]. destruct (ContainsEqualFold _ _); [intros [= <- <-]; by right|].
  destruct (Validate ru) as [ru' [e|]]; [done|]. intros [= <- <-]. by left.
Qed.

(** A handler that enters works on a live resource, or removes one. *)
Lemma handler_entry_cases (req : string) (r : Reconciler) (got : RollingUpgrade + error) (w : World) (name : string) (h : Handler) :
  svc_GetRollingUpgrade req (rc_world r) = (got, w) -> handler_entry req got = Some (name, h) ->
  (exists ru, got = inl ru /\ workable ru /\ name = NamespacedName ru /\ h = mkHandler (ScalingGroupName ru) PcLock) \/
  (h_pc h = PcRemove /\
   (Reconcile req r).2 = upd_AdmissionMap (fun m => Delete m name) (set_trace w (rc_calls r ++ [CallGetRollingUpgrade req]) r)).
Proof.
  intros HG. unfold handler_entry, Reconcile, rcall, mbind, M_bind. rewrite HG. cbv beta iota zeta.
  destruct got as [ru|err]; [|destruct (err_not_found err); [|done]; intros [= <- <-]; by right].
  destruct (is_deleted ru) eqn:Hd; [intros [= <- <-]; by right|].
  destruct (ContainsEqualFold _ _) eqn:Hf; [intros [= <- <-]; by right|].
  destruct (Validate ru) as [ru' [e|]] eqn:Hv; [done|]. intros [= <- <-]. left. exists ru. unfold workable. by rewrite Hv.
Qed.

Lemma handler_entry_none (req : string) (r : Reconciler) (got : RollingUpgrade + error) (w : World) :
  svc_GetRollingUpgrade req (rc_world r) = (got, w) -> handler_entry req got = None ->
  (Reconcile req r).2 = set_trace w (rc_calls r ++ [CallGetRollingUpgrade req]) r.
Proof.
  intros HG. unfold handler_entry, Reconcile, rcall, mbind, M_bind. rewrite HG. cbv beta iota zeta.
  destruct got as [ru|err]; [|by destruct (err_not_found err)].
  destruct (is_deleted ru); [done|]. destruct (ContainsEqualFold _ _); [done|]. by destruct (Validate ru) as [ru' [e|]].
Qed.
End sequential.

(** ** Theorems *)
Section admission_theorems.
Context `{E : Env}.

(** C26: a handler that is not interleaved with another one is the sequential
    [Reconcile], for every request, resource and state of the maps, the recovery and a lock that is held
    included.  Where [Reconcile] returns before its first operation on the maps they stay as they are.
    Otherwise the operations come to an end, and whichever keys the walks visit first they leave both maps as
    [Reconcile] does; they rotate exactly when [Reconcile] does, which then is the rotation with the resource admitted
    and locked, followed by the deferred update, and has otherwise made no request that changes the cluster or the cloud. *)
Theorem handler_alone (req : string) (r : Reconciler) :
  let '(got, w) := svc_GetRollingUpgrade req (rc_world r) in
  let answer := (svc_ListRollingUpgrades LabelKeyRollingUpgradeCurrentStatus StatusRunning w).1 in
  let r' := (Reconcile req r).2 in
  match handler_entry req got with
  | None => (rc_AdmissionMap r', rc_ReconcileMap r') = (rc_AdmissionMap r, rc_ReconcileMap r) /\ rc_emits bookkeeping r r'
  | Some (name, h) =>
      let alone visits := run_alone (rc_maxParallel r) answer visits name (h_asg h) (h_pc h) false (rc_AdmissionMap r) (rc_ReconcileMap r) in
      (exists visits, is_Some (alone visits)) /\
      forall visits m locks rotated, alone visits = Some (m, locks, rotated) ->
        rc_AdmissionMap r' = m /\ rc_ReconcileMap r' = locks /\
        if rotated then exists present r1, Reconcile req r = deferred (rotate_admitted present) Update r1 /\
          rc_AdmissionMap r1 = m /\ is_Some (m !! name) /\ is_Some (rc_ReconcileMap r1 !! name)
        else rc_emits bookkeeping r r'
  end.
Proof.
  destruct (svc_GetRollingUpgrade req (rc_world r)) as [got w] eqn:HG. intros answer r'.
  destruct (handler_entry req got) as [[name h]|] eqn:HE.
  - intros alone. assert (h_pc h = PcLock \/ h_pc h = PcRemove) as Hpc by (by apply handler_entry_pc in HE).
    split; [by apply finishes_entry|]. intros visits m locks rotated HA.
    apply run_alone_outcome in HA; [|by destruct Hpc as [-> | ->]].
    destruct (handler_entry_cases req r got w name h HG HE) as [(ru & -> & HW & -> & ->)|(Hp & HR)].
    + destruct (Reconcile_workable req r ru w HG HW) as (ru' & Hv & HR). destruct (Validate_identity ru ru' Hv) as [Hn Ha].
      pose proof (reconcile_valid_alone (CurrentStatus ru) (fetched req w ru' r)) as HV. cbn in HV. rewrite Hn, Ha in HV.
      cbn [h_asg h_pc] in HA. fold answer in HV. cbn [alone_outcome] in HA.
      destruct (match rc_ReconcileMap r !! NamespacedName ru with Some _ => _ | None => _ end) as [[m0 locks0] b].
      destruct HV as [-> HD]. injection HA as -> -> ->. unfold r'. rewrite HR. by apply deferred_decided.
    + rewrite Hp in HA. cbn in HA. injection HA as -> -> ->. unfold r'. rewrite HR. split; [done|]. split; [done|].
      by apply (one_request req w).
  - assert (r' = set_trace w (rc_calls r ++ [CallGetRollingUpgrade req]) r) as -> by (by apply (handler_entry_none req r got w)).
    split; [done|]. by apply (one_request req w id).
Qed.

(** C25: with several workers and any interleaving of their operations, whatever List answers: if the resources it
    ever reported as running are among [X], the admitted resources outside [X] exceed maxParallel by at most the number
    of workers less one, so the limit fails by no more than the workers that were counting at the same time.
    And since the work queue runs one handler per resource, a handler never finds the lock of its resource taken. *)
Theorem concurrent_limits (maxParallel : Z) (workers : nat) (X : gset string) (c : Controller) :
  (1 <= maxParallel + Z.of_nat workers)%Z ->
  rtc (step maxParallel workers (reports X)) empty_controller c ->
  (Z.of_nat (size (dom (ct_admission c) ∖ X)) <= maxParallel + Z.of_nat workers - 1)%Z /\
  (forall name h, ct_handlers c !! name = Some h -> h_pc h = PcLock -> ct_locks c !! name = None).
Proof.
  intros H1 HS. destruct (admission_bounds_reachable maxParallel X workers c H1 HS) as [_ _ _ _ Hs Hl]. split.
  - specialize (Hs (maxParallel - 1)%Z ltac:(lia)). unfold others, entrants in Hs. lia.
  - intros name h Hn Hpc. apply eq_None_not_Some. intros (h' & Hh & HL)%Hl.
    rewrite Hn in Hh. injection Hh as <-. by rewrite Hpc in HL.
Qed.
End admission_theorems.

(** C36: the conflict check and the store are separate
    operations, and the lock is per resource, so two workers can admit and rotate two
    resources of the same scaling group at the same time. *)
Theorem racing_admissions :
  let E := sample_env upgrades_scenario in
  exists c, rtc (@step E 2 2 (reports ∅)) empty_controller c /\
    ct_admission c = {["default/a" := "asg-1"; "default/b" := "asg-1"]} /\
    ct_handlers c !! "default/a" = Some (mkHandler "asg-1" PcRotate) /\
    ct_handlers c !! "default/b" = Some (mkHandler "asg-1" PcRotate).
Proof.
  intros E.
  set (c0 := start "default/b" "asg-1" (start "default/a" "asg-1" empty_controller)).
  exists (foldl (@advance E 2) c0
    (replicate 6 "default/a" ++ replicate 6 "default/b" ++ ["default/a"; "default/b"])).
  split; [|vm_compute; auto]. transitivity c0; [|apply (@advance_reach E)].
  transitivity (start "default/a" "asg-1" empty_controller); apply rtc_once.
  - apply StepStart; [reflexivity|vm_compute; lia|by left].
  - apply StepStart; [reflexivity|vm_compute; lia|by left].
Qed.

(** ** Witnesses *)

(** One resource may be admitted at a time; two workers admit two. *)
Lemma concurrent_limits_witness :
  let E := sample_env upgrades_scenario in
  let c := foldl (@advance E 1) (start "default/b" "asg-2" (start "default/a" "asg-1" empty_controller))
             (replicate 6 "default/a" ++ replicate 6 "default/b" ++ ["default/a"; "default/b"]) in
  size (dom (ct_admission c)) = 2%nat /\ (Z.of_nat (size (dom (ct_admission c) ∖ ∅)) <= 2)%Z.
Proof.
  intros E c. split; [vm_compute; reflexivity|].
  refine (proj1 (@concurrent_limits E 1 2 ∅ c _ _)); [lia|].
  apply rtc_l with (start "default/a" "asg-1" empty_controller); [apply StepStart; [reflexivity|vm_compute; lia|by left]|].
  apply rtc_l with (start "default/b" "asg-2" (start "default/a" "asg-1" empty_controller));
    [apply StepStart; [reflexivity|vm_compute; lia|by left]|].
  apply (@advance_reach E).
Defined.
