(* ===== verification/Lifecycle.v ===== *)
(** * The status as a typed record: what is written back is well formed

    The status of a resource is strings, maps and slices; the handlers only ever put
    certain values there.  [typed_status] says which: the phases, the steps of the nodes in processing under
    their own names, one statistic per step within the machine integers.  The maps the drain
    goroutines hold are part of it, because [UpdateMetricsStatus] puts them into the status.
    Every operation of a rotation preserves it ([evolves]), and so does [Reconcile]. *)
From S2P Require Import Prelude GoStrings GoTime Common Types AwsProvider KubeProvider Metrics Registry Env SampleEnv.
From S2P Require Import AwsClient KubeClient Cloud Steps Drift Uniform Targets Balloon Cordon Drain.
From S2P Require Import Replace Rotate Reconciler.

(** ** The types *)
Definition phases : list string := [""; StatusInit; StatusRunning; StatusComplete; StatusError].

(** How far a phase is in the life of a resource. *)
Definition phase_rank (status : string) : nat :=
  if String.eqb status "" then 0
  else if String.eqb status StatusInit then 1
  else if String.eqb status StatusRunning then 2
  else 3.

(** A node in processing is stored under its name and is at one of the steps. *)
Definition typed_nodes (m : gmap string NodeInProcessing) : Prop :=
  forall k n, m !! k = Some n -> nip_NodeName n = k /\ nip_StepName n ∈ node_steps.

(** A measured duration: an int64 of a step, or of the total. *)
Definition typed_duration (d : NodeStepDuration) : Prop :=
  nsd_StepName d ∈ NodeRotationTotal :: node_steps /\ in_int64 (nsd_Duration d).

Definition typed_steps (m : gmap string (list NodeStepDuration)) : Prop :=
  forall k l, m !! k = Some l -> Forall typed_duration l.

Definition typed_stat (s : RollingUpgradeStatistics) : Prop :=
  stat_StepName s ∈ NodeRotationTotal :: node_steps /\ in_int64 (stat_DurationSum s) /\
  in_int32 (stat_DurationCount s).

Record typed_status (st : RollingUpgradeStatus) : Prop := {
  ts_phase : st_CurrentStatus st ∈ phases;
  ts_nodes : forall m, st_NodeInProcessing st = Some m -> typed_nodes m;
  ts_unique : stats_unique (st_Statistics st);
  ts_stats : Forall typed_stat (st_Statistics st);
}.

(** The maps of a call of [ReplaceNodeBatch]. *)
Record typed_maps (cm : CallMaps) : Prop := {
  tm_nodes : forall m, cm_inProcessing cm = Some m -> typed_nodes m;
  tm_steps : typed_steps (cm_nodeSteps cm);
}.

Section typed.
Context `{E : Env}.

Record typed_state (s : St) : Prop := {
  ty_status : typed_status (ru_Status (s_ru s));
  ty_maps : Forall typed_maps (s_maps s);
}.

(** Only the deferred update writes the status. *)
Definition status_free (c : Call) : Prop := match c with CallStatusUpdate _ => False | _ => True end.

(** What an operation of a rotation does: it keeps the types, it keeps the phase or sets one of
    the three that are not initial, and it does not write the status itself. *)
Record evolves (s s' : St) : Prop := {
  ev_typed : typed_state s -> typed_state s';
  ev_phase : CurrentStatus (s_ru s') = CurrentStatus (s_ru s) \/
    CurrentStatus (s_ru s') ∈ [StatusRunning; StatusComplete; StatusError];
  ev_calls : emits status_free s s';
}.

(** The goroutines of every resource hold typed maps. *)
Definition typed_drains (r : Reconciler) : Prop :=
  forall name dm maps, rc_drains r !! name = Some (dm, maps) -> Forall typed_maps maps.

(** The same for the handler. *)
Record rc_evolves (r r' : Reconciler) : Prop := {
  re_typed : typed_drains r /\ typed_status (ru_Status (rc_ru r)) ->
    typed_drains r' /\ typed_status (ru_Status (rc_ru r'));
  re_phase : CurrentStatus (rc_ru r') = CurrentStatus (rc_ru r) \/
    CurrentStatus (rc_ru r') ∈ [StatusRunning; StatusComplete; StatusError];
  re_calls : rc_emits status_free r r';
}.

#[export] Instance evolves_preorder : PreOrder evolves.
Proof.
  split; [by constructor; [|left|]|]. intros x y z [T1 P1 C1] [T2 P2 C2].
  split; [auto| |by transitivity y]. destruct P2 as [->|P2]; [done|by right].
Qed.

#[export] Instance rc_evolves_preorder : PreOrder rc_evolves.
Proof.
  split; [by constructor; [|left|]|]. intros x y z [T1 P1 C1] [T2 P2 C2].
  split; [auto| |by transitivity y]. destruct P2 as [->|P2]; [done|by right].
Qed.
End typed.

(** ** Steps and statistics *)
Lemma TimeSub_range (t u : Time) : in_int64 (TimeSub t u).
Proof. unfold TimeSub, in_int64, min_int64, max_int64. lia. Qed.

Lemma addNodeStepDuration_typed (m : gmap string (list NodeStepDuration)) (node : string) (d : NodeStepDuration) :
  typed_steps m -> typed_duration d -> typed_steps (addNodeStepDuration m node d).
Proof.
  intros Hm Hd k l. unfold addNodeStepDuration.
  destruct (m !! node) as [l0|] eqn:E0; destruct (decide (k = node)) as [->|Hk];
    rewrite ?lookup_insert_eq, ?lookup_insert_ne by done; eauto; intros [= <-].
  - apply Forall_app. split; [by eapply Hm|by constructor].
  - by constructor.
Qed.

Lemma DoNodeStep_typed {UC : UnicodeCase} now1 now2 group node step t (s : StepState) :
  step ∈ node_steps -> typed_nodes (ss_inProcessing s) -> typed_steps (ss_nodeSteps s) ->
  typed_nodes (ss_inProcessing (DoNodeStep now1 now2 group node step t s)) /\
  typed_steps (ss_nodeSteps (DoNodeStep now1 now2 group node step t s)).
Proof.
  intros Hst Hn Hs. unfold DoNodeStep.
  set (n0 := match ss_inProcessing s !! node with None => _ | Some n => n end).
  assert (nip_NodeName n0 = node /\ nip_StepName n0 ∈ node_steps) as [H1 H2].
  { unfold n0. destruct (ss_inProcessing s !! node) as [n|] eqn:En; [by apply Hn|done]. }
  assert (forall name d, name ∈ node_steps -> in_int64 d ->
    typed_duration (mkNodeStepDuration group node name d)) as HD
    by (intros name d Hname Hd; split; [by right|done]).
  assert (forall n, nip_NodeName n = node -> nip_StepName n ∈ node_steps ->
    typed_nodes (<[node := n]> (ss_inProcessing s))) as HI.
  { intros n Hn1 Hn2 k n'. destruct (decide (k = node)) as [->|Hk];
      [rewrite lookup_insert_eq; by intros [= <-]|rewrite lookup_insert_ne by done; apply Hn]. }
  destruct (String.eqb step NodeRotationCompleted); [|destruct (_ && _)%bool]; cbn; split; auto.
  - intros k n'. rewrite lookup_delete_Some. intros [_ H]. by apply Hn.
  - repeat apply addNodeStepDuration_typed; [done|apply HD; [done|apply TimeSub_range]|].
    split; [by left|apply TimeSub_range].
  - apply addNodeStepDuration_typed; [done|]. apply HD; [done|apply TimeSub_range].
Qed.

Lemma int64_range (z : Z) : in_int64 (int64 z).
Proof. pose proof (wrap_range 64 z eq_refl). unfold in_int64, min_int64, max_int64, int64. lia. Qed.

Lemma int32_range (z : Z) : in_int32 (int32 z).
Proof. pose proof (wrap_range 32 z eq_refl). unfold in_int32, int32. lia. Qed.

Lemma AddNodeStepDuration_typed (d : NodeStepDuration) (stats : list RollingUpgradeStatistics) :
  typed_duration d -> Forall typed_stat stats -> Forall typed_stat (AddNodeStepDuration d stats).
Proof.
  intros [H1 H2] H. induction H as [|s stats [Hn Hs] Hl IH]; cbn.
  - constructor; [|done]. split; [done|]. split; [done|]. unfold in_int32. cbn. lia.
  - destruct (String.eqb _ _); constructor; [|done|done|done].
    split; [done|]. split; [apply int64_range|apply int32_range].
Qed.

Lemma add_all_typed (l : list NodeStepDuration) (stats : list RollingUpgradeStatistics) :
  Forall typed_duration l -> stats_unique stats -> Forall typed_stat stats ->
  stats_unique (add_all l stats) /\ Forall typed_stat (add_all l stats).
Proof.
  intros H. induction H as [|d l Hd Hl IH] in stats |- *; [done|]. intros Hu Ht. cbn.
  apply IH; [by apply AddNodeStepDuration_unique|by apply AddNodeStepDuration_typed].
Qed.

(** ** The operations of a rotation *)
Section operations.
Context `{E : Env}.

Lemma evolves_same (s s' : St) :
  s_ru s' = s_ru s -> s_maps s' = s_maps s -> emits status_free s s' -> evolves s s'.
Proof.
  intros H1 H2 HE. split; [|left; by rewrite H1|done]. intros [T1 T2]. split; by rewrite ?H1, ?H2.
Qed.

Lemma memory_evolves {A} (m : M St A) :
  preserves same_memory m -> preserves (emits status_free) m -> preserves evolves m.
Proof.
  intros H HE s. apply evolves_same; [apply (sm_ru _ _ (H s))|apply (sm_maps _ _ (H s))|apply HE].
Qed.

Lemma ask_evolves {A} (f : World -> A * World) : preserves evolves (ask f).
Proof. apply memory_evolves; [apply ask_memory|apply ask_emits]. Qed.

Lemma call_evolves {A} (c : Call) (f : World -> A * World) : status_free c -> preserves evolves (call c f).
Proof. intros H. apply memory_evolves; [apply call_memory|by apply call_emits]. Qed.

Lemma modify_evolves (f : St -> St) :
  (forall s, s_ru (f s) = s_ru s) -> (forall s, s_maps (f s) = s_maps s) ->
  (forall s, s_calls (f s) = s_calls s) -> preserves evolves (modify f).
Proof.
  intros H1 H2 H3 s. apply evolves_same; [apply H1|apply H2|by apply modify_emits].
Qed.

(** The types only matter when they hold at the start. *)
Lemma evolves_given (s s' : St) :
  CurrentStatus (s_ru s') = CurrentStatus (s_ru s) -> emits status_free s s' ->
  (typed_state s -> typed_state s') -> evolves s s'.
Proof. intros HP HE H. split; [done|by left|done]. Qed.

(** A change of the other fields of the resource. *)
Lemma upd_ru_evolves (f : RollingUpgrade -> RollingUpgrade) :
  (forall r, st_CurrentStatus (ru_Status (f r)) = st_CurrentStatus (ru_Status r)) ->
  (forall r, st_NodeInProcessing (ru_Status (f r)) = st_NodeInProcessing (ru_Status r)) ->
  (forall r, st_Statistics (ru_Status (f r)) = st_Statistics (ru_Status r)) ->
  preserves evolves (upd_ru f).
Proof.
  intros H1 H2 H3 s. apply evolves_given; [apply H1|by apply modify_emits|].
  intros [[T1 T2 T3 T4] T5]. split; [|done]. cbn. split; by rewrite ?H1, ?H2, ?H3.
Qed.

Lemma set_status_evolves (status : string) :
  status ∈ [StatusRunning; StatusComplete; StatusError] -> preserves evolves (set_status status).
Proof.
  intros H s. split; [|by right|exists []; by rewrite app_nil_r]. intros [[T1 T2 T3 T4] T5]. split; [|done].
  split; [|done..]. cbn. by do 2 right.
Qed.

Hint Resolve ask_evolves : frame.
Hint Extern 2 (preserves evolves (call _ _)) => apply call_evolves; exact I : frame.
Hint Extern 2 (preserves evolves (modify _)) => apply modify_evolves; reflexivity : frame.
Hint Extern 2 (preserves evolves (write_node _ _)) => apply modify_evolves; reflexivity : frame.
Hint Extern 2 (preserves evolves (upd_metrics _)) => apply modify_evolves; reflexivity : frame.
Hint Extern 2 (preserves evolves (upd_cloud _)) => apply modify_evolves; reflexivity : frame.
Hint Extern 2 (preserves evolves (upd_ru _)) => apply upd_ru_evolves; reflexivity : frame.
Hint Extern 2 (preserves evolves (set_status _)) =>
  apply set_status_evolves; repeat constructor : frame.

(** *** The maps *)
Lemma in_processing_typed (s : St) (cm : CallMaps) :
  typed_state s -> typed_maps cm -> typed_nodes (in_processing s cm).
Proof.
  intros [[_ T _ _] _] [Hm _]. unfold in_processing, status_map.
  destruct (cm_inProcessing cm) as [m|]; cbn; [by apply Hm|].
  destruct (st_NodeInProcessing _) as [m|]; cbn; [by apply T|]. intros k n. by rewrite lookup_empty.
Qed.

Lemma store_steps_typed (c : nat) (cm : CallMaps) (r : StepState) (s : St) :
  typed_state s -> typed_nodes (ss_inProcessing r) -> typed_steps (ss_nodeSteps r) ->
  typed_state (store_steps c cm r s).
Proof.
  intros [T1 T2] Hn Hs. unfold store_steps. destruct (cm_inProcessing cm).
  - split; [done|]. cbn. apply Forall_insert; [done|]. split; [by intros m [= <-]|done].
  - split; cbn.
    + destruct T1. split; [done| |done|done]. by intros m [= <-].
    + apply Forall_insert; [done|]. by split.
Qed.

Lemma DoNodeStepAt_evolves (c : nat) (group node step : string) (t : Time) :
  step ∈ node_steps -> preserves evolves (DoNodeStepAt c group node step t).
Proof.
  intros Hst s. apply evolves_given;
    [by apply (DoNodeStepAt_keeps_ru CurrentStatus)|apply DoNodeStepAt_emits|]. intros T.
  unfold DoNodeStepAt, Now. rewrite (bind_val _ _ s s s) by done.
  destruct (s_maps s !! c) as [cm|] eqn:Ec; [|done].
  pose proof (Forall_lookup_1 _ _ _ _ (ty_maps _ T) Ec) as Hcm.
  match goal with |- typed_state (?m s).2 => cut (preserves evolves m); [intros H; by apply H|] end.
  frame. intros s1. apply evolves_given; [apply store_steps_keeps| |].
  { by apply modify_emits; intros s2; apply store_steps_keeps. }
  intros T1. assert (typed_nodes (in_processing s1 cm)) as Hn by (by apply in_processing_typed).
  destruct (DoNodeStep_typed a a0 group node step t
    (mkStepState (in_processing s1 cm) (cm_nodeSteps cm) (s_metrics s1)) Hst Hn (tm_steps _ Hcm)).
  by apply store_steps_typed.
Qed.

Lemma NodeStep_evolves (c : nat) (group node step : string) :
  step ∈ node_steps -> preserves evolves (NodeStep c group node step).
Proof. intros H. unfold NodeStep, Now. frame. by apply DoNodeStepAt_evolves. Qed.

Lemma detach_typed (s : St) (maps : list CallMaps) :
  typed_state s -> Forall typed_maps maps -> Forall typed_maps (detach s maps).
Proof.
  intros T H. apply Forall_map. eapply Forall_impl; [exact H|]. intros cm Hcm.
  split; [|apply (tm_steps _ Hcm)]. intros m [= <-]. by apply in_processing_typed.
Qed.

Lemma steps_typed (code : list nat) (m : gmap string (list NodeStepDuration)) :
  typed_steps m -> Forall typed_duration (concat (map snd (permute code (map_to_list m)))).
Proof.
  intros H. apply Forall_concat, Forall_map, Forall_forall. intros [k l] Hin.
  rewrite permute_perm in Hin. apply elem_of_map_to_list in Hin. by apply (H k).
Qed.

Lemma UpdateMetricsStatus_evolves (c : nat) : preserves evolves (UpdateMetricsStatus c).
Proof.
  intros s. apply evolves_given;
    [by apply (UpdateMetricsStatus_keeps_ru CurrentStatus)|apply UpdateMetricsStatus_emits|]. intros T.
  unfold UpdateMetricsStatus, range_map. rewrite (bind_val _ _ s s s) by done.
  destruct (s_maps s !! c) as [cm|] eqn:Ec; [|done].
  pose proof (Forall_lookup_1 _ _ _ _ (ty_maps _ T) Ec) as Hcm.
  pose proof (in_processing_typed s cm T Hcm) as Hn.
  unfold mbind, M_bind, ask. destruct (svc_shuffle (s_world s)) as [k1 w1]. cbn.
  destruct (svc_shuffle w1) as [k2 w2]. cbn. split; cbn.
  - destruct T as [[T1 T2 T3 T4] _]. rewrite UpdateStatistics_concat.
    destruct (add_all_typed (concat (map snd (permute k2 (map_to_list (cm_nodeSteps cm)))))
      (st_Statistics (ru_Status (s_ru s)))) as [U1 U2]; [|done|done|].
    { by apply steps_typed, tm_steps. }
    split; cbn; [done| |done|done]. intros m [= <-]. exact Hn.
  - destruct (cm_inProcessing cm); [|apply T]. apply Forall_insert.
    + by apply (detach_typed s), T.
    + split; [done|apply (tm_steps _ Hcm)].
Qed.

Lemma new_call_evolves : preserves evolves new_call.
Proof.
  unfold new_call. frame. intros s. apply evolves_given; [done|by apply modify_emits|]. intros [T1 T2]. split; [done|].
  cbn. apply Forall_app. split; [done|]. constructor; [|done]. split; cbn.
  - intros m. destruct (st_NodeInProcessing _); [done|]. intros [= <-] k n. by rewrite lookup_empty.
  - intros k l. by rewrite lookup_empty.
Qed.

Hint Extern 2 (preserves evolves (NodeStep _ _ _ _)) =>
  apply NodeStep_evolves; repeat constructor : frame.
Hint Extern 2 (preserves evolves (DoNodeStepAt _ _ _ _ _)) =>
  apply DoNodeStepAt_evolves; repeat constructor : frame.
Hint Resolve UpdateMetricsStatus_evolves new_call_evolves : frame.

Lemma CordonUncordonAllNodes_evolves (b : bool) : preserves evolves (CordonUncordonAllNodes b).
Proof.
  apply CordonUncordonAllNodes_preserves; [typeclasses eauto|..]; unfold NodesGet, NodesUpdate; frame.
Qed.

Lemma turn_onto_evolves (c : nat) (step : string) (batch : list Instance_) :
  step ∈ node_steps -> preserves evolves (turn_onto c step batch).
Proof. intros H. unfold turn_onto. frame. by apply NodeStep_evolves. Qed.

Lemma set_worker_pc_evolves (i : nat) (pc : DrainPc) : preserves evolves (set_worker_pc i pc).
Proof. apply modify_evolves; intros s; by destruct (dm_workers (s_drain s) !! i). Qed.

Lemma worker_body_evolves (w : DrainWorker) : preserves evolves (worker_body w).
Proof.
  unfold worker_body, worker_step, PreDrain, PostDrain, PostWait, run_hook, runScript, drain_part,
    worker_step, DrainNode, read_obj, node_at, RunCordonOrUncordon, read_obj, write_obj, node_at,
    TagEC2instances. frame.
Qed.

Hint Resolve CordonUncordonAllNodes_evolves set_worker_pc_evolves worker_body_evolves : frame.
Hint Extern 2 (preserves evolves (turn_onto _ _ _)) =>
  apply turn_onto_evolves; repeat constructor : frame.

Lemma await_evolves (l : list SchedEvent) : preserves evolves (await l).
Proof.
  induction l as [|[i|i| |] l IH]; cbn [await]; unfold run_worker, recv_worker; frame; exact IH.
Qed.
Hint Resolve await_evolves : frame.

Lemma ReplaceNodeBatch_evolves (cfg : Config) (batch : list Instance_) :
  preserves evolves (ReplaceNodeBatch cfg batch).
Proof.
  unfold ReplaceNodeBatch, prepare_batch, mode_phase, early_cordon, eager_phase, lazy_phase, drain_phase, start_drains,
    background, run_worker, launch, launch_one, wait_and_terminate, terminate_batch, terminate_one,
    ClusterBallooning, release_replacement, upd_replacementNodes, SetBatchStandBy, SetInstancesStandBy,
    TagEC2instances, UntagEC2instances, TerminateInstance, DesiredNodesReady, ListClusterNodes,
    still_waiting, PostTerminate, run_hook, runScript, Now. frame.
Qed.

Lemma RotateNodes_evolves (cfg : Config) : preserves evolves (RotateNodes cfg).
Proof.
  pose proof (fun g ex => memory_evolves _ (SelectTargets_memory g ex)
    (SelectTargets_emits status_free g ex ltac:(done) ltac:(done))) as HS.
  pose proof (ReplaceNodeBatch_evolves cfg) as HB.
  unfold RotateNodes, rotate_discovered, rotate_batch, Discover, DescribeTaggedInstanceIDs,
    DescribeLaunchTemplates, DescribeScalingGroups, IsScalingGroupDrifted, SetProgress, endTimeUpdate,
    cleanup_if_early, cleanupEarlyCordonedNodes, Now.
  frame.
Qed.

Lemma rotate_in_context_evolves (cfg : Config) : preserves evolves (rotate_in_context cfg).
Proof. pose proof (RotateNodes_evolves cfg). unfold rotate_in_context. frame. Qed.
End operations.

(** ** The handler *)
Section handler.
Context `{E : Env}.

Lemma rc_evolves_same (r r' : Reconciler) :
  rc_ru r' = rc_ru r -> rc_drains r' = rc_drains r -> rc_emits status_free r r' -> rc_evolves r r'.
Proof.
  intros H1 H2 HE. split; [|left; by rewrite H1|done]. unfold typed_drains. by rewrite H1, H2.
Qed.

Lemma rcall_evolves {A} (c : Call) (f : World -> A * World) :
  status_free c -> preserves rc_evolves (rcall c f).
Proof.
  intros H r. apply rc_evolves_same; [by apply rcall_keeps|by apply rcall_keeps|by apply rcall_emits].
Qed.

Lemma modify_rc_evolves (f : Reconciler -> Reconciler) :
  (forall r, rc_ru (f r) = rc_ru r) -> (forall r, rc_drains (f r) = rc_drains r) ->
  (forall r, rc_calls (f r) = rc_calls r) -> preserves rc_evolves (modify f).
Proof.
  intros H1 H2 H3 r. apply rc_evolves_same; [apply H1|apply H2|].
  exists []. cbn. by rewrite H3, app_nil_r.
Qed.

Lemma in_context_evolves {A} (nodes : list node_ptr) (m : Config -> M St A) :
  (forall cfg, preserves evolves (m cfg)) -> preserves rc_evolves (in_context nodes m).
Proof.
  intros H r. unfold in_context. destruct (default _ _) as [dm maps] eqn:Ed.
  match goal with |- context [ m ?c ?s ] => pose proof (H c s) as [HT HP HC]; destruct (m c s) as [o s'] end.
  cbn in *. split; [|exact HP|exact HC]. cbn. intros [TD TS].
  assert (Forall typed_maps maps) as TM.
  { destruct (rc_drains r !! _) as [[dm' maps']|] eqn:El; cbn in Ed; injection Ed as <- <-;
      [by eapply TD|constructor]. }
  destruct HT as [T1 T2]; [by split|]. split; [|done]. intros name dm' maps'. cbn.
  rewrite lookup_insert_Some. intros [[_ [= _ <-]]|[_ Hl]]; [|by eapply TD].
  by apply detach_typed; [split|].
Qed.

Hint Extern 2 (preserves rc_evolves (rcall _ _)) => apply rcall_evolves; exact I : frame.
Hint Extern 2 (preserves rc_evolves (modify _)) => apply modify_rc_evolves; reflexivity : frame.

Lemma with_client_evolves {A} (m : M St A) :
  preserves (emits status_free) m -> preserves rc_evolves (with_client m).
Proof.
  intros H r. apply rc_evolves_same; [..|by apply with_client_emits];
    unfold with_client; by destruct (m _).
Qed.

Lemma ensure_evolves : preserves rc_evolves ensureClusterNodesMapPopulated.
Proof.
  unfold ensureClusterNodesMapPopulated. frame. apply with_client_evolves. by apply ListClusterNodes_emits.
Qed.

Lemma getClusterNodes_evolves : preserves rc_evolves getClusterNodes.
Proof.
  intros r. unfold getClusterNodes. destruct (svc_shuffle _).
  apply rc_evolves_same; [done|done|]. exists []. cbn. by rewrite app_nil_r.
Qed.

Lemma rotate_admitted_evolves (present : bool) : preserves rc_evolves (rotate_admitted present).
Proof.
  pose proof ensure_evolves. pose proof getClusterNodes_evolves.
  pose proof (fun nodes => in_context_evolves nodes _ rotate_in_context_evolves).
  unfold rotate_admitted, FlushCache. frame.
Qed.
Hint Resolve rotate_admitted_evolves : frame.

(** Everything under the lock, from the resource with its initial phase. *)
Lemma reconcile_valid_evolves (status : string) (r : Reconciler) :
  rc_evolves (initialised status r) (reconcile_valid status r).2.
Proof.
  unfold reconcile_valid. rewrite (bind_val _ _ r (initialised status r) tt)
    by (unfold set_init, initialised; by destruct (String.eqb status "")).
  match goal with |- rc_evolves ?s (?m ?s).2 => cut (preserves rc_evolves m); [intros H; apply H|] end.
  unfold recover_admitted, admit_or_requeue, reconcile_admitted, LoadOrStore. frame.
Qed.

(** The phases of a resource that is not done. *)
Lemma unfinished_rank (status : string) :
  status ∈ phases -> ContainsEqualFold FiniteStates status = false -> (phase_rank status < 3)%nat.
Proof.
  unfold phases. rewrite !elem_of_cons, elem_of_nil. intros H HF.
  destruct H as [->|[->|[->|[->|[->|[]]]]]]; [cbn; lia..| |]; vm_compute in HF; done.
Qed.
End handler.

(** ** Theorem *)
Section lifecycle.
Context `{E : Env}.

(** What the reconcile of a fetched resource may write as its status. *)
Record written (ru ru' : RollingUpgrade) : Prop := {
  wr_typed : typed_status (ru_Status ru');
  wr_same : NamespacedName ru' = NamespacedName ru;
  wr_unfinished : (phase_rank (CurrentStatus ru) < 3)%nat;
  wr_forward : (phase_rank (CurrentStatus ru) <= phase_rank (CurrentStatus ru'))%nat;
  wr_started : CurrentStatus ru' <> "";
}.

Lemma later_rank (status : string) :
  status ∈ [StatusRunning; StatusComplete; StatusError] -> (2 <= phase_rank status)%nat /\ status <> "".
Proof.
  rewrite !elem_of_cons, elem_of_nil. intros [->|[->|[->|[]]]]; vm_compute; (split; [lia|discriminate]).
Qed.

Lemma initialised_typed (ru : RollingUpgrade) (r : Reconciler) :
  typed_status (ru_Status ru) -> ru_Status (rc_ru r) = ru_Status ru -> typed_drains r ->
  let r' := initialised (CurrentStatus ru) r in
  typed_drains r' /\ typed_status (ru_Status (rc_ru r')) /\ CurrentStatus (rc_ru r') <> "" /\
  (phase_rank (CurrentStatus ru) <= phase_rank (CurrentStatus (rc_ru r')))%nat.
Proof.
  intros T Hs TD. unfold initialised. destruct (String.eqb_spec (CurrentStatus ru) "") as [E0|N0].
  - split; [done|]. split; [|split; [done|]].
    + cbn. rewrite Hs. destruct T. split; [|done..]. cbn. by right; left.
    + rewrite E0. cbn. lia.
  - unfold CurrentStatus in *. rewrite Hs. done.
Qed.

Lemma Update_drains (r : Reconciler) : rc_drains (Update r).2 = rc_drains r.
Proof.
  assert (preserves (keeps rc_drains) Update) as H; [|apply H].
  unfold Update. frame; first [by apply rcall_keeps | by intros ?].
Qed.

(** C13: the reconcile of a resource whose status is well formed
    writes only a well-formed status, panics included: one of the known phases, every node in
    processing under its own name at a known step, one statistic per known step within int64
    and int32.  It writes for an unfinished resource only, under the same name, and the
    phase never goes back (empty, init, running, then completed or error) and is never empty.
    The maps its drain goroutines keep for later reconciles stay well formed too. *)
Theorem Reconcile_well_typed (req : string) (r : Reconciler) (ru : RollingUpgrade) (w : World) :
  svc_GetRollingUpgrade req (rc_world r) = (inl ru, w) -> typed_status (ru_Status ru) -> typed_drains r ->
  let r' := (Reconcile req r).2 in
  typed_drains r' /\
  rc_emits (fun c => forall ru', c = CallStatusUpdate ru' -> written ru ru') r r'.
Proof.
  intros HG T TD r'. subst r'. destruct (workable_dec req r) as [(ru0 & w0 & HG0 & HW)|HN].
  - rewrite HG in HG0. injection HG0 as <- <-.
    destruct (Reconcile_workable req r ru w HG HW) as (ru' & Hv & ->). rewrite deferred_run.
    destruct (Validate_identity ru ru' Hv) as [Hn _]. apply Validate_ok in Hv as [_ Hv].
    set (r1 := fetched req w ru' r).
    destruct (initialised_typed ru r1 T) as (D1 & T1 & N1 & K1); [by subst ru'|done|].
    destruct (reconcile_valid_evolves (CurrentStatus ru) r1) as [HT HP (new & Hc & HF)].
    set (r2 := (reconcile_valid (CurrentStatus ru) r1).2) in *. destruct HT as [D2 T2]; [done|].
    assert (NamespacedName (rc_ru r2) = NamespacedName ru) as Hname.
    { pose proof (reconcile_valid_identity (CurrentStatus ru) r1) as Hid.
      apply identity_names in Hid as [Hid _]. rewrite <- Hn. exact Hid. }
    destruct (Update_run r2) as ((post & Hpost & Hp)%reported_calls & Hru & _).
    split; [intros name dm maps; rewrite Update_drains; apply D2|].
    transitivity r1; [by exists [CallGetRollingUpgrade req]; split; [|constructor]|].
    transitivity r2.
    + exists new. split; [by rewrite Hc; unfold initialised; destruct (String.eqb _ _)|].
      eapply Forall_impl; [exact HF|]. by intros c Hfree ru0 ->.
    + exists (CallStatusUpdate (rc_ru r2) :: post). rewrite Hpost, Hru. split; [done|].
      assert (written ru (rc_ru r2)) as HWr.
      { destruct HW as (_ & Hfin & _). destruct T as [Tph _ _ _].
        split; [done|done|by apply unfinished_rank|..]; destruct HP as [HP|HP]; try (by rewrite HP).
        - pose proof (unfinished_rank _ Tph Hfin). pose proof (proj1 (later_rank _ HP)). unfold CurrentStatus in *. lia.
        - apply (later_rank _ HP). }
      constructor; [by intros ru0 [= <-]|]. destruct Hp as [Hp|Hp]; rewrite Hp; by repeat constructor.
  - destruct (Reconcile_idle req r HN) as (w' & [->|(name & ->)]);
      (split; [done|exists [CallGetRollingUpgrade req]; split; [done|by constructor]]).
Qed.
End lifecycle.

Definition writes_running (l : list Call) : bool :=
  existsb (fun c => match c with
    | CallStatusUpdate ru' => String.eqb (CurrentStatus ru') StatusRunning | _ => false end) l.

Lemma writes_running_spec (l : list Call) :
  writes_running l = true -> exists ru', CallStatusUpdate ru' ∈ l /\ CurrentStatus ru' = StatusRunning.
Proof.
  intros (c & Hin & Hc)%existsb_exists. destruct c; try done. eexists.
  split; [by apply list_elem_of_In|by apply String.eqb_eq].
Qed.

(** ** Witness: a new resource is admitted and rotated; it ends up running *)
Lemma Reconcile_well_typed_witness :
  let r := sample_reconciler ∅ ∅ in
  let r' := (@Reconcile (sample_env upgrades_scenario) "default/waiting" r).2 in
  (exists ru', CallStatusUpdate ru' ∈ rc_calls r' /\ CurrentStatus ru' = StatusRunning) /\
  typed_drains (E := sample_env upgrades_scenario) r' /\
  rc_emits (fun c => forall ru', c = CallStatusUpdate ru' -> written (named_upgrade "waiting" "") ru') r r'.
Proof.
  intros r r'. split.
  - apply writes_running_spec. vm_compute. reflexivity.
  - apply (@Reconcile_well_typed (sample_env upgrades_scenario) "default/waiting" r
      (named_upgrade "waiting" "") 1000%Z); [reflexivity| |].
    + split; [by left|done|by constructor|by constructor].
    + intros name dm maps H. by destruct (lookup_empty_Some name (dm, maps) H).
Defined.
