(* ===== verification/Restart.v ===== *)
(** * The limits on what runs, and restarts of the controller

    The admission map lives in memory; when it is empty it is rebuilt from the resources the
    API server lists with the running label ([recover_admitted]), without checking the limits.
    Here the API server is a store of resources ([ApiStore], with the laws the controller relies
    on).  While the controller runs, every resource whose stored status is running is admitted,
    so an empty map means that there is nothing to recover and the limits hold
    ([one_upgrade_per_group]).  After a restart the recovery has to find the resources that were
    running; it does when the labels [Update] patches are accepted ([limits_survive_restarts]),
    and not otherwise ([lost_label_forgets]). *)
From S2P Require Import Prelude GoStrings GoTime Common Types AwsProvider KubeProvider Metrics Env SampleEnv.
From S2P Require Import AwsClient KubeClient Cloud Steps Drift Uniform Targets Balloon Cordon Drain.
From S2P Require Import Replace Rotate Reconciler.

(** ** The API server *)
Class ApiStore (E : Env) := stored : World -> gmap string RollingUpgrade.

Definition running (u : RollingUpgrade) : bool := String.eqb (CurrentStatus u) StatusRunning.

Definition has_label (label value : string) (u : RollingUpgrade) : bool :=
  match ru_Labels u with
  | Some m => bool_decide (m !! label = Some value)
  | None => false
  end.

(** A request that leaves the resources alone. *)
Definition neutral {E : Env} {S : ApiStore E} {A} (f : World -> A * World) : Prop :=
  forall w, stored (f w).2 = stored w.

(** A write that succeeds has its effect; one that fails has it or not. *)
Definition takes_effect (err : option error) (f : gmap string RollingUpgrade -> gmap string RollingUpgrade)
    (st st' : gmap string RollingUpgrade) : Prop :=
  st' = f st \/ (is_Some err /\ st' = st).

(** What the API server does with the resources: they are kept under their names; a resource
    without finalizers is gone once it is deleted; reads return what is stored; a
    status update that succeeds writes the status and nothing else, and a label patch that succeeds
    sets the label; one that fails has this effect or none.  Everything else the controller calls
    leaves the resources alone. *)
Class StoreLaws (E : Env) (S : ApiStore E) : Prop := {
  sl_keyed : forall w k u, stored w !! k = Some u -> NamespacedName u = k;
  sl_live : forall w k u, stored w !! k = Some u -> is_deleted u = false;
  sl_get : forall name w r w', svc_GetRollingUpgrade name w = (r, w') ->
    stored w' = stored w /\
    match r with
    | inl u => stored w !! name = Some u
    | inr err => err_not_found err = true -> stored w !! name = None
    end;
  sl_list : forall label value w r w', svc_ListRollingUpgrades label value w = (r, w') ->
    stored w' = stored w /\
    forall items, r = inl items ->
      forall u, u ∈ items <-> stored w !! NamespacedName u = Some u /\ has_label label value u = true;
  sl_status : forall u w err w', svc_StatusUpdate u w = (err, w') ->
    takes_effect err (alter (with_Status (fun _ => ru_Status u)) (NamespacedName u)) (stored w) (stored w');
  sl_patch : forall name label value w err w', svc_PatchLabel name label value w = (err, w') ->
    takes_effect err (alter (SetLabel label value) name) (stored w) (stored w');
  sl_now : neutral svc_Now;
  sl_shuffle : neutral svc_shuffle;
  sl_background : neutral svc_background;
  sl_schedule : neutral svc_schedule;
  sl_templates : neutral svc_DescribeLaunchTemplatesPages;
  sl_groups : neutral svc_DescribeAutoScalingGroupsPages;
  sl_instances : forall fs, neutral (svc_DescribeInstancesPages fs);
  sl_create_tags : forall ids k v, neutral (svc_CreateTags ids k v);
  sl_delete_tags : forall ids k v, neutral (svc_DeleteTags ids k v);
  sl_terminate : forall id b, neutral (svc_TerminateInstance id b);
  sl_standby : forall asg ids b, neutral (svc_EnterStandby asg ids b);
  sl_nodes : neutral svc_NodesList;
  sl_node : forall name, neutral (svc_NodeGet name);
  sl_node_update : forall n, neutral (svc_NodeUpdate n);
  sl_cordon : forall n b, neutral (svc_RunCordonOrUncordon n b);
  sl_drain : forall name t, neutral (svc_RunNodeDrain name t);
  sl_exec : forall cmd env, neutral (svc_Exec cmd env);
  sl_client : neutral svc_KubeClient;
}.

(** The running resources with their scaling groups. *)
Definition running_map (st : gmap string RollingUpgrade) : gmap string string :=
  omap (fun u => if running u then Some (ScalingGroupName u) else None) st.

(** Every running resource is admitted. *)
Definition covers (m : gmap string string) (st : gmap string RollingUpgrade) : Prop :=
  forall k u, st !! k = Some u -> running u = true -> is_Some (m !! k).

(** The admission map and the resources agree: an admitted resource is admitted with its scaling group;
    a running resource is labelled so and, unless nothing is admitted yet, is admitted; and both the
    admitted and the running resources obey the limits. *)
Record in_step {UC : UnicodeCase} (mp : Z) (m : gmap string string) (st : gmap string RollingUpgrade) : Prop := {
  is_agree : forall k v u, m !! k = Some v -> st !! k = Some u -> ScalingGroupName u = v;
  is_label : forall k u, st !! k = Some u -> running u = true ->
    has_label LabelKeyRollingUpgradeCurrentStatus StatusRunning u = true;
  is_cover : m = ∅ \/ covers m st;
  is_admitted : admission_inv mp m;
  is_running : admission_inv mp (running_map st);
}.

Section restart.
Context `{E : Env} {S : ApiStore E}.

Definition in_step_with (r : Reconciler) : Prop :=
  in_step (rc_maxParallel r) (rc_AdmissionMap r) (stored (rc_world r)).

(** The writes of [Update] can be relied on: a status update that fails writes nothing, and label
    patches succeed. *)
Definition reliable_writes : Prop :=
  (forall u w err w', svc_StatusUpdate u w = (Some err, w') -> stored w' = stored w) /\
  (forall name label value w, (svc_PatchLabel name label value w).1 = None).

(** Nobody but the controller sets the status of a resource to running. *)
Definition runs_less (st st' : gmap string RollingUpgrade) : Prop :=
  forall k u', st' !! k = Some u' -> running u' = true -> exists u, st !! k = Some u /\ running u = true.

(** A controller that is not restarted. *)
Inductive serving_step : relation Reconciler :=
| SrvReconcile req r : serving_step r (Reconcile req r).2
| SrvNodeEvent obj r : serving_step r (map_node_event obj r).2
| SrvUser w r : runs_less (stored (rc_world r)) (stored w) -> serving_step r (set_trace w (rc_calls r) r).

(** The admitted resources obey the limits, and every running resource is admitted. *)
Definition in_charge (r : Reconciler) : Prop :=
  admission_inv (rc_maxParallel r) (rc_AdmissionMap r) /\
  covers (rc_AdmissionMap r) (stored (rc_world r)).

(** What users may do to the resources across restarts: create some that are not running, under names the controller
    does not hold; delete some; change anything but the scaling group, the label and the
    status of a resource. *)
Definition user_change (m : gmap string string) (st st' : gmap string RollingUpgrade) : Prop :=
  forall k u', st' !! k = Some u' ->
    match st !! k with
    | Some u => ScalingGroupName u' = ScalingGroupName u /\ ru_Status u' = ru_Status u /\
        ru_Labels u' = ru_Labels u
    | None => running u' = false /\ m !! k = None
    end.

(** A restart: nothing in memory but the limit survives. *)
Inductive system_step : relation Reconciler :=
| SysReconcile req r : system_step r (Reconcile req r).2
| SysNodeEvent obj r : system_step r (map_node_event obj r).2
| SysUser w r : user_change (rc_AdmissionMap r) (stored (rc_world r)) (stored w) ->
    system_step r (set_trace w (rc_calls r) r)
| SysRestart r r0 : rc_AdmissionMap r0 = ∅ -> rc_maxParallel r0 = rc_maxParallel r ->
    rc_world r0 = rc_world r -> system_step r r0.
End restart.

(** ** The rotation leaves the resources alone *)
Section alone.
Context `{E : Env} {S : ApiStore E} `{!StoreLaws E S}.

Abbreviation keeps_store := (keeps (fun s : St => stored (s_world s))).

Lemma ask_store {A} (f : World -> A * World) : neutral f -> preserves keeps_store (ask f).
Proof. intros H s. unfold keeps, ask. specialize (H (s_world s)). by destruct (f (s_world s)). Qed.

Lemma call_store {A} (c : Call) (f : World -> A * World) : neutral f -> preserves keeps_store (call c f).
Proof. intros H s. unfold keeps, call. specialize (H (s_world s)). by destruct (f (s_world s)). Qed.

Create HintDb store.
Hint Resolve sl_now sl_shuffle sl_background sl_schedule sl_templates sl_groups sl_instances
  sl_create_tags sl_delete_tags sl_terminate sl_standby sl_nodes sl_node sl_node_update sl_cordon sl_drain
  sl_exec sl_client : store.
Hint Extern 2 (preserves keeps_store (ask _)) => apply ask_store; solve [auto with store] : frame.
Hint Extern 2 (preserves keeps_store (call _ _)) => apply call_store; solve [auto with store] : frame.
Hint Extern 2 (preserves keeps_store (modify _)) => intros ?; reflexivity : frame.
Hint Extern 2 (preserves keeps_store (upd_ru _)) => intros ?; reflexivity : frame.
Hint Extern 2 (preserves keeps_store (upd_cloud _)) => intros ?; reflexivity : frame.
Hint Extern 2 (preserves keeps_store (upd_metrics _)) => intros ?; reflexivity : frame.
Hint Extern 2 (preserves keeps_store (write_node _ _)) => intros ?; reflexivity : frame.

Lemma steps_store (c : nat) (group node step : string) (t : Time) :
  preserves keeps_store (DoNodeStepAt c group node step t).
Proof.
  unfold DoNodeStepAt, Now. frame. intros s. unfold keeps, modify, store_steps. cbn.
  by destruct (cm_inProcessing _).
Qed.
Hint Resolve steps_store : frame.

Lemma metrics_store (c : nat) : preserves keeps_store (UpdateMetricsStatus c).
Proof. unfold UpdateMetricsStatus, range_map. frame. Qed.

Lemma set_worker_pc_store (i : nat) (pc : DrainPc) : preserves keeps_store (set_worker_pc i pc).
Proof. intros s. unfold keeps, set_worker_pc, modify. cbn. by destruct (dm_workers (s_drain s) !! i). Qed.

Lemma worker_body_store (w : DrainWorker) : preserves keeps_store (worker_body w).
Proof.
  unfold worker_body, worker_step, NodeStep, PreDrain, PostDrain, PostWait, run_hook, runScript, drain_part,
    worker_step, NodeStep, DrainNode, read_obj, node_at, RunCordonOrUncordon, read_obj, write_obj, node_at,
    TagEC2instances, Now. frame.
Qed.
Hint Resolve metrics_store set_worker_pc_store worker_body_store : frame.

Lemma await_store (l : list SchedEvent) : preserves keeps_store (await l).
Proof.
  induction l as [|[i|i| |] l IH]; cbn [await]; unfold run_worker, recv_worker; frame; exact IH.
Qed.

Lemma CordonUncordonAllNodes_store (b : bool) : preserves keeps_store (CordonUncordonAllNodes b).
Proof.
  apply CordonUncordonAllNodes_preserves; [typeclasses eauto|..]; unfold NodesGet, NodesUpdate; frame.
Qed.

Lemma uniform_targets_store (l : list Instance_) : preserves keeps_store (uniform_targets l).
Proof.
  assert (forall fuel n m acc, preserves keeps_store (uniform_loop fuel n m acc)) as H.
  { induction fuel as [|fuel IH]; intros n m acc; cbn [uniform_loop]; unfold range_map; frame; apply IH. }
  unfold uniform_targets. frame.
Qed.
Hint Resolve CordonUncordonAllNodes_store uniform_targets_store : frame.

Lemma SelectTargets_store (g : Group) (ex : list string) : preserves keeps_store (SelectTargets g ex).
Proof.
  unfold SelectTargets, untag_orphaned, UntagEC2instances, order_targets,
    DescribeInstancesWithoutTagValue. frame.
Qed.
Hint Resolve SelectTargets_store await_store : frame.

Lemma rotate_in_context_store (cfg : Config) : preserves keeps_store (rotate_in_context cfg).
Proof.
  assert (forall batch, preserves keeps_store (ReplaceNodeBatch cfg batch)) as HB.
  { intros batch. unfold ReplaceNodeBatch, prepare_batch, mode_phase, new_call, early_cordon, eager_phase, lazy_phase, drain_phase,
      start_drains, background, run_worker, launch, launch_one, wait_and_terminate, terminate_batch,
      terminate_one, turn_onto, NodeStep,
      ClusterBallooning, release_replacement, upd_replacementNodes, SetBatchStandBy, SetInstancesStandBy,
      TagEC2instances, UntagEC2instances, TerminateInstance, DesiredNodesReady, ListClusterNodes,
      still_waiting, PostTerminate, run_hook, runScript, Now. frame. }
  unfold rotate_in_context, RotateNodes, rotate_discovered, rotate_batch, Discover,
    DescribeTaggedInstanceIDs, DescribeLaunchTemplates, DescribeScalingGroups, IsScalingGroupDrifted,
    SetProgress, endTimeUpdate, set_status, cleanup_if_early, cleanupEarlyCordonedNodes, Now.
  frame.
Qed.

(** *** The handler, up to the deferred update *)
Abbreviation keeps_api := (keeps (fun r : Reconciler => stored (rc_world r))).

Lemma rcall_store {A} (c : Call) (f : World -> A * World) : neutral f -> preserves keeps_api (rcall c f).
Proof. intros H r. unfold keeps, rcall. specialize (H (rc_world r)). by destruct (f (rc_world r)). Qed.

Lemma list_neutral (label value : string) : neutral (svc_ListRollingUpgrades label value).
Proof.
  intros w. destruct (svc_ListRollingUpgrades label value w) as [r w'] eqn:El.
  apply (sl_list label value w r w' El).
Qed.
Hint Resolve list_neutral : store.
Hint Extern 2 (preserves keeps_api (rcall _ _)) => apply rcall_store; solve [auto with store] : frame.
Hint Extern 2 (preserves keeps_api (modify _)) => intros ?; reflexivity : frame.

Lemma in_context_store (nodes : list node_ptr) :
  preserves keeps_api (in_context nodes rotate_in_context).
Proof.
  intros r. unfold in_context. destruct (default _ _) as [dm maps].
  match goal with |- context [ rotate_in_context ?c ?s ] =>
    pose proof (rotate_in_context_store c s) as HE; destruct (rotate_in_context c s) as [o s'] end.
  exact HE.
Qed.

Lemma ensure_store : preserves keeps_api ensureClusterNodesMapPopulated.
Proof.
  unfold ensureClusterNodesMapPopulated. frame. intros r. unfold with_client.
  assert (preserves keeps_store ListClusterNodes) as H by (unfold ListClusterNodes; frame).
  match goal with |- context [ ListClusterNodes ?s ] =>
    specialize (H s); destruct (ListClusterNodes s) as [o s'] end. exact H.
Qed.

Lemma getClusterNodes_store : preserves keeps_api getClusterNodes.
Proof.
  intros r. unfold getClusterNodes. pose proof (sl_shuffle (rc_world r)) as H.
  destruct (svc_shuffle (rc_world r)). exact H.
Qed.
Hint Resolve in_context_store ensure_store getClusterNodes_store : frame.

Lemma reconcile_valid_store (status : string) : preserves keeps_api (reconcile_valid status).
Proof.
  unfold reconcile_valid, set_init, recover_admitted, admit_or_requeue, reconcile_admitted, rotate_admitted,
    FlushCache, LoadOrStore. frame; by apply rcall_store.
Qed.
End alone.

(** ** The admission map after the checks *)
Section checks.
Context `{E : Env}.

(** The map the checks work on: what was admitted, or what was recovered. *)
Definition recovered_base (r : Reconciler) (base : gmap string string) : Prop :=
  (rc_AdmissionMap r <> ∅ /\ base = rc_AdmissionMap r) \/
  (rc_AdmissionMap r = ∅ /\ exists items w',
     svc_ListRollingUpgrades LabelKeyRollingUpgradeCurrentStatus StatusRunning (rc_world r) = (inl items, w') /\
     base = recovered items).

Lemma recover_outcome (r : Reconciler) :
  (exists err r', recover_admitted r = (Val (Some err), r') /\ admission r' = admission r /\ rc_ru r' = rc_ru r) \/
  (exists base r', recover_admitted r = (Val None, r') /\ recovered_base r base /\
     admission r' = (base, rc_maxParallel r) /\ rc_ru r' = rc_ru r).
Proof.
  unfold recover_admitted. rewrite (bind_val _ _ r r r) by done.
  destruct (_ =? 0)%Z eqn:E0; zbool.
  - apply map_len_0 in E0. unfold rcall, mbind at 1 3, M_bind at 1 3.
    destruct (svc_ListRollingUpgrades _ _ (rc_world r)) as [[items|err] w] eqn:El.
    + right. exists (recovered items). unfold mbind, M_bind. rewrite recover_stores. eexists.
      split; [done|]. split; [right; eauto 10|]. split; [|done]. unfold admission. cbn. by rewrite E0.
    + left. exists err. eexists. done.
  - right. exists (rc_AdmissionMap r), r. split; [done|]. split; [|done]. left. split; [|done].
    intros E1. rewrite E1 in E0. by rewrite GetSyncMapLen_size in E0.
Qed.

Lemma reconcile_valid_outcome (status : string) (r : Reconciler) :
  let r0 := initialised status r in
  let r2 := (reconcile_valid status r).2 in
  let m2 := rc_AdmissionMap r2 in
  rc_maxParallel r2 = rc_maxParallel r /\
  ((m2 = rc_AdmissionMap r /\ CurrentStatus (rc_ru r2) = CurrentStatus (rc_ru r0)) \/
   exists base, recovered_base r base /\
     m2 = admitted_map (rc_maxParallel r) base (NamespacedName (rc_ru r)) (ScalingGroupName (rc_ru r)) /\
     (CurrentStatus (rc_ru r2) = CurrentStatus (rc_ru r0) \/ is_Some (m2 !! NamespacedName (rc_ru r)))).
Proof.
  intros r0 r2 m2. split; [apply (reconcile_valid_admits status r)|]. subst m2 r2.
  destruct (initialised_same status r) as (Hid & _ & Hm & Hp & Hw & _).
  destruct (rc_ReconcileMap r !! NamespacedName (rc_ru r)) as [asg|] eqn:HL.
  { left. rewrite (reconcile_valid_busy _ _ _ HL). done. }
  rewrite reconcile_valid_free by done.
  destruct (recover_outcome (locked status r)) as [(err & r1 & HR & HA & Hru)|(base & r1 & HR & HB & HA & Hru)].
  - left. rewrite (bind_val _ _ _ _ _ HR). injection HA as HA _. cbn in *. rewrite HA, Hm, Hru. done.
  - right. exists base. rewrite (bind_val _ _ _ _ _ HR).
    assert (recovered_base r base) as HB'.
    { unfold recovered_base in *. cbn in HB. by rewrite Hm, Hw in HB. }
    split; [done|]. injection HA as HA1 HA2. cbn in Hru, HA2.
    assert (NamespacedName (rc_ru r1) = NamespacedName (rc_ru r)) as Hn.
    { rewrite Hru. by apply identity_names in Hid as [? _]. }
    pose proof (admit_or_requeue_map (ScalingGroupName (rc_ru r)) r1) as HM.
    rewrite HA1, HA2, Hn, Hp in HM. split; [done|].
    destruct (admit_cases (ScalingGroupName (rc_ru r)) r1) as [Ha|[Hme Ha]]; rewrite Ha.
    + left. cbn. by rewrite Hru.
    + right. destruct (reconcile_admitted_place _ _ Hme) as [HS _]. by rewrite Hn in HS.
Qed.
End checks.

(** ** What the API server lists is what is running *)
Section recovery.
Context `{E : Env} {S : ApiStore E} `{!StoreLaws E S}.

Abbreviation store_running := (fun (m : gmap string string) cr =>
  if String.eqb (CurrentStatus cr) StatusRunning
  then Store m (NamespacedName cr) (ScalingGroupName cr) else m).

Lemma fold_running_other (k : string) (items : list RollingUpgrade) (acc : gmap string string) :
  (forall u, u ∈ items -> running u = true -> NamespacedName u <> k) ->
  foldl store_running acc items !! k = acc !! k.
Proof.
  induction items as [|u items IH] in acc |- *; [done|]. intros H. cbn.
  rewrite IH by (intros u' Hu'; apply H; by right).
  fold (running u). destruct (running u) eqn:Er; [|done].
  unfold Store. rewrite lookup_insert_ne; [done|]. apply H; [left|done].
Qed.

Lemma fold_running_at (k v : string) (items : list RollingUpgrade) (acc : gmap string string) :
  (forall u, u ∈ items -> running u = true -> NamespacedName u = k -> ScalingGroupName u = v) ->
  acc !! k = Some v \/ (exists u, u ∈ items /\ running u = true /\ NamespacedName u = k) ->
  foldl store_running acc items !! k = Some v.
Proof.
  induction items as [|u items IH] in acc |- *; intros HV HS.
  { destruct HS as [HS|(u & Hu & _)]; [done|by apply not_elem_of_nil in Hu]. }
  cbn. apply IH; [intros u' Hu'; apply HV; by right|]. fold (running u).
  destruct (running u) eqn:Er.
  - destruct (decide (NamespacedName u = k)) as [Hk|Hk].
    + left. unfold Store. rewrite Hk, lookup_insert_eq. f_equal. apply HV; [left|done..].
    + unfold Store. rewrite lookup_insert_ne by done. destruct HS as [HS|(u' & Hu' & Hr & Hk')]; [by left|].
      apply elem_of_cons in Hu' as [->|Hu']; [done|]. right. eauto.
  - destruct HS as [HS|(u' & Hu' & Hr & Hk')]; [by left|].
    apply elem_of_cons in Hu' as [->|Hu']; [congruence|]. right. eauto.
Qed.

Lemma recovered_running (w w' : World) (items : list RollingUpgrade) :
  svc_ListRollingUpgrades LabelKeyRollingUpgradeCurrentStatus StatusRunning w = (inl items, w') ->
  (forall k u, stored w !! k = Some u -> running u = true ->
     has_label LabelKeyRollingUpgradeCurrentStatus StatusRunning u = true) ->
  recovered items = running_map (stored w).
Proof.
  intros HL Hlabel. destruct (sl_list _ _ _ _ _ HL) as [_ HI]. specialize (HI items eq_refl).
  apply map_eq. intros k. unfold running_map. rewrite lookup_omap. unfold recovered.
  destruct (stored w !! k) as [u|] eqn:Ek; cbn.
  - pose proof (sl_keyed _ _ _ Ek) as Hk. destruct (running u) eqn:Er.
    + apply fold_running_at.
      * intros u' Hu' _ Hk'. apply HI in Hu' as [Hu' _]. rewrite Hk' in Hu'. congruence.
      * right. exists u. split; [|done]. apply HI. rewrite Hk. eauto.
    + rewrite fold_running_other; [apply lookup_empty|]. intros u' Hu' Hr' Hk'.
      apply HI in Hu' as [Hu' _]. rewrite Hk' in Hu'. congruence.
  - rewrite fold_running_other; [apply lookup_empty|]. intros u' Hu' Hr' Hk'.
    apply HI in Hu' as [Hu' _]. rewrite Hk' in Hu'. congruence.
Qed.

(** When nothing is running, nothing is recovered, whatever the labels say. *)
Lemma recovered_nothing (w w' : World) (items : list RollingUpgrade) :
  svc_ListRollingUpgrades LabelKeyRollingUpgradeCurrentStatus StatusRunning w = (inl items, w') ->
  covers ∅ (stored w) -> recovered items = ∅.
Proof.
  intros HL HC. destruct (sl_list _ _ _ _ _ HL) as [_ HI]. specialize (HI items eq_refl).
  apply map_eq. intros k. unfold recovered. rewrite fold_running_other; [done|]. intros u Hu Hr _.
  apply HI in Hu as [Hu _]. destruct (HC _ _ Hu Hr) as [v Hv]. by apply lookup_empty_Some in Hv.
Qed.
End recovery.

(** ** The agreement *)
Section agreement.
Context `{E : Env}.
Implicit Types (m : gmap string string) (st : gmap string RollingUpgrade).

Lemma running_map_lookup st (k v : string) :
  running_map st !! k = Some v <-> exists u, st !! k = Some u /\ running u = true /\ ScalingGroupName u = v.
Proof.
  unfold running_map. rewrite lookup_omap, bind_Some. split.
  - intros (u & Hu & H). destruct (running u) eqn:Er; [|done]. injection H as H. eauto.
  - intros (u & Hu & Hr & Hv). exists u. split; [done|]. by rewrite Hr, Hv.
Qed.

Lemma admission_inv_sub (mp : Z) m m' : m ⊆ m' -> admission_inv mp m' -> admission_inv mp m.
Proof.
  intros Hs [HU HB]. split.
  - intros k v k' v' Hk Hk'. apply (HU k v k' v'); by eapply lookup_weaken.
  - apply map_subseteq_size in Hs. lia.
Qed.

(** The running resources are admitted resources. *)
Lemma running_admitted (mp : Z) m st : in_step mp m st -> covers m st -> running_map st ⊆ m.
Proof.
  intros H HC. apply map_subseteq_spec. intros k v (u & Hu & Hr & <-)%running_map_lookup.
  destruct (HC k u Hu Hr) as [v Hv]. by rewrite (is_agree _ _ _ H k v u).
Qed.

Lemma in_step_restart (mp : Z) m st : in_step mp m st -> in_step mp ∅ st.
Proof.
  intros [H1 H2 H3 H4 H5]. split; [|done|by left| |done].
  - intros k v u. by rewrite lookup_empty.
  - by apply (admission_inv_sub mp _ m), H4; apply map_empty_subseteq.
Qed.

Lemma in_step_forget (mp : Z) m st (k : string) :
  (forall u, st !! k = Some u -> running u = false) -> in_step mp m st -> in_step mp (delete k m) st.
Proof.
  intros HK [H1 H2 H3 H4 H5]. split; [|done| |by apply admission_inv_delete|done].
  - intros k' v u [_ Hk']%lookup_delete_Some. by apply H1.
  - destruct H3 as [->|H3]; [left; apply delete_empty|right]. intros k' u Hu Hr.
    rewrite lookup_delete_ne; [by eapply H3|]. intros <-. rewrite (HK u Hu) in Hr. done.
Qed.

Lemma in_step_recover (mp : Z) m st : in_step mp m st -> in_step mp (running_map st) st.
Proof.
  intros [H1 H2 H3 H4 H5]. split; [|done| |done|done].
  - intros k v u (u' & Hu' & _ & Hv)%running_map_lookup Hu. congruence.
  - right. intros k u Hu Hr. exists (ScalingGroupName u). apply running_map_lookup. eauto.
Qed.

Lemma in_step_admit (mp : Z) m st (name : string) (u : RollingUpgrade) :
  st !! name = Some u -> in_step mp m st -> covers m st ->
  in_step mp (admitted_map mp m name (ScalingGroupName u)) st.
Proof.
  intros Hu H HC. unfold admitted_map. destruct (in_progress_elsewhere _ _ _) eqn:Ep; [done|].
  destruct (m !! name) as [v|] eqn:Em; [done|]. destruct (_ <=? _)%Z eqn:El; [done|]. zbool.
  destruct H as [H1 H2 H3 H4 H5]. split; [|done| | |done].
  - intros k v u' [[<- <-]|[_ Hk]]%lookup_insert_Some Hu'; [congruence|by eapply H1].
  - right. intros k u' Hu' Hr. destruct (decide (k = name)) as [->|Hk];
      [by rewrite lookup_insert_eq|rewrite lookup_insert_ne by done; by eapply HC].
  - apply admission_inv_insert; [done|done| |done]. by apply in_progress_elsewhere_false.
Qed.

Lemma in_step_user (mp : Z) m st st' : user_change m st st' -> in_step mp m st -> in_step mp m st'.
Proof.
  intros HUC [H1 H2 H3 H4 H5].
  assert (forall k u', st' !! k = Some u' -> running u' = true -> exists u, st !! k = Some u /\
    running u = true /\ ScalingGroupName u' = ScalingGroupName u /\ ru_Labels u' = ru_Labels u) as HR.
  { intros k u' Hu' Hr. specialize (HUC k u' Hu'). destruct (st !! k) as [u|]; [|destruct HUC; congruence].
    destruct HUC as (Ha & Hs & Hl). exists u. unfold running, CurrentStatus in *. by rewrite <- Hs. }
  split; [| | |done|].
  - intros k v u' Hk Hu'. specialize (HUC k u' Hu'). destruct (st !! k) as [u|] eqn:Eu.
    + destruct HUC as (-> & _). by apply (H1 k v u).
    + destruct HUC as [_ HUC]. congruence.
  - intros k u' Hu' Hr. destruct (HR k u' Hu' Hr) as (u & Hu & Hru & _ & Hl).
    unfold has_label. rewrite Hl. by apply (H2 k u).
  - destruct H3 as [H3|H3]; [by left|right]. intros k u' Hu' Hr.
    destruct (HR k u' Hu' Hr) as (u & Hu & Hru & _). by apply (H3 k u).
  - apply (admission_inv_sub mp _ (running_map st)), H5. apply map_subseteq_spec.
    intros k v (u' & Hu' & Hr & <-)%running_map_lookup.
    destruct (HR k u' Hu' Hr) as (u & Hu & Hru & Ha & _). apply running_map_lookup. by exists u.
Qed.
End agreement.

(** ** The deferred update *)
Definition write_back (u2 : RollingUpgrade) (u : RollingUpgrade) : RollingUpgrade :=
  SetLabel LabelKeyRollingUpgradeCurrentStatus (CurrentStatus u2) (with_Status (fun _ => ru_Status u2) u).

Lemma write_back_facts (u2 u : RollingUpgrade) :
  running (write_back u2 u) = running u2 /\ ScalingGroupName (write_back u2 u) = ScalingGroupName u /\
  has_label LabelKeyRollingUpgradeCurrentStatus (CurrentStatus u2) (write_back u2 u) = true.
Proof.
  split; [done|]. split; [done|]. unfold has_label, write_back, SetLabel. cbn.
  destruct (ru_Labels u) as [l|]; cbn; rewrite lookup_insert_eq; by apply bool_decide_true.
Qed.

Section update.
Context `{E : Env}.
Implicit Types (m : gmap string string) (st : gmap string RollingUpgrade).

Lemma in_step_write (mp : Z) m st (name : string) (u u2 : RollingUpgrade) :
  st !! name = Some u -> (running u2 = true -> running u = true \/ is_Some (m !! name)) ->
  in_step mp m st -> in_step mp m (alter (write_back u2) name st).
Proof.
  intros Hu HR H. destruct (write_back_facts u2 u) as (W1 & W2 & W3). pose proof H as [H1 H2 H3 H4 H5].
  assert (forall k u', alter (write_back u2) name st !! k = Some u' ->
    (k = name /\ u' = write_back u2 u) \/ (k <> name /\ st !! k = Some u')) as HL.
  { intros k u'. rewrite lookup_alter_Some. intros [(<- & u0 & Hu0 & ->)|[? ?]].
    - left. split; [done|]. congruence.
    - right. by split; [congruence|]. }
  split; [| | |done|].
  - intros k v u' Hk [[-> ->]|[_ Hu']]%HL; [rewrite W2|]; by eapply H1.
  - intros k u' [[-> ->]|[_ Hu']]%HL Hr; [|by eapply H2].
    rewrite W1 in Hr. unfold running in Hr. apply String.eqb_eq in Hr. by rewrite Hr in W3.
  - destruct H3 as [H3|H3].
    + left. done.
    + right. intros k u' [[-> ->]|[_ Hu']]%HL Hr; [|by eapply H3].
      rewrite W1 in Hr. destruct (HR Hr) as [Hr'|Hm]; [by eapply H3|done].
  - destruct (running u2) eqn:Er2; [destruct (HR eq_refl) as [Hr|Hm]|].
    + apply (admission_inv_sub mp _ (running_map st)), H5. apply map_subseteq_spec.
      intros k v (u' & Hu' & Hr' & <-)%running_map_lookup. apply running_map_lookup.
      apply HL in Hu' as [[-> ->]|[_ Hu']]; [exists u; by rewrite W2|by exists u'].
    + assert (covers m st) as HC by (destruct H3 as [->|H3]; [by apply lookup_empty_is_Some in Hm|done]).
      apply (admission_inv_sub mp _ m), H4. apply map_subseteq_spec.
      intros k v (u' & Hu' & Hr' & <-)%running_map_lookup.
      apply HL in Hu' as [[-> ->]|[_ Hu']].
      * destruct Hm as [v Hv]. rewrite W2. by rewrite (H1 name v u).
      * destruct (HC k u' Hu' Hr') as [v Hv]. by rewrite (H1 k v u').
    + apply (admission_inv_sub mp _ (running_map st)), H5. apply map_subseteq_spec.
      intros k v (u' & Hu' & Hr' & <-)%running_map_lookup. apply running_map_lookup.
      apply HL in Hu' as [[-> ->]|[_ Hu']]; [congruence|by exists u'].
Qed.
End update.

Section handler.
Context `{E : Env} {S : ApiStore E} `{!StoreLaws E S}.

(** [Update] writes nothing, the status and its label, or, when a write cannot be relied on, the
    status alone. *)
Lemma Update_effects (r : Reconciler) :
  let st := stored (rc_world r) in
  let st' := stored (rc_world (Update r).2) in
  let key := NamespacedName (rc_ru r) in
  admission (Update r).2 = admission r /\
  (st' = st \/ st' = alter (write_back (rc_ru r)) key st \/
   st' = alter (with_Status (fun _ => ru_Status (rc_ru r))) key st) /\
  (reliable_writes -> st' = st \/ st' = alter (write_back (rc_ru r)) key st).
Proof.
  intros st st' key. split; [apply Update_admission|]. subst st st' key.
  unfold Update, rcall, modify, mbind, M_bind, get. cbn.
  destruct (svc_StatusUpdate _ _) as [err w] eqn:Es. pose proof (sl_status _ _ _ _ Es) as Hs.
  destruct err as [err|]; cbn.
  - split; [destruct Hs as [Hs|[_ Hs]]; auto|]. intros [HR _]. left. by eapply HR.
  - destruct Hs as [Hs|[[? ?] _]]; [|done].
    destruct (svc_PatchLabel _ _ _ _) as [err' w'] eqn:Ep. cbn.
    destruct (sl_patch _ _ _ _ _ _ Ep) as [Hp|[[e ->] Hp]]; rewrite Hp, Hs.
    + rewrite alter_alter_eq. auto.
    + split; [auto|]. intros [_ HR]. exfalso.
      match type of Ep with svc_PatchLabel ?a ?b ?c ?d = _ => specialize (HR a b c d); by rewrite Ep in HR end.
Qed.

Lemma running_finite (u : RollingUpgrade) :
  ContainsEqualFold FiniteStates (CurrentStatus u) = true -> running u = false.
Proof.
  intros H. unfold running. destruct (String.eqb_spec (CurrentStatus u) StatusRunning) as [Hr|]; [|done].
  rewrite Hr in H. vm_compute in H. done.
Qed.

(** The part under the lock. *)
Lemma reconcile_valid_in_step (status : string) (r : Reconciler) (u : RollingUpgrade) :
  let st := stored (rc_world r) in
  let r2 := (reconcile_valid status r).2 in
  st !! NamespacedName (rc_ru r) = Some u -> ScalingGroupName (rc_ru r) = ScalingGroupName u ->
  ru_Status (rc_ru r) = ru_Status u -> in_step_with r ->
  in_step (rc_maxParallel r) (rc_AdmissionMap r2) st /\
  (running (rc_ru r2) = true -> running u = true \/ is_Some (rc_AdmissionMap r2 !! NamespacedName (rc_ru r))).
Proof.
  intros st r2 Hu Ha Hs H. subst r2.
  assert (running (rc_ru (initialised status r)) = true -> running u = true) as HI.
  { unfold initialised, running, CurrentStatus. destruct (String.eqb status ""); [done|]. by rewrite Hs. }
  destruct (reconcile_valid_outcome status r) as [_ [[-> Hst]|(base & HB & -> & Hst)]].
  - split; [done|]. intros Hr. left. apply HI. unfold running in *. by rewrite <- Hst.
  - split; [|destruct Hst as [Hst|Hst]; [intros Hr; left; apply HI; unfold running in *; by rewrite <- Hst|by right]].
    rewrite Ha. assert (in_step (rc_maxParallel r) base st /\ covers base st) as [H1 H2].
    { destruct HB as [[Hne ->]|(He & items & w' & HL & ->)].
      - split; [done|]. by destruct (is_cover _ _ _ H).
      - rewrite (recovered_running _ _ _ HL (is_label _ _ _ H)).
        pose proof (in_step_recover _ _ _ H) as HR. split; [done|].
        intros k u' Hu' Hr'. exists (ScalingGroupName u'). apply running_map_lookup. eauto. }
    by apply in_step_admit.
Qed.

Lemma Reconcile_in_step (req : string) (r : Reconciler) :
  reliable_writes -> in_step_with r -> in_step_with (Reconcile req r).2.
Proof.
  intros HW H. unfold Reconcile, rcall, mbind at 1, M_bind at 1.
  destruct (svc_GetRollingUpgrade req (rc_world r)) as [f w] eqn:Hg.
  destruct (sl_get _ _ _ _ Hg) as [Hw Hf].
  assert (in_step_with (set_trace w (rc_calls r ++ [CallGetRollingUpgrade req]) r)) as H0
    by (unfold in_step_with in *; cbn; by rewrite Hw).
  destruct f as [u|err].
  - pose proof (sl_keyed _ _ _ Hf) as Hk. rewrite (sl_live _ _ _ Hf).
    destruct (ContainsEqualFold FiniteStates (CurrentStatus u)) eqn:Ef.
    { apply in_step_forget, H0. intros u' Hu'. change (stored w !! NamespacedName u = Some u') in Hu'.
      rewrite Hw, Hk, Hf in Hu'. injection Hu' as <-. by apply running_finite. }
    destruct (Validate u) as [u1 [err|]] eqn:Ev; [done|].
    destruct (Validate_identity u u1 Ev) as [Hn Ha]. apply Validate_ok in Ev as [_ Ev].
    unfold mbind at 1, M_bind at 1. cbn [modify]. rewrite deferred_run.
    match goal with |- in_step_with (Update (reconcile_valid _ ?r0).2).2 => set (r1 := r0) end.
    assert (stored (rc_world r1) !! NamespacedName (rc_ru r1) = Some u) as Hu
      by (change (stored w !! NamespacedName u1 = Some u); by rewrite Hw, Hn, Hk).
    destruct (reconcile_valid_in_step (CurrentStatus u) r1 u Hu Ha) as [H1 H2]; [by subst u1|done|].
    set (r2 := (reconcile_valid (CurrentStatus u) r1).2) in *.
    pose proof (reconcile_valid_store (CurrentStatus u) r1) as HS. fold r2 in HS.
    pose proof (reconcile_valid_identity (CurrentStatus u) r1) as Hid.
    apply identity_names in Hid as [Hid _]. fold r2 in Hid.
    destruct (reconcile_valid_outcome (CurrentStatus u) r1) as [Hmp _]. fold r2 in Hmp.
    destruct (Update_effects r2) as (HA & _ & HU). specialize (HU HW). injection HA as HA1 HA2.
    unfold in_step_with. rewrite HA1, HA2, Hmp. unfold keeps in HS. rewrite HS in HU.
    destruct HU as [->| ->]; [done|]. rewrite Hid. by apply (in_step_write _ _ _ _ u).
  - destruct (err_not_found err) eqn:En; [|done]. apply in_step_forget, H0.
    intros u Hu. change (stored w !! req = Some u) in Hu. rewrite Hw, (Hf eq_refl) in Hu. done.
Qed.

Lemma map_node_event_world (obj : WatchedObject) : preserves (keeps rc_world) (map_node_event obj).
Proof.
  unfold map_node_event, UpdateFunc, CreateFunc, DeleteFunc, GenericFunc. frame; by intros r.
Qed.

Lemma system_step_in_step (r r' : Reconciler) :
  reliable_writes ->
  system_step r r' -> in_step_with r -> rc_maxParallel r' = rc_maxParallel r /\ in_step_with r'.
Proof.
  intros HW [req r0|obj r0|w r0 HU|r0 r1 Hm Hp Hw] H.
  - split; [apply (Reconcile_admits req r0)|by apply Reconcile_in_step].
  - pose proof (map_node_event_admission obj r0) as HA. injection HA as HA1 HA2.
    pose proof (map_node_event_world obj r0) as Hw. unfold keeps in Hw.
    unfold in_step_with. by rewrite HA1, HA2, Hw.
  - split; [done|]. by apply (in_step_user _ _ _ _ HU).
  - split; [done|]. unfold in_step_with. rewrite Hm, Hp, Hw. by eapply in_step_restart.
Qed.

(** *** Without restarts *)
Lemma covers_delete (m : gmap string string) (st : gmap string RollingUpgrade) (k : string) :
  (forall u, st !! k = Some u -> running u = false) -> covers m st -> covers (delete k m) st.
Proof.
  intros HK HC k' u Hu Hr. rewrite lookup_delete_ne; [by eapply HC|]. intros <-. by rewrite (HK u Hu) in Hr.
Qed.

Lemma admitted_in_charge (mp : Z) (m : gmap string string) (st : gmap string RollingUpgrade) (name asg : string) :
  admission_inv mp m -> covers m st ->
  admission_inv mp (admitted_map mp m name asg) /\ covers (admitted_map mp m name asg) st.
Proof.
  intros HI HC. unfold admitted_map. destruct (in_progress_elsewhere _ _ _) eqn:Ep; [done|].
  destruct (m !! name) as [v|] eqn:Em; [done|]. destruct (_ <=? _)%Z eqn:El; [done|]. zbool. split.
  - apply admission_inv_insert; [done|done| |done]. by apply in_progress_elsewhere_false.
  - intros k u Hu Hr. destruct (decide (k = name)) as [->|Hk]; [by rewrite lookup_insert_eq|].
    rewrite lookup_insert_ne by done. by eapply HC.
Qed.

(** Under the lock: an empty map recovers nothing, so the limits are checked against what is running. *)
Lemma reconcile_valid_in_charge (status : string) (r : Reconciler) (u : RollingUpgrade) :
  let r2 := (reconcile_valid status r).2 in
  stored (rc_world r) !! NamespacedName (rc_ru r) = Some u -> ru_Status (rc_ru r) = ru_Status u -> in_charge r ->
  in_charge r2 /\ (running (rc_ru r2) = true -> is_Some (rc_AdmissionMap r2 !! NamespacedName (rc_ru r))).
Proof.
  intros r2 Hu Hs [HI HC]. unfold in_charge. subst r2. rewrite reconcile_valid_store.
  assert (running (rc_ru (initialised status r)) = true -> running u = true) as HR.
  { unfold initialised, running, CurrentStatus. destruct (String.eqb status ""); [done|]. by rewrite Hs. }
  destruct (reconcile_valid_outcome status r) as [-> [[-> Hst]|(base & HB & -> & Hst)]].
  - split; [done|]. intros Hr. eapply HC, HR; [done|]. unfold running in *. by rewrite <- Hst.
  - assert (base = rc_AdmissionMap r) as ->.
    { destruct HB as [[_ ->]|(He & items & w' & HL & ->)]; [done|]. rewrite He in *.
      by apply (recovered_nothing _ _ _ HL). }
    destruct (admitted_in_charge _ _ _ (NamespacedName (rc_ru r)) (ScalingGroupName (rc_ru r)) HI HC) as [H1 H2].
    split; [done|]. destruct Hst as [Hst|Hst]; [|done]. intros Hr. eapply H2, HR; [done|].
    unfold running in *. by rewrite <- Hst.
Qed.

Lemma covers_alter (m : gmap string string) (st : gmap string RollingUpgrade) (u2 : RollingUpgrade)
    (f : RollingUpgrade -> RollingUpgrade) (key : string) :
  (forall u, running (f u) = running u2) -> (running u2 = true -> is_Some (m !! key)) ->
  covers m st -> covers m (alter f key st).
Proof.
  intros Hf HK HC k u' [(<- & u & _ & ->)|[_ Hu]]%lookup_alter_Some Hr; [|by eapply HC].
  apply HK. by rewrite <- (Hf u).
Qed.

Lemma Reconcile_in_charge (req : string) (r : Reconciler) : in_charge r -> in_charge (Reconcile req r).2.
Proof.
  intros H. unfold Reconcile, rcall, mbind at 1, M_bind at 1.
  destruct (svc_GetRollingUpgrade req (rc_world r)) as [f w] eqn:Hg.
  destruct (sl_get _ _ _ _ Hg) as [Hw Hf].
  assert (in_charge (set_trace w (rc_calls r ++ [CallGetRollingUpgrade req]) r)) as [H1 H2]
    by (unfold in_charge in *; cbn; by rewrite Hw).
  destruct f as [u|err].
  - pose proof (sl_keyed _ _ _ Hf) as Hk. rewrite (sl_live _ _ _ Hf).
    destruct (ContainsEqualFold FiniteStates (CurrentStatus u)) eqn:Ef.
    { split; [by apply admission_inv_delete|]. apply covers_delete; [|done]. intros u' Hu'.
      change (stored w !! NamespacedName u = Some u') in Hu'. rewrite Hw, Hk, Hf in Hu'. injection Hu' as <-.
      by apply running_finite. }
    destruct (Validate u) as [u1 [err|]] eqn:Ev; [done|].
    destruct (Validate_identity u u1 Ev) as [Hn Ha]. apply Validate_ok in Ev as [_ Ev].
    unfold mbind at 1, M_bind at 1. cbn [modify]. rewrite deferred_run.
    match goal with |- in_charge (Update (reconcile_valid _ ?r0).2).2 => set (r1 := r0) end.
    destruct (reconcile_valid_in_charge (CurrentStatus u) r1 u) as [[H3 H4] H5];
      [cbn; by rewrite Hw, Hn, Hk|by subst u1|done|].
    set (r2 := (reconcile_valid (CurrentStatus u) r1).2) in *.
    pose proof (reconcile_valid_identity (CurrentStatus u) r1) as Hid.
    apply identity_names in Hid as [Hid _]. fold r2 in Hid. rewrite <- Hid in H5.
    destruct (Update_effects r2) as (HA & HU & _). injection HA as HA1 HA2.
    unfold in_charge. rewrite HA1, HA2. split; [done|].
    destruct HU as [->|[-> | ->]]; [done|by apply (covers_alter _ _ (rc_ru r2))..].
  - destruct (err_not_found err) eqn:En; [|done]. split; [by apply admission_inv_delete|].
    apply covers_delete; [|done]. intros u Hu. change (stored w !! req = Some u) in Hu.
    rewrite Hw, (Hf eq_refl) in Hu. done.
Qed.

Lemma serving_step_in_charge (r r' : Reconciler) :
  serving_step r r' -> in_charge r -> rc_maxParallel r' = rc_maxParallel r /\ in_charge r'.
Proof.
  intros [req r0|obj r0|w r0 HU] H.
  - split; [apply (Reconcile_admits req r0)|by apply Reconcile_in_charge].
  - pose proof (map_node_event_admission obj r0) as HA. injection HA as HA1 HA2.
    pose proof (map_node_event_world obj r0) as Hw. unfold keeps in Hw.
    unfold in_charge. by rewrite HA1, HA2, Hw.
  - split; [done|]. destruct H as [HI HC]. split; [done|]. intros k u' Hu' Hr'.
    destruct (HU k u' Hu' Hr') as (u & Hu & Hr). by eapply HC.
Qed.


End handler.

(** ** Witness: an API server that is a map of resources, over the sample cluster *)
Definition live (ku : string * RollingUpgrade) : Prop :=
  NamespacedName ku.2 = ku.1 /\ is_deleted ku.2 = false.
#[local] Instance live_dec (ku : string * RollingUpgrade) : Decision (live ku).
Proof. unfold live. apply _. Defined.

Definition live_part (w : gmap string RollingUpgrade) : gmap string RollingUpgrade := filter live w.

Lemma live_part_Some (w : gmap string RollingUpgrade) (k : string) (u : RollingUpgrade) :
  live_part w !! k = Some u <-> w !! k = Some u /\ live (k, u).
Proof. apply map_lookup_filter_Some. Qed.

Lemma live_part_alter (f : RollingUpgrade -> RollingUpgrade) (k : string) (w : gmap string RollingUpgrade) :
  (forall u, live (k, f u) <-> live (k, u)) -> live_part (alter f k w) = alter f k (live_part w).
Proof.
  intros Hf. apply map_eq. intros k'. apply option_eq. intros u'.
  rewrite live_part_Some, !lookup_alter_Some. setoid_rewrite live_part_Some. split.
  - intros [[(<- & u & Hu & ->)|[Hne Hu]] HL]; [left|by right]. split; [done|]. exists u. by rewrite <- Hf.
  - intros [(<- & u & [Hu HL] & ->)|[Hne [Hu HL]]]; (split; [|by rewrite ?Hf]); [left|right]; eauto.
Qed.

(** The labelled ones among them, by their names. *)
Lemma listed_live (label value : string) (w : gmap string RollingUpgrade) (u : RollingUpgrade) :
  u ∈ List.filter (has_label label value) (map snd (map_to_list (live_part w))) <->
  live_part w !! NamespacedName u = Some u /\ has_label label value u = true.
Proof.
  rewrite list_elem_of_In, filter_In, in_map_iff. split.
  - intros [([k u'] & <- & Hin) Hl]. apply list_elem_of_In, elem_of_map_to_list in Hin. split; [|done].
    pose proof Hin as [_ [Hk _]]%live_part_Some. cbn in *. by rewrite Hk.
  - intros [Hu Hl]. split; [|done]. exists (NamespacedName u, u). split; [done|].
    by apply list_elem_of_In, elem_of_map_to_list.
Qed.

(** Everything succeeds but, perhaps, the patches of labels; the first goroutine runs to its end. *)
Definition store_env_with (accepts_labels : bool) : Env := {|
  env_unicode := ascii_fold;
  env_intstr := sample_intstr;
  env_time := sample_time;
  World := gmap string RollingUpgrade;
  svc_Now w := (1000 * Second, w)%Z;
  svc_shuffle w := ([], w);
  svc_background w := ([], w);
  svc_schedule w := ([EvRun 0; EvRun 0; EvRun 0; EvRun 0; EvDone], w);
  svc_DescribeLaunchTemplatesPages w := (([mkPage [] None], None), w);
  svc_DescribeAutoScalingGroupsPages w := (([mkPage [sample_group] None], None), w);
  svc_DescribeInstancesPages fs w := (([mkPage [] None], None), w);
  svc_CreateTags ids k v w := (None, w);
  svc_DeleteTags ids k v w := (None, w);
  svc_TerminateInstance id b w := (None, w);
  svc_EnterStandby asg ids b w := (None, w);
  svc_NodesList w := ((Some sample_nodes, None), w);
  svc_NodeGet name w := (inr (not_found name), w);
  svc_NodeUpdate n w := (inl n, w);
  svc_RunCordonOrUncordon n b w := ((None, with_Unschedulable b n), w);
  svc_RunNodeDrain name t w := (None, w);
  svc_Exec cmd env w := (None, w);
  env_Environ := [];
  svc_GetRollingUpgrade name w :=
    (match live_part w !! name with Some u => inl u | None => inr (not_found name) end, w);
  svc_ListRollingUpgrades label value w :=
    (inl (List.filter (has_label label value) (map snd (map_to_list (live_part w)))), w);
  svc_StatusUpdate u w := (None, alter (with_Status (fun _ => ru_Status u)) (NamespacedName u) w);
  svc_PatchLabel name label value w :=
    if accepts_labels then (None, alter (SetLabel label value) name w)
    else (Some (Errorf "the server has timed out"), w);
  svc_KubeClient w := (None, w);
|}.
Definition store_env : Env := store_env_with true.
#[local] Instance store_view (b : bool) : ApiStore (store_env_with b) := live_part.

Lemma store_env_laws (b : bool) : StoreLaws (store_env_with b) (store_view b).
Proof.
  split; try (intros; intros w; reflexivity).
  - intros w k u [_ [H _]]%live_part_Some. exact H.
  - intros w k u [_ [_ H]]%live_part_Some. exact H.
  - intros name w r w' [= <- <-]. split; [done|]. unfold stored, store_view.
    by destruct (live_part w !! name).
  - intros label value w r w' [= <- <-]. split; [done|]. intros items [= <-] u. apply listed_live.
  - intros u w err w' [= <- <-]. left. by apply live_part_alter.
  - intros name label value w err w'. cbn. destruct b; intros [= <- <-].
    + left. by apply live_part_alter.
    + right. split; [by eexists|done].
Qed.

Lemma store_env_reliable : reliable_writes (E := store_env).
Proof. split; [discriminate|reflexivity]. Qed.

Definition two_upgrades : gmap string RollingUpgrade :=
  list_to_map [("default/a", named_upgrade "a" ""); ("default/b", named_upgrade "b" "")].

Lemma two_upgrades_waiting (k : string) (u : RollingUpgrade) :
  live_part two_upgrades !! k = Some u -> running u = false.
Proof.
  intros Hu. assert (Forall (fun ku => running ku.2 = false)
    (map_to_list (live_part two_upgrades))) as HF by (vm_compute; repeat constructor).
  apply (proj1 (Forall_forall _ _) HF (k, u)), elem_of_map_to_list, Hu.
Qed.

(** A controller started on a store with a limit of one. *)
Definition started (b : bool) (w : gmap string RollingUpgrade) : @Reconciler (store_env_with b) :=
  mkReconciler (store_env_with b) w [] empty_metrics ∅ ∅ ∅ ∅ ∅ ∅ 1 2 900 false false (named_upgrade "" "").

Lemma restart_between (a b : string) (r : @Reconciler store_env) :
  rc_maxParallel r = 1%Z -> rtc system_step r (@Reconcile store_env b (started true (rc_world (Reconcile a r).2))).2.
Proof.
  intros H. pose proof (proj2 (Reconcile_admits a r)) as Hp. rewrite H in Hp.
  eapply rtc_l; [apply (SysReconcile a)|]. generalize dependent (Reconcile a r).2. intros r1 Hp.
  eapply rtc_l; [|apply rtc_once, (SysReconcile b)]. by apply SysRestart.
Qed.



(** When the patch of the label fails, the status is written but the label is not, [Update] goes on as
    if nothing had happened, and a restarted controller does not find the running resource: the
    second resource is admitted while the first is still running. *)
Lemma lost_label_forgets :
  let E := store_env_with false in
  let r1 := (@Reconcile E "default/a" (started false two_upgrades)).2 in
  let r3 := (@Reconcile E "default/b" (started false (rc_world r1))).2 in
  rc_AdmissionMap r1 = {["default/a" := "asg-1"]} /\ rc_AdmissionMap r3 = {["default/b" := "asg-1"]} /\
  (running <$> rc_world r3) = {["default/a" := true; "default/b" := true]}.
Proof. intros E r1 r3. split; [|split]; vm_compute; reflexivity. Qed.
