(* ===== verification/Completion.v ===== *)
(** * Completion: an admitted upgrade is carried through

    [Converge.RotateNodes_advances] is about one rotation; here the handler is run again and again, with time
    passing in between ([waits]).  The state that has to survive from one [Reconcile] to the
    next is spread over the API server (the stored resource with its times and status), the cloud (the fleet), and
    the maps of the reconciler (admission, lock, node cache, drain managers): [on_course] collects it, every
    [cycle] preserves it and leaves less to replace, and the last one stores the status complete. *)
From S2P Require Import Prelude GoStrings GoTime Common Types AwsProvider KubeProvider Metrics Env SampleEnv.
From S2P Require Import AwsClient KubeClient Cloud Steps Drift Uniform Targets Balloon Cordon Drain.
From S2P Require Import Replace Rotate Progress Fleet Converge Reconciler Restart.

(** The API server answers the controller, and its requests do not touch the fleet. *)
Class ApiCooperates (E : Env) (V : CloudView E) (S : ApiStore E) : Prop := {
  ac_get : forall k w v, stored w !! k = Some v -> (svc_GetRollingUpgrade k w).1 = inl v;
  ac_list : forall label value w, exists items, (svc_ListRollingUpgrades label value w).1 = inl items;
  ac_status : forall u w, (svc_StatusUpdate u w).1 = None;
  ac_idle_get : forall k, idle (svc_GetRollingUpgrade k);
  ac_idle_list : forall label value, idle (svc_ListRollingUpgrades label value);
  ac_idle_status : forall u, idle (svc_StatusUpdate u);
  ac_patch : forall k label value w, (svc_PatchLabel k label value w).1 = None;
  ac_idle_patch : forall k label value, idle (svc_PatchLabel k label value);
}.

Section vocabulary.
Context `{E : Env} {V : CloudView E} {S : ApiStore E}.

(** What the handler carries to the rotation. *)
Definition rc_footing (r : Reconciler) :=
  (rc_nodes r, rc_ClusterNodesMap r, rc_drains r, rc_EarlyCordonNodes r, identity (rc_ru r), last_times (rc_ru r)).

(** Nothing but bookkeeping happened to the reconciler. *)
Record rc_still (r r' : Reconciler) : Prop := {
  rs_footing : rc_footing r' = rc_footing r;
  rs_fleet : fleet (rc_world r') = fleet (rc_world r);
  rs_clock : (clock (rc_world r) <= clock (rc_world r'))%Z;
  rs_stored : stored (rc_world r') = stored (rc_world r);
}.

#[export] Instance rc_still_preorder : PreOrder rc_still.
Proof.
  split; [intros r; split; [done|done|lia|done]|].
  intros x y z [F1 L1 C1 S1] [F2 L2 C2 S2]. split; [congruence|congruence|lia|congruence].
Qed.

(** The drain manager of a resource. *)
Definition drain_of (key : string) (r : Reconciler) : DrainManager * list CallMaps :=
  default (new_DrainManager, []) (rc_drains r !! key).

(** The state a context of the current object starts from, and the reconciler it leaves. *)
Definition context_of (nodes : list node_ptr) (r : Reconciler) : St :=
  let drain := drain_of (NamespacedName (rc_ru r)) r in
  mkSt _ (rc_world r) (rc_calls r) (rc_metrics r) (rc_nodes r) (rc_ru r)
    (mkDiscovered nodes [] [] []) (rc_replacementNodes r) false drain.1 drain.2.

Definition back_from (s : St) (r : Reconciler) : Reconciler :=
  mkReconciler _ (s_world s) (s_calls s) (s_metrics s) (s_nodes s) (rc_AdmissionMap r) (rc_ReconcileMap r)
    (rc_ClusterNodesMap r) (<[NamespacedName (rc_ru r) := (s_drain s, detach s (s_maps s))]> (rc_drains r))
    (s_replacementNodes s) (rc_maxParallel r) (rc_MaxReplacementNodes r) (rc_DrainTimeout r)
    (rc_IgnoreDrainFailures r) (rc_EarlyCordonNodes r) (s_ru s).

(** The resource passes the checks of the admission on this map. *)
Definition admissible (mp : Z) (key name : string) (m : gmap string string) : Prop :=
  in_progress_elsewhere m key name = false /\ (is_Some (m !! key) \/ (Z.of_nat (size m) < mp)%Z).

(** It passes them now: on the admission map, or on what a restarted controller recovers. *)
Definition gets_in (key name : string) (r : Reconciler) : Prop :=
  (rc_AdmissionMap r <> ∅ /\ admissible (rc_maxParallel r) key name (rc_AdmissionMap r)) \/
  (rc_AdmissionMap r = ∅ /\ admissible (rc_maxParallel r) key name (running_map (stored (rc_world r))) /\
   forall k u, stored (rc_world r) !! k = Some u -> running u = true ->
     has_label LabelKeyRollingUpgradeCurrentStatus StatusRunning u = true).
End vocabulary.

(** ** The handler up to the rotation *)
Section handler.
Context `{E : Env} {V : CloudView E} {S : ApiStore E} `{!CloudLaws E V, !StoreLaws E S, !ApiCooperates E V S}.

Lemma rcall_still {A} (c : Call) (f : World -> A * World) : idle f -> neutral f -> preserves rc_still (rcall c f).
Proof.
  intros HI HN r. unfold rcall. destruct (HI (rc_world r)) as [HF HC]. specialize (HN (rc_world r)).
  by destruct (f (rc_world r)) as [a w].
Qed.

Lemma modify_rc_still (f : Reconciler -> Reconciler) :
  (forall r, rc_footing (f r) = rc_footing r) -> (forall r, rc_world (f r) = rc_world r) -> preserves rc_still (modify f).
Proof. intros HF HW r. cbn. split; [apply HF|rewrite HW; done|rewrite HW; lia|rewrite HW; done]. Qed.

Lemma recover_still : preserves rc_still recover_admitted.
Proof.
  unfold recover_admitted. frame; [|by apply modify_rc_still].
  apply rcall_still; [apply ac_idle_list|apply list_neutral].
Qed.

Lemma getClusterNodes_still : preserves rc_still getClusterNodes.
Proof.
  intros r. unfold getClusterNodes. destruct (cl_idle_shuffle (rc_world r)) as [HF HC].
  pose proof (sl_shuffle (rc_world r)) as HS. by destruct (svc_shuffle (rc_world r)) as [code w].
Qed.

Lemma FlushCache_still (service : string) : preserves rc_still (FlushCache service).
Proof. apply rcall_still; [intros w; cbn; split; [done|lia]|by intros w]. Qed.

Lemma locked_still (status : string) (r : Reconciler) : rc_still r (locked status r).
Proof. unfold locked, initialised. destruct (String.eqb status ""); (split; [done|done|cbn; lia|done]). Qed.

(** The recovery finds the map the checks are made on. *)
Lemma recover_admissible (key name : string) (r : Reconciler) :
  gets_in key name r ->
  exists r', recover_admitted r = (Val None, r') /\ admissible (rc_maxParallel r) key name (rc_AdmissionMap r') /\
    rc_maxParallel r' = rc_maxParallel r.
Proof.
  intros HG. destruct (recover_outcome r) as [(err & r' & HR & _)|(base & r' & HR & HB & HA & _)].
  - exfalso. unfold recover_admitted in HR. rewrite (bind_val _ _ r r r) in HR by done.
    destruct (_ =? 0)%Z; [|by injection HR]. unfold rcall, mbind, M_bind in HR.
    destruct (ac_list LabelKeyRollingUpgradeCurrentStatus StatusRunning (rc_world r)) as [items HL].
    destruct (svc_ListRollingUpgrades _ _ (rc_world r)) as [l w]. cbn in HL. subst l.
    rewrite recover_stores in HR. by injection HR.
  - exists r'. split; [done|]. injection HA as HA1 HA2. rewrite HA1. split; [|done].
    destruct HG as [[Hne HG]|(He & HG & Hl)], HB as [[Hne' ->]|(He' & items & w' & HL & ->)]; try done.
    by rewrite (recovered_running _ _ _ HL Hl).
Qed.

Lemma admissible_enters (asg : string) (r : Reconciler) :
  admissible (rc_maxParallel r) (NamespacedName (rc_ru r)) asg (rc_AdmissionMap r) ->
  admit_or_requeue asg r = reconcile_admitted asg r.
Proof.
  intros [H1 H2]. unfold admit_or_requeue. rewrite (bind_val _ _ r r r) by done. cbv zeta. rewrite H1.
  rewrite GetSyncMapLen_size. unfold Load. destruct H2 as [[v ->]|H2]; [by rewrite andb_false_r|].
  by replace (_ <=? _)%Z with false by lia.
Qed.

Lemma ensure_populated (r : Reconciler) :
  rc_ClusterNodesMap r <> ∅ -> ensureClusterNodesMapPopulated r = (Val None, r).
Proof.
  intros Hne. unfold ensureClusterNodesMapPopulated. rewrite (bind_val _ _ r r r) by done.
  unfold Range. destruct (map_to_list (rc_ClusterNodesMap r)) as [|[k p] l] eqn:El; [|done].
  by apply map_to_list_empty_iff in El.
Qed.

(** Once it is admitted and the cache is filled, the resource is rotated in a context on all cached nodes. *)
Lemma rotate_admitted_context (present : bool) (r : Reconciler) :
  rc_ClusterNodesMap r <> ∅ ->
  exists nodes r1, rc_still r r1 /\ admission r1 = admission r /\ rc_ReconcileMap r1 = rc_ReconcileMap r /\
    nodes ≡ₚ map snd (map_to_list (rc_ClusterNodesMap r)) /\
    (rotate_admitted present r).2 = (in_context nodes rotate_in_context r1).2.
Proof.
  intros Hne. unfold rotate_admitted.
  assert (exists r0, (if negb present then FlushCache "autoscaling" ;;; FlushCache "ec2" else mret tt) r = (Val tt, r0) /\
    rc_still r r0 /\ admission r0 = admission r /\ rc_ReconcileMap r0 = rc_ReconcileMap r) as (r0 & E0 & S0 & A0 & L0).
  { destruct present; [by exists r|]. eexists. split; [reflexivity|]. split; [|done]. split; [done|done|cbn; lia|done]. }
  rewrite (bind_val _ _ _ _ _ E0).
  assert (rc_ClusterNodesMap r0 = rc_ClusterNodesMap r) as C0 by (by injection (rs_footing _ _ S0)).
  rewrite (bind_val _ _ _ _ _ (ensure_populated r0 ltac:(by rewrite C0))).
  destruct (getClusterNodes r0) as [[nodes|] r1] eqn:E1; [|unfold getClusterNodes in E1; by destruct (svc_shuffle _)].
  exists nodes, r1. pose proof (getClusterNodes_still r0) as S1. rewrite E1 in S1.
  pose proof (getClusterNodes_admission r0) as A1. rewrite E1 in A1. unfold keeps in A1. cbn in S1, A1.
  split; [by transitivity r0|]. split; [congruence|]. rewrite (bind_val _ _ _ _ _ E1).
  unfold getClusterNodes in E1. destruct (svc_shuffle _) as [code w]. injection E1 as <- <-. split; [done|].
  split; [by rewrite permute_perm, C0|]. unfold mbind, M_bind.
  by destruct (in_context _ _ _) as [[[err|]|] r2].
Qed.

(** A free lock and a place: the handler gets to the rotation, in the state it was called in. *)
Lemma reconcile_valid_context (status key name : string) (r : Reconciler) :
  NamespacedName (rc_ru r) = key -> ScalingGroupName (rc_ru r) = name ->
  rc_ReconcileMap r !! key = None -> rc_ClusterNodesMap r <> ∅ -> gets_in key name r ->
  exists nodes r1, rc_still r r1 /\ nodes ≡ₚ map snd (map_to_list (rc_ClusterNodesMap r)) /\
    is_Some (rc_AdmissionMap r1 !! key) /\ in_progress_elsewhere (rc_AdmissionMap r1) key name = false /\
    (reconcile_valid status r).2 = (in_context nodes rotate_in_context r1).2.
Proof.
  intros <- <- HL Hne HG. rewrite reconcile_valid_free by done. set (r0 := locked status r).
  pose proof (locked_still status r) as S0. fold r0 in S0.
  destruct (initialised_same status r) as (_ & _ & HA & HP & HW & _).
  destruct (recover_admissible (NamespacedName (rc_ru r)) (ScalingGroupName (rc_ru r)) r0) as (r1 & E1 & A1 & P1).
  { unfold gets_in. cbn. by rewrite HA, HP, HW. }
  rewrite (bind_val _ _ _ _ _ E1). pose proof (recover_still r0) as S1. rewrite E1 in S1. cbn in S1.
  assert (rc_still r r1) as S2 by (by transitivity r0).
  injection (rs_footing _ _ S2) as F1 F2 F3 F4 F5 F6 F7 F8 F9.
  assert (NamespacedName (rc_ru r1) = NamespacedName (rc_ru r)) as HN by (unfold NamespacedName; by rewrite F5, F6).
  rewrite admissible_enters by (rewrite P1, HN; exact A1).
  pose proof (reconcile_admitted_rest (ScalingGroupName (rc_ru r)) r1) as HR. unfold LoadOrStore in HR. rewrite HN in HR.
  destruct A1 as [A1 A2].
  assert (forall b m, is_Some (m !! NamespacedName (rc_ru r)) ->
    in_progress_elsewhere m (NamespacedName (rc_ru r)) (ScalingGroupName (rc_ru r)) = false ->
    exists nodes r2, rc_still r r2 /\ nodes ≡ₚ map snd (map_to_list (rc_ClusterNodesMap r)) /\
      is_Some (rc_AdmissionMap r2 !! NamespacedName (rc_ru r)) /\
      in_progress_elsewhere (rc_AdmissionMap r2) (NamespacedName (rc_ru r)) (ScalingGroupName (rc_ru r)) = false /\
      (rotate_admitted b (upd_AdmissionMap (fun _ => m) r1)).2 = (in_context nodes rotate_in_context r2).2) as HC.
  { intros b m Hm Hi. destruct (rotate_admitted_context b (upd_AdmissionMap (fun _ => m) r1)) as (nodes & r2 & S3 & A & _ & HP2 & E2);
      [cbn; by rewrite F2|].
    exists nodes, r2. injection A as A _. cbn in HP2, A. rewrite A, <- F2.
    split; [|done]. transitivity r1; [done|]. transitivity (upd_AdmissionMap (fun _ => m) r1); [|done].
    split; [done|done|cbn; lia|done]. }
  destruct (rc_AdmissionMap r1 !! _) as [v|] eqn:Em; rewrite HR; apply HC; [by rewrite Em|done| |].
  - by rewrite lookup_insert_eq.
  - apply not_true_iff_false. rewrite in_progress_elsewhere_spec.
    pose proof (in_progress_elsewhere_false _ _ _ A1) as HF. intros (k & v & Hk & Hc).
    apply lookup_insert_Some in Hk as [[<- <-]|[_ Hk]]; [|by rewrite (HF k v Hk) in Hc].
    unfold conflicts in Hc. by rewrite !EqualFold_refl in Hc.
Qed.

Lemma in_context_run (nodes : list node_ptr) (r : Reconciler) (s' : St) :
  RotateNodes (context_config r) (context_of nodes r) = (Val None, s') ->
  (in_context nodes rotate_in_context r).2 = back_from s' r.
Proof.
  intros HR. unfold in_context, context_of, drain_of in *. destruct (default _ _) as [d maps]. cbn [fst snd] in HR.
  unfold rotate_in_context. by rewrite (bind_val _ _ _ _ _ HR).
Qed.

(** *** The deferred update *)
Lemma Update_works (r : Reconciler) :
  let r' := (Update r).2 in
  stored (rc_world r') = alter (write_back (rc_ru r)) (NamespacedName (rc_ru r)) (stored (rc_world r)) /\
  fleet (rc_world r') = fleet (rc_world r) /\ (clock (rc_world r) <= clock (rc_world r'))%Z /\
  rc_footing r' = rc_footing r /\ admission r' = admission r /\
  rc_ReconcileMap r' = delete (NamespacedName (rc_ru r)) (rc_ReconcileMap r).
Proof.
  intros r'. subst r'. unfold Update, rcall, modify, mbind, M_bind, get. cbn.
  pose proof (ac_status (rc_ru r) (rc_world r)) as H1. destruct (ac_idle_status (rc_ru r) (rc_world r)) as [F1 C1].
  destruct (svc_StatusUpdate _ _) as [err w] eqn:Es. pose proof (sl_status _ _ _ _ Es) as Hs. cbn in H1, F1, C1. subst err. cbn.
  destruct Hs as [Hs|[[? ?] _]]; [|done].
  match goal with |- context [svc_PatchLabel ?a ?b ?c w] => destruct (ac_idle_patch a b c w) as [F2 C2]; pose proof (ac_patch a b c w) as H2 end.
  destruct (svc_PatchLabel _ _ _ _) as [err' w'] eqn:Ep. pose proof (sl_patch _ _ _ _ _ _ Ep) as Hp. cbn in *.
  subst err'. destruct Hp as [Hp|[[? ?] _]]; [|done].
  split; [by rewrite Hp, Hs, alter_alter_eq|]. split; [congruence|]. split; [lia|done].
Qed.
End handler.

(** The count of the goroutines, through a whole rotation. *)
Lemma RotateNodes_group `{E : Env} (cfg : Config) : preserves keeps_group (RotateNodes cfg).
Proof.
  assert (forall g ex, preserves keeps_group (SelectTargets g ex)) as HT.
  { intros g ex. apply keeps_drain_group. intros s. apply (sm_drain _ _ (SelectTargets_memory g ex s)). }
  unfold RotateNodes, rotate_discovered, rotate_batch, Discover, DescribeTaggedInstanceIDs, DescribeLaunchTemplates,
    DescribeScalingGroups, IsScalingGroupDrifted, SetProgress, endTimeUpdate, set_status, cleanup_if_early,
    cleanupEarlyCordonedNodes, Now.
  frame; first [apply ReplaceNodeBatch_group | apply HT | apply keeps_drain_group, CordonUncordonAllNodes_keeps_drain
               | by apply keeps_drain_group, modify_keeps_drain].
Qed.

(** ** The upgrade, cycle by cycle *)
Section completion.
Context `{E : Env} {V : CloudView E} {S : ApiStore E}.
Context (key name : string) (N : nat) (u : RollingUpgrade).

(** Time passes: the fleet and the resources stay, and the intervals of the spec are over for whatever was
    recorded before. *)
Record waits (w w' : World) : Prop := {
  wa_fleet : fleet w' = fleet w;
  wa_stored : stored w' = stored w;
  wa_clock : (clock w <= clock w')%Z;
  wa_over : forall t n, n ∈ [NodeIntervalSeconds u; PostDrainDelaySeconds u] -> (t <= clock w)%Z ->
    forall w2, (clock w' <= clock w2)%Z -> since_less_than (svc_Now w2).1 t n = false;
}.

(** A pause, then a reconcile of the resource. *)
Inductive cycle : relation Reconciler :=
| Cycle r w : waits (rc_world r) w -> cycle r (Reconcile key (set_trace w (rc_calls r) r)).2.

(** The spec, as the controller works on it. *)
Record lazy_settings : Prop := {
  ls_name : ScalingGroupName u = name;
  ls_force : IsForceRefresh u = false;
  ls_mode : StrategyMode u = UpdateStrategyModeLazy;
  ls_type : UpdateStrategyType u ∈ [RandomUpdateStrategy; UniformAcrossAzUpdateStrategy];
}.

(** The stored resource: valid, with that spec, not finished, its times in the past. *)
Record unfinished (now : Time) (v : RollingUpgrade) : Prop := {
  un_valid : exists v', Validate v = (v', None) /\ ru_Spec v' = ru_Spec u;
  un_status : ContainsEqualFold FiniteStates (CurrentStatus v) = false;
  un_times : forall t, LastNodeTerminationTime v = Some t \/ LastNodeDrainTime v = Some t -> (t <= now)%Z;
}.

Definition left_to_do (r : Reconciler) : list Instance_ := pending name (fleet (rc_world r)).

Definition at_once (f : Fleet) : Z :=
  CalculateMaxUnavailable (MaxUnavailable u) (Int64Value (asg_DesiredCapacity (group_named name f))).

(** What the fleet is like: the group exists, its policy names a template, and a batch has room for an instance. *)
Record rotatable (f : Fleet) : Prop := {
  ro_group : is_Some (asg_AutoScalingGroupName (group_named name f));
  ro_policy : policy_complete (group_named name f);
  ro_bound : (1 <= at_once f)%Z;
}.

(** Every instance that is still to be replaced has its node in the cache. *)
Definition all_cached (r : Reconciler) : Prop :=
  forall i, i ∈ left_to_do r -> exists k p, rc_ClusterNodesMap r !! k = Some p /\
    EqualFold (instance_id i) (GetNodeInstanceID (Some (read_node (rc_nodes r) p))) = true.

(** No drain goroutine is alive, and the scheduler has room for those to come. *)
Record drained (r : Reconciler) : Prop := {
  dr_group : DrainGroup (drain_of key r).1 = 0%Z;
  dr_live : live_workers (dm_workers (drain_of key r).1) = 0%nat;
  dr_room : (length (dm_workers (drain_of key r).1)
             + Z.to_nat (at_once (fleet (rc_world r))) * Datatypes.S (length (left_to_do r)) <= N)%nat;
}.

Record on_course (r : Reconciler) : Prop := {
  oc_stored : exists v, stored (rc_world r) !! key = Some v /\ unfinished (clock (rc_world r)) v;
  oc_fleet : rotatable (fleet (rc_world r));
  oc_populated : rc_ClusterNodesMap r <> ∅;
  oc_cached : all_cached r;
  oc_drained : drained r;
  oc_early : rc_EarlyCordonNodes r = false;
  oc_lock : rc_ReconcileMap r !! key = None;
  oc_place : gets_in key name r;
}.

(** The end: the stored status is complete, and nothing in the group runs an old configuration. *)
Definition completed (r : Reconciler) : Prop :=
  (exists v, stored (rc_world r) !! key = Some v /\ CurrentStatus v = StatusComplete) /\
  up_to_date name (fleet (rc_world r)).

Context `{!CloudLaws E V, !Cooperative E, !CordonLaws E, !NodeApiLaws E, !StoreLaws E S, !ApiCooperates E V S}.
Context (HS : lazy_settings) (HF : forall w, fair 0 N (svc_schedule w).1).

(** *** The context of a cycle *)

(** What the rotation finds of a reconciler that was on course. *)
Record carried (r r1 : Reconciler) (v : RollingUpgrade) : Prop := {
  ca_footing : rc_footing r1 = (rc_nodes r, rc_ClusterNodesMap r, rc_drains r, rc_EarlyCordonNodes r,
                                (ru_Name v, ru_Namespace v, ru_Spec u), last_times v);
  ca_fleet : fleet (rc_world r1) = fleet (rc_world r);
  ca_stored : stored (rc_world r1) = stored (rc_world r);
  ca_waits : waits (rc_world r) (rc_world r1);
}.

Lemma context_eligible (r r1 : Reconciler) (v : RollingUpgrade) (nodes : list node_ptr) :
  on_course r -> carried r r1 v -> nodes ≡ₚ map snd (map_to_list (rc_ClusterNodesMap r)) ->
  eligible name (context_of nodes r1) /\ is_empty_group (current_group name (context_of nodes r1)) = false.
Proof.
  intros HO [HC HF1 _ _] HP. injection HC as C1 C2 C3 C4 C5 C6 C7 C8 C9. destruct HS as [S1 S2 S3 S4].
  destruct (oc_fleet _ HO) as [G1 G2 G3].
  unfold ScalingGroupName, IsForceRefresh, UpdateStrategyType, MaxUnavailable, at_once in *.
  split; [|unfold is_empty_group; apply bool_decide_eq_false; unfold current_group; cbn; rewrite HF1; intros He; rewrite He in G1; by destruct G1].
  split; unfold current_group; cbn; rewrite ?HF1; unfold ScalingGroupName, IsForceRefresh, UpdateStrategyType, MaxUnavailable; rewrite ?C7; try done.
  intros i Hi. unfold to_do in Hi. cbn in Hi. rewrite HF1 in Hi. destruct (oc_cached _ HO i Hi) as (k & p & Hk & Hp).
  unfold select_node. cbn. rewrite C1. destruct (SelectNodeByInstanceID _ _ _) eqn:Es; [by eexists|].
  rewrite SelectNode_None in Es. rewrite Es in Hp; [done|]. rewrite HP. apply list_elem_of_fmap.
  exists (k, p). split; [done|]. by apply elem_of_map_to_list.
Qed.

Lemma waits_over (w w' : World) (t : option Time) (n : Z) :
  waits w w' -> n ∈ [NodeIntervalSeconds u; PostDrainDelaySeconds u] -> (forall x, t = Some x -> (x <= clock w)%Z) ->
  interval_over (fun w2 => (clock w' <= clock w2)%Z) t n.
Proof. intros HW Hn Ht. destruct t as [t|]; [|done]. right. intros w2. apply (wa_over _ _ HW); [done|by apply Ht]. Qed.

Lemma context_ready (r r1 : Reconciler) (v : RollingUpgrade) (nodes : list node_ptr) :
  on_course r -> carried r r1 v -> NamespacedName v = key -> unfinished (clock (rc_world r)) v ->
  lazy_and_idle (context_config r1) N (context_of nodes r1) /\
  s_drain (context_of nodes r1) = (drain_of key r).1 /\
  batch_bound name (context_of nodes r1) = Z.to_nat (at_once (fleet (rc_world r))) /\
  times_ok (context_of nodes r1).
Proof.
  intros HO [HC HF1 _ HW] Hk HU. injection HC as C1 C2 C3 C4 C5 C6 C7 C8 C9.
  assert (drain_of (NamespacedName (rc_ru r1)) r1 = drain_of key r) as HD.
  { unfold drain_of. rewrite C3. unfold NamespacedName. rewrite C5, C6. by rewrite <- Hk. }
  destruct (oc_drained _ HO) as [D1 D2 D3].
  assert (s_drain (context_of nodes r1) = (drain_of key r).1) as HD1 by (cbn; by rewrite HD).
  split; [|split; [done|split]].
  - split; [cbn; by rewrite C4, (oc_early _ HO)| | | |done|].
    + unfold StrategyMode. cbn. rewrite C7. apply (ls_mode HS).
    + unfold group_ok. rewrite HD1, D1, D2. done.
    + by rewrite HD1.
    + unfold intervals_over, NodeIntervalSeconds, PostDrainDelaySeconds. cbn. rewrite C7, C8, C9.
      split; (apply (waits_over (rc_world r)); [done|set_solver|]); intros x Hx; apply (un_times _ _ HU); auto.
  - unfold batch_bound, current_group, MaxUnavailable, at_once. cbn. by rewrite HF1, C7.
  - intros t. cbn. rewrite C8, C9. intros Ht%(un_times _ _ HU). pose proof (wa_clock _ _ HW). lia.
Qed.

(** *** After the rotation *)
Lemma rotatable_same (f f' : Fleet) :
  with_Instances [] (group_named name f') = with_Instances [] (group_named name f) ->
  rotatable f -> rotatable f' /\ at_once f' = at_once f.
Proof.
  intros [= H1 H2 H3 H4 H5 H6] [G1 G2 G3]. unfold policy_complete, at_once in *.
  split; [split; unfold policy_complete, at_once|]; by rewrite ?H1, ?H4, ?H5.
Qed.

Lemma Validate_written (v v' v2 : RollingUpgrade) :
  Validate v = (v', None) -> ru_Spec v2 = ru_Spec v -> exists v2', Validate v2 = (v2', None) /\ ru_Spec v2' = ru_Spec v'.
Proof.
  intros [HA ->]%Validate_ok Hs. eexists. rewrite Validate_ok, Hs. split; [by split|]. cbn. by rewrite Hs.
Qed.

(** What the deferred update leaves, when the rotation did its part. *)
Record returned (r1 : Reconciler) (v : RollingUpgrade) (s' : St) (r' : Reconciler) : Prop := {
  re_stored : stored (rc_world r') !! key = Some (write_back (s_ru s') v);
  re_fleet : fleet (rc_world r') = fleet (s_world s');
  re_clock : (clock (s_world s') <= clock (rc_world r'))%Z;
  re_footing : (rc_nodes r', rc_ClusterNodesMap r', rc_EarlyCordonNodes r') = (s_nodes s', rc_ClusterNodesMap r1, rc_EarlyCordonNodes r1);
  re_drain : (drain_of key r').1 = s_drain s';
  re_admission : admission r' = admission r1;
  re_lock : rc_ReconcileMap r' !! key = None;
}.

Lemma returned_after (r1 : Reconciler) (v : RollingUpgrade) (s' : St) :
  NamespacedName (rc_ru r1) = key -> identity (s_ru s') = identity (rc_ru r1) ->
  stored (s_world s') !! key = Some v ->
  returned r1 v s' (Update (back_from s' r1)).2.
Proof.
  intros Hk Hi Hv. destruct (Update_works (back_from s' r1)) as (U1 & U2 & U3 & U4 & U5 & U6).
  assert (NamespacedName (rc_ru (back_from s' r1)) = key) as Hn by (apply identity_names in Hi as [Hi _]; cbn; congruence).
  rewrite Hn in U1, U6. injection U4 as F1 F2 F3 F4 _ _ _ _ _. split; [| |done| | | |].
  - rewrite U1. cbn. by rewrite lookup_alter_eq, Hv.
  - by rewrite U2.
  - by rewrite F1, F2, F4.
  - unfold drain_of. rewrite F3. cbn. by rewrite Hk, lookup_insert_eq.
  - by rewrite U5.
  - rewrite U6. apply lookup_delete_eq.
Qed.

Section returned.
Context (r r1 r' : Reconciler) (v : RollingUpgrade) (nodes : list node_ptr) (s' : St).
Context (HO : on_course r) (HC : carried r r1 v) (HK : NamespacedName v = key) (HU : unfinished (clock (rc_world r)) v).
Context (HR : rotated name (context_of nodes r1) s') (HT : returned r1 v s' r').

Lemma returned_fleet : rotatable (fleet (rc_world r')) /\ at_once (fleet (rc_world r')) = at_once (fleet (rc_world r)) /\
  left_to_do r' ⊆ left_to_do r.
Proof.
  destruct (rotatable_same (fleet (rc_world r)) (fleet (rc_world r'))) as [H1 H2]; [|apply (oc_fleet _ HO)|].
  - pose proof (sh_group _ _ _ (rd_shrinks _ _ _ HR)) as H. unfold current_group in H. cbn in H.
    by rewrite (re_fleet _ _ _ _ HT), H, (ca_fleet _ _ _ HC).
  - split; [done|]. split; [done|]. pose proof (sh_to_do _ _ _ (rd_shrinks _ _ _ HR)) as H. unfold to_do in H. cbn in H.
    unfold left_to_do. by rewrite (re_fleet _ _ _ _ HT), <- (ca_fleet _ _ _ HC).
Qed.

Lemma returned_cached : all_cached r'.
Proof.
  intros i Hi. destruct (oc_cached _ HO i) as (k & p & Hk & Hp); [by apply returned_fleet|].
  injection (re_footing _ _ _ _ HT) as F1 F2 F3. injection (ca_footing _ _ _ HC) as C1 C2 C3 C4 _ _ _ _ _.
  exists k, p. rewrite F1, F2, C2. split; [done|]. destruct (rd_nodes _ _ _ HR p) as [b Hb]. cbn in Hb.
  rewrite Hb, C1. done.
Qed.

Lemma returned_unfinished (status : string) :
  CurrentStatus (s_ru s') = status -> ContainsEqualFold FiniteStates status = false ->
  unfinished (clock (rc_world r')) (write_back (s_ru s') v).
Proof.
  intros <- Hs. split.
  - destruct (un_valid _ _ HU) as (v' & HV & Hsp). destruct (Validate_written v v' (write_back (s_ru s') v) HV) as (v2 & H1 & H2); [done|].
    exists v2. split; [done|congruence].
  - exact Hs.
  - intros t Ht. destruct (context_ready r r1 v nodes HO HC HK HU) as (_ & _ & _ & HT0).
    apply (proj2 (rd_stamps _ _ _ HR) HT0) in Ht. pose proof (re_clock _ _ _ _ HT). lia.
Qed.

Lemma returned_drained :
  group_ok s' -> (length (left_to_do r') < length (left_to_do r))%nat ->
  (goroutines s' <= goroutines (context_of nodes r1) + batch_bound name (context_of nodes r1))%nat ->
  drained r'.
Proof.
  intros HG HL HN. destruct (context_ready r r1 v nodes HO HC HK HU) as (_ & HD & HB & _).
  destruct (oc_drained _ HO) as [D1 D2 D3]. destruct returned_fleet as (_ & HA & _).
  unfold goroutines in HN. rewrite HD, HB in HN. pose proof (rd_idle _ _ _ HR) as H0. unfold group_ok in HG.
  split; rewrite ?(re_drain _ _ _ _ HT); [done|lia|]. rewrite HA. nia.
Qed.

Lemma returned_on_course :
  is_Some (rc_AdmissionMap r1 !! key) -> in_progress_elsewhere (rc_AdmissionMap r1) key name = false ->
  CurrentStatus (s_ru s') = StatusRunning -> drained r' -> on_course r'.
Proof.
  intros HA1 HA2 Hst HD. injection (re_footing _ _ _ _ HT) as F1 F2 F3.
  injection (ca_footing _ _ _ HC) as C1 C2 C3 C4 _ _ _ _ _. injection (re_admission _ _ _ _ HT) as A1 A2.
  split; [|apply returned_fleet|by rewrite F2, C2; apply (oc_populated _ HO)|apply returned_cached|done
    |rewrite F3, C4; apply (oc_early _ HO)|apply (re_lock _ _ _ _ HT)|].
  - eexists. split; [apply (re_stored _ _ _ _ HT)|]. by apply (returned_unfinished StatusRunning).
  - left. rewrite A1. split; [intros He; rewrite He in HA1; by apply lookup_empty_is_Some in HA1|]. split; [done|by left].
Qed.
End returned.

(** *** A cycle *)
Lemma reconcile_starts (r : Reconciler) (v : RollingUpgrade) (w : World) :
  stored (rc_world r) !! key = Some v -> unfinished (clock (rc_world r)) v -> waits (rc_world r) w ->
  exists v1 w1, let r1 := fetched key w1 v1 (set_trace w (rc_calls r) r) in
    Reconcile key (set_trace w (rc_calls r) r) = deferred (reconcile_valid (CurrentStatus v)) Update r1 /\
    NamespacedName v1 = key /\ identity v1 = (ru_Name v, ru_Namespace v, ru_Spec u) /\ last_times v1 = last_times v /\
    fleet w1 = fleet w /\ stored w1 = stored w /\ (clock w <= clock w1)%Z.
Proof.
  intros Hv [(v1 & HV & Hsp) Hst Hti] HW. pose proof (sl_keyed _ _ _ Hv) as Hk. pose proof (sl_live _ _ _ Hv) as Hl.
  assert (stored w !! key = Some v) as Hw by (by rewrite (wa_stored _ _ HW)).
  pose proof (ac_get key w v Hw) as HG. destruct (ac_idle_get key w) as [HF1 HF2].
  destruct (svc_GetRollingUpgrade key w) as [a w1] eqn:Eg. destruct (sl_get _ _ _ _ Eg) as [Hs _]. cbn in HG, HF1, HF2. subst a.
  destruct (Reconcile_workable key (set_trace w (rc_calls r) r) v w1 Eg) as (v1' & HV' & HR);
    [split; [done|split; [done|by rewrite HV]]|].
  rewrite HV in HV'. injection HV' as <-. exists v1, w1. split; [exact HR|].
  destruct (Validate_identity v v1 HV) as [HN _]. apply Validate_ok in HV as [_ ->]. cbn in *.
  split; [by rewrite <- Hk|]. split; [unfold identity; cbn; by rewrite <- Hsp|done].
Qed.

(** A cycle gets to the rotation with what was on course. *)
Lemma cycle_context (r : Reconciler) (v : RollingUpgrade) (w : World) :
  on_course r -> stored (rc_world r) !! key = Some v -> unfinished (clock (rc_world r)) v -> waits (rc_world r) w ->
  exists nodes r1, carried r r1 v /\ nodes ≡ₚ map snd (map_to_list (rc_ClusterNodesMap r)) /\
    is_Some (rc_AdmissionMap r1 !! key) /\ in_progress_elsewhere (rc_AdmissionMap r1) key name = false /\
    (Reconcile key (set_trace w (rc_calls r) r)).2 = (Update (in_context nodes rotate_in_context r1).2).2.
Proof.
  intros HO Hv HU HW.
  destruct (reconcile_starts r v w Hv HU HW) as (v1 & w1 & -> & Hk & Hid & Hlt & F1 & T1 & K1). rewrite deferred_run.
  set (r0 := fetched key w1 v1 (set_trace w (rc_calls r) r)).
  destruct (reconcile_valid_context (CurrentStatus v) key name r0) as (nodes & r1 & S1 & HP & A1 & A2 & ->);
    [exact Hk| |apply (oc_lock _ HO)|apply (oc_populated _ HO)| |].
  { injection Hid as _ _ Hsp. unfold ScalingGroupName. cbn. rewrite Hsp. apply (ls_name HS). }
  { destruct (oc_place _ HO) as [HG|HG]; [by left|right]. unfold r0. cbn. by rewrite T1, (wa_stored _ _ HW). }
  exists nodes, r1. split; [|done]. destruct S1 as [B1 B2 B3 B4], HW as [W1 W2 W3 W4]. cbn in B2, B3, B4.
  split; [rewrite B1; unfold rc_footing; cbn; by rewrite Hid, Hlt|congruence|congruence|].
  split; [congruence|congruence|lia|]. intros t n Hn Ht w2 Hw2. apply W4; [done|done|lia].
Qed.

(** The rotation of such a context. *)
Lemma context_rotates (r r1 : Reconciler) (v : RollingUpgrade) (nodes : list node_ptr) :
  on_course r -> carried r r1 v -> nodes ≡ₚ map snd (map_to_list (rc_ClusterNodesMap r)) ->
  stored (rc_world r) !! key = Some v -> unfinished (clock (rc_world r)) v ->
  exists s', rotated name (context_of nodes r1) s' /\ advances name (context_of nodes r1) s' /\ group_ok s' /\
    returned r1 v s' (Update (in_context nodes rotate_in_context r1).2).2.
Proof.
  intros HO HC HP Hv HU. pose proof (sl_keyed _ _ _ Hv) as Hk.
  destruct (context_eligible r r1 v nodes HO HC HP) as [HE Hne].
  destruct (context_ready r r1 v nodes HO HC Hk HU) as (HL & HD & HB & HTm).
  destruct (RotateNodes_advances name (context_config r1) N (context_of nodes r1) HE Hne HL) as (s' & ER & HR & HA).
  { unfold goroutines. rewrite HD, HB. pose proof (dr_room _ (oc_drained _ HO)). lia. }
  exists s'. split; [done|]. split; [done|]. split.
  { pose proof (RotateNodes_group (context_config r1) (context_of nodes r1) (li_group _ _ _ HL)) as HG. by rewrite ER in HG. }
  rewrite (in_context_run nodes r1 s' ER). apply returned_after.
  - injection (ca_footing _ _ _ HC) as _ _ _ _ C5 C6 _ _ _. unfold NamespacedName. rewrite C5, C6. exact Hk.
  - pose proof (RotateNodes_identity (context_config r1) (context_of nodes r1)) as HI. rewrite ER in HI. exact HI.
  - pose proof (rotate_in_context_store (context_config r1) (context_of nodes r1)) as HI. unfold rotate_in_context in HI.
    rewrite (bind_val _ _ _ _ _ ER) in HI. unfold keeps in HI. cbn in HI. by rewrite HI, (ca_stored _ _ _ HC).
Qed.

(** A cycle of an upgrade on course: the upgrade completes, or is on course with less to do. *)
Lemma cycle_advances (r r' : Reconciler) :
  on_course r -> cycle r r' ->
  completed r' \/ (on_course r' /\ (length (left_to_do r') < length (left_to_do r))%nat).
Proof.
  intros HO HC. destruct HC as [r w HW]. destruct (oc_stored _ HO) as (v & Hv & HU).
  destruct (cycle_context r v w HO Hv HU HW) as (nodes & r1 & HCa & HP & A1 & A2 & ->).
  destruct (context_rotates r r1 v nodes HO HCa HP Hv HU) as (s' & HR & HA & HG & HT).
  pose proof (sl_keyed _ _ _ Hv) as Hk. set (r' := (Update _).2) in *.
  destruct HA as [(Hst & Hup & _)|(Hst & Hless & Hgo)].
  - left. split; [|by rewrite (re_fleet _ _ _ _ HT)]. eexists. split; [apply (re_stored _ _ _ _ HT)|]. exact Hst.
  - right. assert (length (left_to_do r') < length (left_to_do r))%nat as Hlen.
    { unfold left_to_do. unfold to_do in Hless. cbn in Hless. by rewrite (re_fleet _ _ _ _ HT), <- (ca_fleet _ _ _ HCa). }
    split; [|done]. apply (returned_on_course r r1 r' v nodes s'); try done.
    by apply (returned_drained r r1 r' v nodes s').
Qed.

(** A completed upgrade stays so. *)
Lemma cycle_completed (r r' : Reconciler) : completed r -> cycle r r' -> completed r'.
Proof.
  intros [(v & Hv & Hst) Hup] HC. destruct HC as [r w HW].
  assert (stored w !! key = Some v) as Hw by (by rewrite (wa_stored _ _ HW)).
  pose proof (ac_get key w v Hw) as HG. destruct (ac_idle_get key w) as [HF1 _].
  pose proof (sl_live _ _ _ Hv) as Hl. unfold Reconcile, rcall, mbind, M_bind.
  change (rc_world (set_trace w (rc_calls r) r)) with w.
  destruct (svc_GetRollingUpgrade key w) as [a w1] eqn:Eg. destruct (sl_get _ _ _ _ Eg) as [Hs _]. cbn in HG, HF1. subst a.
  rewrite Hl, Hst. replace (ContainsEqualFold FiniteStates StatusComplete) with true by done.
  split; cbn; [exists v; by rewrite Hs|by rewrite HF1, (wa_fleet _ _ HW)].
Qed.

(** C12: take a stored, valid and unfinished resource in lazy mode, with a strategy type that is one of the two
    constants, without force refresh and without early cordon, whose scaling group exists, has a complete policy and gets
    batches of at least one instance, that gets through the admission and finds its lock free, with a node in the
    cache for every instance that has to be replaced, with no goroutine running and room for the new ones in
    the schedule.  Let it be reconciled again and again with nothing in between but time, at least until the
    two intervals are over, so that no node event evicts a node (C39); let every request succeed, the cloud react as
    documented and every goroutine be scheduled.  Then it is
    completed after at most one reconcile for each instance that has to be replaced
    and one more: the stored status is complete, nothing in the scaling group runs an old configuration, and
    both stay so however often the resource is reconciled after that. *)
Theorem upgrade_completes (n : nat) (r r' : Reconciler) :
  on_course r -> nsteps cycle n r r' -> (length (left_to_do r) < n)%nat -> completed r'.
Proof.
  intros HO HN. assert (forall m a b, completed a -> nsteps cycle m a b -> completed b) as HD.
  { intros m a b Ha Hab. induction Hab as [|m a x b Hx _ IH]; [done|]. by apply IH, (cycle_completed a). }
  induction HN as [|n a b c Hab Hbc IH]; intros Hlt; [lia|].
  destruct (cycle_advances a b HO Hab) as [Hb|[Hb Hl]]; [by apply (HD n b)|]. apply IH; [done|lia].
Qed.
End completion.

(** ** Witness: a small cloud that does what it is asked

    The world is a clock, the instances of one scaling group, the instances tagged as in
    progress, and the resources.  A terminated instance leaves the group, and a new one with the launch configuration of the
    group comes in.  The view shows the group only while its instances have distinct ids. *)
Record CloudWorld := mkCloudWorld {
  cw_clock : Time;
  cw_instances : list Instance_;
  cw_tagged : list string;
  cw_store : gmap string RollingUpgrade;
}.

Definition well_formed (l : list Instance_) : Prop :=
  distinct_ids (UC := ascii_fold) l /\ Forall (fun i => is_Some (inst_InstanceId i)) l.
#[local] Instance well_formed_dec (l : list Instance_) : Decision (well_formed l).
Proof. unfold well_formed, distinct_ids. apply _. Defined.

Definition group_of (l : list Instance_) : Group := mkGroup (Some "asg-1") (Some "lc-2") None None (Some 2%Z) l [].

Definition groups_of (l : list Instance_) : list Group := if decide (well_formed l) then [group_of l] else [].

(** The instance that comes in for [id], if its own id is free. *)
Definition replacement (id : string) (tagged : list string) (l : list Instance_) : list Instance_ :=
  let new := sample_instance ("new-" +:+ id) "az-1" "lc-2" "InService" in
  if decide (well_formed (l ++ [new]) /\ ContainsEqualFold (UC := ascii_fold) tagged (instance_id new) = false)
  then [new] else [].

Definition terminate (id : string) (tagged : list string) (l : list Instance_) : list Instance_ :=
  let rest := List.filter (fun i => negb (String.eqb (instance_id i) id)) l in
  if decide (well_formed l) then rest ++ replacement id tagged rest else l.

Definition regroup (f : list string -> list Instance_ -> list Instance_) (w : CloudWorld) : CloudWorld :=
  mkCloudWorld (cw_clock w) (f (cw_tagged w) (cw_instances w)) (cw_tagged w) (cw_store w).

Definition retag (f : list string -> list string) (w : CloudWorld) : CloudWorld :=
  mkCloudWorld (cw_clock w) (cw_instances w) (f (cw_tagged w)) (cw_store w).
Definition restore (f : gmap string RollingUpgrade -> gmap string RollingUpgrade) (w : CloudWorld) : CloudWorld :=
  mkCloudWorld (cw_clock w) (cw_instances w) (cw_tagged w) (f (cw_store w)).
Definition later (d : Duration) (w : CloudWorld) : CloudWorld :=
  mkCloudWorld (cw_clock w + Z.max 0 d) (cw_instances w) (cw_tagged w) (cw_store w).

Definition tagged_ec2 (w : CloudWorld) : list Ec2Instance :=
  map (fun id => sample_ec2 id [(Some instanceStateTagKey, Some inProgressTagValue)]) (cw_tagged w).
Definition untagged_ec2 (w : CloudWorld) : list Ec2Instance :=
  map (fun i => sample_ec2 (instance_id i) [])
    (List.filter (fun i => negb (bool_decide (instance_id i ∈ cw_tagged w))) (cw_instances w)).

Definition cloud_env (schedule : list SchedEvent) : Env := {|
  env_unicode := ascii_fold;
  env_intstr := sample_intstr;
  env_time := sample_time;
  World := CloudWorld;
  svc_Now w := (cw_clock w, later Second w);
  svc_shuffle w := ([], w);
  svc_background w := ([], w);
  svc_schedule w := (schedule, w);
  svc_DescribeLaunchTemplatesPages w := (([mkPage [] None], None), w);
  svc_DescribeAutoScalingGroupsPages w := (([mkPage (groups_of (cw_instances w)) None], None), w);
  svc_DescribeInstancesPages fs w :=
    (([mkPage [if decide (fs = []) then tagged_ec2 w ++ untagged_ec2 w
               else if decide (fs = tagged_filters instanceStateTagKey inProgressTagValue) then tagged_ec2 w
               else []] None], None), w);
  svc_CreateTags ids k v w := (None, if String.eqb v inProgressTagValue then retag (app ids) w else w);
  svc_DeleteTags ids k v w := (None, retag (List.filter (fun x => negb (bool_decide (x ∈ ids)))) w);
  svc_TerminateInstance id b w := (None, regroup (terminate id) w);
  svc_EnterStandby asg ids b w := (None, w);
  svc_NodesList w := ((Some sample_nodes, None), w);
  svc_NodeGet name w := (inr (not_found name), w);
  svc_NodeUpdate n w := (inl n, w);
  svc_RunCordonOrUncordon n b w := ((None, with_Unschedulable b n), w);
  svc_RunNodeDrain name t w := (None, w);
  svc_Exec cmd env w := (None, w);
  env_Environ := [];
  svc_GetRollingUpgrade name w :=
    (match live_part (cw_store w) !! name with Some u => inl u | None => inr (not_found name) end, w);
  svc_ListRollingUpgrades label value w :=
    (inl (List.filter (has_label label value) (map snd (map_to_list (live_part (cw_store w))))), w);
  svc_StatusUpdate u w := (None, restore (alter (with_Status (fun _ => ru_Status u)) (NamespacedName u)) w);
  svc_PatchLabel name label value w := (None, restore (alter (SetLabel label value) name) w);
  svc_KubeClient w := (None, w);
|}.

Section cloud_env_laws.
Context (schedule : list SchedEvent).
#[local] Instance cloud_view : CloudView (cloud_env schedule) := {
  fleet w := mkFleet [] (groups_of (cw_instances w)) (cw_tagged w);
  clock w := cw_clock w;
}.
#[local] Instance cloud_store : ApiStore (cloud_env schedule) := fun w => live_part (cw_store w).

Lemma well_formed_filter (P : Instance_ -> bool) (l : list Instance_) : well_formed l -> well_formed (List.filter P l).
Proof.
  intros [HD HI]. split.
  - unfold distinct_ids in *. induction l as [|i l IH]; [done|]. cbn in *.
    apply NoDup_cons in HD as [Hn HD]. apply Forall_cons in HI as [_ HI]. destruct (P i); cbn; [|by apply IH].
    apply NoDup_cons. split; [|by apply IH]. intros (j & Hj & Hin)%list_elem_of_fmap. apply Hn, list_elem_of_fmap.
    exists j. split; [done|]. by apply list_elem_of_In, filter_In in Hin as [Hin%list_elem_of_In _].
  - rewrite Forall_forall in *. intros i [Hi%list_elem_of_In _]%list_elem_of_In%filter_In. by apply HI.
Qed.

Lemma terminate_replaces (id : string) (tagged : list string) (l : list Instance_) :
  let l' := terminate id tagged l in
  Forall2 (replaces (UC := ascii_fold) id (mkFleet [] (groups_of l) tagged) (mkFleet [] (groups_of l') tagged))
    (groups_of l) (groups_of l').
Proof.
  intros l'. destruct (decide (well_formed l)) as [Hw|Hw].
  - assert (l' = List.filter (fun i => negb (String.eqb (instance_id i) id)) l
      ++ replacement id tagged (List.filter (fun i => negb (String.eqb (instance_id i) id)) l)) as ->
      by (unfold l', terminate; by rewrite decide_True).
    set (rest := List.filter _ l).
    assert (well_formed (rest ++ replacement id tagged rest)) as Hl.
    { unfold replacement. destruct (decide _) as [[Hl _]|_]; [done|]. rewrite app_nil_r. by apply well_formed_filter. }
    unfold groups_of. rewrite (decide_True _ _ Hw), (decide_True _ _ Hl). constructor; [|constructor].
    exists (replacement id tagged rest). split; [done|]. unfold replacement.
    destruct (decide _) as [[_ Ht]|_]; [|constructor]. constructor; [|constructor]. right. split; [done|exact Ht].
  - replace (groups_of l) with (@nil Group) by (unfold groups_of; by rewrite decide_False).
    replace l' with l by (unfold l', terminate; by rewrite decide_False).
    unfold groups_of. rewrite decide_False by done. constructor.
Qed.

Lemma listed_untagged (w : CloudWorld) (i : Instance_) :
  i ∈ cw_instances w -> ContainsEqualFold (UC := ascii_fold) (cw_tagged w) (instance_id i) = false ->
  exists e, e ∈ tagged_ec2 w ++ untagged_ec2 w /\ StringValue (ec2_InstanceId e) = instance_id i /\
    carries_tag instanceStateTagKey inProgressTagValue e = false.
Proof.
  intros Hi Ht. exists (sample_ec2 (instance_id i) []). split; [|done]. apply elem_of_app. right.
  apply list_elem_of_fmap. exists i. split; [done|]. apply list_elem_of_In, filter_In. split; [by apply list_elem_of_In|].
  apply negb_true_iff, bool_decide_eq_false. intros Hin. apply not_true_iff_false in Ht. apply Ht, ContainsEqualFold_spec.
  eauto using EqualFold_refl.
Qed.

Lemma one_page {A} (x : list A) : well_paged [mkPage x None].
Proof. intros [|i] p [= <-]. cbn. split; [by intros []|lia]. Qed.

Lemma cloud_laws : CloudLaws (cloud_env schedule) cloud_view.
Proof.
  split; try (intros; intros w; cbn; split; [done|lia]).
  - intros w g Hg. cbn in Hg. unfold groups_of in Hg. destruct (decide _) as [Hw|_]; [|by apply not_elem_of_nil in Hg].
    apply list_elem_of_singleton in Hg as ->. exact Hw.
  - intros w. eexists. split; [reflexivity|]. split; [apply one_page|done].
  - intros w. eexists. split; [reflexivity|]. split; [apply one_page|]. cbn. by rewrite app_nil_r.
  - intros w. eexists. split; [reflexivity|]. split; [apply one_page|]. intros x. unfold listed, tagged_ec2. cbn.
    rewrite !app_nil_r, decide_False, decide_True, map_map by done. cbn. by rewrite map_id.
  - intros w. eexists. split; [reflexivity|]. split; [apply one_page|]. unfold listed. cbn. rewrite !app_nil_r. split.
    + constructor; [|constructor]. cbn. rewrite app_nil_r, decide_True by done. apply Forall_app. split; apply Forall_forall; intros e (x & -> & _)%list_elem_of_fmap;
        repeat constructor; by eexists.
    + intros g i Hg Hi _ Ht. unfold groups_of in Hg. destruct (decide _); [|by apply not_elem_of_nil in Hg].
      apply list_elem_of_singleton in Hg as ->. by apply listed_untagged.
  - intros ids k v w. cbn. destruct (String.eqb_spec v inProgressTagValue) as [->|Hv]; cbn.
    + split; [done|]. split; [done|]. split; [|lia]. intros x [Hx|Hx]%elem_of_app; auto.
    + split; [done|]. split; [done|]. split; [|lia]. auto.
  - intros ids k v w. cbn. split; [done|]. split; [done|]. split; [|lia].
    intros x [Hx _]%list_elem_of_In%filter_In. by apply list_elem_of_In.
  - intros id w. split; [done|]. split; [done|]. split; [apply terminate_replaces|cbn; lia].
  - done.
Qed.

Lemma cloud_store_laws : StoreLaws (cloud_env schedule) cloud_store.
Proof.
  split; try (intros; intros w; reflexivity).
  - intros w k u [_ [H _]]%live_part_Some. exact H.
  - intros w k u [_ [_ H]]%live_part_Some. exact H.
  - intros name w r w' [= <- <-]. split; [done|]. unfold stored, cloud_store.
    by destruct (live_part (cw_store w) !! name).
  - intros label value w r w' [= <- <-]. split; [done|]. intros items [= <-] u. apply listed_live.
  - intros u w err w' [= <- <-]. left. by apply live_part_alter.
  - intros name label value w err w' [= <- <-]. left. by apply live_part_alter.
  - intros ids k v w. unfold stored, cloud_store. cbn. by destruct (String.eqb _ _).
Qed.

Lemma cloud_cooperates : ApiCooperates (cloud_env schedule) cloud_view cloud_store.
Proof.
  split; try (intros; intros w; cbn; split; [done|lia]).
  - intros k w v Hv. unfold stored, cloud_store in Hv. cbn. by rewrite Hv.
  - intros label value w. by eexists.
  - done.
  - done.
Qed.
End cloud_env_laws.

(** Two instances of an old configuration, and room for three goroutines. *)
Definition three_goroutines : list SchedEvent :=
  concat (map (fun i => replicate 4 (EvRun i)) [0; 1; 2]%nat) ++ [EvDone].

Definition small_env : Env := cloud_env three_goroutines.
#[local] Existing Instance cloud_view.
#[local] Existing Instance cloud_store.

Definition old_world : CloudWorld :=
  mkCloudWorld (1000 * Second) [sample_instance "i-1" "az-1" "lc-1" "InService"; sample_instance "i-2" "az-1" "lc-1" "InService"]
    [] {["default/a" := named_upgrade "a" ""]}.

(** A controller that was just started, its node cache filled. *)
Definition fresh_controller : @Reconciler small_env :=
  @mkReconciler small_env old_world [] empty_metrics (sample_heap sample_nodes) ∅ ∅
    {["node-1" := 0%nat; "node-2" := 1%nat]} ∅ ∅ 1 2 900 false false (named_upgrade "" "").

(** A second later, it is reconciled again. *)
Definition next_cycle (r : @Reconciler small_env) : @Reconciler small_env :=
  (@Reconcile small_env "default/a" (set_trace (E := small_env) (later Second (rc_world r)) (rc_calls r) r)).2.

Definition validated : RollingUpgrade := (Validate (UC := ascii_fold) (named_upgrade "a" "")).1.

Lemma next_cycle_cycle (r : @Reconciler small_env) : cycle (E := small_env) "default/a" validated r (next_cycle r).
Proof.
  apply Cycle. split; [done|done|cbn; lia|].
  intros t n Hn Ht w2 Hw2. assert (n = 0%Z) as ->.
  { apply elem_of_cons in Hn as [Hn|Hn%list_elem_of_singleton]; by subst. }
  apply since_zero. cbn in *. lia.
Qed.

Lemma three_goroutines_fair : fair 0 3 three_goroutines.
Proof.
  exists (concat (map (fun i => replicate 4 (EvRun i)) [0; 1; 2]%nat)), []. split; [done|]. split.
  - cbn. by rewrite !not_elem_of_cons; repeat split; [..|apply not_elem_of_nil].
  - intros [|[|[|i]]] Hi; vm_compute; lia.
Qed.

Lemma fresh_on_course : on_course (E := small_env) "default/a" "asg-1" 3 validated fresh_controller.
Proof.
  split.
  - exists (named_upgrade "a" ""). split; [vm_compute; reflexivity|]. split; [|vm_compute; reflexivity|].
    + eexists. split; vm_compute; reflexivity.
    + intros t [H|H]; vm_compute in H; done.
  - split; [by eexists|done|vm_compute; done].
  - intros H. apply (f_equal (lookup "node-1")) in H. vm_compute in H. done.
  - assert (left_to_do (E := small_env) "asg-1" fresh_controller = cw_instances old_world) as Hl by (vm_compute; reflexivity).
    intros i Hi. rewrite Hl in Hi. cbn in Hi. apply elem_of_cons in Hi as [Hi|Hi%list_elem_of_singleton]; subst i.
    + exists "node-1", 0%nat. split; vm_compute; reflexivity.
    + exists "node-2", 1%nat. split; vm_compute; reflexivity.
  - split; [done|done|vm_compute; lia].
  - done.
  - done.
  - right. split; [done|]. split; [split; [vm_compute; reflexivity|right; vm_compute; reflexivity]|].
    intros k u Hu. assert (Forall (fun ku => running ku.2 = false)
      (map_to_list (live_part (cw_store old_world)))) as HR by (vm_compute; repeat constructor).
    pose proof (proj1 (Forall_forall _ _) HR (k, u)) as H. cbn in H. rewrite H; [done|]. by apply elem_of_map_to_list.
Qed.

(** Three reconciles replace the two instances and complete the upgrade. *)
Lemma upgrade_completes_witness :
  let r' := Nat.iter 3 next_cycle fresh_controller in
  completed (E := small_env) "default/a" "asg-1" r' /\
  map instance_id (cw_instances (rc_world r')) = ["new-i-1"; "new-i-2"].
Proof.
  intros r'. split; [|vm_compute; reflexivity].
  pose proof (cloud_laws three_goroutines). pose proof (cloud_store_laws three_goroutines).
  pose proof (cloud_cooperates three_goroutines).
  apply (@upgrade_completes small_env _ _ "default/a" "asg-1" 3 validated _ ltac:(by split)
           ltac:(by intros n b w; eexists) ltac:(by split; [|intros n w n' w' [= <- _]]) _ _) with (n := 3%nat) (r := fresh_controller).
  - split; [done|done|done|vm_compute; left].
  - intros w. apply three_goroutines_fair.
  - apply fresh_on_course.
  - eapply nsteps_l; [apply next_cycle_cycle|]. eapply nsteps_l; [apply next_cycle_cycle|].
    eapply nsteps_l; [apply next_cycle_cycle|]. constructor.
  - vm_compute. lia.
Defined.
