(* ===== verification/Startup.v ===== *)
(** * Program start: main.go, DeriveRegion (controllers/providers/aws/utils.go) and the Kubernetes
      configuration (controllers/providers/kubernetes/utils.go)

    [main] parses the command line, builds the clients one after the other and leaves
    with os.Exit(1) at the first failure; [Boot] is what it asks of the process,
    the SDKs and the manager.  The actions it takes on them are a trace. *)
From S2P Require Import Prelude GoStrings GoTime GoFlag Common Types AwsProvider KubeProvider Metrics Registry Logging.
From S2P Require Import Env SampleEnv AwsClient KubeClient Cloud Steps Drift Uniform Targets Balloon.
From S2P Require Import Cordon Drain Replace Rotate Reconciler.

(** ** The options [main] passes on *)
Record ManagerOptions := mkManagerOptions {
  mo_MetricsAddr : string;
  mo_WebhookPort : Z;
  mo_ProbeAddr : string;
  mo_LeaderElection : bool;
  mo_LeaderElectionID : string;
  mo_Namespaces : list string;  (* Cache.DefaultNamespaces; empty for all *)
}.

Record Retryer := mkRetryer {
  rt_NumMaxRetries : Z;
  rt_MinThrottleDelay : Duration;
  rt_MaxThrottleDelay : Duration;
  rt_MinRetryDelay : Duration;
  rt_MaxRetryDelay : Duration;
}.

Record CacheConfig := mkCacheConfig {
  cc_DefaultTTL : Duration;
  cc_BackgroundPruning : Duration;
  cc_MaxItems : Z;
  cc_ItemsToPrune : Z;
  cc_TTL : list (string * string * Duration);  (* service, operation *)
}.

(** ** The process and the libraries *)
Class Boot := {
  os_Getenv : string -> string;
  ec2metadata_Region : string + error;
  user_HomeDir : string + error;
  RestConfig : Type;
  rest_InClusterConfig : RestConfig + error;
  clientcmd_BuildConfigFromFlags : string -> RestConfig + error;
  kubernetes_NewForConfig : RestConfig -> option error;
  ctrl_GetConfigOrDie : bool;  (* does it return? it exits with 1 otherwise *)
  ctrl_NewManager : ManagerOptions -> option error;
  session_NewSession : string -> Retryer -> option error;
  ctrl_Complete : Z -> option error;  (* by MaxConcurrentReconciles *)
  mgr_AddHealthzCheck : string -> option error;
  mgr_AddReadyzCheck : string -> option error;
  mgr_Start : option error;
  foreign_flags : string -> option (bool * (string -> bool));  (* zap's and the client's *)
}.

Inductive BootAction :=
| ActManager (o : ManagerOptions)
| ActSession (region : string) (r : Retryer)
| ActCache (c : CacheConfig)
| ActController (workers : Z)
| ActHealthz (name : string)
| ActReadyz (name : string)
| ActStart.

(** ** Flags *)
Record Flags := mkFlags {
  f_debug : bool;
  f_log_format : string;
  f_metrics_addr : string;
  f_probe_addr : string;
  f_enable_leader_election : bool;
  f_namespace : string;
  f_max_parallel : Z;
  f_max_api_retries : Z;
  f_drain_timeout : Z;
  f_ignore_drain_failures : bool;
  f_max_replacement_nodes : Z;
  f_early_cordon_nodes : bool;
}.

Definition default_flags : Flags :=
  mkFlags false "text" ":8080" ":8081" false "" 10 12 900 false 0 false.

(** The names of the flags. *)
Definition flag_values (f : Flags) : list (string * FlagValue) :=
  [("debug", VBool (f_debug f));
   ("log-format", VString (f_log_format f));
   ("metrics-addr", VString (f_metrics_addr f));
   ("health-probe-bind-address", VString (f_probe_addr f));
   ("enable-leader-election", VBool (f_enable_leader_election f));
   ("namespace", VString (f_namespace f));
   ("max-parallel", VInt (f_max_parallel f));
   ("max-api-retries", VInt (f_max_api_retries f));
   ("drain-timeout", VInt (f_drain_timeout f));
   ("ignore-drain-failures", VBool (f_ignore_drain_failures f));
   ("max-replacement-nodes", VInt (f_max_replacement_nodes f));
   ("early-cordon-nodes", VBool (f_early_cordon_nodes f))].

Definition formal_of (f : Flags) : gmap string FlagValue := list_to_map (flag_values f).

(** The variables the flags are bound to, after the parse. *)
Definition flags_of (m : gmap string FlagValue) : Flags :=
  let b n := match m !! n with Some (VBool b) => b | _ => false end in
  let i n := match m !! n with Some (VInt z) => z | _ => 0%Z end in
  let s n := match m !! n with Some (VString s) => s | _ => "" end in
  mkFlags (b "debug") (s "log-format") (s "metrics-addr") (s "health-probe-bind-address")
    (b "enable-leader-election") (s "namespace") (i "max-parallel") (i "max-api-retries")
    (i "drain-timeout") (b "ignore-drain-failures") (i "max-replacement-nodes") (b "early-cordon-nodes").

(** ** Clients *)
Section boot.
Context `{B : Boot}.

Definition DeriveRegion : string + error :=
  let region := os_Getenv "AWS_REGION" in
  if negb (String.eqb region "") then inl region
  else match ec2metadata_Region with
       | inr err => inr (mkError ("cannot reach ec2metadata, if running locally export AWS_REGION: "
                                  +:+ Error err) (err_not_found err))
       | inl region => inl region
       end.

Definition GetKubernetesLocalConfig : RestConfig + error :=
  let path : string + error :=
    if negb (String.eqb (os_Getenv "KUBECONFIG") "") then inl (os_Getenv "KUBECONFIG")
    else match user_HomeDir with
         | inr err => inr err
         | inl home => inl (home +:+ "/.kube/config")
         end in
  match path with
  | inr err => inr err
  | inl kubePath =>
      if String.eqb kubePath "" then inr (Errorf "failed to get kubeconfig path")
      else clientcmd_BuildConfigFromFlags kubePath
  end.

Definition GetKubernetesConfig : RestConfig + error :=
  match rest_InClusterConfig with
  | inr _ => GetKubernetesLocalConfig
  | inl config => inl config
  end.

(** Only whether a client was made matters. *)
Definition GetKubernetesClient : option error :=
  match GetKubernetesConfig with
  | inr err => Some err
  | inl config => kubernetes_NewForConfig config
  end.

(** [newLogger]: the options of the zap logger, and the formatter of the package's own. *)
Inductive ZapOption := UseDevMode | WriteToStderr | JSONEncoder.

Definition newLogger (logMode : string) (l : LogState) : list ZapOption * LogState :=
  if String.eqb logMode "json" then ([UseDevMode; WriteToStderr; JSONEncoder], SetJSONFormatter l)
  else ([UseDevMode; WriteToStderr], l).

Definition manager_options (f : Flags) : ManagerOptions :=
  mkManagerOptions (f_metrics_addr f) 9443 (f_probe_addr f) (f_enable_leader_election f)
    "d6edb06e.keikoproj.io" (if negb (String.eqb (f_namespace f) "") then [f_namespace f] else []).

Definition retryer (f : Flags) : Retryer :=
  mkRetryer (f_max_api_retries f) (5 * Second) (60 * Second) (1 * Second) (5 * Second).

Definition cache_config : CacheConfig :=
  mkCacheConfig 0 (3600 * Second) 5000 500
    [("autoscaling", "DescribeAutoScalingGroups", (60 * Second)%Z);
     ("ec2", "DescribeLaunchTemplates", (60 * Second)%Z)].

(** ** The reconciler [main] builds, in a process where nothing has happened yet *)
Section build.
Context `{E : Env}.

Definition new_reconciler (f : Flags) (w : World) (ru : RollingUpgrade) : Reconciler :=
  let r := mkReconciler _ w [] empty_metrics ∅ ∅ ∅ ∅ ∅ ∅ 0 0 (f_drain_timeout f)
             (f_ignore_drain_failures f) (f_early_cordon_nodes f) ru in
  SetMaxReplacementNodes (f_max_replacement_nodes f) (SetMaxParallel (f_max_parallel f) r).
End build.

(** The zero value of maxParallel stays when the flag is refused. *)
Definition workers (f : Flags) : Z := if (1 <=? f_max_parallel f)%Z then f_max_parallel f else 0%Z.

(** ** main *)

(** The state of the process: its log and the actions taken. *)
Record Proc := mkProc { pr_log : LogState; pr_actions : list BootAction }.

(** [inr code] is os.Exit(code). *)
Definition BM (A : Type) : Type := Proc -> (A + Z) * Proc.

#[export] Instance BM_ret : MRet BM := fun A a p => (inl a, p).
#[export] Instance BM_bind : MBind BM := fun A B f m p =>
  match m p with
  | (inl a, p') => f a p'
  | (inr code, p') => (inr code, p')
  end.

Definition exit {A} (code : Z) : BM A := fun p => (inr code, p).
Definition act (a : BootAction) : BM unit := fun p =>
  (inl tt, mkProc (pr_log p) (pr_actions p ++ [a])).
Definition upd_log (f : LogState -> LogState) : BM unit := fun p =>
  (inl tt, mkProc (f (pr_log p)) (pr_actions p)).

(** An action that may fail: the program leaves with code 1. *)
Definition try (a : BootAction) (err : option error) : BM unit :=
  act a ;;; match err with Some _ => exit 1 | None => mret tt end.

(** [flag.Parse] on the flag set that exits on an error. *)
Definition parse_flags (args : list string) : BM Flags :=
  match parse foreign_flags args (formal_of default_flags) with
  | ParsedOk m _ => mret (flags_of m)
  | HelpRequested => exit 0
  | ParseFailed _ => exit 2
  end.

(** The controller, the checks, and the manager that runs until it is stopped. *)
Definition start_manager (f : Flags) : BM unit :=
  try (ActController (workers f)) (ctrl_Complete (workers f)) ;;;
  try (ActHealthz "health") (mgr_AddHealthzCheck "health") ;;;
  try (ActReadyz "check") (mgr_AddReadyzCheck "check") ;;;
  try ActStart mgr_Start.

Definition main (args : list string) : BM unit :=
  f ← parse_flags args;
  upd_log (fun l => (newLogger (f_log_format f) l).2) ;;;
  (if ctrl_GetConfigOrDie then mret tt else exit 1) ;;;
  try (ActManager (manager_options f)) (ctrl_NewManager (manager_options f)) ;;;
  match DeriveRegion with
  | inr _ => exit 1
  | inl region =>
      (if f_debug f then upd_log (SetLevel "debug") else mret tt) ;;;
      try (ActSession region (retryer f)) (session_NewSession region (retryer f)) ;;;
      act (ActCache cache_config) ;;;
      match GetKubernetesClient with
      | Some _ => exit 1
      | None =>
          start_manager f
      end
  end.

(** The process before main. *)
Definition new_process : Proc := mkProc newLogrusLogger [].
End boot.

(** ** Specification *)

(** The steps of a start with these flags, in order: what each does, and whether it succeeds. *)
Definition succeeds (err : option error) : bool := match err with None => true | Some _ => false end.

Definition boot_steps `{B : Boot} (f : Flags) : list (list BootAction * bool) :=
  let region := match DeriveRegion with inl region => region | inr _ => "" end in
  [([], ctrl_GetConfigOrDie);
   ([ActManager (manager_options f)], succeeds (ctrl_NewManager (manager_options f)));
   ([], match DeriveRegion with inl _ => true | inr _ => false end);
   ([ActSession region (retryer f)], succeeds (session_NewSession region (retryer f)));
   ([ActCache cache_config], true);
   ([], succeeds GetKubernetesClient);
   ([ActController (workers f)], succeeds (ctrl_Complete (workers f)));
   ([ActHealthz "health"], succeeds (mgr_AddHealthzCheck "health"));
   ([ActReadyz "check"], succeeds (mgr_AddReadyzCheck "check"));
   ([ActStart], succeeds mgr_Start)].

(** After the actions [pre], a run went through these steps: all of them succeeded and it
    returned, or it exited with code 1 at the first that failed. *)
Definition runs_steps (steps : list (list BootAction * bool)) (pre : list BootAction)
    (res : (unit + Z) * Proc) : Prop :=
  (res.1 = inl tt /\ Forall (fun st => st.2 = true) steps /\
   pr_actions res.2 = pre ++ concat (map fst steps)) \/
  (exists before acts after, steps = before ++ (acts, false) :: after /\
   Forall (fun st => st.2 = true) before /\ res.1 = inr 1%Z /\
   pr_actions res.2 = pre ++ concat (map fst before) ++ acts).

(** The values a command line can carry. *)
Definition flags_in_range (f : Flags) : Prop :=
  in_int64 (f_max_parallel f) /\ in_int64 (f_max_api_retries f) /\ in_int64 (f_drain_timeout f) /\
  in_int64 (f_max_replacement_nodes f).

(** An assignment of one of the flags. *)
Definition assignment (m : gmap string FlagValue) (nv : string * FlagValue) : Prop :=
  flag_name nv.1 /\ in_range_value nv.2 /\ exists old, m !! nv.1 = Some old /\ same_type old nv.2.

(** A process in which everything succeeds, with a region in its environment. *)
#[local] Instance sample_boot : Boot := {
  os_Getenv n := if String.eqb n "AWS_REGION" then "us-west-2" else "";
  ec2metadata_Region := inr (Errorf "no metadata service");
  user_HomeDir := inl "/root";
  RestConfig := unit;
  rest_InClusterConfig := inl tt;
  clientcmd_BuildConfigFromFlags _ := inl tt;
  kubernetes_NewForConfig _ := None;
  ctrl_GetConfigOrDie := true;
  ctrl_NewManager _ := None;
  session_NewSession _ _ := None;
  ctrl_Complete _ := None;
  mgr_AddHealthzCheck _ := None;
  mgr_AddReadyzCheck _ := None;
  mgr_Start := None;
  foreign_flags _ := None;
}.

Definition sample_flags (max_parallel : Z) : Flags :=
  mkFlags true "json" ":8080" ":8081" false "kube-system" max_parallel 12 (-1) true 5 false.

(** ** Lemmas *)
Lemma same_type_trans (u v w : FlagValue) : same_type u v -> same_type u w -> same_type v w.
Proof. by destruct u, v, w. Qed.

Lemma parse_assignments (foreign : string -> option (bool * (string -> bool)))
    (l : list (string * FlagValue)) (m : gmap string FlagValue) :
  Forall (assignment m) l ->
  parse foreign (map render l) m = ParsedOk (foldl (fun m nv => <[nv.1 := nv.2]> m) m l) [].
Proof.
  revert m. induction l as [|[n v] l IH]; intros m; [done|]. intros [(Hn & Hr & old & Ho & Ht) HF]%Forall_cons.
  cbn [map foldl fst snd] in *. rewrite (parse_render _ _ old) by done. apply IH.
  eapply Forall_impl; [exact HF|]. intros [k x] (Hk & Hx & old' & Ho' & Ht'). split; [done|]. split; [done|].
  cbn in *. destruct (decide (k = n)) as [->|Hne].
  - exists v. rewrite lookup_insert_eq. split; [done|]. rewrite Ho in Ho'. injection Ho' as <-.
    by apply (same_type_trans old).
  - exists old'. by rewrite lookup_insert_ne.
Qed.

Lemma foldl_assign_other (l : list (string * FlagValue)) (m : gmap string FlagValue) (n : string) :
  n ∉ l.*1 -> foldl (fun m nv => <[nv.1 := nv.2]> m) m l !! n = m !! n.
Proof.
  revert m. induction l as [|[k x] l IH]; intros m Hn; [done|]. cbn in *.
  apply not_elem_of_cons in Hn as [Hne Hn]. rewrite IH by done. by rewrite lookup_insert_ne.
Qed.

Lemma foldl_assign (l : list (string * FlagValue)) (m : gmap string FlagValue) (n : string) (v : FlagValue) :
  NoDup l.*1 -> (n, v) ∈ l -> foldl (fun m nv => <[nv.1 := nv.2]> m) m l !! n = Some v.
Proof.
  revert m. induction l as [|[k x] l IH]; intros m; [by intros _ ?%not_elem_of_nil|].
  cbn. intros [Hk HD]%NoDup_cons [[= -> ->]|Hin]%elem_of_cons; [|by apply IH].
  rewrite foldl_assign_other by done. apply lookup_insert_eq.
Qed.

(** The flags of [main] can be written on a command line, each with its type. *)
Lemma flag_values_assignments (f : Flags) :
  flags_in_range f -> Forall (assignment (formal_of default_flags)) (flag_values f).
Proof.
  intros (H1 & H2 & H3 & H4). repeat (apply Forall_cons; split); try apply Forall_nil_2;
    (split; [by cbn|]); (split; [done|]); (eexists; split; [vm_compute; reflexivity|done]).
Qed.

Lemma flag_values_nodup (f : Flags) : NoDup (flag_values f).*1.
Proof. cbn. by apply (bool_decide_unpack _). Qed.

(** Reading every variable back. *)
Lemma flags_of_values (f : Flags) (m : gmap string FlagValue) :
  (forall n v, (n, v) ∈ flag_values f -> m !! n = Some v) -> flags_of m = f.
Proof.
  intros H. unfold flags_of.
  rewrite (H "debug" (VBool (f_debug f))), (H "log-format" (VString (f_log_format f))),
    (H "metrics-addr" (VString (f_metrics_addr f))), (H "health-probe-bind-address" (VString (f_probe_addr f))),
    (H "enable-leader-election" (VBool (f_enable_leader_election f))), (H "namespace" (VString (f_namespace f))),
    (H "max-parallel" (VInt (f_max_parallel f))), (H "max-api-retries" (VInt (f_max_api_retries f))),
    (H "drain-timeout" (VInt (f_drain_timeout f))),
    (H "ignore-drain-failures" (VBool (f_ignore_drain_failures f))),
    (H "max-replacement-nodes" (VInt (f_max_replacement_nodes f))),
    (H "early-cordon-nodes" (VBool (f_early_cordon_nodes f))) by (unfold flag_values; set_solver).
  by destruct f.
Qed.

(** *** The actions of main *)
Section boot_lemmas.
Context `{B : Boot}.

Lemma BM_bind_inl {A C} (m : BM A) (f : A -> BM C) (p p' : Proc) (a : A) :
  m p = (inl a, p') -> (m ≫= f) p = f a p'.
Proof. intros H. unfold mbind, BM_bind. by rewrite H. Qed.

Lemma BM_bind_inr {A C} (m : BM A) (f : A -> BM C) (p p' : Proc) (code : Z) :
  m p = (inr code, p') -> (m ≫= f) p = (inr code, p').
Proof. intros H. unfold mbind, BM_bind. by rewrite H. Qed.

(** One step, and the rest. *)
Lemma runs_step (acts : list BootAction) (steps : list (list BootAction * bool)) (pre : list BootAction)
    (res : (unit + Z) * Proc) :
  runs_steps steps (pre ++ acts) res -> runs_steps ((acts, true) :: steps) pre res.
Proof.
  intros [(H1 & H2 & H3)|(before & last & after & -> & H2 & H1 & H3)].
  - left. split; [done|]. split; [by constructor|]. rewrite H3. cbn. by rewrite <- app_assoc.
  - right. exists ((acts, true) :: before), last, after. split; [done|]. split; [by constructor|].
    split; [done|]. rewrite H3. cbn. by rewrite <- !app_assoc.
Qed.

Lemma runs_stop (acts : list BootAction) (steps : list (list BootAction * bool)) (pre : list BootAction) (log : LogState) :
  runs_steps ((acts, false) :: steps) pre (inr 1%Z, mkProc log (pre ++ acts)).
Proof. right. by exists [], acts, steps. Qed.

Lemma try_runs (a : BootAction) (err : option error) (f : unit -> BM unit) (log : LogState) (pre : list BootAction)
    (steps : list (list BootAction * bool)) :
  runs_steps steps (pre ++ [a]) (f tt (mkProc log (pre ++ [a]))) ->
  runs_steps (([a], succeeds err) :: steps) pre ((try a err ≫= f) (mkProc log pre)).
Proof. intros H. destruct err as [e|]; [apply runs_stop|by apply runs_step]. Qed.

Lemma check_runs (b : bool) (f : unit -> BM unit) (log : LogState) (pre : list BootAction)
    (steps : list (list BootAction * bool)) :
  runs_steps steps pre (f tt (mkProc log pre)) ->
  runs_steps (([], b) :: steps) pre (((if b then mret tt else exit 1) ≫= f) (mkProc log pre)).
Proof.
  intros H. destruct b; [apply runs_step; by rewrite app_nil_r|].
  pose proof (runs_stop [] steps pre log) as HS. by rewrite app_nil_r in HS.
Qed.

Lemma start_manager_runs (f : Flags) (log : LogState) (pre : list BootAction) :
  runs_steps (drop 6 (boot_steps f)) pre (start_manager f (mkProc log pre)).
Proof.
  unfold start_manager. cbn [drop boot_steps].
  do 3 apply try_runs. unfold try, act, mbind, BM_bind. cbn.
  destruct mgr_Start as [e|]; [apply runs_stop|]. apply runs_step. left. split; [done|]. split; [done|].
  cbn. by rewrite app_nil_r.
Qed.

(** The flags reach the reconciler; a limit below one does not. *)
Lemma new_reconciler_limits `{E : Env} (f : Flags) (w : World) (ru : RollingUpgrade) :
  rc_maxParallel (new_reconciler f w ru) = workers f /\
  rc_MaxReplacementNodes (new_reconciler f w ru)
    = (if (1 <=? f_max_replacement_nodes f)%Z then f_max_replacement_nodes f else 0)%Z /\
  rc_AdmissionMap (new_reconciler f w ru) = ∅ /\ rc_calls (new_reconciler f w ru) = [].
Proof.
  unfold new_reconciler, SetMaxReplacementNodes, SetMaxParallel, workers.
  by destruct (1 <=? f_max_parallel f)%Z, (1 <=? f_max_replacement_nodes f)%Z.
Qed.

(** The error for an empty path cannot occur: the path is not empty. *)
Lemma kubeconfig_path :
  GetKubernetesLocalConfig <> inr (Errorf "failed to get kubeconfig path") \/
  (exists p, clientcmd_BuildConfigFromFlags p = inr (Errorf "failed to get kubeconfig path")) \/
  user_HomeDir = inr (Errorf "failed to get kubeconfig path").
Proof.
  unfold GetKubernetesLocalConfig. destruct (String.eqb (os_Getenv "KUBECONFIG") "") eqn:Ek; cbn [negb].
  - destruct user_HomeDir as [home|err] eqn:Eh.
    + destruct (String.eqb (home +:+ "/.kube/config") "") eqn:Ep.
      * apply String.eqb_eq in Ep. by destruct home.
      * destruct (clientcmd_BuildConfigFromFlags (home +:+ "/.kube/config")) as [c|e] eqn:Ec; [by left|].
        destruct (decide (e = Errorf "failed to get kubeconfig path")) as [->|Hne]; [|left; congruence].
        right. left. by exists (home +:+ "/.kube/config").
    + destruct (decide (err = Errorf "failed to get kubeconfig path")) as [->|Hne]; [|left; congruence].
      right. by right.
  - rewrite Ek. destruct (clientcmd_BuildConfigFromFlags (os_Getenv "KUBECONFIG")) as [c|e] eqn:Ec; [by left|].
    destruct (decide (e = Errorf "failed to get kubeconfig path")) as [->|Hne]; [|left; congruence].
    right. left. by eexists.
Qed.
End boot_lemmas.

(** *** A controller that admits nothing *)
Section idle.
Context `{E : Env}.

Lemma admission_step_idle (mp : Z) (m m' : gmap string string) :
  (mp <= 0)%Z -> nothing_running -> admission_step mp m m' -> m = ∅ -> m' = ∅.
Proof.
  intros Hmp HN [m0 name|items w w' Hl|m0 name asg _ Hs _].
  - intros ->. apply delete_empty.
  - intros _. destruct (HN w) as (items' & w'' & Hl' & Hr). rewrite Hl in Hl'. by injection Hl' as <- _.
  - intros _. exfalso. lia.
Qed.

Lemma admission_steps_idle (mp : Z) (m m' : gmap string string) :
  (mp <= 0)%Z -> nothing_running -> rtc (admission_step mp) m m' -> m = ∅ -> m' = ∅.
Proof.
  intros Hmp HN HS. induction HS as [m|m1 m2 m3 H1 _ IH]; [done|]. intros He.
  apply IH. by apply (admission_step_idle mp m1).
Qed.

Lemma map_node_event_calls (obj : WatchedObject) : preserves (keeps rc_calls) (map_node_event obj).
Proof. unfold map_node_event, UpdateFunc, CreateFunc, DeleteFunc, GenericFunc. frame; by intros r. Qed.

Lemma controller_idle (r r' : Reconciler) :
  (rc_maxParallel r <= 0)%Z -> nothing_running -> controller_step r r' ->
  rc_AdmissionMap r = ∅ -> rc_AdmissionMap r' = ∅ /\ rc_emits bookkeeping r r'.
Proof.
  intros Hmp HN HS He. pose proof (controller_step_admits r r' HS) as [HA _].
  assert (rc_AdmissionMap r' = ∅) as He' by (by apply (admission_steps_idle _ _ _ Hmp HN HA)).
  split; [done|]. destruct HS as [req r|obj r|w r].
  - destruct (Reconcile_rotates req r) as [H|(ru & w & _ & _ & _ & [[v Hv] _])]; [done|].
    by rewrite He', lookup_empty in Hv.
  - exists []. rewrite app_nil_r. split; [apply map_node_event_calls|done].
  - exists []. by rewrite app_nil_r.
Qed.
End idle.

(** ** Before main: the init function of main.go

    The types are added to the scheme by the libraries; what is left is that a failure panics. *)
Definition Must (err : option error) : outcome unit :=
  match err with None => Val tt | Some _ => Panic end.

Definition init `{R : Registry} (clientgo_AddToScheme upgrademgr_AddToScheme : option error) (r : RegistryState)
  : outcome Prom :=
  Must clientgo_AddToScheme ≫= fun _ =>
  Must upgrademgr_AddToScheme ≫= fun _ =>
  InitMetrics (package_vars r).

(** ** Theorems *)
Section startup_theorems.
Context `{B : Boot}.

(** C30: a command line that sets every flag of the program once, in any
    order, is read back as exactly those values. *)
Theorem flags_roundtrip (f : Flags) (l : list (string * FlagValue)) (p : Proc) :
  flags_in_range f -> l ≡ₚ flag_values f -> parse_flags (map render l) p = (inl f, p).
Proof.
  intros Hf HP. unfold parse_flags. rewrite parse_assignments.
  - rewrite (flags_of_values f); [done|]. intros n v Hin. apply foldl_assign; [|by rewrite HP].
    rewrite HP. apply flag_values_nodup.
  - rewrite HP. by apply flag_values_assignments.
Qed.

(** C31: what main does is determined by the command line and by
    the first step of the start that fails.  A request for help ends it with code 0 and a bad command
    line with code 2, before anything is done; otherwise, with the parsed flags, the steps of the start are
    done in order: if all succeed main returns after all of their actions, and if one fails main exits
    with code 1 after the actions of the steps before it and of that step, and of no later one. *)
Theorem main_stops_at_failure (args : list string) :
  match parse foreign_flags args (formal_of default_flags) with
  | HelpRequested => main args new_process = (inr 0%Z, new_process)
  | ParseFailed _ => main args new_process = (inr 2%Z, new_process)
  | ParsedOk m _ => runs_steps (boot_steps (flags_of m)) [] (main args new_process)
  end.
Proof.
  unfold main, parse_flags. destruct (parse _ _ _) as [m rest| |]; [|done..].
  rewrite (BM_bind_inl _ _ _ _ (flags_of m)) by reflexivity. set (f := flags_of m).
  rewrite (BM_bind_inl _ _ _ _ tt) by reflexivity. unfold new_process. cbn [pr_actions pr_log].
  pose proof (start_manager_runs f) as HM. cbn [drop boot_steps] in HM. unfold boot_steps.
  apply check_runs, try_runs. cbn [app].
  destruct DeriveRegion as [region|e]; [|apply runs_stop]. apply runs_step. cbn [app].
  destruct (f_debug f); rewrite (BM_bind_inl _ _ _ _ tt) by reflexivity; unfold upd_log; cbn [pr_actions pr_log];
    apply try_runs; rewrite (BM_bind_inl _ _ _ _ tt) by reflexivity; apply runs_step; cbn [pr_actions pr_log app];
    (destruct GetKubernetesClient as [e|]; [apply runs_stop|apply runs_step, HM]).
Qed.
End startup_theorems.

(** SetMaxParallel ignores a limit below one, and there is no
    other default: a controller started with --max-parallel=0 (or negative) never
    admits a resource and never does more than bookkeeping, in every state it reaches
    while no resource is running; every resource is requeued forever. *)
Theorem refused_limit_admits_nothing `{E : Env} (f : Flags) (w : World) (ru : RollingUpgrade) (r : Reconciler) :
  (f_max_parallel f < 1)%Z -> nothing_running -> rtc controller_step (new_reconciler f w ru) r ->
  rc_AdmissionMap r = ∅ /\ Forall bookkeeping (rc_calls r).
Proof.
  intros Hf HN HS. destruct (new_reconciler_limits f w ru) as (Hw & _ & Hm & Hc).
  assert (rc_maxParallel (new_reconciler f w ru) <= 0)%Z as Hmp.
  { rewrite Hw. unfold workers. rewrite (proj2 (Z.leb_gt _ _)) by lia. lia. }
  assert (Forall bookkeeping (rc_calls (new_reconciler f w ru))) as HF by (rewrite Hc; constructor).
  clear Hw Hc. induction HS as [r|r1 r2 r3 H1 _ IH]; [done|].
  destruct (controller_idle r1 r2 Hmp HN H1 Hm) as [Hm2 (new & Hn & HFn)].
  apply controller_step_admits in H1 as [_ Hp]. apply IH; [done|lia|].
  rewrite Hn. by apply Forall_app.
Qed.

(** ** Witnesses *)
Lemma flags_roundtrip_witness :
  @parse_flags sample_boot (map render (reverse (flag_values (sample_flags 3)))) new_process
  = (inl (sample_flags 3), new_process).
Proof.
  apply (@flags_roundtrip sample_boot (sample_flags 3)); [|apply reverse_Permutation].
  repeat split; vm_compute; discriminate.
Defined.

Lemma refused_limit_admits_nothing_witness :
  let E := sample_env upgrades_scenario in
  let r := (@Reconcile E "default/waiting" (@new_reconciler E (sample_flags 0) 1000%Z (named_upgrade "" ""))).2 in
  rc_AdmissionMap r = ∅ /\ Forall bookkeeping (rc_calls r).
Proof.
  intros E r.
  apply (@refused_limit_admits_nothing E (sample_flags 0) 1000%Z (named_upgrade "" "") r).
  - reflexivity.
  - intros w. by exists (sc_upgrades upgrades_scenario), w.
  - apply rtc_once, (@StepReconcile E).
Defined.
